(* ===== verification/_CoqProject ===== *)
-Q . S2P
Prelude.v
Codec.v
Types.v
Merkle.v
Compact.v
Float64.v
Difficulty.v
Validation.v
Vec.v
ScriptNum.v
Signature.v
Engine.v
EngineSafety.v
ScriptVerify.v
Database.v
Coin.v
UndoStore.v
Ledger.v
Chainstate.v
ChainstateCorrect.v
Pow.v
HashOrder.v
Mempool.v
MempoolCorrect.v
Headers.v
HeadersCorrect.v
BlockStore.v
Reorg.v
ReorgCorrect.v
Network.v
Messages.v
BlockDownload.v
BlockDownloadCorrect.v
BlockDownloadSafety.v
NodeParts.v
NodeHistory.v
NodeTypes.v
PeerTable.v
Handlers.v
PeerTableCorrect.v
HandlersCorrect.v
Serving.v
Connections.v
ConnectionsCorrect.v
HeaderDb.v
Files.v
Startup.v
Text.v
Ui.v
UiCorrect.v
