(* ===== verification/Prelude.v ===== *)
(** * Ironcat: a verification development for the Catcoin full node

    Ironcat (src/) is a full node for the Catcoin chain, written in Rust.  It keeps
    a tree of block headers, downloads and validates the blocks of the branch with
    the most work, maintains the set of unspent outputs, holds unconfirmed
    transactions in a pool, and talks to its peers in the Bitcoin wire protocol.
    The development models these parts as Rocq functions that follow the source
    operation by operation, and proves the properties that make them correct.

    ** How the parts fit together

    A peer's byte stream is cut into messages (Network), whose payloads are parsed
    (Messages, Types).  Headers go to the header store (Headers), which checks
    difficulty (Difficulty, Compact, Float64) and proof of work (Pow).  The download
    manager (BlockDownload) asks peers for the blocks of the active chain,
    validates them (Merkle, Validation) and connects them in order to the chain state
    (Chainstate), which verifies scripts (Engine, ScriptVerify, Signature, ScriptNum),
    updates the table of unspent outputs (Coin, Database) and writes an undo record
    (UndoStore); the block itself goes to the block store (BlockStore).  When a fork
    overtakes the active chain, Reorg disconnects blocks with their undo records,
    connects those of the fork, and moves transactions between chain and pool
    (Mempool).

    The peers are kept in a table (PeerTable).  A connection task reads its socket and
    calls the handler of each message (Connections, Handlers), which
    works on the table and on the components above.  At the start the
    node reads its headers back (HeaderDb), loads bans and peers (Files) and looks
    for peers; a task announces the transactions of the pool (Startup).  The terminal
    interface shows the tables, the pool and the log (Text, Ui).

    ** Files and sources

    - Prelude: outcomes ([res]: a value, an error or a panic), machine integers,
      lists, tactics and hints.  Vec: vectors of the script engine.
    - Codec: cursors and variable-length integers (network.rs); the class of codecs.
    - Types, Merkle: types/.  Compact, Float64, Difficulty: difficulty/.
    - Validation: validation/.
    - ScriptNum, Signature, Engine, EngineSafety, ScriptVerify: script/.
    - Database: the interface to the redb database.  Coin, UndoStore, Ledger,
      Chainstate, ChainstateCorrect: chainstate/ (Ledger is the abstract
      specification, ChainstateCorrect the refinement).
    - Pow: pow/.  HashOrder: iteration order of hash maps, a parameter.
    - Mempool, MempoolCorrect: mempool/.
    - Headers, HeadersCorrect: headers.rs, storage/header_store_backend.rs.
    - BlockStore: storage/block_store.rs.
    - Reorg, ReorgCorrect: reorg.rs.
    - Network, Messages: network.rs and network/.
    - BlockDownload, BlockDownloadCorrect, BlockDownloadSafety:
      nodes/block_download.rs and the timeout strikes of nodes/mod.rs.
    - NodeParts, NodeHistory: the parts that hold the chain (headers, chain state,
      block store, download window, reorganisation and the notices of it that wait for the
      download manager) as one machine, and its history.  NodeTypes: the widths of its numbers.
    - PeerTable, PeerTableCorrect: the peer table and its state machine
      (nodes/mod.rs), address classes (utils.rs).
    - Handlers, HandlersCorrect, Serving: the message handlers (nodes/handler_*.rs)
      and the dispatch (nodes/mod.rs); Serving is about the answers to requests.
    - Connections, ConnectionsCorrect: connection tasks and listener (nodes/mod.rs,
      network.rs).
    - HeaderDb: storage/header_store_redb.rs.  Files: storage/mod.rs, storage/peers.rs,
      storage/bans.rs.  Startup: main.rs, dns.rs, cli.rs.
    - Text: the texts of numbers, amounts, times and difficulties (ui/, difficulty/mod.rs,
      chainstate/mod.rs).  Ui, UiCorrect: ui/, tui_layer.rs, the statistics of the pool and the
      names of states and errors.

    A [Record] stands for each struct and an [Inductive] type for each enum; methods
    with [&mut self] take the old state and return the new one; [Result] is [res],
    where [Panic] is a panic (an index out of range, a failed unwrap, arithmetic
    overflow).  Where an error returns with a partly changed state (Reorg, the
    download manager, the handlers) the outcome carries the state; a handler can
    also wait forever for the lock of the header store ([Stuck]).  Integers are [Z] with the
    width written out at each operation that can wrap, saturate or overflow.

    ** Parameters

    SHA-256, RIPEMD-160 and SHA-1, the elliptic curve (crate k256), overflow of the
    crate uint, the database tables, the header backend, the iteration order of
    hash maps, the clock, random numbers, the serializer of saved files (crate rkyv), the
    hash that selects relay peers (crate siphasher), name servers, the
    areas of the terminal library (crate ratatui), and the outcome of
    sends, connection attempts and lock attempts are arguments of the model.  What is needed of them is a class of laws ([Sha256Len],
    [TableLaws], [HashOrderLaws], [CoinViewLaws] and so on), each with a concrete
    instance on which the witnesses compute.

    ** What the theorems show

    - Ledger: connecting a block succeeds exactly when the ledger rules allow it and
      implements the transition on the tables; disconnecting restores the ledger (where no
      transaction identifier is reused) and sets the tip to the parent; the money supply is
      bounded; undo records survive rotation into files that are empty.
    - Reorganisation: it either changes nothing, or switches to the branch with the
      most work, or fails, with the ledger, tip and headers restored if a block was refused
      and without a rollback if one could not be read.
    - Node: from the genesis on, through any run of header batches, received blocks,
      timeouts, reorganisations and notices, the chain state is the ledger of the blocks of the
      active chain up to its tip.  The run has to be orderly: no block is handled between a
      reorganisation and its notice, no purge orphans a header, hashes identify what they
      are the hash of, and identifiers of transactions are not reused; the comment of the
      theorem lists all conditions.  Without any condition heights, file numbers, offsets,
      sizes and coins keep their widths.
    - Headers: any sequence of operations keeps a well-formed tree with the heaviest
      branch as candidate, up to a purge that orphans a header; batches are sequences of
      single additions; the fork point is the lowest common ancestor; a fork is judged by
      its own ancestors.
    - Pool: conflict-free, anchored in the ledger, within its size; acceptance and
      block removal are characterised exactly; re-adding ends.
    - Scripts: execution is total and within limits; the standard output types succeed
      exactly when keys and signatures match; signature hashes commit to what they
      should.
    - Consensus numbers: targets and work; every retarget stays well-formed, but for the
      CIP01 product, which overflows exactly when it exceeds 256 bits; LWMA
      matches its definition; scrypt matches RFC 7914.
    - Wire: parsers accept exactly the encodings, never panic, and the stream of a
      connection with messages of a size that is always accepted yields the same messages
      however it is cut; the merkle root commits to the transactions as far as the strings
      hashed for them do not collide.
    - Download: the window stays within its limits and no height is lost but those passed
      over when no peer could be asked; its loops end.
    - Peers: the table stays within its limits through any interleaving of messages,
      connections and scans; nothing but the handshake is heard before it is complete;
      the read loop hands the handlers exactly the messages of the stream;
      requests for headers and data are answered as they should; a
      transaction is announced once to each peer; the listener keeps its rate.
    - Restart: headers and invalid chains are read back as they were; saved files
      are the old or the new ones at every moment the process may stop; bans stay in force.
    - Interface: the log tab shows the last lines that arrived, as many as fit, the peer list is sorted by
      state and height, a line has the message and the fields of its event, the bar is full
      exactly at the tip; statistics and recent entries are those of the pool.
    - Findings: a property of kind error, bounds or liveness may state what the
      code does against its intention; these are listed in the manifest.

    ** Fuel

    A loop that is not structural has a number of turns as argument, and either a
    theorem that the bound suffices (merkle levels: the number of hashes; the script
    interpreter: the length of the script; walks along parent links: the number of
    headers; descendants in the pool: transactions and edges; the download loops:
    waiting blocks and the distance to the header tip; the headers of an answer: the
    active chain; the messages of a read: the queue) or, in the definition,
    an explicit failure value that the theorems exclude.

    ** Not modelled

    The command line parser and the rotation of log files (crates clap and
    tracing_appender), the drawing of a widget in its area and the colours of borders and
    headings (crate ratatui), the log messages themselves, and input/output errors of the
    database.  A handler runs without interruption: interleavings of handlers are
    sequences of whole handlers, and of all locks only that of the header store, which
    a handler takes twice, is part of the state.  In the machines of NodeHistory and
    BlockDownloadSafety a reorganisation and the handling of its notice by the download manager are
    separate steps; the theorems on the ledger and the window exclude that a block
    is handled between them, and what happens then is a finding of its own
    ([connected_whatever_parent]).  Loss of power: a crash in Files stops the process, not the
    disk.
*)
From Stdlib Require Import Strings.Byte.
From stdpp Require Import base numbers list strings gmap.

#[global] Open Scope Z_scope.

(** ** Outcomes

    A Rust function that returns [Result<T>] ends in a value, in an error or
    in a panic.  [res] has one constructor for each. *)
Inductive res (E A : Type) : Type :=
| Ok (a : A)
| Err (e : E)
| Panic.
Arguments Ok {E A} a.
Arguments Err {E A} e.
Arguments Panic {E A}.

(** [anyhow::Result<T>]: the error is represented by the outermost message of
    its context chain, without the numbers interpolated into it. *)
Abbreviation result A := (res string A).

#[global] Instance res_ret E : MRet (res E) := fun A a => Ok a.
#[global] Instance res_bind E : MBind (res E) := fun A B f r =>
  match r with
  | Ok a => f a
  | Err e => Err e
  | Panic => Panic
  end.
#[global] Instance res_fmap E : FMap (res E) := fun A B f r =>
  match r with
  | Ok a => Ok (f a)
  | Err e => Err e
  | Panic => Panic
  end.

(** [.context(msg)] replaces the message shown for the error. *)
Definition context {A} (msg : string) (r : result A) : result A :=
  match r with
  | Ok a => Ok a
  | Err _ => Err msg
  | Panic => Panic
  end.

(** [r.is_ok()] *)
Definition is_ok {E A} (r : res E A) : bool :=
  match r with
  | Ok _ => true
  | _ => false
  end.

(** [.map_err(f)] *)
Definition map_err {E F A} (f : E -> F) (r : res E A) : res F A :=
  match r with
  | Ok a => Ok a
  | Err e => Err (f e)
  | Panic => Panic
  end.

(** [opt.ok_or(e)] *)
Definition ok_or {E A} (e : E) (o : option A) : res E A :=
  match o with
  | Some a => Ok a
  | None => Err e
  end.

(** An operation whose failure is a panic: indexing a slice, or an unchecked
    arithmetic operator whose result does not fit (a build without overflow
    checks wraps instead; the theorems show where this cannot happen). *)
Definition or_panic {E A} (o : option A) : res E A :=
  match o with
  | Some a => Ok a
  | None => Panic
  end.

Declare Scope ironcat_scope.
Delimit Scope ironcat_scope with ironcat.
Notation "'ensure' b 'else' e ;; k" := (if b then k else Err e)
  (at level 100, b at level 99, e at level 99, k at level 200, right associativity,
   format "'[v' 'ensure'  b  'else'  e  ;; '/' k ']'") : ironcat_scope.
#[global] Open Scope ironcat_scope.

(** ** Bytes

    [u8] is the type [byte] of 256 constructors; [b2z] and [z2b] are the
    conversions [u8 as _] and [_ as u8] (the latter keeps the low 8 bits). *)
Definition b2z (b : byte) : Z := Z.of_N (Byte.to_N b).

Definition z2b (z : Z) : byte :=
  match Byte.of_N (Z.to_N (z mod 256)) with
  | Some b => b
  | None => x00
  end.

#[global] Instance byte_eq_dec : EqDecision byte := Byte.byte_eq_dec.

#[global] Program Instance byte_countable : Countable byte :=
  inj_countable Byte.to_N Byte.of_N _.
Next Obligation. intros b. apply Byte.of_to_N. Qed.

(** ** Machine integers

    A [w]-bit unsigned integer is a [Z] in [[0, 2^w)], a signed one a [Z] in
    [[-2^(w-1), 2^(w-1))]. *)
Definition U (w z : Z) : Prop := 0 <= z < 2 ^ w.
Definition I (w z : Z) : Prop := - 2 ^ (w - 1) <= z < 2 ^ (w - 1).

Definition inU (w z : Z) : bool := (0 <=? z) && (z <? 2 ^ w).
Definition inI (w z : Z) : bool := (- 2 ^ (w - 1) <=? z) && (z <? 2 ^ (w - 1)).

(** two's complement reading of a [w]-bit pattern *)
Definition to_signed (w z : Z) : Z := if z <? 2 ^ (w - 1) then z else z - 2 ^ w.

Definition u32_max : Z := 2 ^ 32 - 1.
Definition i64_max : Z := 2 ^ 63 - 1.
Definition i64_min : Z := - 2 ^ 63.
Definition u64_max : Z := 2 ^ 64 - 1.

(** [i64::checked_add] and friends *)
Definition i64_checked (z : Z) : option Z := if inI 64 z then Some z else None.
Definition i64_checked_add (a b : Z) : option Z := i64_checked (a + b).
Definition i64_checked_sub (a b : Z) : option Z := i64_checked (a - b).

(** saturating arithmetic *)
Definition sat_sub (a b : Z) : Z := Z.max 0 (a - b).
Definition u32_sat_add (a b : Z) : Z := Z.min u32_max (a + b).
Definition i64_sat_add (a b : Z) : Z := Z.max i64_min (Z.min i64_max (a + b)).
Definition clampz (x lo hi : Z) : Z := Z.max lo (Z.min x hi).

(** unchecked [u32] operators: out of range is a panic *)
Definition u32_add {E} (a b : Z) : res E Z := or_panic (if inU 32 (a + b) then Some (a + b) else None).
Definition u32_sub {E} (a b : Z) : res E Z := or_panic (if inU 32 (a - b) then Some (a - b) else None).

(** unchecked [i64] operators *)
Definition i64_op {E} (z : Z) : res E Z := or_panic (i64_checked z).

(** little-endian byte strings: [to_le_bytes] and [from_le_bytes] *)
Fixpoint le_bytes (n : nat) (z : Z) : list byte :=
  match n with
  | O => []
  | S n => z2b z :: le_bytes n (z / 256)
  end.

Fixpoint le_val (l : list byte) : Z :=
  match l with
  | [] => 0
  | b :: l => b2z b + 256 * le_val l
  end.

(** minimal little-endian digits: [while val > 0 { push(val & 0xff); val >>= 8 }] *)
Fixpoint min_le_bytes (fuel : nat) (val : Z) : list byte :=
  match fuel with
  | O => []
  | S fuel => if val >? 0 then z2b (Z.land val 0xff) :: min_le_bytes fuel (Z.shiftr val 8) else []
  end.

(** ** Lists *)

(** [iter().sum()] over integers *)
Definition zsum (l : list Z) : Z := foldr Z.add 0 l.

(** length of a vector as an integer *)
Definition zlen {A} (l : list A) : Z := Z.of_nat (length l).

(** [v.iter().try_fold(0, i64::checked_add)] *)
Fixpoint try_sum (acc : Z) (l : list Z) : option Z :=
  match l with
  | [] => Some acc
  | x :: l => match i64_checked_add acc x with
              | Some acc => try_sum acc l
              | None => None
              end
  end.

(** run an effectful body over a list, threading an accumulator *)
Fixpoint fold_res {E A S} (f : S -> A -> res E S) (s : S) (l : list A) : res E S :=
  match l with
  | [] => Ok s
  | a :: l => match f s a with
              | Ok s => fold_res f s l
              | Err e => Err e
              | Panic => Panic
              end
  end.

(** ** Automation *)

Create HintDb ironcat discriminated.
Create HintDb bytes discriminated.

(** split one [match]/[if] scrutinee of the goal or of a hypothesis *)
Ltac destr_match :=
  match goal with
  | H : context [match ?x with _ => _ end] |- _ =>
    lazymatch x with context [match _ with _ => _ end] => fail | _ => destruct x eqn:? end
  | |- context [match ?x with _ => _ end] =>
    lazymatch x with context [match _ with _ => _ end] => fail | _ => destruct x eqn:? end
  end.

(** split the scrutinees of one hypothesis, keeping the live branches *)
Ltac crush_match_in H :=
  repeat (match type of H with
          | context [match ?x with _ => _ end] =>
            lazymatch x with context [match _ with _ => _ end] => fail
            | _ => destruct x eqn:? end
          end; try discriminate H).

(** turn boolean tests in the context into propositions *)
Ltac bool_prop :=
  repeat match goal with
  | H : _ && _ = true |- _ => apply andb_true_iff in H as [? ?]
  | H : _ && _ = false |- _ => apply andb_false_iff in H
  | H : _ || _ = true |- _ => apply orb_true_iff in H
  | H : _ || _ = false |- _ => apply orb_false_iff in H as [? ?]
  | H : negb _ = true |- _ => apply negb_true_iff in H
  | H : negb _ = false |- _ => apply negb_false_iff in H
  | H : (_ <? _) = true |- _ => apply Z.ltb_lt in H
  | H : (_ <? _) = false |- _ => apply Z.ltb_ge in H
  | H : (_ <=? _) = true |- _ => apply Z.leb_le in H
  | H : (_ <=? _) = false |- _ => apply Z.leb_gt in H
  | H : (_ >? _) = true |- _ => rewrite Z.gtb_ltb in H
  | H : (_ >? _) = false |- _ => rewrite Z.gtb_ltb in H
  | H : (_ >=? _) = true |- _ => rewrite Z.geb_leb in H
  | H : (_ >=? _) = false |- _ => rewrite Z.geb_leb in H
  | H : (_ =? _) = true |- _ => apply Z.eqb_eq in H
  | H : (_ =? _) = false |- _ => apply Z.eqb_neq in H
  | H : bool_decide _ = true |- _ => apply bool_decide_eq_true in H
  | H : bool_decide _ = false |- _ => apply bool_decide_eq_false in H
  end.

(** expose powers of two of literal exponents to [lia] *)
Ltac is_lit n :=
  lazymatch n with
  | Z0 => idtac
  | Zpos ?p => is_closed_pos p
  | ?a - ?b => is_lit a; is_lit b
  end
with is_closed_pos p :=
  lazymatch p with
  | xH => idtac
  | xO ?q => is_closed_pos q
  | xI ?q => is_closed_pos q
  end.

Ltac pow2 :=
  repeat match goal with
  | H : context [2 ^ ?n] |- _ =>
    is_lit n; let v := eval vm_compute in (2 ^ n) in change (2 ^ n) with v in H
  | |- context [2 ^ ?n] =>
    is_lit n; let v := eval vm_compute in (2 ^ n) in change (2 ^ n) with v
  end.

(** range side conditions on machine integers *)
Ltac range := unfold U, I, u32_max, i64_max, i64_min, u64_max in *; pow2; lia.

(** ** Generic lemmas *)

Lemma res_bind_Ok {E A B} (r : res E A) (f : A -> res E B) b :
  r ≫= f = Ok b <-> exists a, r = Ok a /\ f a = Ok b.
Proof. destruct r; cbn; naive_solver. Qed.

Lemma is_ok_Ok {E A} (r : res E A) : is_ok r = true -> exists a, r = Ok a.
Proof. destruct r; [by eexists|done|done]. Qed.

Lemma context_Ok {A} msg (r : result A) a : context msg r = Ok a <-> r = Ok a.
Proof. destruct r; cbn; naive_solver. Qed.

Lemma ok_or_Ok {E A} (e : E) (o : option A) a : ok_or e o = Ok a <-> o = Some a.
Proof. destruct o; cbn; naive_solver. Qed.

Lemma or_panic_Ok {E A} (o : option A) a : @or_panic E A o = Ok a <-> o = Some a.
Proof. destruct o; cbn; naive_solver. Qed.

Lemma inU_spec w z : inU w z = true <-> U w z.
Proof. unfold inU, U. rewrite andb_true_iff, Z.leb_le, Z.ltb_lt. done. Qed.

Lemma inI_spec w z : inI w z = true <-> I w z.
Proof. unfold inI, I. rewrite andb_true_iff, Z.leb_le, Z.ltb_lt. done. Qed.

Lemma i64_checked_Some z v : i64_checked z = Some v <-> v = z /\ I 64 z.
Proof. unfold i64_checked. rewrite <- inI_spec. destruct (inI 64 z); naive_solver. Qed.

Lemma i64_checked_in z : I 64 z -> i64_checked z = Some z.
Proof. intros H. apply i64_checked_Some. done. Qed.

Lemma u32_sub_Ok {E} a b : U 32 (a - b) -> @u32_sub E a b = Ok (a - b).
Proof. intros H%inU_spec. unfold u32_sub. by rewrite H. Qed.

Lemma u32_add_Ok {E} a b : U 32 (a + b) -> @u32_add E a b = Ok (a + b).
Proof. intros H%inU_spec. unfold u32_add. by rewrite H. Qed.

Lemma i64_op_Ok {E} z : I 64 z -> @i64_op E z = Ok z.
Proof. intros H. unfold i64_op. by rewrite i64_checked_in. Qed.

Lemma clampz_range x lo hi : lo <= hi -> lo <= clampz x lo hi <= hi.
Proof. unfold clampz. lia. Qed.

(** *** Bytes *)

Lemma b2z_range b : 0 <= b2z b < 256.
Proof.
  unfold b2z. pose proof (Byte.to_N_bounded b) as H. lia.
Qed.

Lemma b2z_inj b c : b2z b = b2z c -> b = c.
Proof.
  unfold b2z. intros H%N2Z.inj. pose proof (Byte.of_to_N b) as Hb.
  rewrite H, Byte.of_to_N in Hb. congruence.
Qed.

Lemma b2z_z2b z : b2z (z2b z) = z mod 256.
Proof.
  unfold z2b, b2z. pose proof (Z.mod_pos_bound z 256 ltac:(lia)) as Hz.
  destruct (Byte.of_N (Z.to_N (z mod 256))) as [b|] eqn:E.
  - apply Byte.to_of_N in E. rewrite E. lia.
  - apply Byte.of_N_None_iff in E. lia.
Qed.

Lemma z2b_b2z b : z2b (b2z b) = b.
Proof. apply b2z_inj. rewrite b2z_z2b. apply Z.mod_small, b2z_range. Qed.

Lemma b2z_z2b_small z : 0 <= z < 256 -> b2z (z2b z) = z.
Proof. intros H. rewrite b2z_z2b. by apply Z.mod_small. Qed.

Lemma length_le_bytes n z : length (le_bytes n z) = n.
Proof. revert z. induction n as [|n IH]; intros z; cbn; [done|]. by rewrite IH. Qed.

Lemma pow256_S n : 256 ^ Z.of_nat (S n) = 256 * 256 ^ Z.of_nat n.
Proof. rewrite Nat2Z.inj_succ, Z.pow_succ_r; lia. Qed.

Lemma pow256_pos n : 0 < 256 ^ Z.of_nat n.
Proof. apply Z.pow_pos_nonneg; lia. Qed.

Lemma le_val_le_bytes n z : le_val (le_bytes n z) = z mod 256 ^ Z.of_nat n.
Proof.
  revert z. induction n as [|n IH]; intros z; cbn [le_bytes le_val].
  - by rewrite Z.mod_1_r.
  - rewrite IH, b2z_z2b, pow256_S. pose proof (pow256_pos n).
    rewrite (Z.rem_mul_r z 256); lia.
Qed.

Lemma le_val_range l : 0 <= le_val l < 256 ^ Z.of_nat (length l).
Proof.
  induction l as [|b l IH]; cbn [le_val length]; [lia|].
  rewrite pow256_S. pose proof (b2z_range b). lia.
Qed.

Lemma le_bytes_le_val l : le_bytes (length l) (le_val l) = l.
Proof.
  induction l as [|b l IH]; cbn [le_val length le_bytes]; [done|].
  pose proof (b2z_range b). f_equal.
  - apply b2z_inj. rewrite b2z_z2b, Z.mul_comm, Z.mod_add by lia.
    by apply Z.mod_small.
  - rewrite Z.mul_comm, Z.div_add, Z.div_small by lia. apply IH.
Qed.

Lemma le_val_inj l k : length l = length k -> le_val l = le_val k -> l = k.
Proof. intros Hl Hv. by rewrite <- (le_bytes_le_val l), <- (le_bytes_le_val k), Hl, Hv. Qed.

Lemma le_bytes_inj n a b :
  0 <= a < 256 ^ Z.of_nat n -> 0 <= b < 256 ^ Z.of_nat n -> le_bytes n a = le_bytes n b -> a = b.
Proof.
  intros Ha Hb H%(f_equal le_val). rewrite !le_val_le_bytes, !Z.mod_small in H; done.
Qed.

Lemma to_signed_mod w z : 0 < w -> I w z -> to_signed w (z mod 2 ^ w) = z.
Proof.
  unfold I, to_signed. intros Hw Hz.
  assert (2 ^ w = 2 * 2 ^ (w - 1)) as Hp by (rewrite <- Z.pow_succ_r by lia; f_equal; lia).
  destruct (Z.ltb_spec z 0).
  - replace (z mod 2 ^ w) with (z + 2 ^ w).
    + destruct (Z.ltb_spec (z + 2 ^ w) (2 ^ (w - 1))); lia.
    + rewrite <- (Z.mod_add z 1), Z.mod_small; lia.
  - rewrite Z.mod_small by lia. destruct (Z.ltb_spec z (2 ^ (w - 1))); lia.
Qed.

Lemma to_signed_range w z : 0 < w -> U w z -> I w (to_signed w z).
Proof.
  unfold U, I, to_signed. intros Hw Hz.
  assert (2 ^ w = 2 * 2 ^ (w - 1)) as Hp by (rewrite <- Z.pow_succ_r by lia; f_equal; lia).
  destruct (Z.ltb_spec z (2 ^ (w - 1))); lia.
Qed.

Lemma to_signed_mod_eq w z : 0 < w -> U w z -> to_signed w z mod 2 ^ w = z.
Proof.
  unfold U, to_signed. intros Hw Hz. destruct (Z.ltb_spec z (2 ^ (w - 1))).
  - by apply Z.mod_small.
  - rewrite <- (Z.mod_add _ 1), Z.mod_small; lia.
Qed.

Lemma le_bytes_mod n z : le_bytes n (z mod 256 ^ Z.of_nat n) = le_bytes n z.
Proof.
  apply le_val_inj; [by rewrite !length_le_bytes|].
  rewrite !le_val_le_bytes. pose proof (pow256_pos n). by rewrite Z.mod_mod by lia.
Qed.

Lemma le_val_app l k : le_val (l ++ k) = le_val l + 256 ^ Z.of_nat (length l) * le_val k.
Proof.
  induction l as [|b l IH]; cbn [app le_val length]; [rewrite Z.pow_0_r; lia|]. rewrite IH, pow256_S. lia.
Qed.

Lemma le_val_snoc l b : le_val (l ++ [b]) = le_val l + 256 ^ Z.of_nat (length l) * b2z b.
Proof. rewrite le_val_app. cbn [le_val]. lia. Qed.

Lemma land_255 v : Z.land v 0xff = v mod 256.
Proof. change 0xff with (Z.ones 8). by rewrite Z.land_ones. Qed.

Lemma min_le_bytes_val fuel v : 0 <= v < 256 ^ Z.of_nat fuel -> le_val (min_le_bytes fuel v) = v.
Proof.
  revert v. induction fuel as [|fuel IH]; intros v Hv; cbn [min_le_bytes].
  - cbn in Hv. cbn. lia.
  - rewrite Z.gtb_ltb. destruct (Z.ltb_spec 0 v); [|cbn; lia]. cbn [le_val].
    rewrite land_255, Z.shiftr_div_pow2, b2z_z2b by lia. change (2 ^ 8) with 256.
    rewrite pow256_S in Hv. rewrite IH by (Z.div_mod_to_equations; lia). rewrite Z.mod_mod by lia. Z.div_mod_to_equations. lia.
Qed.

Lemma length_min_le_bytes fuel v : (length (min_le_bytes fuel v) <= fuel)%nat.
Proof. revert v. induction fuel as [|fuel IH]; intros v; cbn; [lia|]. case_match; cbn; [specialize (IH (Z.shiftr v 8))|]; lia. Qed.

(** the digits of a positive number end in a non-zero byte *)
Lemma min_le_bytes_snoc fuel v :
  0 < v < 256 ^ Z.of_nat fuel -> exists l b, min_le_bytes fuel v = l ++ [b] /\ 0 < b2z b.
Proof.
  revert v. induction fuel as [|fuel IH]; intros v Hv; cbn [min_le_bytes]; [cbn in Hv; lia|].
  rewrite Z.gtb_ltb, (proj2 (Z.ltb_lt 0 v)) by lia. rewrite pow256_S in Hv.
  rewrite Z.shiftr_div_pow2 by lia. change (2 ^ 8) with 256.
  destruct (Z.eq_dec (v / 256) 0) as [E|Hne].
  - exists [], (z2b (Z.land v 0xff)). rewrite E. destruct fuel; cbn [min_le_bytes app]; (split; [done|]);
      rewrite land_255, b2z_z2b, Z.mod_mod by lia; Z.div_mod_to_equations; lia.
  - destruct (IH (v / 256)) as (l & b & E & Hb).
    + split; [pose proof (Z.div_pos v 256); lia|apply Z.div_lt_upper_bound; lia].
    + exists (z2b (Z.land v 0xff) :: l), b. by rewrite E.
Qed.

Lemma le_val_app_0 l : le_val (l ++ [x00]) = le_val l.
Proof. rewrite le_val_snoc. change (b2z x00) with 0. lia. Qed.

(** or-ing a digit above the bits already there *)
Lemma lor_shiftl_add a b n : 0 <= n -> 0 <= a < 2 ^ n -> 0 <= b -> Z.lor a (Z.shiftl b n) = a + b * 2 ^ n.
Proof.
  intros Hn Ha Hb. rewrite <- Z.add_lor_land, Z.shiftl_mul_pow2 by lia.
  enough (Z.land a (b * 2 ^ n) = 0) by lia.
  apply Z.bits_inj'. intros k Hk. rewrite Z.land_spec, Z.bits_0.
  destruct (Z.lt_ge_cases k n).
  - rewrite Z.mul_pow2_bits_low by lia. apply andb_false_r.
  - rewrite <- (Z.mod_small a (2 ^ n)), Z.mod_pow2_bits_high by lia. done.
Qed.

(** the top bit of a byte *)
Lemma land_128 b : Z.land (b2z b) 0x80 =? 0 = (b2z b <? 128).
Proof. by destruct b. Qed.

(** *** Lists *)

Lemma zlen_nonneg {A} (l : list A) : 0 <= zlen l.
Proof. unfold zlen. lia. Qed.

Lemma zlen_app {A} (l k : list A) : zlen (l ++ k) = zlen l + zlen k.
Proof. unfold zlen. rewrite length_app. lia. Qed.

Lemma zlen_cons {A} (a : A) l : zlen (a :: l) = 1 + zlen l.
Proof. unfold zlen. cbn [length]. lia. Qed.

Lemma zsum_cons x l : zsum (x :: l) = x + zsum l.
Proof. done. Qed.

Lemma zsum_app l k : zsum (l ++ k) = zsum l + zsum k.
Proof. induction l as [|x l IH]; [done|]. cbn [app]. rewrite !zsum_cons. lia. Qed.

Lemma zsum_nonneg l : Forall (fun x => 0 <= x) l -> 0 <= zsum l.
Proof. induction 1; [done|]. rewrite zsum_cons. lia. Qed.

(** summing non-negative values with [checked_add] gives the exact sum or fails
    because the sum exceeds [i64::MAX] *)
Lemma try_sum_spec l acc :
  0 <= acc <= i64_max -> Forall (fun x => 0 <= x) l ->
  try_sum acc l = if acc + zsum l <=? i64_max then Some (acc + zsum l) else None.
Proof.
  revert acc. induction l as [|x l IH]; intros acc Hacc Hl; cbn [try_sum].
  - cbn. rewrite Z.add_0_r. by rewrite (proj2 (Z.leb_le _ _)) by lia.
  - apply Forall_cons in Hl as [Hx Hl]. pose proof (zsum_nonneg _ Hl) as Hs.
    rewrite zsum_cons. unfold i64_checked_add, i64_checked.
    destruct (inI 64 (acc + x)) eqn:E.
    + apply inI_spec in E. rewrite IH by (range || done).
      by replace (acc + (x + zsum l)) with (acc + x + zsum l) by lia.
    + destruct (Z.leb_spec (acc + (x + zsum l)) i64_max); [|done].
      assert (I 64 (acc + x)) as Hin%inI_spec by range. congruence.
Qed.

(** whatever the signs, a successful checked sum is the exact sum *)
Lemma try_sum_Some l acc v : try_sum acc l = Some v -> v = acc + zsum l.
Proof.
  revert acc. induction l as [|x l IH]; intros acc; cbn [try_sum].
  - intros [= <-]. cbn. lia.
  - rewrite zsum_cons. unfold i64_checked_add.
    destruct (i64_checked (acc + x)) as [acc'|] eqn:E; [|done].
    apply i64_checked_Some in E as [-> _]. intros ->%IH. lia.
Qed.

Lemma try_sum_range l acc v : I 64 acc -> try_sum acc l = Some v -> I 64 v.
Proof.
  revert acc. induction l as [|x l IH]; intros acc Hacc; cbn [try_sum]; [by intros [= <-]|].
  destruct (i64_checked_add acc x) as [acc'|] eqn:E; [|done]. apply i64_checked_Some in E as [-> Hr]. by apply IH.
Qed.

Lemma fold_res_app {E A S} (f : S -> A -> res E S) s l k :
  fold_res f s (l ++ k) = (fold_res f s l) ≫= (fun s => fold_res f s k).
Proof.
  revert s. induction l as [|a l IH]; intros s; cbn; [done|].
  destruct (f s a); cbn; [apply IH|done|done].
Qed.

(** an invariant of the body is an invariant of the loop *)
Lemma fold_res_inv {E A S} (P : S -> Prop) (f : S -> A -> res E S) l s s' :
  (forall s a s', a ∈ l -> P s -> f s a = Ok s' -> P s') -> P s -> fold_res f s l = Ok s' -> P s'.
Proof.
  revert s. induction l as [|a l IH]; intros s Hf Hs; cbn; [naive_solver|].
  destruct (f s a) as [s1| |] eqn:E1; [|done|done]. intros H.
  eapply IH; [|eapply Hf, E1; [set_solver|done] |exact H].
  intros t b t' Hb. apply Hf. set_solver.
Qed.

(** a loop of checks passes when every check does *)
Lemma fold_res_unit {E A} (f : unit -> A -> res E unit) l :
  fold_res f tt l = Ok tt <-> Forall (fun a => f tt a = Ok tt) l.
Proof.
  induction l as [|a l IH]; cbn [fold_res]; [done|]. rewrite Forall_cons.
  destruct (f tt a) as [[]| |]; naive_solver.
Qed.

Lemma fold_res_no_panic {E A S} (f : S -> A -> res E S) s l :
  (forall s a, f s a <> Panic) -> fold_res f s l <> Panic.
Proof.
  intros Hf. revert s. induction l as [|a l IH]; intros s; cbn [fold_res]; [done|].
  destruct (f s a) eqn:Ha; [apply IH|done|by destruct (Hf s a)].
Qed.

(** a loop depends on its body only at the elements of the list *)
Lemma foldl_ext_in {A B} (f g : A -> B -> A) l a :
  (forall a b, b ∈ l -> f a b = g a b) -> foldl f a l = foldl g a l.
Proof.
  revert a. induction l as [|b l IH]; intros a Hfg; [done|]. cbn. rewrite Hfg by set_solver. apply IH. set_solver.
Qed.

Lemma take_app_exact {A} (l k : list A) n : length l = n -> take n (l ++ k) = l.
Proof. intros <-. apply take_app_length. Qed.

Lemma drop_app_exact {A} (l k : list A) n : length l = n -> drop n (l ++ k) = k.
Proof. intros <-. apply drop_app_length. Qed.

#[export] Hint Rewrite @length_app length_le_bytes : bytes.
#[export] Hint Resolve b2z_range le_val_range zlen_nonneg : ironcat.
#[export] Hint Rewrite b2z_z2b z2b_b2z le_val_le_bytes : bytes.
