(* ===== verification/Codec.v ===== *)
(** * Codec: cursors, variable-length integers and the codec interface

    Models the reading side of [std::io::Cursor<&[u8]>] with the [byteorder]
    reads the sources use, and [write_varint] / [decode_varint] of
    src/src/network.rs.  A cursor is modelled by the bytes it has not consumed
    yet.  The class [Codec] states what a serializable type promises: what is
    written is read back ([decode_encode]), and what is accepted is exactly
    what would be written ([encode_decode]), so no two byte strings decode to
    the same value. *)
From Stdlib Require Import Strings.Byte.
From stdpp Require Import base numbers list strings.
From S2P Require Import Prelude.

Definition reader (A : Type) : Type := list byte -> result (A * list byte).

#[global] Instance reader_ret : MRet reader := fun A a s => Ok (a, s).
#[global] Instance reader_bind : MBind reader := fun A B f r s =>
  match r s with
  | Ok (a, s) => f a s
  | Err e => Err e
  | Panic => Panic
  end.

Definition rfail {A} (msg : string) : reader A := fun _ => Err msg.

Definition rcontext {A} (msg : string) (r : reader A) : reader A := fun s => context msg (r s).

(** [cursor.read_exact(&mut buf)] with a buffer of [n] bytes *)
Definition read_exact (n : nat) : reader (list byte) := fun s =>
  if decide (length s < n)%nat then Err "failed to fill whole buffer"
  else Ok (take n s, drop n s).

(** [cursor.read_uN::<LittleEndian>()] and [read_iN] *)
Definition read_le (n : nat) : reader Z :=
  l ← read_exact n; mret (le_val l).
Definition read_le_signed (n : nat) : reader Z :=
  z ← read_le n; mret (to_signed (8 * Z.of_nat n) z).

Definition read_u8 : reader Z := read_le 1.
Definition read_u16 : reader Z := read_le 2.
Definition read_u32 : reader Z := read_le 4.
Definition read_u64 : reader Z := read_le 8.
Definition read_i32 : reader Z := read_le_signed 4.
Definition read_i64 : reader Z := read_le_signed 8.

(** [for _ in 0..n { v.push(r(cursor)?) }] *)
Fixpoint read_many {A} (n : nat) (r : reader A) : reader (list A) :=
  match n with
  | O => mret []
  | S n => a ← r; l ← read_many n r; mret (a :: l)
  end.

(** the bytes [write_varint] appends to its buffer *)
Definition write_varint (n : Z) : list byte :=
  if n <? 0xfd then [z2b n]
  else if n <=? 0xffff then z2b 0xfd :: le_bytes 2 n
  else if n <=? 0xffffffff then z2b 0xfe :: le_bytes 4 n
  else z2b 0xff :: le_bytes 8 n.

Definition decode_varint : reader Z :=
  first_byte ← read_u8;
  if first_byte =? 0xfd then
    uint16 ← read_u16;
    if uint16 <? 0xfd then rfail "non-canonical varint: 0xFD prefix" else mret uint16
  else if first_byte =? 0xfe then
    uint32 ← read_u32;
    if uint32 <=? 0xffff then rfail "non-canonical varint: 0xFE prefix" else mret uint32
  else if first_byte =? 0xff then
    uint64 ← read_u64;
    if uint64 <=? 0xffffffff then rfail "non-canonical varint: 0xFF prefix" else mret uint64
  else mret first_byte.

(** ** The codec interface *)

Record codec (A : Type) := Codec_ { encode : A -> list byte; decode : reader A; valid : A -> Prop }.
Arguments Codec_ {A} _ _ _.
Arguments encode {A} _ _.
Arguments decode {A} _ _.
Arguments valid {A} _ _.

(** what is written is read back, leaving the rest of the input *)
Class Decodes {A} (c : codec A) : Prop :=
  decode_encode : forall a s, valid c a -> decode c (encode c a ++ s) = Ok (a, s).

(** only what would be written is accepted *)
Class Canonical {A} (c : codec A) : Prop :=
  encode_decode : forall s a s', decode c s = Ok (a, s') -> valid c a /\ s = encode c a ++ s'.

(** no read panics *)
Class Safe {A} (r : reader A) : Prop := no_panic : forall s, r s <> Panic.

Definition varint : codec Z := Codec_ write_varint decode_varint (U 64).
Definition le_codec (n : nat) : codec Z :=
  Codec_ (le_bytes n) (read_le n) (U (8 * Z.of_nat n)).
Definition le_signed_codec (n : nat) : codec Z :=
  Codec_ (le_bytes n) (read_le_signed n) (fun z => (n > 0)%nat /\ I (8 * Z.of_nat n) z).
Definition raw_codec (n : nat) : codec (list byte) :=
  Codec_ id (read_exact n) (fun l => length l = n).
Definition many_codec {A} (n : nat) (c : codec A) : codec (list A) :=
  Codec_ (fun l => concat (map (encode c) l)) (read_many n (decode c))
    (fun l => length l = n /\ Forall (valid c) l).

(** ** Lemmas *)

Lemma reader_bind_Ok {A B} (r : reader A) (f : A -> reader B) s b s' :
  (r ≫= f) s = Ok (b, s') <-> exists a s1, r s = Ok (a, s1) /\ f a s1 = Ok (b, s').
Proof. unfold mbind, reader_bind. destruct (r s) as [[a s1]| |]; naive_solver. Qed.

Lemma reader_bind_eq {A B} (r : reader A) (f : A -> reader B) s a s1 :
  r s = Ok (a, s1) -> (r ≫= f) s = f a s1.
Proof. unfold mbind, reader_bind. by intros ->. Qed.

Lemma reader_ret_Ok {A} (a : A) s b s' : (mret a : reader A) s = Ok (b, s') <-> a = b /\ s = s'.
Proof. unfold mret, reader_ret. naive_solver. Qed.

Lemma rcontext_Ok {A} msg (r : reader A) s b : rcontext msg r s = Ok b <-> r s = Ok b.
Proof. apply context_Ok. Qed.

Lemma rfail_Ok {A} msg s b : @rfail A msg s = Ok b <-> False.
Proof. done. Qed.

(** read a prefix that the codec [c] wrote *)
Ltac read_step c :=
  etransitivity; [eapply reader_bind_eq; eapply (decode_encode (c := c))|]; cbn beta.

(** the reader of the codec [c] succeeded: recover what it consumed *)
Ltac read_inv c H a Ha :=
  let s1 := fresh "s" in
  apply reader_bind_Ok in H as (a & s1 & Ha & H);
  apply (encode_decode (c := c)) in Ha as [Ha ->].

#[global] Instance raw_decodes n : Decodes (raw_codec n).
Proof.
  intros l s Hl. cbn in *. unfold read_exact.
  rewrite decide_False by (rewrite length_app; lia).
  by rewrite take_app_exact, drop_app_exact.
Qed.

#[global] Instance raw_canonical n : Canonical (raw_codec n).
Proof.
  intros s a s'. cbn. unfold read_exact. destruct (decide _); [done|].
  intros [= <- <-]. rewrite take_drop, length_take. split; [lia|done].
Qed.

#[global] Instance le_decodes n : Decodes (le_codec n).
Proof.
  intros z s Hz. cbn. unfold read_le.
  read_step (raw_codec n); [apply length_le_bytes|].
  unfold mret, reader_ret. rewrite le_val_le_bytes, Z.mod_small; [done|].
  cbn in Hz. unfold U in Hz. by rewrite Z.pow_mul_r in Hz by lia.
Qed.

#[global] Instance le_canonical n : Canonical (le_codec n).
Proof.
  intros s a s'. cbn. unfold read_le. rewrite reader_bind_Ok.
  intros (l & s1 & Hl%(encode_decode (c := raw_codec n)) & [<- <-]%reader_ret_Ok).
  destruct Hl as [Hn ->]. cbn in Hn. split.
  - pose proof (le_val_range l). unfold U. rewrite Z.pow_mul_r by lia. by rewrite Hn in H.
  - cbn. by rewrite <- Hn, le_bytes_le_val.
Qed.

#[global] Instance le_signed_decodes n : Decodes (le_signed_codec n).
Proof.
  intros z s [Hn Hz]. cbn. unfold read_le_signed, read_le.
  etransitivity; [eapply reader_bind_eq; read_step (raw_codec n); [apply length_le_bytes|done]|].
  unfold mret, reader_ret. rewrite le_val_le_bytes. replace (256 ^ Z.of_nat n) with (2 ^ (8 * Z.of_nat n))
    by (by rewrite Z.pow_mul_r by lia).
  rewrite to_signed_mod; [done|lia|done].
Qed.

Lemma le_signed_canonical n : (0 < n)%nat -> Canonical (le_signed_codec n).
Proof.
  intros Hn s a s'. cbn. unfold read_le_signed. rewrite reader_bind_Ok.
  intros (z & s1 & Hz%(encode_decode (c := le_codec n)) & [<- <-]%reader_ret_Ok).
  destruct Hz as [Hz ->]. cbn in Hz |- *. split; [split; [lia|]|].
  - apply to_signed_range; [lia|done].
  - f_equal. rewrite <- (le_bytes_mod n (to_signed _ _)).
    replace (256 ^ Z.of_nat n) with (2 ^ (8 * Z.of_nat n)) by (by rewrite Z.pow_mul_r by lia).
    rewrite to_signed_mod_eq; [done|lia|done].
Qed.

#[global] Instance le_signed_canonical_4 : Canonical (le_signed_codec 4).
Proof. apply le_signed_canonical. lia. Qed.
#[global] Instance le_signed_canonical_8 : Canonical (le_signed_codec 8).
Proof. apply le_signed_canonical. lia. Qed.

#[global] Instance many_decodes {A} n (c : codec A) `{!Decodes c} : Decodes (many_codec n c).
Proof.
  intros l s [<- Hl]. cbn. revert s. induction Hl as [|a l Ha Hl IH]; intros s; cbn; [done|].
  rewrite <- app_assoc. read_step c; [done|].
  by rewrite (reader_bind_eq _ _ _ _ _ (IH s)).
Qed.

#[global] Instance many_canonical {A} n (c : codec A) `{!Canonical c} : Canonical (many_codec n c).
Proof.
  intros s l s'. cbn. revert s l. induction n as [|n IH]; intros s l; cbn.
  - intros [<- <-]%reader_ret_Ok. done.
  - intros H. read_inv c H a Ha.
    apply reader_bind_Ok in H as (k & s2 & Hk & [<- <-]%reader_ret_Ok). apply IH in Hk as [[<- Hf] ->]. cbn.
    split; [by split; [|constructor]|]. by rewrite app_assoc.
Qed.

(** ** Variable-length integers *)

Lemma varint_prefix n s :
  U 64 n -> 0xfd <= n ->
  exists p k, (p = 0xfd /\ k = 2%nat \/ p = 0xfe /\ k = 4%nat \/ p = 0xff /\ k = 8%nat) /\
    write_varint n ++ s = z2b p :: le_bytes k n ++ s /\ U (8 * Z.of_nat k) n /\
    (p = 0xfe -> 0xffff < n) /\ (p = 0xff -> 0xffffffff < n).
Proof.
  intros Hn Hlo. unfold write_varint. rewrite (proj2 (Z.ltb_ge n 0xfd)) by lia.
  destruct (Z.leb_spec n 0xffff); [exists 0xfd, 2%nat|
    destruct (Z.leb_spec n 0xffffffff); [exists 0xfe, 4%nat|exists 0xff, 8%nat]];
    (split; [tauto|split; [done|split; [range|split; lia]]]).
Qed.

#[global] Instance varint_decodes : Decodes varint.
Proof.
  intros n s Hn. cbn in *. destruct (Z.lt_ge_cases n 0xfd) as [Hlt|Hge].
  - unfold write_varint. rewrite (proj2 (Z.ltb_lt n 0xfd)) by lia.
    unfold decode_varint, read_u8.
    replace ([z2b n] ++ s) with (le_bytes 1 n ++ s) by done.
    read_step (le_codec 1); [cbn; range|].
    by rewrite !(proj2 (Z.eqb_neq _ _)) by lia.
  - destruct (varint_prefix n s Hn Hge) as (p & k & Hpk & -> & Hk & H1 & H2).
    unfold decode_varint, read_u8.
    replace (z2b p :: le_bytes k n ++ s) with (le_bytes 1 p ++ le_bytes k n ++ s) by done.
    read_step (le_codec 1); [destruct Hpk as [[-> _]|[[-> _]|[-> _]]]; cbn; range|].
    destruct Hpk as [[-> ->]|[[-> ->]|[-> ->]]]; cbn -[le_bytes Z.ltb Z.leb];
      [read_step (le_codec 2)|read_step (le_codec 4)|read_step (le_codec 8)]; try done.
    + by rewrite (proj2 (Z.ltb_ge _ _)) by lia.
    + by rewrite (proj2 (Z.leb_gt _ _)) by lia.
    + by rewrite (proj2 (Z.leb_gt _ _)) by lia.
Qed.

(** the tail of a multi-byte varint *)
Lemma varint_tail_canonical k (bad : Z -> bool) msg s n s' :
  (n0 ← read_le k; if bad n0 then rfail msg else mret n0) s = Ok (n, s') ->
  U (8 * Z.of_nat k) n /\ bad n = false /\ s = le_bytes k n ++ s'.
Proof.
  intros H. read_inv (le_codec k) H z Hz. destruct (bad z) eqn:E; [done|].
  apply reader_ret_Ok in H as [<- <-]. done.
Qed.

#[global] Instance varint_canonical : Canonical varint.
Proof.
  intros s n s'. cbn. unfold decode_varint, read_u8. intros Hr. read_inv (le_codec 1) Hr b Hb.
  cbn in Hb |- *. unfold write_varint.
  destruct (Z.eqb_spec b 0xfd) as [->|]; [|destruct (Z.eqb_spec b 0xfe) as [->|];
    [|destruct (Z.eqb_spec b 0xff) as [->|]]].
  1-3: apply (varint_tail_canonical _ (fun n => n <? _) _) in Hr as (Hn & Hlo & ->) ||
       apply (varint_tail_canonical _ (fun n => n <=? _) _) in Hr as (Hn & Hlo & ->);
       bool_prop; split; [range|].
  - by rewrite (proj2 (Z.ltb_ge _ _)), (proj2 (Z.leb_le _ _)) by range.
  - by rewrite (proj2 (Z.ltb_ge _ _)), (proj2 (Z.leb_gt _ _)), (proj2 (Z.leb_le _ _)) by range.
  - by rewrite (proj2 (Z.ltb_ge _ _)), !(proj2 (Z.leb_gt _ _)) by range.
  - apply reader_ret_Ok in Hr as [<- <-]. split; [range|].
    by rewrite (proj2 (Z.ltb_lt _ _)) by range.
Qed.

Lemma length_write_varint n : (1 <= length (write_varint n) <= 9)%nat.
Proof. unfold write_varint. repeat case_match; cbn [length]; rewrite ?length_le_bytes; lia. Qed.

Lemma encode_inj {A} (c : codec A) `{!Decodes c} a b s t :
  valid c a -> valid c b -> encode c a ++ s = encode c b ++ t -> a = b /\ s = t.
Proof.
  intros Ha Hb H. pose proof (decode_encode a s Ha) as H1.
  rewrite H, (decode_encode b t Hb) in H1. naive_solver.
Qed.

(** ** No read panics *)

#[global] Instance bind_safe {A B} (r : reader A) (f : A -> reader B) :
  Safe r -> (forall a, Safe (f a)) -> Safe (r ≫= f).
Proof.
  intros Hr Hf s. unfold mbind, reader_bind. specialize (Hr s).
  destruct (r s) as [[a s1]| |]; [apply Hf|done|done].
Qed.
#[global] Instance ret_safe {A} (a : A) : Safe (mret a : reader A).
Proof. done. Qed.
#[global] Instance rfail_safe {A} msg : Safe (@rfail A msg).
Proof. done. Qed.
#[global] Instance rcontext_safe {A} msg (r : reader A) : Safe r -> Safe (rcontext msg r).
Proof. intros Hr s. specialize (Hr s). unfold rcontext. by destruct (r s). Qed.
#[global] Instance if_safe {A} (b : bool) (r1 r2 : reader A) :
  Safe r1 -> Safe r2 -> Safe (if b then r1 else r2).
Proof. by destruct b. Qed.
#[global] Instance read_exact_safe n : Safe (read_exact n).
Proof. intros s. unfold read_exact. by case_decide. Qed.
#[global] Instance read_le_safe n : Safe (read_le n).
Proof. unfold read_le. apply _. Qed.
#[global] Instance read_le_signed_safe n : Safe (read_le_signed n).
Proof. unfold read_le_signed. apply _. Qed.
#[global] Instance read_many_safe {A} n (r : reader A) : Safe r -> Safe (read_many n r).
Proof. intros Hr. induction n; cbn; apply _. Qed.
#[global] Instance decode_varint_safe : Safe decode_varint.
Proof. unfold decode_varint, read_u8, read_u16, read_u32, read_u64. apply _. Qed.

(** the variable-length integers of the wire format.  [decode_varint]
    accepts exactly the byte strings [write_varint] produces for the 64-bit
    values, and returns that value with the rest of the input: every other
    spelling of a value (a longer prefix than needed, a truncated tail) is
    rejected. *)
Theorem varint_exact s n rest :
  decode_varint s = Ok (n, rest) <-> U 64 n /\ s = write_varint n ++ rest.
Proof.
  split; [apply (encode_decode (c := varint))|].
  intros [Hn ->]. by apply (decode_encode (c := varint)).
Qed.
