(* ===== verification/Types.v ===== *)
(** * Types: hashes, transactions, headers and blocks

    Models src/src/types/: [Hash256], [OutPoint], [TxIn], [TxOut],
    [Transaction], [BlockHeader] and [Block] with their wire formats.  SHA-256
    (crate sha2) is a parameter: the class [Sha256].  The transaction and
    header formats are shown to be codecs (see Codec.v), so that the identity
    hash of a transaction or header is a function of exactly the bytes that were
    parsed. *)
From Stdlib Require Import Strings.Byte.
From stdpp Require Import base numbers list strings gmap.
From S2P Require Import Prelude Codec.

(** SHA-256 of the crate sha2; [Sha256Len] is the property the sources rely on *)
Class Sha256 : Type := sha256 : list byte -> list byte.
Class Sha256Len (H : Sha256) : Prop := sha256_length : forall m, length (sha256 m) = 32%nat.

(** ** Hashes (types/hash.rs) *)

Definition HASH_LEN : nat := 32.

(** the bytes of a hash in wire order; [hash_ok] is the array's length *)
Record Hash256 := mkHash { as_bytes : list byte }.

Definition hash_ok (h : Hash256) : Prop := length (as_bytes h) = HASH_LEN.

Definition HASH_ZERO : Hash256 := mkHash (replicate HASH_LEN x00).

#[global] Instance Hash256_eq_dec : EqDecision Hash256.
Proof. solve_decision. Defined.
#[global] Program Instance Hash256_countable : Countable Hash256 :=
  inj_countable' as_bytes mkHash _.
Next Obligation. by intros []. Qed.

Definition double_sha256 `{Sha256} (data : list byte) : Hash256 := mkHash (sha256 (sha256 data)).

(** ** Transactions (types/transaction.rs) *)

Definition MAX_SCRIPT_SIZE : Z := 10000.
Definition MAX_TX_SIZE : Z := 1000000.
Definition MAX_TX_IN_OUT : Z := 25000.

Record OutPoint := mkOutPoint { op_txid : Hash256; op_index : Z }.

Definition OUTPOINT_COINBASE : OutPoint := mkOutPoint HASH_ZERO 0xffffffff.

#[global] Instance OutPoint_eq_dec : EqDecision OutPoint.
Proof. solve_decision. Defined.
#[global] Program Instance OutPoint_countable : Countable OutPoint :=
  inj_countable' (fun o => (op_txid o, op_index o)) (fun '(t, i) => mkOutPoint t i) _.
Next Obligation. by intros []. Qed.

Record TxIn := mkTxIn { prev_output : OutPoint; script_sig : list byte; sequence : Z }.
Record TxOut := mkTxOut { value : Z; script_pubkey : list byte }.
Record Transaction := mkTx { tx_version : Z; vin : list TxIn; vout : list TxOut; locktime : Z }.

#[global] Instance TxIn_eq_dec : EqDecision TxIn.
Proof. solve_decision. Defined.
#[global] Instance TxOut_eq_dec : EqDecision TxOut.
Proof. solve_decision. Defined.
#[global] Instance Transaction_eq_dec : EqDecision Transaction.
Proof. solve_decision. Defined.

Definition outpoint_to_bytes (o : OutPoint) : list byte :=
  as_bytes (op_txid o) ++ le_bytes 4 (op_index o).

Definition outpoint_from_cursor : reader OutPoint :=
  hash_bytes ← rcontext "failed to read outpoint txid" (read_exact HASH_LEN);
  index ← rcontext "failed to read outpoint index" read_u32;
  mret (mkOutPoint (mkHash hash_bytes) index).

Definition txin_to_bytes (i : TxIn) : list byte :=
  outpoint_to_bytes (prev_output i) ++
  write_varint (zlen (script_sig i)) ++ script_sig i ++
  le_bytes 4 (sequence i).

Definition txin_from_cursor : reader TxIn :=
  prev_output ← rcontext "failed to read txin outpoint" outpoint_from_cursor;
  script_len ← rcontext "failed to read txin script length" decode_varint;
  if script_len >? MAX_SCRIPT_SIZE then rfail "txin script too large" else
  script_sig ← rcontext "failed to read txin script bytes" (read_exact (Z.to_nat script_len));
  sequence ← rcontext "failed to read txin sequence" read_u32;
  mret (mkTxIn prev_output script_sig sequence).

Definition txout_to_bytes (o : TxOut) : list byte :=
  le_bytes 8 (value o) ++ write_varint (zlen (script_pubkey o)) ++ script_pubkey o.

Definition txout_from_cursor : reader TxOut :=
  value ← rcontext "failed to read txout value" read_i64;
  script_len ← rcontext "failed to read txout script length" decode_varint;
  if script_len >? MAX_SCRIPT_SIZE then rfail "txout script too large" else
  script_pubkey ← rcontext "failed to read txout script bytes" (read_exact (Z.to_nat script_len));
  mret (mkTxOut value script_pubkey).

Definition tx_to_bytes (t : Transaction) : list byte :=
  le_bytes 4 (tx_version t) ++
  write_varint (zlen (vin t)) ++ concat (map txin_to_bytes (vin t)) ++
  write_varint (zlen (vout t)) ++ concat (map txout_to_bytes (vout t)) ++
  le_bytes 4 (locktime t).

Definition tx_from_cursor : reader Transaction :=
  version ← rcontext "failed to read tx version" read_i32;
  vin_count ← rcontext "failed to read vin count" decode_varint;
  if vin_count >? MAX_TX_IN_OUT then rfail "vin count exceeds maximum" else
  vin ← read_many (Z.to_nat vin_count) txin_from_cursor;
  vout_count ← rcontext "failed to read vout count" decode_varint;
  if vout_count >? MAX_TX_IN_OUT then rfail "vout count exceeds maximum" else
  vout ← read_many (Z.to_nat vout_count) txout_from_cursor;
  locktime ← rcontext "failed to read tx locktime" read_u32;
  mret (mkTx version vin vout locktime).

(** parse a whole slice; the bytes left over are dropped *)
Definition run_reader {A} (r : reader A) (bytes : list byte) : result A :=
  '(a, _) ← r bytes; mret a.

Definition tx_from_bytes (bytes : list byte) : result Transaction :=
  ensure (zlen bytes <=? MAX_TX_SIZE) else "transaction too large" ;;
  run_reader tx_from_cursor bytes.

Definition txid `{Sha256} (t : Transaction) : Hash256 := double_sha256 (tx_to_bytes t).

Definition is_coinbase (t : Transaction) : bool :=
  (zlen (vin t) =? 1) &&
  match head (vin t) with
  | Some input => bool_decide (prev_output input = OUTPOINT_COINBASE)
  | None => false
  end.

(** ** Headers and blocks (types/block.rs) *)

Definition HEADER_SIZE : Z := 80.
Definition MAX_BLOCK_TXS : Z := 100000.

Record BlockHeader := mkHeader {
  hdr_version : Z; prev_hash : Hash256; merkle_root : Hash256;
  timestamp : Z; bits : Z; nonce : Z }.

Record Block := mkBlock { header : BlockHeader; transactions : list Transaction }.

#[global] Instance BlockHeader_eq_dec : EqDecision BlockHeader.
Proof. solve_decision. Defined.

Definition header_to_bytes (h : BlockHeader) : list byte :=
  le_bytes 4 (hdr_version h) ++ as_bytes (prev_hash h) ++ as_bytes (merkle_root h) ++
  le_bytes 4 (timestamp h) ++ le_bytes 4 (bits h) ++ le_bytes 4 (nonce h).

Definition header_from_cursor : reader BlockHeader :=
  version ← rcontext "failed to read block header version" read_i32;
  prev_bytes ← rcontext "failed to read block header prev_hash" (read_exact HASH_LEN);
  merkle_bytes ← rcontext "failed to read block header merkle_root" (read_exact HASH_LEN);
  timestamp ← rcontext "failed to read block header timestamp" read_u32;
  bits ← rcontext "failed to read block header bits" read_u32;
  nonce ← rcontext "failed to read block header nonce" read_u32;
  mret (mkHeader version (mkHash prev_bytes) (mkHash merkle_bytes) timestamp bits nonce).

Definition header_from_bytes (bytes : list byte) : result BlockHeader :=
  ensure (HEADER_SIZE <=? zlen bytes) else "block header too short" ;;
  run_reader header_from_cursor bytes.

Definition block_hash `{Sha256} (h : BlockHeader) : Hash256 := double_sha256 (header_to_bytes h).

Definition block_from_cursor : reader Block :=
  header ← rcontext "failed to parse block header" header_from_cursor;
  tx_count ← rcontext "failed to read block tx count" decode_varint;
  if tx_count >? MAX_BLOCK_TXS then rfail "block tx count exceeds maximum" else
  transactions ← read_many (Z.to_nat tx_count)
                   (rcontext "failed to parse transaction" tx_from_cursor);
  mret (mkBlock header transactions).

Definition block_from_bytes (bytes : list byte) : result Block :=
  run_reader block_from_cursor bytes.

(** the wire image of a block: its header, the transaction count and the transactions *)
Definition block_to_bytes (b : Block) : list byte :=
  header_to_bytes (header b) ++ write_varint (zlen (transactions b)) ++
  concat (map tx_to_bytes (transactions b)).

(** ** Well-formedness: the ranges of the Rust types and the parser's limits *)

Definition outpoint_ok (o : OutPoint) : Prop := hash_ok (op_txid o) /\ U 32 (op_index o).

Definition txin_ok (i : TxIn) : Prop :=
  outpoint_ok (prev_output i) /\ zlen (script_sig i) <= MAX_SCRIPT_SIZE /\ U 32 (sequence i).

Definition txout_ok (o : TxOut) : Prop :=
  I 64 (value o) /\ zlen (script_pubkey o) <= MAX_SCRIPT_SIZE.

Definition tx_ok (t : Transaction) : Prop :=
  I 32 (tx_version t) /\
  (zlen (vin t) <= MAX_TX_IN_OUT /\ Forall txin_ok (vin t)) /\
  (zlen (vout t) <= MAX_TX_IN_OUT /\ Forall txout_ok (vout t)) /\ U 32 (locktime t).

Definition header_ok (h : BlockHeader) : Prop :=
  I 32 (hdr_version h) /\ hash_ok (prev_hash h) /\ hash_ok (merkle_root h) /\
  U 32 (timestamp h) /\ U 32 (bits h) /\ U 32 (nonce h).

Definition block_ok (b : Block) : Prop :=
  header_ok (header b) /\ zlen (transactions b) <= MAX_BLOCK_TXS /\ Forall tx_ok (transactions b).

Definition outpoint_codec : codec OutPoint :=
  Codec_ outpoint_to_bytes outpoint_from_cursor outpoint_ok.
Definition txin_codec : codec TxIn := Codec_ txin_to_bytes txin_from_cursor txin_ok.
Definition txout_codec : codec TxOut := Codec_ txout_to_bytes txout_from_cursor txout_ok.
Definition tx_codec : codec Transaction := Codec_ tx_to_bytes tx_from_cursor tx_ok.
Definition header_codec : codec BlockHeader := Codec_ header_to_bytes header_from_cursor header_ok.
Definition block_codec : codec Block := Codec_ block_to_bytes block_from_cursor block_ok.

(** ** The formats are codecs *)

#[local] Arguments le_bytes : simpl never.
#[local] Arguments header_to_bytes : simpl never.
#[local] Arguments outpoint_to_bytes : simpl never.
#[local] Arguments write_varint : simpl never.

(** a context message changes neither direction *)
#[global] Instance rcontext_decodes {A} (c : codec A) msg :
  Decodes c -> Decodes (Codec_ (encode c) (rcontext msg (decode c)) (valid c)).
Proof. intros Hc a s Ha. apply rcontext_Ok, Hc, Ha. Qed.
#[global] Instance rcontext_canonical {A} (c : codec A) msg :
  Canonical c -> Canonical (Codec_ (encode c) (rcontext msg (decode c)) (valid c)).
Proof. intros Hc s a s' Ha%rcontext_Ok. by apply Hc. Qed.

(** read one field written by the codec [c], whose read carries a context message *)
Ltac field_step c :=
  etransitivity; [eapply reader_bind_eq; apply rcontext_Ok; eapply (decode_encode (c := c))|]; cbn beta.
Ltac field_inv c H a Ha :=
  let s1 := fresh "s" in
  apply reader_bind_Ok in H as (a & s1 & Ha & H);
  try apply rcontext_Ok in Ha;
  apply (encode_decode (c := c)) in Ha as [Ha ->].
(** pass a [len > MAX] test whose bound is known *)
Ltac limit_step := rewrite Z.gtb_ltb, (proj2 (Z.ltb_ge _ _)) by (cbn in *; lia).
Ltac limit_inv H :=
  match type of H with
  | (if ?a >? ?b then _ else _) _ = _ =>
    rewrite Z.gtb_ltb in H; destruct (Z.ltb_spec b a) as [?|?]; [done|]
  end.

Lemma zlen_U64 {A} (l : list A) n : zlen l <= n -> n < 2 ^ 64 -> U 64 (zlen l).
Proof. intros. pose proof (zlen_nonneg l). unfold U. lia. Qed.

Lemma to_nat_zlen {A} (l : list A) : Z.to_nat (zlen l) = length l.
Proof. unfold zlen. lia. Qed.

Lemma zlen_to_nat {A} (l : list A) n : U 64 n -> length l = Z.to_nat n -> zlen l = n.
Proof. unfold U, zlen. lia. Qed.

#[global] Instance outpoint_decodes : Decodes outpoint_codec.
Proof.
  intros [t i] s [Ht Hi]. cbn in *. unfold outpoint_to_bytes, outpoint_from_cursor. cbn.
  rewrite <- app_assoc. field_step (raw_codec HASH_LEN); [exact Ht|].
  field_step (le_codec 4); [exact Hi|]. by destruct t.
Qed.

#[global] Instance outpoint_canonical : Canonical outpoint_codec.
Proof.
  intros s o s' H. cbn in H. unfold outpoint_from_cursor in H.
  field_inv (raw_codec HASH_LEN) H h Hh. field_inv (le_codec 4) H i Hi.
  apply reader_ret_Ok in H as [<- <-]. split; [done|].
  cbn. unfold outpoint_to_bytes, id. cbn. by rewrite <- app_assoc.
Qed.

#[global] Instance txin_decodes : Decodes txin_codec.
Proof.
  intros [o scr q] s (Ho & Hscr & Hq). cbn in *. unfold txin_to_bytes, txin_from_cursor. cbn.
  rewrite <- !app_assoc. field_step outpoint_codec; [exact Ho|].
  field_step varint; [eapply zlen_U64; [exact Hscr|done]|]. limit_step.
  field_step (raw_codec (Z.to_nat (zlen scr))); [cbn; by rewrite to_nat_zlen|].
  field_step (le_codec 4); [exact Hq|]. done.
Qed.

#[global] Instance txin_canonical : Canonical txin_codec.
Proof.
  intros s i s' H. cbn in H. unfold txin_from_cursor in H.
  field_inv outpoint_codec H o Ho. field_inv varint H n Hn. limit_inv H.
  field_inv (raw_codec (Z.to_nat n)) H scr Hscr. field_inv (le_codec 4) H q Hq.
  apply reader_ret_Ok in H as [<- <-]. cbn in *.
  pose proof (zlen_to_nat _ _ Hn Hscr) as Hz. split; [split; [done|split; [cbn; lia|done]]|].
  unfold txin_to_bytes, id. cbn. by rewrite Hz, <- !app_assoc.
Qed.

#[global] Instance txout_decodes : Decodes txout_codec.
Proof.
  intros [v scr] s (Hv & Hscr). cbn in *. unfold txout_to_bytes, txout_from_cursor. cbn.
  rewrite <- !app_assoc. field_step (le_signed_codec 8); [split; [lia|exact Hv]|].
  field_step varint; [eapply zlen_U64; [exact Hscr|done]|]. limit_step.
  field_step (raw_codec (Z.to_nat (zlen scr))); [cbn; by rewrite to_nat_zlen|]. done.
Qed.

#[global] Instance txout_canonical : Canonical txout_codec.
Proof.
  intros s o s' H. cbn in H. unfold txout_from_cursor in H.
  field_inv (le_signed_codec 8) H v Hv. field_inv varint H n Hn. limit_inv H.
  field_inv (raw_codec (Z.to_nat n)) H scr Hscr.
  apply reader_ret_Ok in H as [<- <-]. cbn in *.
  pose proof (zlen_to_nat _ _ Hn Hscr) as Hz. split; [split; [apply Hv|cbn; lia]|].
  unfold txout_to_bytes, id. cbn. by rewrite Hz, <- !app_assoc.
Qed.

#[global] Instance tx_decodes : Decodes tx_codec.
Proof.
  intros [v ins outs ltime] s (Hv & [Hi1 Hi2] & [Ho1 Ho2] & Hl). cbn in *.
  unfold tx_to_bytes, tx_from_cursor. cbn. rewrite <- !app_assoc.
  field_step (le_signed_codec 4); [split; [lia|exact Hv]|].
  field_step varint; [eapply zlen_U64; [exact Hi1|done]|]. limit_step. rewrite to_nat_zlen.
  read_step (many_codec (length ins) txin_codec); [done|].
  field_step varint; [eapply zlen_U64; [exact Ho1|done]|]. limit_step. rewrite to_nat_zlen.
  read_step (many_codec (length outs) txout_codec); [done|].
  field_step (le_codec 4); [exact Hl|]. done.
Qed.

#[global] Instance tx_canonical : Canonical tx_codec.
Proof.
  intros s t s' H. cbn in H. unfold tx_from_cursor in H.
  field_inv (le_signed_codec 4) H v Hv. field_inv varint H n Hn. limit_inv H.
  read_inv (many_codec (Z.to_nat n) txin_codec) H ins Hi. field_inv varint H m Hm. limit_inv H.
  read_inv (many_codec (Z.to_nat m) txout_codec) H outs Ho. field_inv (le_codec 4) H ltime Hl.
  apply reader_ret_Ok in H as [<- <-]. cbn in *.
  destruct Hi as [Hi1 Hi2], Ho as [Ho1 Ho2].
  pose proof (zlen_to_nat _ _ Hn Hi1) as Hz1. pose proof (zlen_to_nat _ _ Hm Ho1) as Hz2.
  split; [split; [apply Hv|cbn; rewrite Hz1, Hz2; done]|].
  unfold tx_to_bytes. cbn. by rewrite Hz1, Hz2, <- !app_assoc.
Qed.

#[global] Instance header_decodes : Decodes header_codec.
Proof.
  intros [v [p] [m] t b n] s (Hv & Hp & Hm & Ht & Hb & Hn). cbn in *.
  unfold header_to_bytes, header_from_cursor. cbn. rewrite <- !app_assoc.
  field_step (le_signed_codec 4); [split; [lia|exact Hv]|].
  field_step (raw_codec HASH_LEN); [exact Hp|]. field_step (raw_codec HASH_LEN); [exact Hm|].
  field_step (le_codec 4); [exact Ht|]. field_step (le_codec 4); [exact Hb|].
  field_step (le_codec 4); [exact Hn|]. done.
Qed.

#[global] Instance header_canonical : Canonical header_codec.
Proof.
  intros s h s' H. cbn in H. unfold header_from_cursor in H.
  field_inv (le_signed_codec 4) H v Hv. field_inv (raw_codec HASH_LEN) H p Hp.
  field_inv (raw_codec HASH_LEN) H m Hm. field_inv (le_codec 4) H t Ht.
  field_inv (le_codec 4) H b Hb. field_inv (le_codec 4) H n Hn.
  apply reader_ret_Ok in H as [<- <-]. cbn in *. split; [split; [apply Hv|done]|].
  unfold header_to_bytes, id. cbn. by rewrite <- !app_assoc.
Qed.

#[global] Instance block_decodes : Decodes block_codec.
Proof.
  intros [h txs] s (Hh & Hn & Htx). cbn in *.
  unfold block_to_bytes, block_from_cursor. cbn. rewrite <- !app_assoc.
  field_step header_codec; [exact Hh|].
  field_step varint; [eapply zlen_U64; [exact Hn|done]|]. limit_step. rewrite to_nat_zlen.
  pose proof (rcontext_decodes tx_codec "failed to parse transaction" _) as Hc.
  read_step (many_codec (length txs)
    (Codec_ tx_to_bytes (rcontext "failed to parse transaction" tx_from_cursor) tx_ok)); [done|]. done.
Qed.

#[global] Instance block_canonical : Canonical block_codec.
Proof.
  intros s b s' H. cbn in H. unfold block_from_cursor in H.
  field_inv header_codec H h Hh. field_inv varint H n Hn. limit_inv H.
  pose proof (rcontext_canonical tx_codec "failed to parse transaction" _) as Hc.
  read_inv (many_codec (Z.to_nat n)
    (Codec_ tx_to_bytes (rcontext "failed to parse transaction" tx_from_cursor) tx_ok)) H txs Htx.
  apply reader_ret_Ok in H as [<- <-]. cbn in *. destruct Htx as [H1 H2].
  pose proof (zlen_to_nat _ _ Hn H1) as Hz. split; [by split; [|cbn; rewrite Hz]|].
  unfold block_to_bytes. cbn. by rewrite Hz, <- !app_assoc.
Qed.

(** ** Parsing never panics *)

#[global] Instance outpoint_safe : Safe outpoint_from_cursor.
Proof. unfold outpoint_from_cursor, read_u32. apply _. Qed.
#[global] Instance txin_safe : Safe txin_from_cursor.
Proof. unfold txin_from_cursor, read_u32. apply _. Qed.
#[global] Instance txout_safe : Safe txout_from_cursor.
Proof. unfold txout_from_cursor, read_i64. apply _. Qed.
#[global] Instance tx_safe : Safe tx_from_cursor.
Proof. unfold tx_from_cursor, read_i32, read_u32. apply _. Qed.
#[global] Instance header_safe : Safe header_from_cursor.
Proof. unfold header_from_cursor, read_i32, read_u32. apply _. Qed.
#[global] Instance block_safe : Safe block_from_cursor.
Proof. unfold block_from_cursor. apply _. Qed.

Lemma run_reader_safe {A} (r : reader A) `{!Safe r} bytes : run_reader r bytes <> Panic.
Proof. unfold run_reader. pose proof (no_panic (r := r) bytes) as Hr. destruct (r bytes) as [[]| |]; by cbn. Qed.

Lemma run_reader_Ok {A} (r : reader A) bytes a :
  run_reader r bytes = Ok a <-> exists rest, r bytes = Ok (a, rest).
Proof.
  unfold run_reader, mret, res_ret. destruct (r bytes) as [[a' s]| |]; cbn; split.
  - intros [= ->]. by exists s.
  - by intros (rest & [= -> _]).
  - done.
  - by intros (? & ?).
  - done.
  - by intros (? & ?).
Qed.

Lemma run_decode {A} (c : codec A) `{!Decodes c} a s :
  valid c a -> run_reader (decode c) (encode c a ++ s) = Ok a.
Proof. intros Ha. apply run_reader_Ok. exists s. by apply decode_encode. Qed.

Lemma length_header_to_bytes h : header_ok h -> length (header_to_bytes h) = 80%nat.
Proof.
  intros (_ & Hp & Hm & _). unfold hash_ok, header_to_bytes in *.
  rewrite !length_app, !length_le_bytes, Hp, Hm. done.
Qed.

Lemma hash_ok_double_sha256 `{H : Sha256} `{!Sha256Len H} d : hash_ok (double_sha256 d).
Proof. apply sha256_length. Qed.

#[export] Hint Resolve hash_ok_double_sha256 : ironcat.

(** ** Properties *)

(** [Transaction::from_bytes] accepts exactly the serializations of
    well-formed transactions (of at most [MAX_TX_SIZE] bytes, trailing bytes
    included), and returns the transaction whose [to_bytes] is the parsed
    prefix: parsing and printing are inverse to each other. *)
Theorem tx_wire_exact bytes t :
  tx_from_bytes bytes = Ok t <->
  zlen bytes <= MAX_TX_SIZE /\ tx_ok t /\ exists rest, bytes = tx_to_bytes t ++ rest.
Proof.
  unfold tx_from_bytes. destruct (Z.leb_spec (zlen bytes) MAX_TX_SIZE); [|split; [done|lia]].
  split.
  - intros (rest & [Ht ->]%(encode_decode (c := tx_codec)))%run_reader_Ok.
    split; [done|]. split; [done|]. by exists rest.
  - intros (_ & Ht & rest & ->). by apply (run_decode tx_codec).
Qed.

(** C31: [Block::from_bytes] accepts exactly the byte strings that start with
    the wire image of a well-formed block (header, canonical transaction count,
    transactions), and returns that block. *)
Theorem block_wire_exact bytes b :
  block_from_bytes bytes = Ok b <-> block_ok b /\ exists rest, bytes = block_to_bytes b ++ rest.
Proof.
  unfold block_from_bytes. split.
  - intros (rest & [Hb ->]%(encode_decode (c := block_codec)))%run_reader_Ok.
    split; [done|]. by exists rest.
  - intros (Hb & rest & ->). by apply (run_decode block_codec).
Qed.

(** no input makes the block, transaction or header parser panic. *)
Theorem parsers_never_panic bytes :
  block_from_bytes bytes <> Panic /\ tx_from_bytes bytes <> Panic /\ header_from_bytes bytes <> Panic.
Proof.
  unfold block_from_bytes, tx_from_bytes, header_from_bytes.
  split; [apply run_reader_safe, _|split; case_match; try done; apply run_reader_safe, _].
Qed.

(** the identity hash commits to the header: two well-formed headers with
    the same [block_hash] are equal, or their serializations are an explicit
    collision of double SHA-256. *)
Theorem block_hash_commits `{Sha256} h1 h2 :
  header_ok h1 -> header_ok h2 -> block_hash h1 = block_hash h2 ->
  h1 = h2 \/
  (header_to_bytes h1 <> header_to_bytes h2 /\
   double_sha256 (header_to_bytes h1) = double_sha256 (header_to_bytes h2)).
Proof.
  intros H1 H2 Hh. destruct (decide (header_to_bytes h1 = header_to_bytes h2)) as [E|]; [left|by right].
  eapply (encode_inj header_codec h1 h2 [] []); [done|done|]. cbn. by rewrite E.
Qed.

(** a concrete, computable stand-in for SHA-256, used only to run the model *)
Definition toy_sha256 : Sha256 := fun m =>
  le_bytes 32 (foldl (fun a b => (a * 257 + b2z b + 1) mod 2 ^ 256) 7 m).

#[global] Instance toy_sha256_length : Sha256Len toy_sha256.
Proof. intros m. apply length_le_bytes. Qed.

Definition genesis_header : BlockHeader :=
  mkHeader 1 HASH_ZERO (mkHash (replicate 32 x01)) 1387838302 0x1e0ffff0 588050.

Lemma block_hash_commits_witness :
  @block_hash toy_sha256 genesis_header = @block_hash toy_sha256 genesis_header.
Proof.
  assert (header_ok genesis_header) as Hok by (repeat split; done).
  destruct (@block_hash_commits toy_sha256 genesis_header genesis_header Hok Hok eq_refl); reflexivity.
Defined.
