(* ===== verification/Merkle.v ===== *)
(** * Merkle: the transaction tree of a block

    Models [compute_merkle_root] and [Block::from_bytes_and_validate] of
    src/src/types/block.rs.  The loop of the source runs on the current level;
    its fuel is the number of hashes, which is enough because every level is
    shorter than the one below it.  The theorems say that an accepted block's
    merkle root commits to its list of transactions (the flaw known as
    CVE-2012-2459 is excluded by the [mutated] flag). *)
From Stdlib Require Import Strings.Byte.
From stdpp Require Import base numbers list strings sets.
From S2P Require Import Prelude Codec Types.

Section Merkle.
Context `{H : Sha256}.

(** [level.chunks_exact(2)] *)
Fixpoint chunks2 {A} (l : list A) : list (A * A) :=
  match l with
  | a :: b :: l => (a, b) :: chunks2 l
  | _ => []
  end.

(** some complete pair of the level is a pair of equal hashes *)
Definition has_equal_pair (level : list Hash256) : bool :=
  existsb (fun '(a, b) => bool_decide (a = b)) (chunks2 level).

(** duplicate the last hash of a level of odd length *)
Definition pad_level (level : list Hash256) : list Hash256 :=
  if Nat.odd (length level) then
    match last level with
    | Some h => level ++ [h]
    | None => level
    end
  else level.

Definition hash_pair (p : Hash256 * Hash256) : Hash256 :=
  double_sha256 (as_bytes p.1 ++ as_bytes p.2).

Definition next_level (level : list Hash256) : list Hash256 :=
  map hash_pair (chunks2 (pad_level level)).

(** [while level.len() > 1] *)
Fixpoint merkle_loop (fuel : nat) (mutated : bool) (level : list Hash256) : option (Hash256 * bool) :=
  match level with
  | [] => None
  | [root] => Some (root, mutated)
  | _ => match fuel with
         | O => None
         | S fuel => merkle_loop fuel (mutated || has_equal_pair level) (next_level level)
         end
  end.

(** [None] is the panic of the [assert!] on empty input *)
Definition compute_merkle_root (txids : list Hash256) : option (Hash256 * bool) :=
  merkle_loop (length txids) false txids.

Definition block_from_bytes_and_validate (bytes : list byte) : result Block :=
  block ← block_from_bytes bytes;
  match transactions block with
  | [] => Err "block has no transactions"
  | _ =>
    '(computed, mutated) ← or_panic (compute_merkle_root (map txid (transactions block)));
    ensure (negb mutated) else "block contains duplicate transaction (CVE-2012-2459)" ;;
    ensure (bool_decide (computed = merkle_root (header block))) else "merkle root mismatch" ;;
    Ok block
  end.

(** ** The loop always finishes *)

Lemma chunks2_ind {A} (P : list A -> Prop) :
  P [] -> (forall a, P [a]) -> (forall a b l, P l -> P (a :: b :: l)) -> forall l, P l.
Proof.
  intros H0 H1 H2 l. enough (P l /\ forall a, P (a :: l)) by tauto.
  induction l as [|x l [IH1 IH2]]; [by split|]. split; [apply IH2|]. intros a. by apply H2.
Qed.

Lemma length_chunks2 {A} (l : list A) : length (chunks2 l) = Nat.div2 (length l).
Proof. induction l using chunks2_ind; cbn; congruence. Qed.

Lemma length_pad level :
  length (pad_level level) = (2 * Nat.div2 (S (length level)))%nat.
Proof.
  unfold pad_level. pose proof (Nat.div2_odd (length level)) as Ho.
  pose proof (Nat.div2_odd (S (length level))) as Hs. rewrite Nat.odd_succ, <- Nat.negb_odd in Hs.
  destruct (Nat.odd (length level)) eqn:E; cbn [negb Nat.b2n] in *; [|lia].
  destruct (last level) eqn:Hl; [rewrite length_app; cbn [length]; lia|].
  apply last_None in Hl as ->. done.
Qed.

Lemma length_next level : length (next_level level) = Nat.div2 (S (length level)).
Proof.
  unfold next_level. rewrite length_map, length_chunks2, length_pad.
  apply Nat.div2_double.
Qed.

Lemma next_shorter level :
  (2 <= length level)%nat -> (1 <= length (next_level level) < length level)%nat.
Proof.
  intros Hl. rewrite length_next. pose proof (Nat.div2_odd (S (length level))) as Hs.
  destruct (Nat.odd (S (length level))); cbn [Nat.b2n] in Hs; lia.
Qed.

Lemma merkle_loop_total fuel mutated level :
  level <> [] -> (length level <= S fuel)%nat -> is_Some (merkle_loop fuel mutated level).
Proof.
  revert mutated level. induction fuel as [|fuel IH]; intros mutated [|a [|b l]] Hne Hlen;
    cbn [merkle_loop]; try done; [cbn in Hlen; lia|].
  pose proof (next_shorter (a :: b :: l) ltac:(cbn; lia)) as Hn. apply IH; [|cbn in *; lia].
  intros E. rewrite E in Hn. cbn in Hn. lia.
Qed.

(** ** The tree of an unmutated level *)

(** [k] rounds of the loop take [level] to the root, and no round sees an equal pair *)
Inductive mtree : nat -> list Hash256 -> Hash256 -> Prop :=
| mtree_root h : mtree 0 [h] h
| mtree_round k level h :
    (2 <= length level)%nat -> has_equal_pair level = false ->
    mtree k (next_level level) h -> mtree (S k) level h.

Lemma merkle_loop_mtree fuel level h :
  merkle_loop fuel false level = Some (h, false) -> exists k, mtree k level h.
Proof.
  revert level. induction fuel as [|fuel IH]; intros [|a [|b l]]; cbn [merkle_loop]; try done.
  1-2: intros [= ->]; by exists 0%nat; constructor.
  cbn [orb]. destruct (has_equal_pair (a :: b :: l)) eqn:E.
  - intros Hl. exfalso. revert Hl. clear. generalize (next_level (a :: b :: l)). clear.
    induction fuel as [|fuel IH]; intros [|a [|b l]]; cbn [merkle_loop]; try done. apply IH.
  - intros [k Hk]%IH. exists (S k). constructor; [cbn; lia|done|done].
Qed.

Lemma mtree_above j k level h :
  mtree (j + k) level h -> mtree k (Nat.iter j next_level level) h.
Proof.
  revert level. induction j as [|j IH]; intros level Hm; [done|].
  rewrite Nat.iter_succ_r. apply IH. by inversion Hm.
Qed.

(** ** What is hashed *)

(** the strings hashed in a round *)
Definition pair_bytes (p : Hash256 * Hash256) : list byte := as_bytes p.1 ++ as_bytes p.2.
Definition level_inputs (level : list Hash256) : list (list byte) := pair_bytes <$> chunks2 (pad_level level).

(** the strings hashed by the loop *)
Fixpoint tree_inputs (fuel : nat) (level : list Hash256) : list (list byte) :=
  match level with
  | [] | [_] => []
  | _ => match fuel with
         | O => []
         | S fuel => level_inputs level ++ tree_inputs fuel (next_level level)
         end
  end.

(** the strings hashed for the transactions of a block and their root *)
Definition hashed_for (txs : list Transaction) : list (list byte) :=
  map tx_to_bytes txs ++ tree_inputs (length txs) (map txid txs).

(** no two of the strings collide *)
Definition distinct_hashes (l : list (list byte)) : Prop :=
  forall x y, x ∈ l -> y ∈ l -> double_sha256 x = double_sha256 y -> x = y.

Lemma tree_inputs_round k level h fuel i : mtree k level h -> (length level <= S fuel)%nat -> (i < k)%nat -> level_inputs (Nat.iter i next_level level) ⊆ tree_inputs fuel level.
Proof.
  intros Hm. revert fuel i. induction Hm as [h|k level h Hl Hp Hm IH]; intros fuel i Hf Hi; [lia|].
  destruct level as [|a [|b l]]; [cbn in Hl; lia|cbn in Hl; lia|]. destruct fuel as [|fuel]; [cbn in Hf; lia|].
  change (tree_inputs (S fuel) (a :: b :: l)) with (level_inputs (a :: b :: l) ++ tree_inputs fuel (next_level (a :: b :: l))). destruct i as [|i]; [cbn [Nat.iter]; set_solver|].
  rewrite Nat.iter_succ_r. pose proof (next_shorter (a :: b :: l) Hl) as Hs. assert (length (next_level (a :: b :: l)) <= S fuel)%nat as Hf' by lia. specialize (IH fuel i Hf' ltac:(lia)). set_solver.
Qed.

(** ** One round is injective *)

Definition all_ok (level : list Hash256) : Prop := Forall hash_ok level.

(** [inputs]: strings that are hashed, no two of them to the same hash *)
Section Collisions.
Context (inputs : list (list byte)) (Hinj : distinct_hashes inputs).

Lemma hash_pair_inj a b c d :
  hash_ok a -> hash_ok c -> pair_bytes (a, b) ∈ inputs -> pair_bytes (c, d) ∈ inputs -> hash_pair (a, b) = hash_pair (c, d) -> a = c /\ b = d.
Proof.
  intros Ha Hc H1 H2 E. apply (Hinj _ _ H1 H2) in E. apply app_inj_1 in E as [E1 E2]; [|cbn; by rewrite Ha, Hc].
  destruct a, b, c, d; cbn in *; split; congruence.
Qed.

Lemma chunks2_hash_inj l1 l2 :
  all_ok l1 -> all_ok l2 -> Nat.even (length l1) = true -> Nat.even (length l2) = true -> (pair_bytes <$> chunks2 l1) ⊆ inputs -> (pair_bytes <$> chunks2 l2) ⊆ inputs ->
  map hash_pair (chunks2 l1) = map hash_pair (chunks2 l2) -> l1 = l2.
Proof.
  revert l2. induction l1 as [|a|a b l1 IH] using chunks2_ind; intros l2 H1 H2 E1 E2 I1 I2; cbn in E1; [|done|].
  - destruct l2 as [|c [|d l2]]; cbn in *; [done|done|done].
  - destruct l2 as [|c [|d l2]]; cbn in E2 |- *; [done|done|]. intros E.
    assert (hash_pair (a, b) = hash_pair (c, d)) as Eh by congruence.
    assert (map hash_pair (chunks2 l1) = map hash_pair (chunks2 l2)) as Et by congruence. clear E.
    unfold all_ok in *. rewrite !Forall_cons in H1, H2. cbn [chunks2 fmap list_fmap] in I1, I2.
    destruct (hash_pair_inj a b c d) as [-> ->]; [naive_solver|naive_solver|apply I1; by left|apply I2; by left|done|].
    rewrite (IH l2); [done|naive_solver|naive_solver|done|done|intros x Hx; apply I1; by right|intros x Hx; apply I2; by right|done].
Qed.
End Collisions.

Lemma pad_ok level : all_ok level -> all_ok (pad_level level).
Proof.
  unfold pad_level, all_ok. intros Hl. case_match; [|done].
  destruct (last level) eqn:E; [|done]. apply Forall_app. split; [done|].
  apply Forall_singleton. rewrite Forall_forall in Hl. apply Hl. by apply last_Some_elem_of.
Qed.

Lemma even_pad level : Nat.even (length (pad_level level)) = true.
Proof. rewrite length_pad. apply Nat.even_spec. by eexists. Qed.

(** a level padded to an even one ends with an equal pair *)
Lemma equal_pair_of_pad l x :
  Nat.odd (length l) = true -> last l = Some x -> has_equal_pair (l ++ [x]) = true.
Proof.
  induction l as [|a|a b l IH] using chunks2_ind; intros Ho Hx; [done| |].
  - cbn in Hx. injection Hx as ->. unfold has_equal_pair. cbn. by rewrite bool_decide_true.
  - destruct l as [|c l]; [done|]. unfold has_equal_pair in *.
    cbn [app chunks2 existsb]. apply orb_true_iff. right. apply IH; [exact Ho|].
    rewrite !last_cons_cons in Hx. done.
Qed.

Lemma pad_inj l1 l2 :
  has_equal_pair l1 = false -> has_equal_pair l2 = false -> pad_level l1 = pad_level l2 -> l1 = l2.
Proof.
  assert (forall l : list Hash256, Nat.odd (length l) = true -> exists x, last l = Some x) as Hlast.
  { intros [|a l]; [done|]. intros _. destruct (last (a :: l)) eqn:E; [by eexists|].
    by apply last_None in E. }
  unfold pad_level. intros H1 H2.
  destruct (Nat.odd (length l1)) eqn:O1, (Nat.odd (length l2)) eqn:O2; [| | |done].
  - destruct (Hlast l1 O1) as [x ->], (Hlast l2 O2) as [y ->]. by intros [? _]%app_inj_2.
  - destruct (Hlast l1 O1) as [x Hx]. rewrite Hx. intros <-.
    by rewrite (equal_pair_of_pad l1 x O1 Hx) in H2.
  - destruct (Hlast l2 O2) as [x Hx]. rewrite Hx. intros ->.
    by rewrite (equal_pair_of_pad l2 x O2 Hx) in H1.
Qed.

Lemma next_inj inputs l1 l2 : distinct_hashes inputs ->
  all_ok l1 -> all_ok l2 -> has_equal_pair l1 = false -> has_equal_pair l2 = false -> level_inputs l1 ⊆ inputs -> level_inputs l2 ⊆ inputs ->
  next_level l1 = next_level l2 -> l1 = l2.
Proof.
  intros Hinj A1 A2 H1 H2 I1 I2 E. unfold next_level in E. apply pad_inj; [done|done|].
  apply (chunks2_hash_inj inputs Hinj); auto using pad_ok, even_pad.
Qed.

(** ** Trees of the same root *)

Section Injective.
Context `{!Sha256Len H} (inputs : list (list byte)) (Hinj : distinct_hashes inputs).

(** the strings of [k] rounds are among the inputs *)
Definition rounds_in (k : nat) (level : list Hash256) : Prop := forall i, (i < k)%nat -> level_inputs (Nat.iter i next_level level) ⊆ inputs.

Lemma rounds_next k level : rounds_in (S k) level -> rounds_in k (next_level level).
Proof. intros Hr i Hi. rewrite <- Nat.iter_succ_r. apply Hr. lia. Qed.

Lemma next_ok level : all_ok (next_level level).
Proof.
  unfold all_ok, next_level. apply Forall_map, Forall_true. intros p. apply hash_ok_double_sha256.
Qed.

Lemma iter_next_ok j level : all_ok level -> all_ok (Nat.iter j next_level level).
Proof. destruct j; [done|]. intros _. apply next_ok. Qed.

Lemma mtree_inj k j l1 l2 h :
  all_ok l1 -> all_ok l2 -> rounds_in k l1 -> rounds_in (j + k) l2 -> mtree k l1 h -> mtree (j + k) l2 h ->
  l1 = Nat.iter j next_level l2.
Proof.
  revert l1 l2. induction k as [|k IH]; intros l1 l2 A1 A2 R1 R2 M1 M2.
  - apply mtree_above in M2. inversion M1; inversion M2; subst; congruence.
  - pose proof (mtree_above _ _ _ _ M2) as M2'. replace (j + S k)%nat with (S (j + k)) in M2, R2 by lia.
    assert (mtree (j + k) (next_level l2) h) as M2n by by inversion M2.
    inversion M1 as [|? ? ? Hl1 Hp1 Hm1]; inversion M2' as [|? ? ? Hl2 Hp2 Hm2]; subst.
    pose proof (IH _ _ (next_ok l1) (next_ok l2) (rounds_next _ _ R1) (rounds_next _ _ R2) Hm1 M2n) as E.
    rewrite <- Nat.iter_succ_r in E. cbn in E.
    apply (next_inj inputs); auto using iter_next_ok; [apply (R1 0%nat); lia|apply R2; lia].
Qed.

(** the identities of two transaction lists agree only if the lists do *)
Lemma txids_inj l1 l2 :
  Forall tx_ok l1 -> Forall tx_ok l2 -> map tx_to_bytes l1 ⊆ inputs -> map tx_to_bytes l2 ⊆ inputs -> map txid l1 = map txid l2 -> l1 = l2.
Proof.
  intros H1. revert l2. induction H1 as [|t1 l1 Ht1 Hl1 IH]; intros [|t2 l2] H2 I1 I2 E; try done.
  apply Forall_cons in H2 as [Ht2 H2]. cbn [map] in I1, I2.
  assert (txid t1 = txid t2) as Eh by (cbn in E; congruence).
  assert (map txid l1 = map txid l2) as Et by (cbn in E; congruence).
  assert (tx_to_bytes t1 = tx_to_bytes t2) as Eb by (apply Hinj; [apply I1; by left|apply I2; by left|done]).
  rewrite (IH l2 H2); [|intros x Hx; apply I1; by right|intros x Hx; apply I2; by right|done].
  f_equal. eapply (encode_inj tx_codec t1 t2 [] []); [done|done|].
  change (tx_to_bytes t1 ++ [] = tx_to_bytes t2 ++ []). by rewrite Eb.
Qed.

Lemma txids_ok l : all_ok (map txid l).
Proof. apply Forall_map, Forall_true. intros t. apply hash_ok_double_sha256. Qed.

(** the id of a transaction that is an inner node has a 64-byte preimage *)
Lemma txid_inner_node t level :
  all_ok level -> tx_to_bytes t ∈ inputs -> level_inputs level ⊆ inputs -> txid t ∈ next_level level -> length (tx_to_bytes t) = 64%nat.
Proof.
  intros A It Il Hin. unfold next_level in Hin. apply list_elem_of_fmap in Hin as ([a b] & E & Hin).
  assert (hash_ok a /\ hash_ok b) as [Ha Hb].
  { pose proof (pad_ok _ A) as A'. revert A' Hin. clear. generalize (pad_level level).
    induction l as [|x|x y l IH] using chunks2_ind; unfold all_ok in *; cbn; [set_solver|set_solver|].
    rewrite !Forall_cons. set_unfold. naive_solver. }
  assert (tx_to_bytes t = pair_bytes (a, b)) as Eb.
  { apply Hinj; [done| |done]. apply Il. unfold level_inputs. apply list_elem_of_fmap. by exists (a, b). }
  rewrite Eb. unfold pair_bytes. rewrite length_app. cbn [fst snd]. unfold hash_ok in *. rewrite Ha, Hb. done.
Qed.

(** the transactions and all rounds of the loop *)
Lemma hashed_rounds txs k h : mtree k (map txid txs) h -> hashed_for txs ⊆ inputs -> map tx_to_bytes txs ⊆ inputs /\ rounds_in k (map txid txs).
Proof.
  intros Hm Hi. unfold hashed_for in Hi. split; [set_solver|]. intros i Hk. etransitivity; [eapply (tree_inputs_round k _ h (length txs)); [done|rewrite length_map; lia|done]|]. set_solver.
Qed.

Lemma merkle_commits txs1 txs2 k1 k2 h :
  Forall tx_ok txs1 -> Forall tx_ok txs2 -> hashed_for txs1 ⊆ inputs -> hashed_for txs2 ⊆ inputs ->
  Forall (fun t => length (tx_to_bytes t) <> 64%nat) (txs1 ++ txs2) ->
  mtree k1 (map txid txs1) h -> mtree k2 (map txid txs2) h -> txs1 = txs2.
Proof.
  revert txs1 txs2 k1 k2.
  enough (forall txs1 txs2 k j,
    Forall tx_ok txs1 -> Forall tx_ok txs2 -> hashed_for txs1 ⊆ inputs -> hashed_for txs2 ⊆ inputs ->
    Forall (fun t => length (tx_to_bytes t) <> 64%nat) txs1 ->
    mtree k (map txid txs1) h -> mtree (j + k) (map txid txs2) h -> txs1 = txs2) as Hw.
  { intros txs1 txs2 k1 k2 O1 O2 I1 I2 [N1 N2]%Forall_app M1 M2.
    destruct (Nat.le_ge_cases k1 k2) as [Hk|Hk].
    - apply (Hw txs1 txs2 k1 (k2 - k1)%nat); auto. by rewrite Nat.sub_add.
    - symmetry. apply (Hw txs2 txs1 k2 (k1 - k2)%nat); auto. by rewrite Nat.sub_add. }
  intros txs1 txs2 k j O1 O2 I1 I2 N1 M1 M2. destruct (hashed_rounds _ _ _ M1 I1) as [B1 R1]. destruct (hashed_rounds _ _ _ M2 I2) as [B2 R2].
  pose proof (mtree_inj k j _ _ h (txids_ok txs1) (txids_ok txs2) R1 R2 M1 M2) as E.
  destruct j as [|j]; [by apply txids_inj|].
  destruct txs1 as [|t txs1].
  { inversion M1; subst; cbn in *; lia. }
  apply Forall_cons in N1 as [N1 _]. destruct N1.
  change (map txid (t :: txs1) = next_level (Nat.iter j next_level (map txid txs2))) in E.
  apply (txid_inner_node t (Nat.iter j next_level (map txid txs2))); [apply iter_next_ok, txids_ok|apply B1; by left|apply R2; lia|rewrite <- E; by left].
Qed.
End Injective.

Lemma validate_Ok bytes b :
  block_from_bytes_and_validate bytes = Ok b ->
  block_from_bytes bytes = Ok b /\
  compute_merkle_root (map txid (transactions b)) = Some (merkle_root (header b), false).
Proof.
  unfold block_from_bytes_and_validate.
  destruct (block_from_bytes bytes) as [b'| |] eqn:E; cbn; [|done|done].
  destruct (transactions b') as [|t ts] eqn:Et; [done|].
  destruct (compute_merkle_root _) as [[c m]|] eqn:Em; cbn; [|done].
  destruct m; cbn; [done|]. case_bool_decide; [|done]. intros [= <-]. subst. rewrite Et. done.
Qed.

Lemma merkle_loop_S fuel m a b l :
  merkle_loop (S fuel) m (a :: b :: l) =
  merkle_loop fuel (m || has_equal_pair (a :: b :: l)) (next_level (a :: b :: l)).
Proof. done. Qed.

(** more fuel does not change the result, and the flag is only ever raised *)
Lemma merkle_loop_mono fuel fuel' m level h b :
  merkle_loop fuel m level = Some (h, b) -> (fuel <= fuel')%nat ->
  merkle_loop fuel' m level = Some (h, b).
Proof.
  revert fuel' m level. induction fuel as [|fuel IH]; intros [|fuel'] m [|x [|y l]];
    cbn [merkle_loop]; try done; [lia|]. intros Hl Hf. apply IH; [done|lia].
Qed.

Lemma merkle_loop_raise fuel m level h b :
  merkle_loop fuel m level = Some (h, b) -> merkle_loop fuel true level = Some (h, true).
Proof.
  revert m level. induction fuel as [|fuel IH]; intros m [|x [|y l]]; cbn [merkle_loop]; try done.
  1-2: by intros [= -> ->]. cbn [orb]. apply IH.
Qed.

(** ** Properties *)

(** the loop of [compute_merkle_root] terminates: every non-empty list of
    hashes has a root, within as many rounds as there are hashes. *)
Theorem merkle_root_total txids :
  txids <> [] <-> is_Some (compute_merkle_root txids).
Proof.
  unfold compute_merkle_root. split.
  - intros Hne. apply merkle_loop_total; [done|lia].
  - by intros [? ?] ->.
Qed.

(** CVE-2012-2459.  A list of odd length (above one) and the list with its
    last hash repeated have the same root, and for the longer one the [mutated]
    flag is raised, so that [from_bytes_and_validate] rejects it. *)
Theorem merkle_duplicate_flagged txids x :
  Nat.odd (length txids) = true -> (1 < length txids)%nat -> last txids = Some x ->
  exists root m, compute_merkle_root txids = Some (root, m) /\
                 compute_merkle_root (txids ++ [x]) = Some (root, true).
Proof.
  intros Ho Hl Hx. unfold compute_merkle_root.
  destruct (merkle_loop_total (length txids) false txids) as [[r m] Hr]; [by destruct txids|lia|].
  exists r, m. split; [done|]. destruct txids as [|a [|b l]]; [done|cbn in *; lia|].
  rewrite length_app. cbn [length Nat.add] in Hr |- *. rewrite merkle_loop_S in Hr.
  cbn [app]. rewrite merkle_loop_S. change (a :: b :: l ++ [x]) with ((a :: b :: l) ++ [x]).
  rewrite (equal_pair_of_pad (a :: b :: l) x Ho Hx), orb_true_r.
  assert (next_level ((a :: b :: l) ++ [x]) = next_level (a :: b :: l)) as ->.
  { unfold next_level, pad_level. rewrite length_app, Ho, Hx.
    change (length [x]) with 1%nat. rewrite Nat.add_1_r, Nat.odd_succ, <- Nat.negb_odd, Ho. done. }
  eapply merkle_loop_mono; [eapply merkle_loop_raise, Hr|cbn; lia].
Qed.

(** C14: the merkle root commits to the transactions.  Two accepted blocks with
    the same root in their headers contain the same list of transactions,
    whatever their lengths, when no two of the strings that are hashed for them (the
    serialized transactions, and the pairs of hashes of every round of the loop) collide under
    double SHA-256.  Transactions whose serialization is exactly 64 bytes long, which could
    pass for an inner node of the tree, are excepted. *)
Theorem merkle_root_commits `{!Sha256Len H} bytes1 bytes2 b1 b2 :
  block_from_bytes_and_validate bytes1 = Ok b1 ->
  block_from_bytes_and_validate bytes2 = Ok b2 ->
  merkle_root (header b1) = merkle_root (header b2) ->
  Forall (fun t => length (tx_to_bytes t) <> 64%nat) (transactions b1 ++ transactions b2) ->
  distinct_hashes (hashed_for (transactions b1) ++ hashed_for (transactions b2)) ->
  transactions b1 = transactions b2.
Proof.
  intros [P1 M1]%validate_Ok [P2 M2]%validate_Ok Hroot Hlen Hinj.
  apply run_reader_Ok in P1 as (r1 & [(_ & _ & O1) _]%(encode_decode (c := block_codec))).
  apply run_reader_Ok in P2 as (r2 & [(_ & _ & O2) _]%(encode_decode (c := block_codec))).
  apply merkle_loop_mtree in M1 as [k1 M1]. apply merkle_loop_mtree in M2 as [k2 M2].
  rewrite Hroot in M1. eapply merkle_commits; [exact Hinj|done|done|intros x Hx; apply elem_of_app; by left|intros x Hx; apply elem_of_app; by right|done|done|done].
Qed.
End Merkle.

Definition sample_coinbase (n : Z) : Transaction :=
  mkTx 1 [mkTxIn OUTPOINT_COINBASE [x03; z2b n; x00; x00] 0xffffffff] [mkTxOut (50 * 10 ^ 8) [x51]] 0.

Definition sample_block : Block :=
  let txs := [sample_coinbase 1; sample_coinbase 2; sample_coinbase 3] in
  let root := match @compute_merkle_root toy_sha256 (map (@txid toy_sha256) txs) with
              | Some (r, _) => r
              | None => HASH_ZERO
              end in
  mkBlock (mkHeader 2 HASH_ZERO root 1400000000 0x1e0ffff0 0) txs.

Lemma merkle_duplicate_flagged_witness :
  exists root m,
    @compute_merkle_root toy_sha256 [mkHash [x01]; mkHash [x02]; mkHash [x03]] = Some (root, m) /\
    @compute_merkle_root toy_sha256 ([mkHash [x01]; mkHash [x02]; mkHash [x03]] ++ [mkHash [x03]]) =
      Some (root, true).
Proof. apply merkle_duplicate_flagged; [reflexivity|cbn; lia|reflexivity]. Defined.

(** another block with the same root; six strings are hashed for it, and they have six hashes *)
Definition other_block : Block := mkBlock (mkHeader 2 HASH_ZERO (merkle_root (header sample_block)) 1400000600 0x1e0ffff0 7) (transactions sample_block).

Definition distinct_check (l : list (list byte)) : bool :=
  forallb (fun x => forallb (fun y => bool_decide (x = y) || negb (bool_decide (@double_sha256 toy_sha256 x = @double_sha256 toy_sha256 y))) l) l.

Lemma distinct_check_ok l : distinct_check l = true -> @distinct_hashes toy_sha256 l.
Proof.
  unfold distinct_check. intros Hc x y Hx Hy E. rewrite forallb_forall in Hc. specialize (Hc x (proj1 (list_elem_of_In _ _) Hx)). rewrite forallb_forall in Hc. specialize (Hc y (proj1 (list_elem_of_In _ _) Hy)).
  rewrite (bool_decide_true _ E), orb_false_r in Hc. by apply bool_decide_eq_true in Hc.
Qed.

Lemma sample_hashes_distinct : @distinct_hashes toy_sha256 (@hashed_for toy_sha256 (transactions sample_block) ++ @hashed_for toy_sha256 (transactions other_block)).
Proof. apply distinct_check_ok. vm_compute. reflexivity. Qed.

Lemma other_header : header sample_block <> header other_block.
Proof. intros E. apply (f_equal nonce) in E. discriminate E. Qed.

Lemma merkle_root_commits_witness :
  transactions sample_block = transactions other_block /\ header sample_block <> header other_block /\ length (@hashed_for toy_sha256 (transactions sample_block)) = 6%nat.
Proof.
  split; [|split; [exact other_header|vm_compute; reflexivity]].
  apply (@merkle_root_commits toy_sha256 toy_sha256_length
           (block_to_bytes sample_block) (block_to_bytes other_block)).
  - vm_compute. reflexivity.
  - vm_compute. reflexivity.
  - reflexivity.
  - apply (bool_decide_unpack _). vm_compute. exact Logic.I.
  - exact sample_hashes_distinct.
Defined.
