(* ===== verification/Compact.v ===== *)
(** * Compact: 256-bit targets and the nBits format

    Models src/src/difficulty/compact.rs.  [U256] (generated by the crate uint)
    is an integer below [2^256]; what its [+] and [*] do when the exact result
    does not fit is a parameter, the class [U256Overflow], so that a theorem
    that needs no property of it holds whatever the crate does there. *)
From stdpp Require Import base numbers list strings.
From S2P Require Import Prelude.

(** outcome of a U256 operator whose exact result is given: [None] is a panic *)
Class U256Overflow : Type := u256_overflow : Z -> option Z.

Definition u256_fit `{U256Overflow} {E} (z : Z) : res E Z :=
  if inU 256 z then Ok z else or_panic (u256_overflow z).
Definition u256_add `{U256Overflow} {E} (a b : Z) : res E Z := u256_fit (a + b).
Definition u256_mul `{U256Overflow} {E} (a b : Z) : res E Z := u256_fit (a * b).

(** the shifts drop what leaves the 256 bits *)
Definition u256_shl (a n : Z) : Z := Z.shiftl a n mod 2 ^ 256.
Definition u256_shr (a n : Z) : Z := Z.shiftr a n.
Definition u256_not (a : Z) : Z := 2 ^ 256 - 1 - a.

Definition compact_to_target (compact : Z) : Z * bool * bool :=
  let size := Z.shiftr compact 24 in
  let word := Z.land compact 0x007fffff in
  let '(word, target) :=
    if size <=? 3 then
      let shift := 8 * (3 - size) in
      let word := Z.shiftr word shift in
      (word, word)
    else
      let shift := 8 * (size - 3) in
      (word, u256_shl word shift) in
  let negative := negb (word =? 0) && negb (Z.land compact 0x00800000 =? 0) in
  let overflow := negb (word =? 0) &&
    ((size >? 34) || ((word >? 0xff) && (size >? 33)) || ((word >? 0xffff) && (size >? 32))) in
  (target, negative, overflow).

Definition leading_zeros_u64 (w : Z) : Z := if w =? 0 then 64 else 63 - Z.log2 w.

(** the loop over the four 64-bit words, most significant first *)
Fixpoint bits_u256_loop (val : Z) (pos : nat) : Z :=
  let word := Z.shiftr val (64 * Z.of_nat pos) mod 2 ^ 64 in
  if negb (word =? 0) then
    let bit_pos := 63 - leading_zeros_u64 word in
    64 * Z.of_nat pos + bit_pos + 1
  else match pos with
       | O => 0
       | S pos => bits_u256_loop val pos
       end.

Definition bits_u256 (val : Z) : Z := bits_u256_loop val 3.

Definition div_ceil (a b : Z) : Z := (a + b - 1) / b.
Definition low_u64 (a : Z) : Z := a mod 2 ^ 64.
Definition as_u32 (a : Z) : Z := a mod 2 ^ 32.

Definition target_to_compact (target : Z) : Z :=
  let size := div_ceil (bits_u256 target) 8 in
  let compact :=
    if size <=? 3 then as_u32 (Z.shiftl (low_u64 target) (8 * (3 - size)) mod 2 ^ 64)
    else as_u32 (low_u64 (u256_shr target (8 * (size - 3)))) in
  let '(compact, size) :=
    if negb (Z.land compact 0x00800000 =? 0) then (Z.shiftr compact 8, size + 1)
    else (compact, size) in
  let compact := Z.land compact 0x007fffff in
  Z.lor compact (as_u32 (Z.shiftl size 24)).

Definition work_from_bits `{U256Overflow} {E} (compact : Z) : res E Z :=
  let '(target, negative, overflow) := compact_to_target compact in
  if negative || overflow || (target =? 0) then Ok 0
  else d ← u256_add target 1; u256_add (u256_not target / d) 1.

Definition target_of (compact : Z) : Z := (compact_to_target compact).1.1.

(** ** Bit length *)

Lemma shiftr_pos_iff a n : 0 <= a -> 0 <= n -> Z.shiftr a n <> 0 <-> 2 ^ n <= a.
Proof.
  intros Ha Hn. rewrite Z.shiftr_div_pow2 by done.
  pose proof (Z.pow_pos_nonneg 2 n ltac:(lia) Hn).
  destruct (Z.lt_ge_cases a (2 ^ n)).
  - rewrite Z.div_small by lia. lia.
  - pose proof (Z.div_str_pos a (2 ^ n)). lia.
Qed.

(** one 64-bit word of the scan *)
Lemma word_scan val n :
  0 <= n -> 0 <= val < 2 ^ (n + 64) ->
  let word := Z.shiftr val n mod 2 ^ 64 in
  (word = 0 /\ val < 2 ^ n) \/
  (word <> 0 /\ val <> 0 /\ n + (63 - leading_zeros_u64 word) + 1 = Z.log2 val + 1).
Proof.
  intros Hn Hv word. pose proof (Z.pow_pos_nonneg 2 n ltac:(lia) Hn) as Hp.
  rewrite Z.pow_add_r in Hv by lia.
  assert (word = Z.shiftr val n) as ->.
  { apply Z.mod_small. rewrite Z.shiftr_div_pow2 by done. split; [apply Z.div_pos; lia|].
    apply Z.div_lt_upper_bound; lia. }
  pose proof (shiftr_pos_iff val n ltac:(lia) Hn) as Hnz. unfold leading_zeros_u64.
  destruct (Z.eqb_spec (Z.shiftr val n) 0) as [E|E]; [left; lia|right].
  apply Hnz in E as Hge. rewrite Z.log2_shiftr by lia.
  pose proof (proj1 (Z.log2_le_pow2 val n ltac:(lia)) Hge). lia.
Qed.

Lemma bits_u256_loop_spec val pos :
  0 <= val < 2 ^ (64 * Z.of_nat pos + 64) ->
  bits_u256_loop val pos = if val =? 0 then 0 else Z.log2 val + 1.
Proof.
  induction pos as [|pos IH]; intros Hv; cbn [bits_u256_loop];
    match goal with |- context [Z.shiftr ?v ?n] =>
      destruct (word_scan v n ltac:(lia) Hv) as [[-> Hlt]|(Hnz & Hval & ->)] end;
    rewrite ?Z.eqb_refl, ?(proj2 (Z.eqb_neq _ _) Hnz), ?(proj2 (Z.eqb_neq _ _) Hval); try done; cbn [negb].
  - by replace val with 0 by (cbn in Hlt; lia).
  - apply IH. replace (64 * Z.of_nat pos + 64) with (64 * Z.of_nat (S pos)) by lia. lia.
Qed.

Lemma bits_u256_eq val : U 256 val -> bits_u256 val = if val =? 0 then 0 else Z.log2 val + 1.
Proof. intros Hv. apply bits_u256_loop_spec. exact Hv. Qed.

(** ** Normal form of the encoding

    [size] is the base-256 length chosen and [m] the mantissa:
    [m = floor (t * 2^24 / 256^size)], kept below [2^23]. *)
Record compact_form (t size m : Z) : Prop := {
  cf_size : 0 <= size <= 33;
  cf_mant : m = t * 2 ^ 24 / 256 ^ size;
  cf_hi : m < 2 ^ 23;
  cf_lo : 0 < t -> 2 ^ 15 <= m /\ 1 <= size;
}.

Lemma pow256 n : 0 <= n -> 256 ^ n = 2 ^ (8 * n).
Proof. intros Hn. change 256 with (2 ^ 8). by rewrite <- Z.pow_mul_r by lia. Qed.

Lemma land_testbit_ne x n : 0 <= n -> Z.land x (2 ^ n) = 0 <-> Z.testbit x n = false.
Proof.
  intros Hn. split.
  - intros E. pose proof (f_equal (fun z => Z.testbit z n) E) as Eb. cbn beta in Eb.
    rewrite Z.land_spec, Z.pow2_bits_true, Z.bits_0, andb_true_r in Eb by done. done.
  - intros E. apply Z.bits_inj'. intros k Hk. rewrite Z.land_spec, Z.bits_0.
    destruct (Z.eq_dec k n) as [->|Hne]; [by rewrite E|].
    rewrite Z.pow2_bits_false by lia. apply andb_false_r.
Qed.

(** bit 23 of a 24-bit number *)
Lemma land_sign_bit x : 0 <= x < 2 ^ 24 -> Z.land x 0x00800000 = 0 <-> x < 2 ^ 23.
Proof.
  intros Hx. change 0x00800000 with (2 ^ 23). rewrite land_testbit_ne by lia.
  rewrite Z.testbit_false by lia. rewrite Z.mod_small.
  - split; intros Hd; [|by rewrite Z.div_small by lia].
    apply Z.nle_gt. intros Hc. pose proof (Z.div_str_pos x (2 ^ 23) ltac:(lia)). lia.
  - split; [apply Z.div_pos; lia|apply Z.div_lt_upper_bound; lia].
Qed.

(** the base-256 length of a non-zero target *)
Lemma byte_length t size :
  U 256 t -> size = div_ceil (bits_u256 t) 8 ->
  0 <= size <= 32 /\ (0 < t -> 1 <= size /\ 256 ^ (size - 1) <= t) /\ t < 256 ^ size.
Proof.
  intros Ht ->. rewrite bits_u256_eq by done. unfold div_ceil.
  destruct (Z.eqb_spec t 0) as [->|Hne].
  { change ((0 + 8 - 1) / 8) with 0. lia. }
  assert (0 < t) as Hpos by range. pose proof (Z.log2_spec t Hpos) as [Hlo Hhi].
  pose proof (Z.log2_nonneg t). assert (Z.log2 t < 256) as Hlg by (apply Z.log2_lt_pow2; range).
  set (k := (Z.log2 t + 1 + 8 - 1) / 8).
  assert (8 * k - 8 <= Z.log2 t < 8 * k) as Hk by (subst k; Z.div_mod_to_equations; lia).
  split; [lia|]. split; [intros _; split; [lia|]|].
  - rewrite pow256 by lia. refine (Z.le_trans _ _ _ _ Hlo). apply Z.pow_le_mono_r; lia.
  - rewrite pow256 by lia. refine (Z.lt_le_trans _ _ _ Hhi _). apply Z.pow_le_mono_r; lia.
Qed.

(** the 24-bit mantissa for that length *)
Lemma mantissa_eq t size :
  U 256 t -> 0 <= size <= 32 -> t < 256 ^ size ->
  (if size <=? 3 then as_u32 (Z.shiftl (low_u64 t) (8 * (3 - size)) mod 2 ^ 64)
   else as_u32 (low_u64 (u256_shr t (8 * (size - 3))))) = t * 2 ^ 24 / 256 ^ size /\
  0 <= t * 2 ^ 24 / 256 ^ size < 2 ^ 24.
Proof.
  intros Ht Hs Hlt. assert (0 < 256 ^ size) as Hp by (apply Z.pow_pos_nonneg; lia).
  assert (0 <= t * 2 ^ 24 / 256 ^ size < 2 ^ 24) as Hm.
  { split; [apply Z.div_pos; range|apply Z.div_lt_upper_bound; [lia|]]. range. }
  split; [|done]. unfold as_u32, low_u64, u256_shr. destruct (Z.leb_spec size 3).
  - assert (256 ^ size * 256 ^ (3 - size) = 2 ^ 24) as Hsplit.
    { rewrite <- Z.pow_add_r by lia. by replace (size + (3 - size)) with 3 by lia. }
    assert (t * 2 ^ 24 / 256 ^ size = t * 256 ^ (3 - size)) as E.
    { rewrite <- Hsplit, Z.mul_comm, <- Z.mul_assoc, (Z.mul_comm (256 ^ size)).
      rewrite Z.div_mul by lia. lia. }
    rewrite E in *. rewrite (Z.mod_small t) by (split; [range|]; rewrite pow256 in Hlt by lia;
      refine (Z.lt_trans _ _ _ Hlt _); apply Z.pow_lt_mono_r; lia).
    rewrite Z.shiftl_mul_pow2, <- pow256 by lia. rewrite (Z.mod_small _ (2 ^ 64)) by range. rewrite Z.mod_small; range.
  - assert (256 ^ size = 2 ^ 24 * 256 ^ (size - 3)) as Hsplit.
    { replace (2 ^ 24) with (256 ^ 3) by done. rewrite <- Z.pow_add_r by lia. f_equal. lia. }
    assert (t * 2 ^ 24 / 256 ^ size = t / 256 ^ (size - 3)) as E.
    { rewrite Hsplit, Z.mul_comm. apply Z.div_mul_cancel_l; [|done]. apply Z.pow_nonzero; lia. }
    rewrite E in *. rewrite Z.shiftr_div_pow2, <- pow256 by lia. rewrite (Z.mod_small _ (2 ^ 64)) by range. rewrite Z.mod_small; range.
Qed.

Lemma div_div_256 a b : 0 < b -> a / b / 256 = a / (b * 256).
Proof. intros Hb. by rewrite Z.div_div by lia. Qed.

Lemma target_to_compact_form t :
  U 256 t -> exists size m, compact_form t size m /\ target_to_compact t = m + size * 2 ^ 24.
Proof.
  intros Ht. unfold target_to_compact.
  destruct (byte_length t _ Ht eq_refl) as (Hs & Hlo & Hhi).
  set (size := div_ceil (bits_u256 t) 8) in *. clearbody size.
  destruct (mantissa_eq t size Ht Hs Hhi) as [-> Hm].
  assert (0 < 256 ^ size) as Hp by (apply Z.pow_pos_nonneg; lia).
  assert (0 < t -> 2 ^ 16 <= t * 2 ^ 24 / 256 ^ size) as Hm16.
  { intros H0. destruct (Hlo H0) as [H1 Hge]. apply Z.div_le_lower_bound; [lia|].
    replace (256 ^ size) with (256 ^ (size - 1) * 256)
      by (rewrite Z.mul_comm, <- Z.pow_succ_r by lia; f_equal; lia). lia. }
  pose proof (land_sign_bit _ Hm) as Hsb.
  destruct (Z.eqb_spec (Z.land (t * 2 ^ 24 / 256 ^ size) 0x00800000) 0) as [E|E]; cbn [negb].
  - exists size, (t * 2 ^ 24 / 256 ^ size). apply Hsb in E. split.
    + constructor; [lia|done|lia|]. intros H0. pose proof (Hm16 H0). pose proof (Hlo H0). lia.
    + change 0x007fffff with (Z.ones 23). rewrite Z.land_ones, Z.mod_small by lia.
      unfold as_u32. rewrite Z.mod_small, lor_shiftl_add by (rewrite ?Z.shiftl_mul_pow2; lia). done.
  - exists (size + 1), (t * 2 ^ 24 / 256 ^ (size + 1)).
    assert (256 ^ (size + 1) = 256 ^ size * 256) as Hs1 by (rewrite Z.pow_add_r; lia).
    assert (2 ^ 23 <= t * 2 ^ 24 / 256 ^ size) as Hge by lia.
    assert (Z.shiftr (t * 2 ^ 24 / 256 ^ size) 8 = t * 2 ^ 24 / 256 ^ (size + 1)) as ->.
    { rewrite Z.shiftr_div_pow2, Hs1 by lia. by apply div_div_256. }
    assert (2 ^ 15 <= t * 2 ^ 24 / 256 ^ (size + 1) < 2 ^ 16) as Hm'.
    { rewrite Hs1, <- div_div_256 by lia. set (q := t * 2 ^ 24 / 256 ^ size) in *. clearbody q. Z.div_mod_to_equations. lia. }
    split; [constructor; [lia|done|lia|lia]|].
    change 0x007fffff with (Z.ones 23). rewrite Z.land_ones, Z.mod_small by lia.
    unfold as_u32. rewrite Z.mod_small, lor_shiftl_add by (rewrite ?Z.shiftl_mul_pow2; lia). done.
Qed.

(** ** Decoding a normal form *)

Lemma compact_fields m size :
  0 <= m < 2 ^ 23 -> 0 <= size ->
  Z.shiftr (m + size * 2 ^ 24) 24 = size /\ Z.land (m + size * 2 ^ 24) 0x007fffff = m /\
  Z.land (m + size * 2 ^ 24) 0x00800000 = 0.
Proof.
  intros Hm Hs. split; [|split].
  - rewrite Z.shiftr_div_pow2, Z.div_add, Z.div_small by lia. lia.
  - change 0x007fffff with (Z.ones 23). rewrite Z.land_ones by lia.
    replace (m + size * 2 ^ 24) with (m + (size * 2) * 2 ^ 23) by lia.
    rewrite Z.mod_add, Z.mod_small by lia. done.
  - change 0x00800000 with (2 ^ 23). apply land_testbit_ne; [lia|].
    rewrite Z.testbit_false by lia. replace (m + size * 2 ^ 24) with (m + (size * 2) * 2 ^ 23) by lia.
    rewrite Z.div_add, Z.div_small by lia. rewrite Z.add_0_l, Z.mod_mul by lia. done.
Qed.

Lemma decode_form m size :
  0 <= m < 2 ^ 23 -> 0 <= size <= 33 -> (size = 33 -> m < 2 ^ 16) ->
  compact_to_target (m + size * 2 ^ 24) = (m * 256 ^ size / 2 ^ 24, false, false) /\
  U 256 (m * 256 ^ size / 2 ^ 24).
Proof.
  intros Hm Hs Hbig. destruct (compact_fields m size Hm ltac:(lia)) as (E1 & E2 & E3).
  unfold compact_to_target. rewrite E1, E2, E3, Z.eqb_refl. cbn [negb].
  destruct (Z.leb_spec size 3) as [Hle|Hgt]; rewrite andb_false_r, !Z.gtb_ltb,
    (proj2 (Z.ltb_ge 34 size)), (proj2 (Z.ltb_ge 33 size)), andb_false_r by lia; cbn [orb].
  - rewrite (proj2 (Z.ltb_ge 32 size)), !andb_false_r by lia.
    assert (256 ^ size * 256 ^ (3 - size) = 2 ^ 24) as Hsplit.
    { rewrite <- Z.pow_add_r by lia. by replace (size + (3 - size)) with 3 by lia. }
    assert (0 < 256 ^ size) by (apply Z.pow_pos_nonneg; lia).
    assert (0 < 256 ^ (3 - size)) by (apply Z.pow_pos_nonneg; lia).
    assert (m * 256 ^ size / 2 ^ 24 = m / 256 ^ (3 - size)) as ->.
    { rewrite <- Hsplit, (Z.mul_comm m). apply Z.div_mul_cancel_l; lia. }
    rewrite Z.shiftr_div_pow2, <- pow256 by lia. split; [done|].
    split; [apply Z.div_pos; lia|]. refine (Z.le_lt_trans _ m _ _ _); [|lia].
    apply Z.div_le_upper_bound; [lia|]. nia.
  - assert (256 ^ size = 2 ^ 24 * 256 ^ (size - 3)) as Hsplit.
    { replace (2 ^ 24) with (256 ^ 3) by done. rewrite <- Z.pow_add_r by lia. f_equal. lia. }
    assert (m * 256 ^ size / 2 ^ 24 = m * 256 ^ (size - 3)) as E.
    { rewrite Hsplit, (Z.mul_comm (2 ^ 24)), Z.mul_assoc, Z.div_mul by lia. done. }
    assert (U 256 (m * 256 ^ (size - 3))) as Hfit.
    { split; [apply Z.mul_nonneg_nonneg; [lia|apply Z.pow_nonneg; lia]|].
      destruct (Z.eq_dec size 33) as [->|].
      - specialize (Hbig eq_refl). change (256 ^ (33 - 3)) with (2 ^ 240). lia.
      - assert (256 ^ (size - 3) <= 2 ^ 232) by (rewrite pow256 by lia; apply Z.pow_le_mono_r; lia). nia. }
    rewrite E. split; [|done]. unfold u256_shl.
    rewrite Z.shiftl_mul_pow2, <- pow256, (Z.mod_small (m * _)) by (lia || exact Hfit).
    destruct (Z.ltb_spec 0xffff m); [|by rewrite andb_false_r].
    rewrite (proj2 (Z.ltb_ge 32 size)), !andb_false_r; [done|].
    destruct (Z.eq_dec size 33) as [->|]; [|lia]. specialize (Hbig eq_refl). lia.
Qed.

Lemma form_big t size m : U 256 t -> compact_form t size m -> size = 33 -> m < 2 ^ 16.
Proof.
  intros Ht [_ -> _ _] ->. apply Z.div_lt_upper_bound; [done|].
  change (256 ^ 33) with (2 ^ 264). range.
Qed.

Lemma form_mant_nonneg t size m : U 256 t -> compact_form t size m -> 0 <= m.
Proof. intros Ht [? -> _ _]. apply Z.div_pos; [range|]. apply Z.pow_pos_nonneg; lia. Qed.

(** decoding what was encoded *)
Lemma decode_encode_target t :
  U 256 t -> exists size m, compact_form t size m /\ target_to_compact t = m + size * 2 ^ 24 /\
    compact_to_target (target_to_compact t) = (m * 256 ^ size / 2 ^ 24, false, false).
Proof.
  intros Ht. destruct (target_to_compact_form t Ht) as (size & m & Hf & E).
  exists size, m. rewrite E. split; [done|]. split; [done|].
  pose proof (form_mant_nonneg _ _ _ Ht Hf). pose proof (form_big _ _ _ Ht Hf).
  destruct Hf. by apply decode_form.
Qed.

(** the decoded target: the original with its low bits cleared *)
Lemma form_trunc t size m :
  U 256 t -> compact_form t size m ->
  let t' := m * 256 ^ size / 2 ^ 24 in t' <= t /\ (t - t') * 2 ^ 15 <= t.
Proof.
  intros Ht Hf t'. pose proof (form_mant_nonneg _ _ _ Ht Hf) as Hm0. destruct Hf as [Hs Hm Hhi Hlo].
  assert (0 < 256 ^ size) as Hp by (apply Z.pow_pos_nonneg; lia).
  assert (m * 256 ^ size <= t * 2 ^ 24 < (m + 1) * 256 ^ size) as Hb.
  { subst m. pose proof (Z.mul_div_le (t * 2 ^ 24) (256 ^ size) Hp).
    pose proof (Z.mul_succ_div_gt (t * 2 ^ 24) (256 ^ size) Hp). lia. }
  assert (t' <= t) as Hle by (apply Z.div_le_upper_bound; lia).
  split; [done|]. destruct (Z.eq_dec t 0) as [->|Hne].
  { unfold t'. rewrite Hm, Z.div_0_l by lia. done. }
  assert (0 < t) as Hpos by range. destruct (Hlo Hpos) as [Hm15 Hs1].
  pose proof (Z.mul_succ_div_gt (m * 256 ^ size) (2 ^ 24) ltac:(lia)) as Hq. fold t' in Hq.
  destruct (Z.le_gt_cases size 3) as [H3|H3].
  - (* the encoding is exact *)
    assert (256 ^ size * 256 ^ (3 - size) = 2 ^ 24) as Hsplit.
    { rewrite <- Z.pow_add_r by lia. by replace (size + (3 - size)) with 3 by lia. }
    assert (m = t * 256 ^ (3 - size)) as Em.
    { rewrite Hm, <- Hsplit, (Z.mul_comm (256 ^ size)), Z.mul_assoc, Z.div_mul by lia. done. }
    assert (t' = t) as ->; [|lia]. unfold t'. rewrite Em.
    rewrite <- Z.mul_assoc, (Z.mul_comm (256 ^ (3 - size))), Hsplit. by rewrite Z.div_mul by lia.
  - assert (256 ^ size = 2 ^ 24 * 256 ^ (size - 3)) as Hsplit.
    { replace (2 ^ 24) with (256 ^ 3) by done. rewrite <- Z.pow_add_r by lia. f_equal. lia. }
    assert (t' = m * 256 ^ (size - 3)) as Et.
    { unfold t'. rewrite Hsplit, (Z.mul_comm (2 ^ 24)), Z.mul_assoc, Z.div_mul by lia. done. }
    rewrite Hsplit in Hb. set (k := 256 ^ (size - 3)) in *. assert (0 < k) by lia.
    assert (t < (m + 1) * k) by lia. nia.
Qed.

(** ** Uniqueness and order of normal forms *)

Lemma form_next t size k m :
  U 256 t -> 0 <= size -> 0 < k -> m = t * 2 ^ 24 / 256 ^ size ->
  t * 2 ^ 24 / 256 ^ (size + k) <= m / 256.
Proof.
  intros Ht Hs Hk ->. assert (0 < 256 ^ size) by (apply Z.pow_pos_nonneg; lia).
  rewrite div_div_256 by lia. replace (256 ^ size * 256) with (256 ^ (size + 1)) by (rewrite Z.pow_add_r; lia).
  apply Z.div_le_compat_l; [range|]. split; [apply Z.pow_pos_nonneg; lia|apply Z.pow_le_mono_r; lia].
Qed.

(** larger targets have larger normal forms *)
Lemma form_mono t1 t2 s1 m1 s2 m2 :
  U 256 t1 -> U 256 t2 -> t1 <= t2 -> 0 < t1 -> compact_form t1 s1 m1 -> compact_form t2 s2 m2 ->
  s1 < s2 \/ s1 = s2 /\ m1 <= m2.
Proof.
  intros Ht1 Ht2 Hle Hpos F1 F2. pose proof (form_mant_nonneg _ _ _ Ht2 F2).
  destruct F1 as [Hs1 Em1 Hh1 Hl1], F2 as [Hs2 Em2 Hh2 Hl2].
  assert (forall s, 0 <= s -> t1 * 2 ^ 24 / 256 ^ s <= t2 * 2 ^ 24 / 256 ^ s) as Hdiv.
  { intros s Hs. apply Z.div_le_mono; [apply Z.pow_pos_nonneg; lia|lia]. }
  destruct (Z.lt_trichotomy s1 s2) as [|[->|Hgt]]; [by left|right; subst; auto with lia|].
  exfalso. pose proof (form_next t2 s2 (s1 - s2) m2 Ht2 ltac:(lia) ltac:(lia) Em2) as Hn.
  replace (s2 + (s1 - s2)) with s1 in Hn by lia. specialize (Hdiv s1 ltac:(lia)).
  destruct (Hl1 Hpos). assert (m2 / 256 < 2 ^ 15) by (apply Z.div_lt_upper_bound; lia). lia.
Qed.

Lemma form_unique t s1 m1 s2 m2 :
  U 256 t -> 0 < t -> compact_form t s1 m1 -> compact_form t s2 m2 -> s1 = s2 /\ m1 = m2.
Proof.
  intros Ht Hpos F1 F2. pose proof (form_mono _ _ _ _ _ _ Ht Ht ltac:(done) Hpos F1 F2).
  pose proof (form_mono _ _ _ _ _ _ Ht Ht ltac:(done) Hpos F2 F1). lia.
Qed.

Lemma target_to_compact_0 : target_to_compact 0 = 0.
Proof. reflexivity. Qed.

(** the truncated target has the same normal form *)
Lemma form_trunc_form t size m :
  U 256 t -> 0 < t -> compact_form t size m ->
  0 < m * 256 ^ size / 2 ^ 24 /\ compact_form (m * 256 ^ size / 2 ^ 24) size m.
Proof.
  intros Ht Hpos [Hs Hm Hhi Hlo]. destruct (Hlo Hpos) as [Hm15 Hs1].
  assert (0 < 256 ^ size) as Hp by (apply Z.pow_pos_nonneg; lia).
  enough (0 < m * 256 ^ size / 2 ^ 24 /\ m = m * 256 ^ size / 2 ^ 24 * 2 ^ 24 / 256 ^ size) as [H0 H1].
  { split; [done|]. by constructor. }
  destruct (Z.le_gt_cases size 3) as [H3|H3].
  - assert (256 ^ size * 256 ^ (3 - size) = 2 ^ 24) as Hsplit.
    { rewrite <- Z.pow_add_r by lia. by replace (size + (3 - size)) with 3 by lia. }
    assert (m = t * 256 ^ (3 - size)) as Em.
    { rewrite Hm, <- Hsplit, (Z.mul_comm (256 ^ size)), Z.mul_assoc, Z.div_mul by lia. done. }
    rewrite Em at 1 3. rewrite <- Z.mul_assoc, (Z.mul_comm (256 ^ (3 - size))), Hsplit, Z.div_mul by lia. done.
  - assert (256 ^ size = 2 ^ 24 * 256 ^ (size - 3)) as Hsplit.
    { replace (2 ^ 24) with (256 ^ 3) by done. rewrite <- Z.pow_add_r by lia. f_equal. lia. }
    assert (m * 256 ^ size / 2 ^ 24 = m * 256 ^ (size - 3)) as ->.
    { rewrite Hsplit, (Z.mul_comm (2 ^ 24)), Z.mul_assoc, Z.div_mul by lia. done. }
    split; [nia|]. rewrite <- Z.mul_assoc, (Z.mul_comm _ (2 ^ 24)), <- Hsplit, Z.div_mul by lia. done.
Qed.

(** ** What the difficulty code relies on *)

Lemma compact_roundtrip t :
  U 256 t ->
  let c := target_to_compact t in
  U 32 c /\ compact_to_target c = (target_of c, false, false) /\ U 256 (target_of c) /\
  target_of c <= t /\ (t - target_of c) * 2 ^ 15 <= t /\ target_to_compact (target_of c) = c.
Proof.
  intros Ht c. destruct (decode_encode_target t Ht) as (size & m & Hf & E & Ed).
  pose proof (form_mant_nonneg _ _ _ Ht Hf) as Hm0. pose proof (form_big _ _ _ Ht Hf) as Hbig.
  destruct (form_trunc _ _ _ Ht Hf) as [Hle Herr].
  assert (target_of c = m * 256 ^ size / 2 ^ 24) as Et by (unfold target_of, c; by rewrite Ed).
  rewrite Et. destruct (decode_form m size ltac:(by destruct Hf) ltac:(by destruct Hf) Hbig) as [_ HU].
  split; [unfold c; rewrite E; destruct Hf; range|]. do 4 (split; [done|]).
  destruct (Z.eq_dec t 0) as [->|Hne].
  { destruct Hf as [? -> _ _]. assert (0 < 256 ^ size) by (apply Z.pow_pos_nonneg; lia). subst c. rewrite Z.div_0_l by lia. done. }
  assert (0 < t) as Hpos by range. destruct (form_trunc_form _ _ _ Ht Hpos Hf) as [Hpos' Hf'].
  destruct (target_to_compact_form _ HU) as (s2 & m2 & Hf2 & E2).
  destruct (form_unique _ _ _ _ _ HU Hpos' Hf2 Hf') as [-> ->]. unfold c. by rewrite E2, E.
Qed.

Lemma target_to_compact_mono t1 t2 :
  U 256 t1 -> U 256 t2 -> t1 <= t2 -> target_to_compact t1 <= target_to_compact t2.
Proof.
  intros Ht1 Ht2 Hle. pose proof (compact_roundtrip t2 Ht2) as [HU _].
  destruct (Z.eq_dec t1 0) as [->|Hne]; [rewrite target_to_compact_0; range|].
  destruct (target_to_compact_form _ Ht1) as (s1 & m1 & F1 & ->).
  destruct (target_to_compact_form _ Ht2) as (s2 & m2 & F2 & ->).
  pose proof (form_mant_nonneg _ _ _ Ht2 F2).
  destruct (form_mono _ _ _ _ _ _ Ht1 Ht2 Hle ltac:(range) F1 F2) as [?|[-> ?]]; [|lia].
  destruct F1. lia.
Qed.

Lemma target_lt_max c : U 32 c -> 0 <= target_of c < 2 ^ 256 - 1.
Proof.
  intros Hc. unfold target_of, compact_to_target.
  assert (0 <= Z.land c 0x007fffff < 2 ^ 23) as Hm.
  { change 0x007fffff with (Z.ones 23). rewrite Z.land_ones by lia. apply Z.mod_pos_bound. lia. }
  assert (0 <= Z.shiftr c 24) as Hs by (apply Z.shiftr_nonneg; range).
  destruct (Z.leb_spec (Z.shiftr c 24) 3); cbn [fst snd].
  - rewrite Z.shiftr_div_pow2 by lia. assert (0 < 2 ^ (8 * (3 - Z.shiftr c 24))) by (apply Z.pow_pos_nonneg; lia).
    split; [apply Z.div_pos; lia|]. refine (Z.le_lt_trans _ (Z.land c 0x007fffff) _ _ _); [|lia].
    apply Z.div_le_upper_bound; [lia|]. nia.
  - unfold u256_shl. rewrite Z.shiftl_mul_pow2 by lia.
    set (k := 8 * (Z.shiftr c 24 - 3)) in *. assert (2 ^ k = 2 * 2 ^ (k - 1)) as Hk.
    { rewrite <- Z.pow_succ_r by lia. f_equal. lia. }
    set (x := Z.land c 0x007fffff) in *. pose proof (Z.mod_pos_bound (x * 2 ^ k) (2 ^ 256) ltac:(lia)).
    split; [lia|]. pose proof (Z.div_mod (x * 2 ^ k) (2 ^ 256) ltac:(lia)) as Hd.
    rewrite Hk in Hd at 1. pow2. lia.
Qed.

(** ** Properties *)

(** the nBits format is a canonical floating-point representation of the
    256-bit targets: encoding a target and decoding it gives neither flag, never
    a larger target, a relative error below [2^-15], and a target that encodes
    to the same nBits. *)
Theorem compact_canonical (t : Z) :
  U 256 t ->
  let c := target_to_compact t in
  U 32 c /\ compact_to_target c = (target_of c, false, false) /\
  target_of c <= t /\ (t - target_of c) * 2 ^ 15 <= t /\ target_to_compact (target_of c) = c.
Proof. intros Ht c. destruct (compact_roundtrip t Ht) as (? & ? & ? & ? & ? & ?). done. Qed.

Lemma compact_canonical_witness :
  let c := target_to_compact (2 ^ 236 - 1) in
  c = 0x1e0fffff /\ target_of c <= 2 ^ 236 - 1 /\ target_to_compact (target_of c) = c.
Proof.
  split; [reflexivity|]. destruct (compact_canonical (2 ^ 236 - 1)) as (_ & _ & H1 & _ & H2).
  - apply inU_spec. reflexivity.
  - exact (conj H1 H2).
Defined.

(** comparing nBits values produced by the encoder compares the targets
    they came from: a smaller target (more difficulty) never gets a larger nBits,
    and if it does get the smaller one then the targets differ that way. *)
Theorem compact_order (t1 t2 : Z) :
  U 256 t1 -> U 256 t2 ->
  (t1 <= t2 -> target_to_compact t1 <= target_to_compact t2) /\
  (target_to_compact t1 < target_to_compact t2 -> t1 < t2).
Proof.
  intros H1 H2. split; [by apply target_to_compact_mono|]. intros Hlt.
  apply Z.nle_gt. intros Hle. pose proof (target_to_compact_mono t2 t1 H2 H1 Hle). lia.
Qed.

Lemma compact_order_witness :
  U 256 1000 /\ U 256 (2 ^ 200) /\ target_to_compact 1000 <= target_to_compact (2 ^ 200).
Proof.
  assert (U 256 1000) as H1 by (apply inU_spec; reflexivity).
  assert (U 256 (2 ^ 200)) as H2 by (apply inU_spec; reflexivity).
  split; [exact H1|]. split; [exact H2|]. apply (compact_order 1000 (2 ^ 200) H1 H2). lia.
Defined.

(** the work of a block is [floor (2^256 / (target + 1))] whenever its nBits
    decodes to a positive target without a flag, and 0 otherwise.  The 256-bit
    computation, which avoids the unrepresentable [2^256], never overflows. *)
Theorem work_from_bits_exact `{U256Overflow} (E : Type) (c : Z) :
  U 32 c ->
  @work_from_bits _ E c =
    Ok (let '(t, negative, overflow) := compact_to_target c in
        if negative || overflow || (t =? 0) then 0 else 2 ^ 256 / (t + 1)).
Proof.
  intros Hc. pose proof (target_lt_max c Hc) as Ht. unfold target_of, work_from_bits in *.
  destruct (compact_to_target c) as [[t n] o]. cbn [fst] in Ht.
  destruct (n || o) eqn:Hf; cbn [orb]; [done|]. destruct (Z.eqb_spec t 0); [done|].
  unfold u256_add, u256_fit. rewrite (proj2 (inU_spec 256 (t + 1))) by range.
  cbn [mbind res_bind]. unfold u256_not.
  assert ((2 ^ 256 - 1 - t) / (t + 1) + 1 = 2 ^ 256 / (t + 1)) as ->.
  { replace (2 ^ 256 - 1 - t) with (2 ^ 256 + (-1) * (t + 1)) by lia. rewrite Z.div_add by lia. lia. }
  rewrite (proj2 (inU_spec 256 (2 ^ 256 / (t + 1)))); [done|].
  split; [apply Z.div_pos; lia|apply Z.div_lt; lia].
Qed.

Lemma work_from_bits_exact_witness :
  U 32 0x1e0fffff /\ @work_from_bits (fun _ => None) string 0x1e0fffff = Ok 1048577.
Proof.
  assert (U 32 0x1e0fffff) as Hc by (apply inU_spec; reflexivity). split; [exact Hc|].
  rewrite (@work_from_bits_exact (fun _ => None) string 0x1e0fffff Hc). reflexivity.
Defined.
