(* ===== verification/Float64.v ===== *)
(** * Float64: the [f64] arithmetic of the CIP04 controller and the display

    [f64] is the IEEE-754 binary64 format of the Standard Library's [SpecFloat]
    (53 bits of precision, round to nearest even), which computes on concrete
    inputs.  The lemmas bound the magnitude of a result by powers of two: a
    power of two in range is representable, so no operation rounds past it. *)
From Stdlib Require Import Floats.SpecFloat.
From stdpp Require Import base numbers list.
From S2P Require Import Prelude.

(** ** [f64] *)

Definition f64 : Type := spec_float.
Definition f64_mul : f64 -> f64 -> f64 := SFmul 53 1024.
Definition f64_div : f64 -> f64 -> f64 := SFdiv 53 1024.
Definition f64_add : f64 -> f64 -> f64 := SFadd 53 1024.
(** [i64 as f64]: round to nearest even *)
Definition f64_of_i64 (z : Z) : f64 := binary_normalize 53 1024 z 0 false.
(** the literal [num / den]: the nearest double to that rational *)
Definition f64_lit (num den : Z) : f64 := f64_div (f64_of_i64 num) (f64_of_i64 den).
(** [f64 as i64]: truncate, saturate, and send NaN to 0 *)
Definition f64_as_i64 (x : f64) : Z :=
  match x with
  | S754_nan => 0
  | S754_zero _ => 0
  | S754_infinity s => if s then i64_min else i64_max
  | S754_finite s m e =>
    let v := if 0 <=? e then Zpos m * 2 ^ e else Zpos m / 2 ^ (- e) in
    clampz (if s then - v else v) i64_min i64_max
  end.
(** [f64::min] *)
Definition f64_min (a b : f64) : f64 :=
  match a, b with
  | S754_nan, _ => b
  | _, S754_nan => a
  | _, _ => if SFltb b a then b else a
  end.

(** ** Magnitude *)

(** [|x| <= 2^k] *)
Definition mag (k : Z) (x : f64) : Prop :=
  match x with
  | S754_zero _ => True
  | S754_finite _ m e => e <= k /\ Zpos m <= 2 ^ (k - e)
  | _ => False
  end.

(** [2^k <= |x|], for a finite [x] *)
Definition mag_ge (k : Z) (x : f64) : Prop :=
  match x with
  | S754_finite _ m e => e <= k /\ 2 ^ (k - e) <= Zpos m
  | _ => False
  end.

(** exponents for which a power of two is representable and not subnormal *)
Definition exp_ok (k : Z) : Prop := -1074 <= k <= 971.

(** the truncated value of a shift record is at most [b], and strictly below
    it if bits were lost *)
Definition rec_le (r : shr_record) (b : Z) : Prop :=
  0 <= shr_m r <= b /\ (shr_r r || shr_s r = true -> shr_m r < b).

Lemma shr_1_le r b : rec_le r (2 * b) -> rec_le (shr_1 r) b.
Proof.
  destruct r as [m r s]. unfold rec_le. cbn [shr_m shr_r shr_s]. intros [[Hm0 Hm] Hi].
  destruct m as [|[p|p|]|p]; cbn -[Z.mul Z.lt Z.le]; destruct r, s; cbn -[Z.mul Z.lt Z.le] in *;
    try specialize (Hi eq_refl); lia.
Qed.

Lemma iter_pos_le p r b : rec_le r (2 ^ Zpos p * b) -> rec_le (SpecFloat.iter_pos shr_1 p r) b.
Proof.
  revert r b. induction p as [p IH|p IH|]; intros r b Hr; cbn [SpecFloat.iter_pos].
  - apply IH, IH, shr_1_le. replace (2 * (2 ^ Zpos p * (2 ^ Zpos p * b))) with (2 ^ Zpos p~1 * b); [done|].
    replace (Zpos p~1) with (1 + Zpos p + Zpos p) by lia. rewrite !Z.pow_add_r by lia. lia.
  - apply IH, IH. replace (2 ^ Zpos p * (2 ^ Zpos p * b)) with (2 ^ Zpos p~0 * b); [done|].
    replace (Zpos p~0) with (Zpos p + Zpos p) by lia. rewrite !Z.pow_add_r by lia. lia.
  - by apply shr_1_le.
Qed.

Lemma shr_le r e n k :
  e <= k -> e + n <= k -> rec_le r (2 ^ (k - e)) ->
  let '(r', e') := shr r e n in e' = e + Z.max 0 n /\ rec_le r' (2 ^ (k - e')).
Proof.
  intros He Hn Hr. destruct n as [|p|p]; cbn [shr]; [split; [lia|done]| |split; [lia|done]].
  split; [lia|]. apply iter_pos_le. rewrite <- Z.pow_add_r by lia.
  replace (Zpos p + (k - (e + Zpos p))) with (k - e) by lia. done.
Qed.

Lemma digits2_pos_spec m : 2 ^ (Zpos (digits2_pos m) - 1) <= Zpos m < 2 ^ Zpos (digits2_pos m).
Proof.
  induction m as [m IH|m IH|]; cbn [digits2_pos]; [..|done];
    rewrite Pos2Z.inj_succ, Z.pow_succ_r by lia;
    replace (Z.succ (Zpos (digits2_pos m)) - 1) with (Z.succ (Zpos (digits2_pos m) - 1)) by lia;
    rewrite Z.pow_succ_r by lia; lia.
Qed.

Lemma Zdigits2_le m j : 0 <= j -> 0 <= m <= 2 ^ j -> Zdigits2 m <= j + 1.
Proof.
  intros Hj Hm. destruct m as [|p|p]; cbn [Zdigits2]; [lia| |lia].
  pose proof (digits2_pos_spec p) as [Hlo _].
  assert (2 ^ (Zpos (digits2_pos p) - 1) <= 2 ^ j) as Hle by lia.
  apply Z.pow_le_mono_r_iff in Hle; lia.
Qed.

Lemma Zdigits2_ge p j : 2 ^ j <= Zpos p -> j + 1 <= Zdigits2 (Zpos p).
Proof.
  intros Hp. cbn [Zdigits2]. pose proof (digits2_pos_spec p) as [_ Hhi].
  assert (2 ^ j < 2 ^ Zpos (digits2_pos p)) as Hlt by lia. apply Z.pow_lt_mono_r_iff in Hlt; lia.
Qed.

Lemma fexp_le m e k : exp_ok k -> e <= k -> 0 <= m <= 2 ^ (k - e) -> fexp 53 1024 (Zdigits2 m + e) <= k.
Proof.
  intros Hk He Hm. pose proof (Zdigits2_le m (k - e) ltac:(lia) Hm).
  unfold exp_ok, fexp, emin in *. lia.
Qed.

Lemma round_le r b :
  rec_le r b -> 0 <= round_nearest_even (shr_m r) (loc_of_shr_record r) <= b.
Proof.
  destruct r as [m [] []]; unfold rec_le; cbn [shr_m shr_r shr_s loc_of_shr_record round_nearest_even orb];
    intros [Hm Hi]; try specialize (Hi eq_refl); try destruct (Z.even m); lia.
Qed.

(** rounding does not pass a representable power of two *)
Lemma round_aux_mag sx mx ex lx k :
  exp_ok k -> ex <= k -> rec_le (shr_record_of_loc mx lx) (2 ^ (k - ex)) ->
  mag k (binary_round_aux 53 1024 sx mx ex lx).
Proof.
  intros Hk He Hr. unfold binary_round_aux, shr_fexp.
  assert (0 <= mx <= 2 ^ (k - ex)) as Hmx by (destruct Hr as [Hr _]; by destruct lx as [|[]]).
  pose proof (fexp_le mx ex k Hk He Hmx) as Hf.
  set (n := fexp 53 1024 (Zdigits2 mx + ex) - ex) in *.
  pose proof (shr_le _ ex n k He ltac:(lia) Hr) as H1.
  destruct (shr _ ex n) as [r1 e1]. destruct H1 as [He1 Hr1].
  pose proof (round_le _ _ Hr1) as Hm1. set (m1 := round_nearest_even _ _) in *.
  assert (e1 <= k) as He1k by lia. pose proof (fexp_le m1 e1 k Hk He1k Hm1) as Hf1.
  set (n1 := fexp 53 1024 (Zdigits2 m1 + e1) - e1) in *.
  pose proof (shr_le (shr_record_of_loc m1 loc_Exact) e1 n1 k He1k ltac:(lia)) as H2.
  destruct (shr _ e1 n1) as [r2 e2].
  destruct H2 as [He2 [Hr2 _]]; [by split|].
  destruct (shr_m r2) as [|p|p]; [done| |lia]. unfold exp_ok in Hk.
  rewrite (proj2 (Z.leb_le e2 (1024 - 53))) by lia. cbn [mag]. lia.
Qed.

Lemma mul_mag a b x y : exp_ok (a + b) -> mag a x -> mag b y -> mag (a + b) (f64_mul x y).
Proof.
  intros Hk Hx Hy. destruct x as [sx|sx| |sx mx ex], y as [sy|sy| |sy my ey]; try done.
  destruct Hx as [Hx1 Hx2], Hy as [Hy1 Hy2]. apply round_aux_mag; [done|lia|].
  split; [|done]. cbn [shr_m shr_record_of_loc]. split; [lia|].
  replace (a + b - (ex + ey)) with ((a - ex) + (b - ey)) by lia.
  rewrite Z.pow_add_r, Pos2Z.inj_mul by lia. apply Z.mul_le_mono_nonneg; lia.
Qed.

Lemma div_mag a b x y : exp_ok (a - b) -> mag a x -> mag_ge b y -> mag (a - b) (f64_div x y).
Proof.
  intros Hk Hx Hy. destruct x as [sx|sx| |sx mx ex], y as [sy|sy| |sy my ey]; try done.
  destruct Hx as [Hx1 Hx2], Hy as [Hy1 Hy2]. unfold f64_div, SFdiv, SFdiv_core_binary.
  set (e' := Z.min _ (ex - ey)).
  assert (e' <= ex - ey /\ e' <= a - b) as [He' Hle].
  { pose proof (Zdigits2_le (Zpos mx) (a - ex) ltac:(lia) ltac:(lia)).
    pose proof (Zdigits2_ge my (b - ey) Hy2). unfold e', fexp, emin, exp_ok in *. lia. }
  clearbody e'.
  set (m' := match ex - ey - e' with Z0 => Zpos mx | Zpos _ => Z.shiftl (Zpos mx) (ex - ey - e') | Zneg _ => 0 end).
  assert (m' = Zpos mx * 2 ^ (ex - ey - e')) as Hm'.
  { unfold m'. destruct (ex - ey - e') eqn:E; [cbn; lia|by rewrite Z.shiftl_mul_pow2 by lia|lia]. }
  clearbody m'. pose proof (Z_div_mod m' (Zpos my) ltac:(lia)) as Hdm.
  destruct (Z.div_eucl m' (Zpos my)) as [q r]. destruct Hdm as [Hd Hr].
  apply round_aux_mag; [done|done|].
  assert (m' <= 2 ^ (a - b - e') * Zpos my) as Hbound.
  { rewrite Hm'. transitivity (2 ^ (a - ex) * 2 ^ (ex - ey - e')); [apply Z.mul_le_mono_nonneg_r; lia|].
    rewrite <- Z.pow_add_r by lia. transitivity (2 ^ (a - b - e') * 2 ^ (b - ey)).
    - rewrite <- Z.pow_add_r by lia. apply Z.pow_le_mono_r; lia.
    - apply Z.mul_le_mono_nonneg_l; lia. }
  assert (0 <= m') by (rewrite Hm'; lia). assert (0 <= q <= 2 ^ (a - b - e')) by nia.
  unfold new_location, new_location_even, new_location_odd.
  assert (r <> 0 -> q < 2 ^ (a - b - e')) as Hstrict by nia.
  destruct (Z.even (Zpos my)); (destruct (Z.eqb_spec r 0) as [->|Hne]; [by split|]).
  - destruct (2 * r ?= Zpos my); (split; [done|intros _; by apply Hstrict]).
  - destruct (2 * r + 1 ?= Zpos my); (split; [done|intros _; by apply Hstrict]).
Qed.

Lemma shl_align_val mx ex ex' :
  ex' <= ex -> Zpos (fst (shl_align mx ex ex')) = Zpos mx * 2 ^ (ex - ex') /\ snd (shl_align mx ex ex') = ex'.
Proof.
  intros He. unfold shl_align. destruct (ex' - ex) as [|d|d] eqn:E; cbn [fst snd]; [|lia|].
  - replace (ex - ex') with 0 by lia. split; lia.
  - replace (ex - ex') with (Zpos d) by lia. split; [|done].
    rewrite (Pos.iter_swap_gen _ _ Zpos xO (Z.mul 2)) by done.
    change (Z.shiftl (Zpos mx) (Zpos d) = Zpos mx * 2 ^ Zpos d). by rewrite Z.shiftl_mul_pow2.
Qed.

Lemma round_mag sx mx ex k :
  exp_ok k -> ex <= k -> Zpos mx <= 2 ^ (k - ex) -> mag k (binary_round 53 1024 sx mx ex).
Proof.
  intros Hk He Hm. unfold binary_round. set (ez := fexp _ _ _).
  destruct (Z.le_gt_cases ez ex) as [Hle|Hgt].
  - destruct (shl_align_val mx ex ez Hle) as [Hv Hz]. destruct (shl_align mx ex ez) as [mz ez'].
    cbn [fst snd] in Hv, Hz. subst ez'. apply round_aux_mag; [done|lia|]. split; [|done].
    cbn [shr_m shr_record_of_loc]. rewrite Hv. split; [lia|].
    replace (k - ez) with ((k - ex) + (ex - ez)) by lia. rewrite Z.pow_add_r by lia.
    apply Z.mul_le_mono_nonneg_r; lia.
  - unfold shl_align. destruct (ez - ex) eqn:E; [lia| |lia]. apply round_aux_mag; [done|done|].
    split; [|done]. cbn [shr_m shr_record_of_loc]. lia.
Qed.

Lemma normalize_mag z e s k :
  exp_ok k -> e <= k -> Z.abs z <= 2 ^ (k - e) -> mag k (binary_normalize 53 1024 z e s).
Proof. intros Hk He Hz. destruct z as [|p|p]; cbn [binary_normalize]; [done|by apply round_mag..]. Qed.

Lemma of_i64_mag z k : 0 <= k <= 971 -> Z.abs z <= 2 ^ k -> mag k (f64_of_i64 z).
Proof. intros Hk Hz. apply normalize_mag; [unfold exp_ok; lia|lia|]. by rewrite Z.sub_0_r. Qed.

Lemma add_mag a x y : exp_ok (a + 1) -> mag a x -> mag a y -> mag (a + 1) (f64_add x y).
Proof.
  intros Hk Hx Hy. destruct x as [sx|sx| |sx mx ex], y as [sy|sy| |sy my ey]; try done.
  - by destruct sx, sy.
  - destruct Hy as [H1 H2]. split; [lia|]. transitivity (2 ^ (a - ey)); [done|]. apply Z.pow_le_mono_r; lia.
  - destruct Hx as [H1 H2]. split; [lia|]. transitivity (2 ^ (a - ex)); [done|]. apply Z.pow_le_mono_r; lia.
  - destruct Hx as [Hx1 Hx2], Hy as [Hy1 Hy2]. unfold f64_add, SFadd. set (ez := Z.min ex ey).
    assert (forall m e, e <= a -> ez <= e -> Zpos m <= 2 ^ (a - e) -> Zpos (fst (shl_align m e ez)) <= 2 ^ (a - ez)) as Hal.
    { intros m e He Hz Hm. destruct (shl_align_val m e ez Hz) as [-> _].
      replace (a - ez) with ((a - e) + (e - ez)) by lia. rewrite Z.pow_add_r by lia.
      apply Z.mul_le_mono_nonneg_r; lia. }
    pose proof (Hal mx ex Hx1 ltac:(lia) Hx2) as Hbx. pose proof (Hal my ey Hy1 ltac:(lia) Hy2) as Hby.
    apply normalize_mag; [done|lia|]. replace (a + 1 - ez) with (Z.succ (a - ez)) by lia.
    rewrite Z.pow_succ_r by lia. destruct sx, sy; cbn [cond_Zopp]; lia.
Qed.

Lemma mag_mono a b x : a <= b -> mag a x -> mag b x.
Proof.
  intros Hab. destruct x; cbn [mag]; try done. intros [H1 H2]. split; [lia|].
  etransitivity; [exact H2|]. apply Z.pow_le_mono_r; lia.
Qed.

(** small integers convert exactly *)
Lemma round_exact sx m :
  Zpos m < 2 ^ 53 ->
  exists mz ez, binary_round 53 1024 sx m 0 = S754_finite sx mz ez /\ ez <= 0 /\ Zpos mz = Zpos m * 2 ^ (- ez) /\
    ez = Zpos (digits2_pos m) - 53.
Proof.
  intros Hm. pose proof (digits2_pos_spec m) as Hd. set (d := Zpos (digits2_pos m)) in *.
  assert (1 <= d <= 53) as Hd53.
  { split; [lia|]. assert (2 ^ (d - 1) < 2 ^ 53) as Hlt by lia. apply Z.pow_lt_mono_r_iff in Hlt; lia. }
  unfold binary_round. fold d.
  replace (fexp 53 1024 (d + 0)) with (d - 53) by (unfold fexp, emin; lia).
  destruct (shl_align_val m 0 (d - 53) ltac:(lia)) as [Hv Hz].
  destruct (shl_align m 0 (d - 53)) as [mz ez]. cbn [fst snd] in Hv, Hz. subst ez.
  assert (Zdigits2 (Zpos mz) = 53) as Hdz.
  { apply Z.le_antisymm.
    - assert (Zpos mz < 2 ^ 53) as Hlt.
      { rewrite Hv. replace 53 with (d + (0 - (d - 53))) at 2 by lia. rewrite Z.pow_add_r by lia.
        apply Z.mul_lt_mono_pos_r; [apply Z.pow_pos_nonneg; lia|lia]. }
      pose proof (digits2_pos_spec mz) as [Hlo _]. cbn [Zdigits2].
      assert (2 ^ (Zpos (digits2_pos mz) - 1) < 2 ^ 53) as Hlt2 by lia. apply Z.pow_lt_mono_r_iff in Hlt2; lia.
    - apply (Zdigits2_ge mz 52). rewrite Hv. replace 52 with ((d - 1) + (0 - (d - 53))) by lia.
      rewrite Z.pow_add_r by lia. apply Z.mul_le_mono_nonneg_r; lia. }
  exists mz, (d - 53). unfold binary_round_aux, shr_fexp. rewrite Hdz.
  replace (fexp 53 1024 (53 + (d - 53)) - (d - 53)) with 0 by (unfold fexp, emin; lia).
  cbn [shr shr_record_of_loc shr_m loc_of_shr_record round_nearest_even]. rewrite Hdz.
  replace (fexp 53 1024 (53 + (d - 53)) - (d - 53)) with 0 by (unfold fexp, emin; lia).
  cbn [shr shr_record_of_loc shr_m]. rewrite (proj2 (Z.leb_le (d - 53) (1024 - 53))) by lia.
  split; [done|]. split; [lia|]. split; [|done]. rewrite Hv. f_equal.
Qed.

Lemma of_i64_ge z j : 0 <= j -> 2 ^ j <= Z.abs z < 2 ^ 53 -> mag_ge j (f64_of_i64 z).
Proof.
  intros Hj Hz.
  assert (forall s p, 2 ^ j <= Zpos p < 2 ^ 53 -> mag_ge j (binary_round 53 1024 s p 0)) as Hp.
  { intros s p [Hlo Hhi]. destruct (round_exact s p Hhi) as (mz & ez & -> & He & Hv & Hez). cbn [mag_ge].
    split; [lia|]. rewrite Hv. replace (j - ez) with (j + - ez) by lia. rewrite Z.pow_add_r by lia.
    apply Z.mul_le_mono_nonneg_r; lia. }
  destruct z as [|p|p]; [cbn in Hz; pose proof (Z.pow_pos_nonneg 2 j); lia|apply Hp; lia..].
Qed.

Lemma as_i64_mag x k : 0 <= k <= 62 -> mag k x -> Z.abs (f64_as_i64 x) <= 2 ^ k.
Proof.
  intros Hk Hx. assert (2 ^ k <= 2 ^ 62) by (apply Z.pow_le_mono_r; lia).
  assert (0 < 2 ^ k) by (apply Z.pow_pos_nonneg; lia).
  destruct x as [s|s| |s m e]; cbn [f64_as_i64 mag] in *; [lia|done|done|]. destruct Hx as [He Hm].
  set (v := if 0 <=? e then _ else _). assert (0 <= v <= 2 ^ k) as Hv.
  { unfold v. destruct (Z.leb_spec 0 e).
    - split; [lia|]. replace k with ((k - e) + e) by lia. rewrite Z.pow_add_r by lia.
      apply Z.mul_le_mono_nonneg_r; lia.
    - assert (0 < 2 ^ (- e)) by (apply Z.pow_pos_nonneg; lia). split; [apply Z.div_pos; lia|].
      apply Z.div_le_upper_bound; [lia|]. rewrite <- Z.pow_add_r by lia.
      by replace (- e + k) with (k - e) by lia. }
  unfold clampz. destruct s; range.
Qed.
