(* ===== verification/Difficulty.v ===== *)
(** * Difficulty: the six retarget algorithms and their dispatcher

    Models src/src/difficulty/mod.rs and cip01.rs to cip06.rs.  The header store
    is the interface [ChainLookup] of the source, here a class.  The PID
    controller of CIP04 computes in [f64], modelled in Float64.v. *)
From Stdlib Require Import Strings.Byte.
From stdpp Require Import base numbers list strings.
From S2P Require Import Prelude Compact Float64.

(** ** Consensus parameters *)

Record ConsensusParams := {
  pow_limit : Z;
  pow_target_spacing : Z;
  pow_target_timespan_v1 : Z;
  pow_target_timespan_v2 : Z;
  lwma_averaging_window : Z;
  cip01_height : Z;
  cip02_height : Z;
  cip03_height : Z;
  cip04_height : Z;
  cip05_height : Z;
  allow_min_difficulty : bool;
  checkpoints : list (Z * list byte);
}.

Definition mainnet : ConsensusParams := {|
  pow_limit := u256_shl 1 236 - 1;
  pow_target_spacing := 600;
  pow_target_timespan_v1 := 1209600;
  pow_target_timespan_v2 := 21600;
  lwma_averaging_window := 45;
  cip01_height := 20289;
  cip02_height := 21346;
  cip03_height := 27260;
  cip04_height := 46331;
  cip05_height := 397000;
  allow_min_difficulty := false;
  checkpoints := [];
|}.

(** for tests with headers that have no proof of work: a checkpoint above every height *)
Definition testing : ConsensusParams := {|
  pow_limit := pow_limit mainnet;
  pow_target_spacing := pow_target_spacing mainnet;
  pow_target_timespan_v1 := pow_target_timespan_v1 mainnet;
  pow_target_timespan_v2 := pow_target_timespan_v2 mainnet;
  lwma_averaging_window := lwma_averaging_window mainnet;
  cip01_height := cip01_height mainnet;
  cip02_height := cip02_height mainnet;
  cip03_height := cip03_height mainnet;
  cip04_height := cip04_height mainnet;
  cip05_height := cip05_height mainnet;
  allow_min_difficulty := allow_min_difficulty mainnet;
  checkpoints := [(u32_max, replicate 32 x00)];
|}.

Definition last_checkpoint_height (params : ConsensusParams) : Z :=
  match last (checkpoints params) with
  | Some (h, _) => h
  | None => 0
  end.

Definition checkpoint_hash_at (params : ConsensusParams) (height : Z) : option (list byte) :=
  snd <$> (snd <$> list_find (fun c => fst c = height) (checkpoints params)).

(** ** Unchecked operators used by the algorithms: what would trap is [Panic] *)

Definition i64_div {E} (a b : Z) : res E Z := if b =? 0 then Panic else i64_op (Z.quot a b).
Definition i64_rem {E} (a b : Z) : res E Z := if b =? 0 then Panic else Ok (Z.rem a b).
(** [Ord::clamp] asserts [min <= max] *)
Definition i64_clamp {E} (x lo hi : Z) : res E Z := if hi <? lo then Panic else Ok (clampz x lo hi).
Definition as_u64 (a : Z) : Z := a mod 2 ^ 64.
Definition u256_div {E} (a b : Z) : res E Z := if b =? 0 then Panic else Ok (a / b).
Definition usize_sub {E} (a b : Z) : res E Z := if a <? b then Panic else Ok (a - b).
Definition u256_sub {E} (a b : Z) : res E Z := if a <? b then Panic else Ok (a - b).

Definition difficulty_adjustment_interval_v1 (params : ConsensusParams) : result Z :=
  i64_div (pow_target_timespan_v1 params) (pow_target_spacing params).
Definition difficulty_adjustment_interval_v2 (params : ConsensusParams) : result Z :=
  i64_div (pow_target_timespan_v2 params) (pow_target_spacing params).

(** ** Header lookup *)

(** [(timestamp, bits)] of the block at a height *)
Class ChainLookup (C : Type) : Type := header_at : C -> Z -> option (Z * Z).

Definition lookup_header `{ChainLookup C} (chain : C) (height : Z) : result (Z * Z) :=
  ok_or "missing header" (header_at chain height).

Section Algorithms.
Context `{U256Overflow} `{ChainLookup C}.
Implicit Types (chain : C) (params : ConsensusParams).

(** ** CIP01, CIP02, CIP03 *)

(** the retarget step the three algorithms share: scale, then cap at [pow_limit] *)
Definition litecoin_retarget params (target_timespan parent_bits actual_timespan : Z) : result Z :=
  let target := target_of parent_bits in
  let pow_limit_bit_count := bits_u256 (pow_limit params) in
  let target_bit_count := bits_u256 target in
  pred ← usize_sub pow_limit_bit_count 1;
  let needs_shift := target_bit_count >? pred in
  let target := if needs_shift then u256_shr target 1 else target in
  product ← u256_mul target (as_u64 actual_timespan);
  target ← u256_div product (as_u64 target_timespan);
  let target := if needs_shift then u256_shl target 1 else target in
  let target := if target >? pow_limit params then pow_limit params else target in
  Ok (target_to_compact target).

Definition cip01_get_next_work (height : Z) chain params : result Z :=
  parent_height ← u32_sub height 1;
  parent ← lookup_header chain parent_height;
  let parent_bits := parent.2 in
  interval ← difficulty_adjustment_interval_v1 params;
  r ← i64_rem height interval;
  if negb (r =? 0) then Ok parent_bits else
  let blocks_to_go_back := if height =? interval then interval - 1 else interval in
  first_height ← u32_sub parent_height (as_u32 blocks_to_go_back);
  first ← lookup_header chain first_height;
  parent ← lookup_header chain parent_height;
  let actual_timespan := parent.1 - first.1 in
  min_timespan ← i64_div (pow_target_timespan_v1 params) 4;
  max_timespan ← i64_op (pow_target_timespan_v1 params * 4);
  actual_timespan ← i64_clamp actual_timespan min_timespan max_timespan;
  litecoin_retarget params (pow_target_timespan_v1 params) parent_bits actual_timespan.

Definition cip02_get_next_work (height : Z) chain params : result Z :=
  parent_height ← u32_sub height 1;
  parent ← lookup_header chain parent_height;
  let parent_bits := parent.2 in
  interval ← difficulty_adjustment_interval_v2 params;
  r ← i64_rem height interval;
  if negb (r =? 0) then Ok parent_bits else
  let blocks_to_go_back := if height =? interval then interval - 1 else interval in
  first_height ← u32_sub parent_height (as_u32 blocks_to_go_back);
  first ← lookup_header chain first_height;
  parent ← lookup_header chain parent_height;
  let actual_timespan := parent.1 - first.1 in
  min_timespan ← i64_div (pow_target_timespan_v2 params) 4;
  max_timespan ← i64_op (pow_target_timespan_v2 params * 4);
  actual_timespan ← i64_clamp actual_timespan min_timespan max_timespan;
  litecoin_retarget params (pow_target_timespan_v2 params) parent_bits actual_timespan.

Definition cip03_get_next_work (height : Z) chain params : result Z :=
  parent_height ← u32_sub height 1;
  parent ← lookup_header chain parent_height;
  let '(parent_timestamp, parent_bits) := parent in
  interval ← difficulty_adjustment_interval_v2 params;
  let first_height := sat_sub parent_height (as_u32 interval) in
  first ← lookup_header chain first_height;
  let actual_timespan := parent_timestamp - first.1 in
  let numerator := 112 in
  let denominator := 100 in
  low ← i64_op (pow_target_timespan_v2 params * denominator);
  low_limit ← i64_div low numerator;
  high ← i64_op (pow_target_timespan_v2 params * numerator);
  high_limit ← i64_div high denominator;
  actual_timespan ← i64_clamp actual_timespan low_limit high_limit;
  litecoin_retarget params (pow_target_timespan_v2 params) parent_bits actual_timespan.

(** ** CIP04: the PID controller *)

Definition MIN_DIFFICULTY_COMPACT : Z := 0x1e0fffff.

(** [while v > 0 { count += 1; v >>= 1; if count > 256 { return 256 } }] *)
Fixpoint target_bit_length_loop (fuel : nat) (v count : Z) : Z :=
  match fuel with
  | O => count
  | S fuel =>
    if v >? 0 then
      let count := count + 1 in
      let v := u256_shr v 1 in
      if count >? 256 then 256 else target_bit_length_loop fuel v count
    else count
  end.

Definition target_bit_length (val : Z) : Z :=
  if val =? 0 then 0 else target_bit_length_loop 257 val 0.

(** [while result > 8_388_607 { result /= 2 }] on an [i64] *)
Fixpoint halve_loop (fuel : nat) (output : Z) : Z :=
  match fuel with
  | O => output
  | S fuel => if output >? 8388607 then halve_loop fuel (Z.quot output 2) else output
  end.

(** the controller output, from the error and the average block time *)
Definition pid_result (spacing avg_timespan error : Z) : Z :=
  let '(p_gain, i_gain, d_gain) :=
    if (-450 <=? error) && (error <=? 450) then
      (f64_lit (-5125) 1000000, f64_lit (-225) 10000, f64_lit (-75) 10000)
    else
      (f64_lit (-5125) 1000000, f64_lit (-525) 10000, f64_lit (-75) 10000) in
  let error_f := f64_of_i64 error in
  let target_spacing_f := f64_of_i64 spacing in
  let avg_timespan_f := f64_of_i64 avg_timespan in
  let p_calc := f64_mul p_gain error_f in
  let i_calc := f64_mul (f64_mul i_gain error_f) (f64_div target_spacing_f avg_timespan_f) in
  let d_calc := f64_mul (f64_mul d_gain (f64_div error_f avg_timespan_f)) i_calc in
  let d_result := f64_add (f64_add p_calc i_calc) d_calc in
  halve_loop 64 (f64_as_i64 (f64_mul d_result (f64_of_i64 65536))).

(** apply the controller output to the current target *)
Definition pid_apply params (current_target bit_len output : Z) : result Z :=
  let adjustment := Z.abs output in
  let adjustment := if bit_len >? 24 then u256_shl adjustment (bit_len - 24) else adjustment in
  if output >=? 0 then
    if adjustment <? current_target then u256_sub current_target adjustment else Ok 0
  else
    raised ← u256_add current_target adjustment;
    Ok (if raised >? pow_limit params then pow_limit params else raised).

Definition floor_difficulty (compact : Z) : Z :=
  if compact >? MIN_DIFFICULTY_COMPACT then MIN_DIFFICULTY_COMPACT else compact.

Definition cip04_get_next_work (height : Z) chain params : result Z :=
  parent_height ← u32_sub height 1;
  parent ← lookup_header chain parent_height;
  let '(parent_timestamp, parent_bits) := parent in
  first_height ← u32_sub parent_height 8;
  first ← lookup_header chain first_height;
  let actual_timespan := parent_timestamp - first.1 in
  let avg_timespan := Z.quot actual_timespan 8 in
  let target := target_of parent_bits in
  let bit_len := target_bit_length target in
  error ← i64_op (avg_timespan - pow_target_spacing params);
  if (error >? -10) && (error <? 10) then Ok parent_bits else
  let output := pid_result (pow_target_spacing params) avg_timespan error in
  new_target ← pid_apply params (target_of parent_bits) bit_len output;
  Ok (floor_difficulty (target_to_compact new_target)).

(** ** CIP05 *)

Definition in_window (seconds : Z) : bool :=
  ((0 <=? seconds) && (seconds <=? 14)) || ((30 <=? seconds) && (seconds <=? 44)).

Definition cip05_get_next_work (height : Z) chain params : result Z :=
  parent_height ← u32_sub height 1;
  parent ← lookup_header chain parent_height;
  let '(parent_timestamp, parent_bits) := parent in
  let seconds := Z.rem parent_timestamp 60 in
  if negb (in_window seconds) then cip04_get_next_work height chain params else
  prev_height ← u32_sub parent_height 1;
  prev ← lookup_header chain prev_height;
  let actual_timespan := parent_timestamp - prev.1 in
  min_timespan ← i64_op (pow_target_spacing params - Z.quot (pow_target_spacing params) 4);
  max_timespan ← i64_op (pow_target_spacing params + Z.quot (pow_target_spacing params) 2);
  actual_timespan ← i64_clamp actual_timespan min_timespan max_timespan;
  let new_target := target_of parent_bits in
  product ← u256_mul new_target (as_u64 actual_timespan);
  new_target ← u256_div product (as_u64 (pow_target_spacing params));
  let new_target := if new_target >? pow_limit params then pow_limit params else new_target in
  Ok (floor_difficulty (target_to_compact new_target)).

(** ** CIP06: linearly weighted moving average *)

Record lwma_state := {
  previous_timestamp : Z;
  sum_weighted_solvetimes : Z;
  avg_target : Z;
  lwma_j : Z;
}.

Definition lwma_step chain (t n k : Z) (s : lwma_state) (h : Z) : result lwma_state :=
  header ← lookup_header chain h;
  let '(block_time, block_bits) := header in
  next ← i64_op (previous_timestamp s + 1);
  let this_timestamp := if block_time >? previous_timestamp s then block_time else next in
  cap ← i64_op (6 * t);
  diff ← i64_op (this_timestamp - previous_timestamp s);
  let solvetime := Z.min diff cap in
  j ← i64_op (lwma_j s + 1);
  weighted ← i64_op (solvetime * j);
  sum ← i64_op (sum_weighted_solvetimes s + weighted);
  nk ← i64_op (n * k);
  part ← u256_div (target_of block_bits) (as_u64 nk);
  avg ← u256_add (avg_target s) part;
  Ok {| previous_timestamp := this_timestamp; sum_weighted_solvetimes := sum; avg_target := avg; lwma_j := j |}.

Definition cip06_get_next_work (height : Z) chain params : result Z :=
  parent_height ← u32_sub height 1;
  let t := pow_target_spacing params in
  let n := lwma_averaging_window params in
  n1 ← i64_op (n + 1);
  nn1 ← i64_op (n * n1);
  nn1t ← i64_op (nn1 * t);
  let k := Z.quot nn1t 2 in
  if parent_height <? n then Ok (target_to_compact (pow_limit params)) else
  anchor_height ← u32_sub parent_height (as_u32 n);
  anchor ← lookup_header chain anchor_height;
  start_height ← u32_add anchor_height 1;
  let s := {| previous_timestamp := anchor.1; sum_weighted_solvetimes := 0; avg_target := 0; lwma_j := 0 |} in
  s ← fold_res (lwma_step chain t n k) s (seqZ start_height (parent_height - start_height + 1));
  next_target ← u256_mul (avg_target s) (as_u64 (sum_weighted_solvetimes s));
  let next_target := if next_target >? pow_limit params then pow_limit params else next_target in
  Ok (target_to_compact next_target).

(** ** Dispatcher *)

Definition get_next_work_required (height : Z) chain params : result Z :=
  if height =? 0 then Ok (target_to_compact (pow_limit params)) else
  parent_height ← u32_sub height 1;
  if parent_height <? cip01_height params then cip01_get_next_work height chain params else
  if parent_height =? cip01_height params then Ok 0x1c0ffff0 else
  if parent_height <? cip02_height params then cip02_get_next_work height chain params else
  if parent_height <? cip03_height params then cip03_get_next_work height chain params else
  if parent_height <? cip04_height params then cip04_get_next_work height chain params else
  if parent_height <? cip05_height params then cip05_get_next_work height chain params else
  cip06_get_next_work height chain params.
End Algorithms.

Definition active_algorithm (height : Z) (params : ConsensusParams) : string :=
  if height <? cip01_height params then "CIP01/Original"
  else if height <? cip02_height params then "CIP02/36-block"
  else if height <? cip03_height params then "CIP03/Tight"
  else if height <? cip04_height params then "CIP04/PID"
  else if height <? cip05_height params then "CIP05/DigiShield"
  else "CIP06/LWMA".

(** ** Range of the controller output *)

Lemma halve_loop_spec fuel x :
  x < 2 ^ (Z.of_nat fuel + 23) ->
  halve_loop fuel x <= 8388607 /\ (x <= 8388607 -> halve_loop fuel x = x) /\ (0 <= x -> 0 <= halve_loop fuel x).
Proof.
  revert x. induction fuel as [|fuel IH]; intros x Hx; cbn [halve_loop].
  - change (2 ^ (Z.of_nat 0 + 23)) with 8388608 in Hx. lia.
  - rewrite Z.gtb_ltb. destruct (Z.ltb_spec 8388607 x); [|lia].
    replace (Z.of_nat (S fuel) + 23) with (Z.succ (Z.of_nat fuel + 23)) in Hx by lia.
    rewrite Z.pow_succ_r in Hx by lia. rewrite Z.quot_div_nonneg by lia.
    destruct (IH (x / 2)) as (H1 & _ & H2); [apply Z.div_lt_upper_bound; lia|].
    split; [done|]. split; [lia|]. intros _. apply H2, Z.div_pos; lia.
Qed.

(** the sum of the three terms for an average time of magnitude [2^j] and an
    error of magnitude [2^e] *)
Lemma pid_terms_mag (pg ig dg err sp avg : f64) e j :
  0 <= j <= 29 -> 11 <= e <= 31 -> e - j <= 11 ->
  mag (-7) pg -> mag (-4) ig -> mag (-7) dg -> mag e err -> mag 10 sp -> mag_ge j avg ->
  let i_calc := f64_mul (f64_mul ig err) (f64_div sp avg) in
  let d_calc := f64_mul (f64_mul dg (f64_div err avg)) i_calc in
  mag 42 (f64_mul (f64_add (f64_add (f64_mul pg err) i_calc) d_calc) (f64_of_i64 65536)).
Proof.
  intros Hj He Hej Hp Hi Hd Herr Hsp Havg i_calc d_calc.
  assert (mag ((-4 + e) + (10 - j)) i_calc) as Hic.
  { apply mul_mag; [unfold exp_ok; lia| |]; [apply mul_mag|apply div_mag]; unfold exp_ok; auto with lia. }
  assert (mag ((-7 + (e - j)) + ((-4 + e) + (10 - j))) d_calc) as Hdc.
  { apply mul_mag; [unfold exp_ok; lia| |done]. apply mul_mag; [unfold exp_ok; lia|done|].
    apply div_mag; unfold exp_ok; auto with lia. }
  apply (mul_mag 26 16); [done| |by apply of_i64_mag].
  apply (add_mag 25); [done| |by eapply mag_mono; [|exact Hdc]; lia].
  apply (add_mag 24); [done| |by eapply mag_mono; [|exact Hic]; lia].
  apply (mag_mono (-7 + e)); [lia|]. apply mul_mag; unfold exp_ok; auto with lia.
Qed.

Ltac mag_lit := vm_compute; split; intros H; discriminate H.

Lemma pid_result_range avg :
  Z.abs avg <= 2 ^ 29 -> - 2 ^ 42 <= pid_result 600 avg (avg - 600) <= 8388607.
Proof.
  intros Havg. destruct (Z.eq_dec avg 0) as [->|Hne].
  { vm_compute. split; intros H; discriminate H. }
  pose proof (Z.log2_spec (Z.abs avg) ltac:(lia)) as [Hlo Hhi].
  set (j := Z.log2 (Z.abs avg)) in *. assert (0 <= j) as Hj by apply Z.log2_nonneg.
  assert (j <= 29) as Hj29.
  { apply (Z.pow_le_mono_r_iff 2 j 29); lia. }
  rewrite Z.pow_succ_r in Hhi by lia.
  assert (Z.abs (avg - 600) <= 2 ^ Z.max (j + 2) 11) as Herr.
  { destruct (Z.le_gt_cases (j + 2) 11) as [Hc|Hc].
    - rewrite Z.max_r by lia. assert (2 ^ (j + 2) <= 2 ^ 11) as Hp by (apply Z.pow_le_mono_r; lia).
      rewrite Z.pow_add_r in Hp by lia. lia.
    - rewrite Z.max_l by lia. assert (2 ^ 11 <= 2 ^ (j + 1)) as Hp by (apply Z.pow_le_mono_r; lia).
      replace (j + 2) with (Z.succ (j + 1)) by lia. rewrite Z.pow_succ_r by lia.
      rewrite Z.pow_add_r in * by lia. lia. }
  assert (mag (Z.max (j + 2) 11) (f64_of_i64 (avg - 600))) as Me by (apply of_i64_mag; [lia|done]).
  assert (mag 10 (f64_of_i64 600)) as Ms by (apply of_i64_mag; lia).
  assert (mag_ge j (f64_of_i64 avg)) as Ma by (apply of_i64_ge; lia).
  assert (forall x, mag 42 x -> - 2 ^ 42 <= halve_loop 64 (f64_as_i64 x) <= 8388607) as Hfin.
  { intros x Hx. pose proof (as_i64_mag x 42 ltac:(lia) Hx) as Hb. pow2.
    destruct (halve_loop_spec 64 (f64_as_i64 x)) as (H1 & H2 & H3); [cbn; lia|]. lia. }
  unfold pid_result. destruct ((-450 <=? avg - 600) && (avg - 600 <=? 450)); apply Hfin;
    (apply (pid_terms_mag _ _ _ _ _ _ (Z.max (j + 2) 11) j (conj Hj Hj29)); [lia|lia|mag_lit|mag_lit|mag_lit|done..]).
Qed.

(** ** Well-formed parameters, bits and chains *)

(** the numbers of mainnet, with any checkpoints: [mainnet()] and [testing()] *)
Definition std_params (p : ConsensusParams) : Prop :=
  p = {| pow_limit := 2 ^ 236 - 1; pow_target_spacing := 600; pow_target_timespan_v1 := 1209600;
         pow_target_timespan_v2 := 21600; lwma_averaging_window := 45; cip01_height := 20289;
         cip02_height := 21346; cip03_height := 27260; cip04_height := 46331; cip05_height := 397000;
         allow_min_difficulty := allow_min_difficulty p; checkpoints := checkpoints p |}.

(** nBits that decode without a flag to a target within the proof-of-work limit *)
Definition good_bits (b : Z) : Prop :=
  U 32 b /\ compact_to_target b = (target_of b, false, false) /\ target_of b <= 2 ^ 236 - 1.

Definition good_chain `{ChainLookup C} (chain : C) (height : Z) : Prop :=
  forall h, 0 <= h < height ->
    exists ts b, header_at chain h = Some (ts, b) /\ U 32 ts /\ good_bits b.

(** the 256-bit product of a retarget: targets of full length are halved first *)
Definition retarget_product (t actual : Z) : Z := (if 235 <? bits_u256 t then t / 2 else t) * actual.

(** the first block of the period that ends before a height of CIP01 *)
Definition period_start (height : Z) : Z := height - 1 - (if height =? 2016 then 2015 else 2016).

(** CIP01 retargets at this height and its product does not fit in 256 bits *)
Definition cip01_overflows `{ChainLookup C} (chain : C) (height : Z) : Prop :=
  0 < height <= 20289 /\ height mod 2016 = 0 /\ exists ts b ts0 b0,
    header_at chain (height - 1) = Some (ts, b) /\ header_at chain (period_start height) = Some (ts0, b0) /\
    2 ^ 256 <= retarget_product (target_of b) (clampz (ts - ts0) 302400 4838400).

Lemma std_mainnet : std_params mainnet.
Proof. reflexivity. Qed.

Lemma good_bits_target b : good_bits b -> 0 <= target_of b < 2 ^ 236.
Proof. intros (Hb & _ & Hle). pose proof (target_lt_max b Hb). lia. Qed.

Lemma good_compact t : 0 <= t <= 2 ^ 236 - 1 -> good_bits (target_to_compact t).
Proof.
  intros Ht. destruct (compact_roundtrip t ltac:(range)) as (H1 & H2 & _ & H3 & _). repeat split; try done; range.
Qed.

Lemma min_if x m : (if x >? m then m else x) = Z.min x m.
Proof. rewrite Z.gtb_ltb. destruct (Z.ltb_spec m x); lia. Qed.

(** capping at the limit *)
Lemma good_capped t : 0 <= t -> good_bits (target_to_compact (if t >? 2 ^ 236 - 1 then 2 ^ 236 - 1 else t)).
Proof. intros Ht. rewrite min_if. apply good_compact. lia. Qed.

Lemma good_floor b : good_bits b -> good_bits (floor_difficulty b).
Proof.
  intros Hb. unfold floor_difficulty. destruct (b >? _); [|done].
  change MIN_DIFFICULTY_COMPACT with (target_to_compact (2 ^ 236 - 1)). by apply good_compact.
Qed.

Lemma target_bit_length_loop_eq fuel v count :
  0 <= v < 2 ^ Z.of_nat fuel -> 0 <= count -> count + Z.of_nat fuel <= 257 -> v < 2 ^ (256 - count) ->
  target_bit_length_loop fuel v count = count + (if v =? 0 then 0 else Z.log2 v + 1).
Proof.
  revert v count. induction fuel as [|fuel IH]; intros v count Hv Hc Hf H256; cbn [target_bit_length_loop].
  - replace v with 0 by (cbn in Hv; lia). cbn. lia.
  - rewrite Z.gtb_ltb. destruct (Z.ltb_spec 0 v) as [Hpos|]; [|replace v with 0 by lia; cbn; lia].
    assert (count < 256) as Hlt.
    { apply Z.nle_gt. intros Hge. destruct (Z.eq_dec count 256) as [->|]; [cbn in H256; lia|].
      rewrite Z.pow_neg_r in H256; lia. }
    rewrite Z.gtb_ltb, (proj2 (Z.ltb_ge 256 (count + 1))) by lia.
    rewrite Nat2Z.inj_succ, Z.pow_succ_r in Hv by lia. unfold u256_shr.
    replace (256 - count) with (Z.succ (256 - (count + 1))) in H256 by lia. rewrite Z.pow_succ_r in H256 by lia.
    rewrite IH by (rewrite ?Z.shiftr_div_pow2 by lia; change (2 ^ 1) with 2; Z.div_mod_to_equations; lia).
    rewrite (proj2 (Z.eqb_neq v 0)) by lia. rewrite Z.log2_shiftr by lia.
    destruct (Z.eqb_spec (Z.shiftr v 1) 0) as [E|E].
    + rewrite Z.shiftr_div_pow2 in E by lia. change (2 ^ 1) with 2 in E.
      replace v with 1 by (Z.div_mod_to_equations; lia). cbn. lia.
    + apply shiftr_pos_iff in E; [|lia..]. pose proof (Z.log2_le_mono 2 v ltac:(lia)) as Hl. change (Z.log2 2) with 1 in Hl. lia.
Qed.

Lemma target_bit_length_eq v : U 256 v -> target_bit_length v = bits_u256 v.
Proof.
  intros Hv. rewrite bits_u256_eq by done. unfold target_bit_length. destruct (Z.eqb_spec v 0) as [->|]; [done|].
  rewrite target_bit_length_loop_eq; [|range..]. by rewrite (proj2 (Z.eqb_neq v 0)).
Qed.

(** ** Each algorithm is defined on a well-formed chain and keeps its bits good *)

(** the rescaled target, before the cap; a target of full length is halved first *)
Definition rescaled (t timespan actual : Z) : Z :=
  if 235 <? bits_u256 t then 2 * (t / 2 * actual / timespan) else t * actual / timespan.

(** ** Reference definition of the LWMA average *)

(** solve times made monotone and capped at [6 * T] *)
Fixpoint lwma_solves (prev : Z) (times : list Z) : list Z :=
  match times with
  | [] => []
  | ts :: times => let this := Z.max ts (prev + 1) in Z.min (this - prev) 3600 :: lwma_solves this times
  end.

(** [j * s_1 + (j + 1) * s_2 + ...] *)
Fixpoint weighted_from (j : Z) (l : list Z) : Z :=
  match l with
  | [] => 0
  | x :: l => x * j + weighted_from (j + 1) l
  end.

Definition headers_from `{ChainLookup C} (chain : C) (start : Z) (n : nat) : list (Z * Z) :=
  omap (header_at chain) (seqZ start (Z.of_nat n)).

(** [N * k] for [N = 45], [T = 600] *)
Definition lwma_nk : Z := 45 * 621000.

Definition lwma_next (anchor : Z) (window : list (Z * Z)) : Z :=
  Z.min (zsum ((fun h => target_of h.2 / lwma_nk) <$> window) * weighted_from 1 (lwma_solves anchor window.*1))
        (2 ^ 236 - 1).

Record lwma_inv (s : lwma_state) : Prop := {
  li_prev : 0 <= previous_timestamp s < 2 ^ 32 + lwma_j s;
  li_sum : 0 <= sum_weighted_solvetimes s <= 162000 * lwma_j s;
  li_avg : 0 <= avg_target s <= 2 ^ 212 * lwma_j s;
}.

(** walk through the binds of an algorithm *)
Ltac step_bind := cbn [mbind res_bind fst snd].
Ltac use_lookup h := let E := fresh "E" in destruct h as (? & ? & E & ? & ? & ?); rewrite E; step_bind.

Section Total.
Context `{U256Overflow} `{ChainLookup C} (chain : C) (p : ConsensusParams).
Hypothesis Hp : std_params p.

Lemma std_limit : pow_limit p = 2 ^ 236 - 1.
Proof. by rewrite Hp. Qed.
Lemma std_interval_v1 : difficulty_adjustment_interval_v1 p = Ok 2016.
Proof. by rewrite Hp. Qed.
Lemma std_interval_v2 : difficulty_adjustment_interval_v2 p = Ok 36.
Proof. by rewrite Hp. Qed.
Lemma std_spacing : pow_target_spacing p = 600.
Proof. by rewrite Hp. Qed.
Lemma std_v1 : pow_target_timespan_v1 p = 1209600.
Proof. by rewrite Hp. Qed.
Lemma std_v2 : pow_target_timespan_v2 p = 21600.
Proof. by rewrite Hp. Qed.

Lemma litecoin_retarget_eq timespan b actual :
  good_bits b -> 0 < timespan < 2 ^ 63 -> 0 <= actual <= 4 * timespan -> actual < 2 ^ 63 ->
  retarget_product (target_of b) actual < 2 ^ 256 ->
  litecoin_retarget p timespan b actual =
    Ok (target_to_compact (Z.min (rescaled (target_of b) timespan actual) (2 ^ 236 - 1))).
Proof.
  intros Hb Ht Ha Ha63 Hfit. pose proof (good_bits_target b Hb) as Hb236. set (t := target_of b) in *.
  unfold litecoin_retarget, rescaled, as_u64, u256_mul, u256_fit, u256_div. unfold retarget_product in Hfit. fold t.
  rewrite std_limit. change (bits_u256 (2 ^ 236 - 1)) with 236. cbn [mbind res_bind usize_sub Z.ltb Z.compare Pos.compare Pos.compare_cont].
  change (236 - 1) with 235. rewrite Z.gtb_ltb, !(Z.mod_small _ (2 ^ 64)) by range.
  rewrite (proj2 (Z.eqb_neq timespan 0)) by lia. destruct (235 <? bits_u256 t).
  - unfold u256_shr. rewrite Z.shiftr_div_pow2 by lia. change (2 ^ 1) with 2.
    assert (0 <= t / 2 * actual < 2 ^ 256) as Hf.
    { split; [apply Z.mul_nonneg_nonneg; [apply Z.div_pos; lia|lia]|done]. }
    rewrite (proj2 (inU_spec _ _) Hf). cbn [mbind res_bind]. rewrite min_if. unfold u256_shl.
    rewrite Z.shiftl_mul_pow2 by lia. change (2 ^ 1) with 2. rewrite (Z.mul_comm _ 2), Z.mod_small; [done|].
    split; [apply Z.mul_nonneg_nonneg; [lia|]; apply Z.div_pos; lia|].
    assert (t / 2 * actual / timespan < 2 ^ 238); [|pow2; lia]. apply Z.div_lt_upper_bound; [lia|].
    assert (t / 2 < 2 ^ 235) by (apply Z.div_lt_upper_bound; [lia|pow2; lia]).
    assert (0 <= t / 2) by (apply Z.div_pos; lia). pow2. nia.
  - rewrite (proj2 (inU_spec 256 (t * actual))) by (unfold U; nia).
    cbn [mbind res_bind]. by rewrite min_if.
Qed.

Lemma retarget_product_le t actual : 0 <= t -> 0 <= actual -> retarget_product t actual <= t * actual.
Proof. intros Ht Ha. unfold retarget_product. destruct (_ <? _); [|lia]. apply Z.mul_le_mono_nonneg_r; [lia|]. Z.div_mod_to_equations. lia. Qed.

Lemma rescaled_nonneg t timespan actual : 0 <= t -> 0 < timespan -> 0 <= actual -> 0 <= rescaled t timespan actual.
Proof.
  intros. unfold rescaled. destruct (_ <? _).
  - apply Z.mul_nonneg_nonneg; [lia|]. apply Z.div_pos; [|lia]. apply Z.mul_nonneg_nonneg; [apply Z.div_pos; lia|lia].
  - apply Z.div_pos; [nia|lia].
Qed.

Lemma litecoin_retarget_good timespan b actual :
  good_bits b -> 0 < timespan < 2 ^ 63 -> 0 <= actual <= 4 * timespan -> actual < 2 ^ 63 ->
  retarget_product (target_of b) actual < 2 ^ 256 -> exists b', litecoin_retarget p timespan b actual = Ok b' /\ good_bits b'.
Proof.
  intros Hb Ht Ha Ha63 Hfit. rewrite litecoin_retarget_eq by done. eexists. split; [done|].
  apply good_compact. pose proof (good_bits_target b Hb).
  pose proof (rescaled_nonneg (target_of b) timespan actual). lia.
Qed.

Context (height : Z).
Hypothesis Hh : 0 < height < 2 ^ 32.
Hypothesis Hchain : good_chain chain height.

Lemma lookup_good h :
  0 <= h < height -> exists ts b, lookup_header chain h = Ok (ts, b) /\ header_at chain h = Some (ts, b) /\ U 32 ts /\ good_bits b.
Proof.
  intros Hin. destruct (Hchain h Hin) as (ts & b & E & Hts & Hb). exists ts, b.
  unfold lookup_header. by rewrite E.
Qed.

Lemma height_pred {E} : @u32_sub E height 1 = Ok (height - 1).
Proof. apply u32_sub_Ok. range. Qed.

Lemma rem_nonzero_mod n : 0 < n -> Z.rem height n = height mod n.
Proof. intros. apply Z.rem_mod_nonneg; lia. Qed.

(** between retargets CIP01 keeps the target *)
Lemma cip01_eq : height <= 20289 -> exists ts b ts0 b0, header_at chain (height - 1) = Some (ts, b) /\ good_bits b /\
  (height mod 2016 <> 0 -> cip01_get_next_work height chain p = Ok b) /\
  (height mod 2016 = 0 -> header_at chain (period_start height) = Some (ts0, b0) /\ cip01_get_next_work height chain p = litecoin_retarget p 1209600 b (clampz (ts - ts0) 302400 4838400)).
Proof.
  intros Hlow. unfold cip01_get_next_work. rewrite height_pred. step_bind.
  destruct (lookup_good (height - 1) ltac:(lia)) as (ts & b & E & Eh & Hts & Hb). rewrite E. step_bind.
  rewrite std_interval_v1. step_bind. unfold i64_rem. cbn [Z.eqb]. step_bind. rewrite rem_nonzero_mod by lia.
  destruct (Z.eqb_spec (height mod 2016) 0) as [Hmod|Hmod]; cbn [negb]; [|by exists ts, b, 0, 0].
  assert (2016 <= height) as Hge by (Z.div_mod_to_equations; lia).
  set (back := if height =? 2016 then 2016 - 1 else 2016).
  assert (0 <= back < height /\ back < 2 ^ 32) as Hback by (subst back; destruct (Z.eqb_spec height 2016); pow2; lia).
  unfold as_u32. rewrite (Z.mod_small back), u32_sub_Ok by range. step_bind.
  destruct (lookup_good (height - 1 - back) ltac:(lia)) as (ts0 & b0 & E0 & Eh0 & Hts0 & Hb0). rewrite E0. step_bind.
  rewrite std_v1. change (i64_div 1209600 4) with (@Ok string Z 302400). step_bind.
  change (@i64_op string (1209600 * 4)) with (@Ok string Z 4838400). step_bind. cbn [i64_clamp Z.ltb Z.compare Pos.compare Pos.compare_cont]. step_bind.
  exists ts, b, ts0, b0. split_and!; [done|done|done|]. intros _. split; [exact Eh0|done].
Qed.

Lemma cip01_good : height <= 20289 -> (exists b, cip01_get_next_work height chain p = Ok b /\ good_bits b) \/ cip01_overflows chain height.
Proof.
  intros Hlow. destruct (cip01_eq Hlow) as (ts & b & ts0 & b0 & Eh & Hb & Hkeep & Hret). destruct (Z.eq_dec (height mod 2016) 0) as [Hmod|Hmod]; [|left; exists b; by rewrite Hkeep].
  destruct (Hret Hmod) as [Eh0 ->]. destruct (Z.lt_ge_cases (retarget_product (target_of b) (clampz (ts - ts0) 302400 4838400)) (2 ^ 256)) as [Hfit|Hov]; [left|right; split; [lia|]; split; [done|]; by exists ts, b, ts0, b0].
  pose proof (clampz_range (ts - ts0) 302400 4838400 ltac:(lia)). apply litecoin_retarget_good; [done|lia|lia|lia|done].
Qed.

Lemma cip02_good : 73 <= height -> exists b, cip02_get_next_work height chain p = Ok b /\ good_bits b.
Proof.
  intros Hlow. unfold cip02_get_next_work. rewrite height_pred. step_bind.
  destruct (lookup_good (height - 1) ltac:(lia)) as (ts & b & E & Eh & Hts & Hb). rewrite E. step_bind.
  rewrite std_interval_v2. step_bind. unfold i64_rem. cbn [Z.eqb]. step_bind. rewrite rem_nonzero_mod by lia.
  destruct (Z.eqb_spec (height mod 36) 0) as [Hmod|]; cbn [negb]; [|by eauto].
  rewrite (proj2 (Z.eqb_neq height 36)) by lia. change (as_u32 36) with 36. rewrite u32_sub_Ok by range. step_bind.
  destruct (lookup_good (height - 1 - 36) ltac:(lia)) as (ts0 & b0 & E0 & Eh0 & Hts0 & Hb0). rewrite E0. step_bind.
  rewrite std_v2. change (i64_div 21600 4) with (@Ok string Z 5400). step_bind.
  change (@i64_op string (21600 * 4)) with (@Ok string Z 86400). step_bind. cbn [i64_clamp Z.ltb Z.compare Pos.compare Pos.compare_cont]. step_bind.
  pose proof (clampz_range (ts - ts0) 5400 86400 ltac:(lia)). pose proof (good_bits_target b Hb).
  apply litecoin_retarget_good; [done|lia|lia|lia|]. eapply Z.le_lt_trans; [apply retarget_product_le; lia|]. pow2. nia.
Qed.

Lemma cip03_eq :
  exists ts b ts0 b0, header_at chain (height - 1) = Some (ts, b) /\
    header_at chain (Z.max 0 (height - 37)) = Some (ts0, b0) /\ good_bits b /\
    cip03_get_next_work height chain p = litecoin_retarget p 21600 b (clampz (ts - ts0) 19285 24192).
Proof.
  unfold cip03_get_next_work. rewrite height_pred. step_bind.
  destruct (lookup_good (height - 1) ltac:(lia)) as (ts & b & E & Eh & Hts & Hb). rewrite E. step_bind.
  rewrite std_interval_v2. step_bind. change (as_u32 36) with 36. unfold sat_sub.
  replace (height - 1 - 36) with (height - 37) by lia.
  destruct (lookup_good (Z.max 0 (height - 37)) ltac:(lia)) as (ts0 & b0 & E0 & Eh0 & Hts0 & Hb0). rewrite E0. step_bind.
  rewrite std_v2. exists ts, b, ts0, b0. auto.
Qed.

Lemma cip03_good : exists b, cip03_get_next_work height chain p = Ok b /\ good_bits b.
Proof.
  destruct cip03_eq as (ts & b & ts0 & b0 & _ & _ & Hb & ->).
  pose proof (clampz_range (ts - ts0) 19285 24192 ltac:(lia)). pose proof (good_bits_target b Hb).
  apply litecoin_retarget_good; [done|lia|lia|lia|]. eapply Z.le_lt_trans; [apply retarget_product_le; lia|]. pow2. nia.
Qed.

Lemma pid_apply_good t output :
  0 <= t < 2 ^ 236 -> - 2 ^ 42 <= output <= 8388607 ->
  exists t', pid_apply p t (target_bit_length t) output = Ok t' /\ 0 <= t' <= 2 ^ 236 - 1.
Proof.
  intros Ht Ho. unfold pid_apply. rewrite target_bit_length_eq, bits_u256_eq by (unfold U; pow2; lia).
  set (bl := if t =? 0 then 0 else Z.log2 t + 1).
  assert (bl <= 236) as Hbl.
  { unfold bl. destruct (Z.eqb_spec t 0); [lia|]. enough (Z.log2 t < 236) by lia. apply Z.log2_lt_pow2; lia. }
  set (adj := if bl >? 24 then u256_shl (Z.abs output) (bl - 24) else Z.abs output).
  assert (0 <= adj < 2 ^ 255) as Hadj.
  { unfold adj. rewrite Z.gtb_ltb. destruct (Z.ltb_spec 24 bl); [|pow2; lia].
    unfold u256_shl. rewrite Z.shiftl_mul_pow2 by lia.
    assert (0 <= Z.abs output * 2 ^ (bl - 24) <= 2 ^ 42 * 2 ^ 212) as Hb.
    { split; [apply Z.mul_nonneg_nonneg; [lia|apply Z.pow_nonneg; lia]|].
      apply Z.mul_le_mono_nonneg; [lia|pow2; lia|apply Z.pow_nonneg; lia|apply Z.pow_le_mono_r; lia]. }
    rewrite Z.mod_small; pow2; lia. }
  clearbody adj. rewrite Z.geb_leb. destruct (Z.leb_spec 0 output).
  - destruct (Z.ltb_spec adj t); [|by eexists]. unfold u256_sub. rewrite (proj2 (Z.ltb_ge t adj)) by lia. eexists. split; [done|lia].
  - unfold u256_add, u256_fit. rewrite (proj2 (inU_spec 256 (t + adj))) by (unfold U; pow2; lia). step_bind.
    rewrite std_limit, min_if. eexists. split; [done|]. lia.
Qed.

Lemma cip04_good : 9 <= height -> exists b, cip04_get_next_work height chain p = Ok b /\ good_bits b.
Proof.
  intros Hlow. unfold cip04_get_next_work. rewrite height_pred. step_bind.
  destruct (lookup_good (height - 1) ltac:(lia)) as (ts & b & E & Eh & Hts & Hb). rewrite E. step_bind.
  rewrite u32_sub_Ok by range. step_bind.
  destruct (lookup_good (height - 1 - 8) ltac:(lia)) as (ts0 & b0 & E0 & Eh0 & Hts0 & Hb0). rewrite E0. step_bind.
  set (avg := Z.quot (ts - ts0) 8). assert (Z.abs avg <= 2 ^ 29) as Havg.
  { unfold avg, U in *. pow2. Z.to_euclidean_division_equations. lia. }
  clearbody avg. rewrite std_spacing, i64_op_Ok by range. step_bind.
  destruct ((avg - 600 >? -10) && (avg - 600 <? 10)); [by eauto|].
  destruct (pid_apply_good (target_of b) (pid_result 600 avg (avg - 600))) as (t' & Ea & Ht').
  { by apply good_bits_target. }
  { by apply pid_result_range. }
  rewrite Ea. step_bind. eexists. split; [done|]. by apply good_floor, good_compact.
Qed.

Lemma cip05_good : 9 <= height -> exists b, cip05_get_next_work height chain p = Ok b /\ good_bits b.
Proof.
  intros Hlow. unfold cip05_get_next_work. rewrite height_pred. step_bind.
  destruct (lookup_good (height - 1) ltac:(lia)) as (ts & b & E & Eh & Hts & Hb). rewrite E. step_bind.
  destruct (in_window (Z.rem ts 60)); cbn [negb]; [|by apply cip04_good].
  rewrite u32_sub_Ok by range. step_bind.
  destruct (lookup_good (height - 1 - 1) ltac:(lia)) as (ts0 & b0 & E0 & Eh0 & Hts0 & Hb0). rewrite E0. step_bind.
  rewrite std_spacing. change (@i64_op string (600 - Z.quot 600 4)) with (@Ok string Z 450).
  change (@i64_op string (600 + Z.quot 600 2)) with (@Ok string Z 900). step_bind.
  cbn [i64_clamp Z.ltb Z.compare Pos.compare Pos.compare_cont]. step_bind.
  pose proof (clampz_range (ts - ts0) 450 900 ltac:(lia)) as Hc. set (a := clampz _ _ _) in *. clearbody a.
  pose proof (good_bits_target b Hb). unfold as_u64. rewrite (Z.mod_small a) by range.
  unfold u256_mul, u256_fit. rewrite (proj2 (inU_spec 256 (target_of b * a))) by (unfold U; pow2; nia). step_bind.
  change (600 mod 2 ^ 64) with 600. cbn [u256_div Z.eqb]. step_bind. rewrite std_limit. eexists. split; [done|].
  apply good_floor, good_capped. apply Z.div_pos; nia.
Qed.

Lemma lwma_step_eq st h ts b :
  lookup_header chain h = Ok (ts, b) -> U 32 ts -> good_bits b -> lwma_inv st -> 0 <= lwma_j st < 45 ->
  exists st', lwma_step chain 600 45 621000 st h = Ok st' /\ lwma_inv st' /\ lwma_j st' = lwma_j st + 1 /\
    previous_timestamp st' = Z.max ts (previous_timestamp st + 1) /\
    sum_weighted_solvetimes st' = sum_weighted_solvetimes st +
      Z.min (previous_timestamp st' - previous_timestamp st) 3600 * (lwma_j st + 1) /\
    avg_target st' = avg_target st + target_of b / lwma_nk.
Proof.
  intros E Hts Hb [Hprev Hsum Havg] Hj. unfold lwma_step. rewrite E. step_bind.
  pose proof (good_bits_target b Hb) as Ht.
  rewrite (i64_op_Ok (previous_timestamp st + 1)) by range. step_bind. change (@i64_op string (6 * 600)) with (@Ok string Z 3600). step_bind.
  replace (if ts >? previous_timestamp st then ts else previous_timestamp st + 1)
    with (Z.max ts (previous_timestamp st + 1)) by (rewrite Z.gtb_ltb; destruct (Z.ltb_spec (previous_timestamp st) ts); lia).
  set (this := Z.max ts (previous_timestamp st + 1)). assert (previous_timestamp st < this < 2 ^ 32 + (lwma_j st + 1)) as Hthis by range.
  clearbody this. rewrite (i64_op_Ok (this - previous_timestamp st)) by range. step_bind. rewrite (i64_op_Ok (lwma_j st + 1)) by range. step_bind.
  set (w := Z.min (this - previous_timestamp st) 3600 * (lwma_j st + 1)).
  assert (0 <= w <= 162000) as Hw by (unfold w; nia). rewrite (i64_op_Ok w) by range. step_bind.
  rewrite (i64_op_Ok (sum_weighted_solvetimes st + w)) by range. step_bind. change (@i64_op string (45 * 621000)) with (@Ok string Z lwma_nk). step_bind.
  change (as_u64 lwma_nk) with lwma_nk. unfold u256_div.
  change (lwma_nk =? 0) with false. step_bind.
  set (q := target_of b / lwma_nk). assert (0 <= q < 2 ^ 212) as Hq.
  { unfold q, lwma_nk. split; [apply Z.div_pos; lia|]. apply Z.div_lt_upper_bound; [lia|]. pow2. lia. }
  clearbody q. unfold u256_add, u256_fit. rewrite (proj2 (inU_spec 256 (avg_target st + q))) by (unfold U; pow2; lia). step_bind.
  eexists. split; [done|]. split; [|done]. constructor; cbn [previous_timestamp sum_weighted_solvetimes avg_target lwma_j]; lia.
Qed.

Lemma lwma_fold n start st :
  0 <= start -> start + Z.of_nat n <= height -> lwma_inv st -> 0 <= lwma_j st -> lwma_j st + Z.of_nat n <= 45 ->
  let hs := headers_from chain start n in
  exists st', fold_res (lwma_step chain 600 45 621000) st (seqZ start (Z.of_nat n)) = Ok st' /\ lwma_inv st' /\
    lwma_j st' = lwma_j st + Z.of_nat n /\
    sum_weighted_solvetimes st' = sum_weighted_solvetimes st + weighted_from (lwma_j st + 1) (lwma_solves (previous_timestamp st) hs.*1) /\
    avg_target st' = avg_target st + zsum ((fun h => target_of h.2 / lwma_nk) <$> hs).
Proof.
  revert start st. induction n as [|n IH]; intros start st Hs Hend Hinv Hj0 Hj hs; subst hs; unfold headers_from in *.
  - change (seqZ start (Z.of_nat 0)) with (@nil Z). cbn. exists st. split; [done|]. split; [done|]. lia.
  - rewrite seqZ_cons by lia. replace (Z.pred (Z.of_nat (S n))) with (Z.of_nat n) by lia.
    replace (Z.succ start) with (start + 1) by lia. cbn [fold_res omap list_omap].
    destruct (lookup_good start ltac:(lia)) as (ts & b & E & Eh & Hts & Hb). rewrite Eh.
    destruct (lwma_step_eq st start ts b E Hts Hb Hinv ltac:(lia)) as (st1 & -> & Hinv1 & Hj1 & Hp1 & Hs1 & Ha1).
    destruct (IH (start + 1) st1) as (st2 & -> & Hinv2 & Hj2 & Hs2 & Ha2); [lia|lia|done|lia|lia|].
    exists st2. split; [done|]. split; [done|]. cbn [fmap list_fmap fst snd lwma_solves weighted_from].
    rewrite zsum_cons, Hj2, Hs2, Ha2, Hs1, Ha1, Hj1, Hp1. split; [lia|]. split; lia.
Qed.

Lemma cip06_eq :
  46 <= height ->
  exists anchor b0, header_at chain (height - 46) = Some (anchor, b0) /\
    cip06_get_next_work height chain p = Ok (target_to_compact (lwma_next anchor (headers_from chain (height - 45) 45))) /\
    0 <= lwma_next anchor (headers_from chain (height - 45) 45).
Proof.
  intros Hlow. unfold cip06_get_next_work. rewrite height_pred. step_bind. rewrite std_spacing, std_limit.
  replace (lwma_averaging_window p) with 45 by (by rewrite Hp).
  change (@i64_op string (45 + 1)) with (@Ok string Z 46). step_bind.
  change (@i64_op string (45 * 46)) with (@Ok string Z 2070). step_bind.
  change (@i64_op string (2070 * 600)) with (@Ok string Z 1242000). step_bind.
  change (Z.quot 1242000 2) with 621000. rewrite (proj2 (Z.ltb_ge (height - 1) 45)) by lia.
  change (as_u32 45) with 45. rewrite u32_sub_Ok by range. step_bind.
  replace (height - 1 - 45) with (height - 46) by lia.
  destruct (lookup_good (height - 46) ltac:(lia)) as (anchor & b0 & E0 & Eh0 & Hts0 & Hb0). rewrite E0. step_bind.
  rewrite u32_add_Ok by range. step_bind. replace (height - 46 + 1) with (height - 45) by lia.
  replace (height - 1 - (height - 45) + 1) with (Z.of_nat 45) by lia.
  set (st0 := {| previous_timestamp := anchor; sum_weighted_solvetimes := 0; avg_target := 0; lwma_j := 0 |}).
  destruct (lwma_fold 45 (height - 45) st0) as (st & E & [_ Hsum Havg] & Hj & Hs & Ha); [lia|lia| |done|done|].
  { constructor; cbn; range. }
  rewrite E. step_bind. cbn [st0 previous_timestamp sum_weighted_solvetimes avg_target lwma_j] in *. rewrite !Z.add_0_l in *.
  assert (0 <= avg_target st * sum_weighted_solvetimes st < 2 ^ 256) as Hfit by (pow2; nia).
  unfold as_u64. rewrite (Z.mod_small (sum_weighted_solvetimes st)) by range.
  unfold u256_mul, u256_fit. rewrite (proj2 (inU_spec 256 _) Hfit). step_bind. rewrite min_if.
  exists anchor, b0. split; [done|]. unfold lwma_next. rewrite <- Hs, <- Ha. split; [done|lia].
Qed.

Lemma cip06_good : exists b, cip06_get_next_work height chain p = Ok b /\ good_bits b.
Proof.
  destruct (Z.lt_ge_cases height 46) as [Hlt|Hge].
  - unfold cip06_get_next_work. rewrite height_pred. step_bind. rewrite std_spacing, std_limit.
    replace (lwma_averaging_window p) with 45 by (by rewrite Hp).
    change (@i64_op string (45 + 1)) with (@Ok string Z 46). step_bind.
    change (@i64_op string (45 * 46)) with (@Ok string Z 2070). step_bind.
    change (@i64_op string (2070 * 600)) with (@Ok string Z 1242000). step_bind.
    rewrite (proj2 (Z.ltb_lt (height - 1) 45)) by lia. eexists. split; [done|]. by apply good_compact.
  - destruct (cip06_eq Hge) as (anchor & b0 & _ & -> & Hnn). eexists. split; [done|].
    apply good_compact. split; [done|]. unfold lwma_next. lia.
Qed.
End Total.

(** ** Bounds of a retarget step *)

Lemma rescaled_range t timespan actual :
  0 <= t -> 0 < timespan -> 0 <= actual <= 2 * timespan ->
  timespan * rescaled t timespan actual <= t * actual /\ t * actual <= timespan * (rescaled t timespan actual + 4).
Proof.
  intros Ht HT Ha. unfold rescaled. destruct (_ <? _).
  - set (x := t / 2). assert (2 * x <= t <= 2 * x + 1) as Hx by (subst x; Z.div_mod_to_equations; lia).
    pose proof (Z.mul_div_le (x * actual) timespan HT). pose proof (Z.mul_succ_div_gt (x * actual) timespan HT). nia.
  - pose proof (Z.mul_div_le (t * actual) timespan HT). pose proof (Z.mul_succ_div_gt (t * actual) timespan HT). nia.
Qed.

(** ** Bounds of the LWMA *)

Lemma lwma_solves_range prev l : Forall (fun x => 1 <= x <= 3600) (lwma_solves prev l).
Proof. revert prev. induction l as [|ts l IH]; intros prev; cbn [lwma_solves]; constructor; [lia|apply IH]. Qed.

Lemma length_lwma_solves prev l : length (lwma_solves prev l) = length l.
Proof. revert prev. induction l as [|ts l IH]; intros prev; cbn; [done|]. by rewrite IH. Qed.

Lemma weighted_from_range lo hi j l :
  0 <= j -> Forall (fun x => lo <= x <= hi) l ->
  lo * weighted_from j (replicate (length l) 1) <= weighted_from j l <= hi * weighted_from j (replicate (length l) 1).
Proof.
  intros Hj Hl. revert j Hj. induction Hl as [|x l Hx Hl IH]; intros j Hj; cbn [weighted_from length replicate]; [lia|].
  specialize (IH (j + 1) ltac:(lia)). nia.
Qed.

(** evenly spaced blocks *)
Lemma lwma_solves_even prev n T :
  1 <= T <= 3600 ->
  lwma_solves prev ((fun i => prev + T * (Z.of_nat i + 1)) <$> seq 0 n) = replicate n T.
Proof.
  intros HT. revert prev. induction n as [|n IH]; intros prev; [done|].
  cbn [seq fmap list_fmap lwma_solves replicate]. rewrite Z.max_l by lia. f_equal; [lia|].
  rewrite <- (IH (prev + T * (Z.of_nat 0 + 1))). f_equal. rewrite <- fmap_S_seq, <- list_fmap_compose.
  apply list_fmap_ext. intros i x _. cbn. lia.
Qed.

Lemma zsum_const {A} (f : A -> Z) (l : list A) v : Forall (fun x => f x = v) l -> zsum (f <$> l) = v * zlen l.
Proof. induction 1 as [|x l Hx _ IH]; [change (zlen (@nil A)) with 0; cbn [fmap list_fmap zsum foldr]; lia|]. cbn [fmap list_fmap]. rewrite zsum_cons, zlen_cons, IH, Hx. lia. Qed.

Lemma zsum_le {A} (f : A -> Z) (l : list A) v : Forall (fun x => f x <= v) l -> zsum (f <$> l) <= v * zlen l.
Proof. induction 1 as [|x l Hx _ IH]; [change (zlen (@nil A)) with 0; cbn [fmap list_fmap zsum foldr]; lia|]. cbn [fmap list_fmap]. rewrite zsum_cons, zlen_cons. lia. Qed.

Lemma zsum_fmap_nonneg {A} (f : A -> Z) (l : list A) : Forall (fun x => 0 <= f x) l -> 0 <= zsum (f <$> l).
Proof. induction 1 as [|x l Hx _ IH]; [done|]. cbn [fmap list_fmap]. rewrite zsum_cons. lia. Qed.

Lemma nk_div_bounds t : lwma_nk * (t / lwma_nk) <= t < lwma_nk * (t / lwma_nk) + lwma_nk.
Proof. unfold lwma_nk. Z.div_mod_to_equations. lia. Qed.

(** a chain given by a function, for examples *)
#[global] Instance fun_chain : ChainLookup (Z -> option (Z * Z)) := fun c h => c h.

(** blocks of equal difficulty at equal distances *)
Definition even_chain (t0 spacing b : Z) : Z -> option (Z * Z) := fun h => Some (t0 + spacing * h, b).

Lemma even_chain_good t0 spacing b height :
  0 <= t0 -> 0 <= spacing -> t0 + spacing * height < 2 ^ 32 -> good_bits b -> good_chain (even_chain t0 spacing b) height.
Proof.
  intros H0 Hs Hmax Hb h Hh. exists (t0 + spacing * h), b. split; [done|]. split; [|done]. unfold U. nia.
Qed.

Lemma good_bits_lit b :
  inU 32 b && bool_decide (compact_to_target b = (target_of b, false, false)) && (target_of b <=? 2 ^ 236 - 1) = true -> good_bits b.
Proof. intros H. bool_prop. repeat split; try done; [apply inU_spec in H; range..]. Qed.

(** ** Properties *)

(** C13: with the parameters of the network, on a chain whose stored headers carry
    flag-free targets within the proof-of-work limit, the expected nBits of the next block is
    defined (no missing header, no overflow, no division by zero, in all six algorithms) and is
    again flag-free and within the limit, so the invariant extends to the next block; unless
    the block is at one of the retargets of CIP01 and the product computed there, of the
    target, halved when it has the full length, and the clamped timespan, exceeds 256 bits
    ([cip01_overflows]). *)
Theorem next_work_good `{U256Overflow} `{ChainLookup C} (chain : C) (p : ConsensusParams) (height : Z) :
  std_params p -> U 32 height -> good_chain chain height ->
  (exists b, get_next_work_required height chain p = Ok b /\ good_bits b) \/ cip01_overflows chain height.
Proof.
  intros Hp Hh Hc. unfold get_next_work_required. rewrite std_limit by done.
  destruct (Z.eqb_spec height 0) as [->|Hne]; [left; eexists; split; [done|]; by apply good_compact|].
  assert (0 < height < 2 ^ 32) as Hpos by (unfold U in Hh; lia). rewrite height_pred by done. step_bind.
  replace (cip01_height p) with 20289 by (by rewrite Hp). replace (cip02_height p) with 21346 by (by rewrite Hp).
  destruct (Z.ltb_spec (height - 1) 20289); [apply cip01_good; auto with lia|]. left.
  destruct (Z.eqb_spec (height - 1) 20289); [eexists; split; [done|]; by apply good_bits_lit|].
  destruct (Z.ltb_spec (height - 1) 21346); [apply cip02_good; auto with lia|].
  destruct (height - 1 <? cip03_height p); [by apply cip03_good|].
  destruct (height - 1 <? cip04_height p); [apply cip04_good; auto with lia|].
  destruct (height - 1 <? cip05_height p); [apply cip05_good; auto with lia|by apply cip06_good].
Qed.

(** at height 27300 there is no exception *)
Lemma next_work_good_witness :
  exists b, @get_next_work_required (fun _ => None) _ fun_chain 27300 (even_chain 1387838302 600 0x1c0ffff0) mainnet = Ok b /\ good_bits b.
Proof.
  destruct (@next_work_good (fun _ => None) _ fun_chain (even_chain 1387838302 600 0x1c0ffff0) mainnet 27300) as [Hb|Ho].
  - reflexivity.
  - apply inU_spec. reflexivity.
  - apply even_chain_good; [lia|lia|lia|]. apply good_bits_lit. vm_compute. reflexivity.
  - exact Hb.
  - destruct Ho as [Ho _]. lia.
Defined.

(** a product that does not fit traps *)
Lemma litecoin_retarget_traps (p : ConsensusParams) timespan b actual : std_params p -> good_bits b -> 0 <= actual < 2 ^ 63 ->
  2 ^ 256 <= retarget_product (target_of b) actual -> @litecoin_retarget (fun _ => None) p timespan b actual = Panic.
Proof.
  intros Hp Hb Ha Hov. pose proof (good_bits_target b Hb) as Hb236. unfold litecoin_retarget, as_u64, u256_mul, u256_fit. unfold retarget_product in Hov. set (t := target_of b) in *.
  rewrite std_limit by done. change (bits_u256 (2 ^ 236 - 1)) with 236. cbn [mbind res_bind usize_sub Z.ltb Z.compare Pos.compare Pos.compare_cont].
  change (236 - 1) with 235. rewrite Z.gtb_ltb, (Z.mod_small actual (2 ^ 64)) by range. unfold u256_shr. rewrite Z.shiftr_div_pow2 by lia. change (2 ^ 1) with 2.
  destruct (235 <? bits_u256 t); (destruct (inU 256 _) eqn:E; [apply inU_spec in E; unfold U in E; lia|done]).
Qed.

(** C38: the retargets of CIP01 panic when their product overflows, and only then.  At a height
    up to 20289 that is a multiple of 2016, on a chain whose stored headers carry flag-free
    targets within the limit and with a U256 product that traps, the expected nBits cannot be
    computed if and only if the target of the parent, halved when it has the full length, times
    the clamped timespan of the period reaches 2^256.  So the halving does not prevent the
    overflow: at the genesis difficulty, periods of at least 2097185 seconds (a little
    over 24 days, where 56 are allowed) suffice. *)
Theorem cip01_retarget_overflows `{ChainLookup C} (chain : C) (p : ConsensusParams) (height ts b ts0 b0 : Z) :
  std_params p -> 0 < height <= 20289 -> height mod 2016 = 0 -> good_chain chain height ->
  header_at chain (height - 1) = Some (ts, b) -> header_at chain (period_start height) = Some (ts0, b0) ->
  (@get_next_work_required (fun _ => None) _ _ height chain p = Panic <-> 2 ^ 256 <= retarget_product (target_of b) (clampz (ts - ts0) 302400 4838400)) /\
  (b = 0x1e0ffff0 -> 2097185 <= ts - ts0 -> @get_next_work_required (fun _ => None) _ _ height chain p = Panic).
Proof.
  intros Hp Hh Hmod Hc Hts Hts0.
  assert (@get_next_work_required (fun _ => None) _ _ height chain p = Panic <-> 2 ^ 256 <= retarget_product (target_of b) (clampz (ts - ts0) 302400 4838400)) as Hiff.
  { assert (@get_next_work_required (fun _ => None) _ _ height chain p = @litecoin_retarget (fun _ => None) p 1209600 b (clampz (ts - ts0) 302400 4838400) /\ good_bits b) as [-> Hb].
    { unfold get_next_work_required. rewrite (proj2 (Z.eqb_neq height 0)) by lia. rewrite height_pred by lia. step_bind. replace (cip01_height p) with 20289 by (by rewrite Hp).
      rewrite (proj2 (Z.ltb_lt _ _)) by lia. destruct (@cip01_eq (fun _ => None) _ _ chain p Hp height ltac:(lia) Hc ltac:(lia)) as (ts1 & b1 & ts2 & b2 & E1 & Hb & _ & Hret).
      destruct (Hret Hmod) as [E2 ->]. simplify_eq. done. }
    pose proof (clampz_range (ts - ts0) 302400 4838400 ltac:(lia)). split; [|intros Hov; apply litecoin_retarget_traps; [done|done|lia|done]].
    intros Hpanic. destruct (Z.lt_ge_cases (retarget_product (target_of b) (clampz (ts - ts0) 302400 4838400)) (2 ^ 256)) as [Hfit|Hov]; [|done].
    destruct (@litecoin_retarget_good (fun _ => None) p Hp 1209600 b (clampz (ts - ts0) 302400 4838400)) as (b' & E & _); [done|lia|lia|lia|done|]. congruence. }
  split; [exact Hiff|]. intros -> Hlong. apply Hiff. assert (2097185 <= clampz (ts - ts0) 302400 4838400) as Hcl by (unfold clampz; lia).
  unfold retarget_product. replace (if 235 <? bits_u256 (target_of 0x1e0ffff0) then target_of 0x1e0ffff0 / 2 else target_of 0x1e0ffff0) with (524280 * 2 ^ 216) by (vm_compute; reflexivity).
  pow2. lia.
Qed.

(** 2016 blocks at the genesis difficulty, 2500 seconds apart *)
Lemma cip01_retarget_overflows_witness : @get_next_work_required (fun _ => None) _ fun_chain 2016 (even_chain 1387838302 2500 0x1e0ffff0) mainnet = Panic.
Proof.
  destruct (cip01_retarget_overflows (even_chain 1387838302 2500 0x1e0ffff0) mainnet 2016 (1387838302 + 2500 * 2015) 0x1e0ffff0 1387838302 0x1e0ffff0) as [_ H].
  - reflexivity.
  - lia.
  - reflexivity.
  - apply even_chain_good; [lia|lia|lia|]. apply good_bits_lit. vm_compute. reflexivity.
  - reflexivity.
  - reflexivity.
  - apply H; [reflexivity|lia].
Defined.

(** under CIP03 one block changes the target by at most 12 percent: the new
    target is at most 112/100 of the parent's and, unless it is the limit, at
    least 19285/21600 (about 100/112) of it up to 4 units of rounding. *)
Theorem cip03_tight `{U256Overflow} `{ChainLookup C} (chain : C) (p : ConsensusParams) (height ts b : Z) :
  std_params p -> 21347 <= height <= 27260 -> good_chain chain height ->
  header_at chain (height - 1) = Some (ts, b) ->
  exists t', get_next_work_required height chain p = Ok (target_to_compact t') /\
    100 * t' <= 112 * target_of b /\
    (t' = pow_limit p \/ 19285 * target_of b <= 21600 * (t' + 4)).
Proof.
  intros Hp Hh Hc Hlast. unfold get_next_work_required. rewrite (proj2 (Z.eqb_neq height 0)) by lia.
  rewrite height_pred by lia. step_bind. rewrite std_limit by done.
  replace (cip01_height p) with 20289 by (by rewrite Hp). replace (cip02_height p) with 21346 by (by rewrite Hp).
  replace (cip03_height p) with 27260 by (by rewrite Hp).
  rewrite (proj2 (Z.ltb_ge (height - 1) 20289)), (proj2 (Z.eqb_neq (height - 1) 20289)),
    (proj2 (Z.ltb_ge (height - 1) 21346)), (proj2 (Z.ltb_lt (height - 1) 27260)) by lia.
  destruct (cip03_eq chain p Hp height ltac:(lia) Hc) as (ts' & b' & ts0 & b0 & E & _ & Hb & ->).
  rewrite Hlast in E. injection E as <- <-. pose proof (good_bits_target b Hb) as Ht.
  pose proof (clampz_range (ts - ts0) 19285 24192 ltac:(lia)) as Ha. set (a := clampz _ _ _) in *. clearbody a.
  rewrite litecoin_retarget_eq by (done || lia || (eapply Z.le_lt_trans; [apply retarget_product_le; lia|]; pow2; nia)). eexists. split; [done|].
  pose proof (rescaled_range (target_of b) 21600 a ltac:(lia) ltac:(lia) ltac:(lia)). nia.
Qed.

Lemma cip03_tight_witness :
  exists t', @get_next_work_required (fun _ => None) _ fun_chain 22000 (even_chain 1387838302 300 0x1c0ffff0) mainnet
    = Ok (target_to_compact t') /\ 100 * t' <= 112 * target_of 0x1c0ffff0.
Proof.
  destruct (@cip03_tight (fun _ => None) _ fun_chain (even_chain 1387838302 300 0x1c0ffff0) mainnet 22000
    (1387838302 + 300 * 21999) 0x1c0ffff0) as (t' & E & H1 & _).
  - reflexivity.
  - lia.
  - apply even_chain_good; [lia|lia|lia|]. apply good_bits_lit. vm_compute. reflexivity.
  - reflexivity.
  - exists t'. exact (conj E H1).
Defined.

Lemma weights_45 : weighted_from 1 (replicate 45 1) = 1035.
Proof. reflexivity. Qed.

Lemma lwma_sum_range anchor (window : list (Z * Z)) :
  length window = 45%nat -> 1035 <= weighted_from 1 (lwma_solves anchor window.*1) <= 3600 * 1035.
Proof.
  intros Hl. pose proof (weighted_from_range 1 3600 1 (lwma_solves anchor window.*1) ltac:(lia) (lwma_solves_range _ _)) as Hw.
  rewrite length_lwma_solves, length_fmap, Hl, weights_45 in Hw. lia.
Qed.

Lemma headers_from_good `{ChainLookup C} (chain : C) height start n :
  good_chain chain height -> 0 <= start -> start + Z.of_nat n <= height ->
  Forall (fun h => 0 <= target_of h.2 <= 2 ^ 236 - 1) (headers_from chain start n) /\
  length (headers_from chain start n) = n.
Proof.
  intros Hc. unfold headers_from. revert start. induction n as [|n IH]; intros start Hs Hn; [done|].
  rewrite seqZ_cons by lia. replace (Z.pred (Z.of_nat (S n))) with (Z.of_nat n) by lia. cbn [omap list_omap].
  destruct (Hc start ltac:(lia)) as (ts & b & -> & _ & Hb).
  destruct (IH (Z.succ start) ltac:(lia) ltac:(lia)) as [IH1 IH2]. pose proof (good_bits_target b Hb).
  split; [constructor; [cbn; lia|done]|cbn [length]; by rewrite IH2].
Qed.

(** C23: from height 397001 on, the expected nBits is the LWMA-1 average of the
    last 45 blocks, computed by the loop without overflow: with the solve times
    made monotone and capped at six times the spacing, it is the sum of the
    targets divided by [N * k] times the linearly weighted sum of the solve
    times, capped at the limit.  The average never exceeds six times the largest
    target of the window, and 45 blocks of equal target [t] at the target
    spacing give [t] back up to [N * k] units. *)
Theorem lwma_reference `{U256Overflow} `{ChainLookup C} (chain : C) (p : ConsensusParams) (height anchor b0 : Z) :
  std_params p -> 397001 <= height < 2 ^ 32 -> good_chain chain height ->
  header_at chain (height - 46) = Some (anchor, b0) ->
  let window := headers_from chain (height - 45) 45 in
  get_next_work_required height chain p = Ok (target_to_compact (lwma_next anchor window)) /\
  length window = 45%nat /\
  (forall t, Forall (fun h => target_of h.2 <= t) window -> lwma_next anchor window <= 6 * t) /\
  (forall t, window.*1 = ((fun i => anchor + 600 * (Z.of_nat i + 1)) <$> seq 0 45) ->
     Forall (fun h => target_of h.2 = t) window -> t - lwma_nk < lwma_next anchor window <= t).
Proof.
  intros Hp Hh Hc Hanchor window.
  destruct (headers_from_good chain height (height - 45) 45 Hc) as [Hgood Hlen]; [lia|lia|]. fold window in Hgood, Hlen.
  pose proof (lwma_sum_range anchor window Hlen) as Hw. split; [|split; [done|split]].
  - unfold get_next_work_required. rewrite (proj2 (Z.eqb_neq height 0)) by lia. rewrite height_pred by lia. step_bind.
    replace (cip01_height p) with 20289 by (by rewrite Hp). replace (cip02_height p) with 21346 by (by rewrite Hp).
    replace (cip03_height p) with 27260 by (by rewrite Hp). replace (cip04_height p) with 46331 by (by rewrite Hp).
    replace (cip05_height p) with 397000 by (by rewrite Hp).
    rewrite (proj2 (Z.ltb_ge (height - 1) 20289)), (proj2 (Z.ltb_ge (height - 1) 21346)), (proj2 (Z.ltb_ge (height - 1) 27260)),
      (proj2 (Z.ltb_ge (height - 1) 46331)), (proj2 (Z.ltb_ge (height - 1) 397000)) by lia.
    rewrite (proj2 (Z.eqb_neq (height - 1) 20289)) by lia.
    destruct (cip06_eq chain p Hp height ltac:(lia) Hc ltac:(lia)) as (anchor' & b0' & E & -> & _).
    rewrite Hanchor in E. by injection E as <- <-.
  - intros t Ht. unfold lwma_next. set (w := weighted_from _ _) in *. clearbody w.
    pose proof (zsum_le (fun h : Z * Z => target_of h.2 / lwma_nk) window (t / lwma_nk)) as Hs.
    unfold zlen in Hs. rewrite Hlen in Hs. specialize (Hs ltac:(eapply Forall_impl; [exact Ht|];
      intros x Hx; cbn beta; apply Z.div_le_mono; [unfold lwma_nk; lia|exact Hx])).
    pose proof (zsum_fmap_nonneg (fun h : Z * Z => target_of h.2 / lwma_nk) window
      ltac:(eapply Forall_impl; [exact Hgood|]; intros x Hx; cbn beta; apply Z.div_pos; [apply Hx|unfold lwma_nk; lia])) as Hn.
    pose proof (nk_div_bounds t) as Hnk. unfold lwma_nk in *. nia.
  - intros t Hts Ht. unfold lwma_next. rewrite Hts, (lwma_solves_even anchor 45 600) by lia.
    change (weighted_from 1 (replicate 45 600)) with 621000.
    rewrite (zsum_const _ window (t / lwma_nk)) by (eapply Forall_impl; [exact Ht|]; intros x Hx; cbn beta; by rewrite Hx).
    unfold zlen. rewrite Hlen. pose proof (nk_div_bounds t).
    assert (t <= 2 ^ 236 - 1).
    { destruct window as [|h window']; [done|]. apply Forall_cons in Ht as [<- _], Hgood as [Hg _]. lia. }
    unfold lwma_nk in *. lia.
Qed.

Lemma lwma_reference_witness :
  exists t, @get_next_work_required (fun _ => None) _ fun_chain 400000 (even_chain 1387838302 600 0x1c0ffff0) mainnet
    = Ok (target_to_compact t) /\ target_of 0x1c0ffff0 - lwma_nk < t <= target_of 0x1c0ffff0.
Proof.
  destruct (@lwma_reference (fun _ => None) _ fun_chain (even_chain 1387838302 600 0x1c0ffff0) mainnet 400000
    (1387838302 + 600 * 399954) 0x1c0ffff0) as (E & _ & _ & Hsteady).
  - reflexivity.
  - lia.
  - apply even_chain_good; [lia|lia|lia|]. apply good_bits_lit. vm_compute. reflexivity.
  - reflexivity.
  - eexists. split; [exact E|]. apply Hsteady; [vm_compute; reflexivity|].
    apply (bool_decide_unpack _). vm_compute. exact Logic.I.
Defined.
