(* ===== verification/Validation.v ===== *)
(** * Validation: consensus rules for transactions, blocks and timestamps

    Models src/src/validation/: the subsidy schedule, the context-free checks of
    transactions and blocks, the median time past and the checks that need the
    height.  Each check is characterised by the condition under which it
    accepts. *)
From Stdlib Require Import Strings.Byte.
From stdpp Require Import base numbers list strings gmap sorting.
From S2P Require Import Prelude Codec Types Compact Difficulty.

(** ** Subsidy (subsidy.rs) *)

Definition COIN : Z := 100000000.
Definition MAX_MONEY : Z := 21000000 * COIN.
Definition HALVING_INTERVAL : Z := 210000.
Definition INITIAL_SUBSIDY : Z := 50 * COIN.

Definition get_block_subsidy (height : Z) : Z :=
  let halvings := height / HALVING_INTERVAL in
  if halvings >=? 64 then 0 else Z.shiftr INITIAL_SUBSIDY halvings.

(** ** Transactions (transaction.rs) *)

Definition MAX_COINBASE_SCRIPTSIG : Z := 100.
Definition MIN_COINBASE_SCRIPTSIG : Z := 2.

Definition check_output_value (_ : unit) (output : TxOut) : result unit :=
  if value output <? 0 then Err "transaction output has negative value" else
  if value output >? MAX_MONEY then Err "transaction output value exceeds MAX_MONEY" else
  Ok tt.

(** the [HashSet] of the inputs seen so far *)
Definition check_input_fresh (seen : gset (Hash256 * Z)) (input : TxIn) : result (gset (Hash256 * Z)) :=
  let key := (op_txid (prev_output input), op_index (prev_output input)) in
  if bool_decide (key ∈ seen) then Err "transaction contains duplicate inputs" else Ok ({[ key ]} ∪ seen).

Definition check_not_null (_ : unit) (input : TxIn) : result unit :=
  if bool_decide (prev_output input = OUTPOINT_COINBASE)
  then Err "non-coinbase transaction has null prevout" else Ok tt.

Definition check_transaction (tx : Transaction) : result unit :=
  ensure (negb (zlen (vin tx) =? 0)) else "transaction has no inputs" ;;
  ensure (negb (zlen (vout tx) =? 0)) else "transaction has no outputs" ;;
  _ ← fold_res check_output_value tt (vout tx);
  let total := match try_sum 0 (value <$> vout tx) with
               | Some sum => if sum <=? MAX_MONEY then Some sum else None
               | None => None
               end in
  match total with
  | None => Err "total output value exceeds MAX_MONEY"
  | Some _ =>
    _ ← fold_res check_input_fresh ∅ (vin tx);
    if is_coinbase tx then
      input ← or_panic (vin tx !! 0%nat);
      let scriptsig_len := zlen (script_sig input) in
      if (MIN_COINBASE_SCRIPTSIG <=? scriptsig_len) && (scriptsig_len <=? MAX_COINBASE_SCRIPTSIG)
      then Ok tt else Err "coinbase scriptsig length out of range"
    else fold_res check_not_null tt (vin tx)
  end.

(** ** Blocks (block.rs) *)

Definition MAX_BLOCK_WEIGHT : Z := 4000000.
Definition WITNESS_SCALE_FACTOR : Z := 4.

Definition varint_size (val : Z) : Z :=
  if val <? 0xFD then 1
  else if val <=? 0xFFFF then 3
  else if val <=? 0xFFFFFFFF then 5
  else 9.

Definition block_serialized_size (block : Block) : Z :=
  let tx_count := zlen (transactions block) in
  HEADER_SIZE + varint_size tx_count + zsum ((fun tx => zlen (tx_to_bytes tx)) <$> transactions block).

Definition check_single_coinbase (_ : unit) (tx : Transaction) : result unit :=
  if is_coinbase tx then Err "multiple coinbase transactions" else Ok tt.

Definition check_block (block : Block) : result unit :=
  ensure (negb (zlen (transactions block) =? 0)) else "block has no transactions" ;;
  first ← or_panic (transactions block !! 0%nat);
  ensure (is_coinbase first) else "first transaction is not coinbase" ;;
  _ ← fold_res check_single_coinbase tt (drop 1 (transactions block));
  let size := block_serialized_size block in
  let weight := size * WITNESS_SCALE_FACTOR in
  ensure (negb (weight >? MAX_BLOCK_WEIGHT)) else "block weight exceeds maximum" ;;
  fold_res (fun _ tx => context "transaction failed validation" (check_transaction tx)) tt (transactions block).

(** ** Context (mod.rs) *)

Definition BIP34_HEIGHT : Z := 111.
Definition MAX_FUTURE_BLOCK_TIME : Z := 150.
Definition MEDIAN_TIME_SPAN : Z := 11.

(** [for h in start..=height { let (ts, _) = chain.header_at(h)?; push(ts) }] *)
Fixpoint collect_times `{ChainLookup C} (chain : C) (heights : list Z) : option (list Z) :=
  match heights with
  | [] => Some []
  | h :: heights =>
    match header_at chain h with
    | None => None
    | Some (ts, _) => (fun l => ts :: l) <$> collect_times chain heights
    end
  end.

Definition compute_median_time_past `{ChainLookup C} (chain : C) (height : Z) : option Z :=
  let start := sat_sub height (MEDIAN_TIME_SPAN - 1) in
  match collect_times chain (seqZ start (height - start + 1)) with
  | None => None
  | Some timestamps =>
    let sorted := merge_sort Z.le timestamps in
    sorted !! (length sorted / 2)%nat
  end.

Definition encode_script_height (height : Z) : list byte :=
  if height =? 0 then [x00] else
  if height <=? 16 then [z2b (0x50 + height)] else
  let data := min_le_bytes 4 height in
  let data := match last data with
              | Some b => if negb (Z.land (b2z b) 0x80 =? 0) then data ++ [x00] else data
              | None => data
              end in
  z2b (zlen data) :: data.

Definition check_bip34_height (coinbase : Transaction) (expected_height : Z) : result unit :=
  input ← or_panic (vin coinbase !! 0%nat);
  let script := script_sig input in
  let expected := encode_script_height expected_height in
  if zlen script <? zlen expected then Err "BIP34: coinbase scriptSig too short for height encoding" else
  if negb (bool_decide (take (length expected) script = expected))
  then Err "BIP34: coinbase does not start with expected height encoding" else Ok tt.

Definition check_block_context (block : Block) (height median_time_past adjusted_time : Z) : result unit :=
  let ts := timestamp (header block) in
  if ts <=? median_time_past then Err "time-too-old" else
  max_time ← u32_add adjusted_time MAX_FUTURE_BLOCK_TIME;
  if ts >? max_time then Err "time-too-new" else
  if (height >=? BIP34_HEIGHT) && (hdr_version (header block) <? 2) then Err "block version too low" else
  _ ← (if height >=? BIP34_HEIGHT then
         coinbase ← or_panic (transactions block !! 0%nat);
         check_bip34_height coinbase height
       else Ok tt);
  coinbase ← or_panic (transactions block !! 0%nat);
  let coinbase_total := default i64_max (try_sum 0 (value <$> vout coinbase)) in
  let subsidy := get_block_subsidy height in
  let sanity_cap := i64_sat_add subsidy MAX_MONEY in
  if coinbase_total >? sanity_cap then Err "coinbase total exceeds sanity cap" else Ok tt.

(** ** Issuance *)

(** coins created by the blocks below height [n] *)
Fixpoint total_subsidy (n : nat) : Z :=
  match n with
  | O => 0
  | S n => total_subsidy n + get_block_subsidy (Z.of_nat n)
  end.

Lemma subsidy_eq height :
  0 <= height -> get_block_subsidy height = INITIAL_SUBSIDY / 2 ^ (height / HALVING_INTERVAL).
Proof.
  intros Hh. assert (0 <= height / HALVING_INTERVAL) as Hq by (apply Z.div_pos; done).
  unfold get_block_subsidy. rewrite Z.geb_leb. destruct (Z.leb_spec 64 (height / HALVING_INTERVAL)).
  - rewrite Z.div_small; [done|]. split; [done|]. refine (Z.lt_le_trans _ (2 ^ 64) _ _ _); [done|].
    apply Z.pow_le_mono_r; lia.
  - by rewrite Z.shiftr_div_pow2.
Qed.

Lemma subsidy_range height : 0 <= height -> 0 <= get_block_subsidy height <= INITIAL_SUBSIDY.
Proof.
  intros Hh. rewrite subsidy_eq by done. assert (0 <= height / HALVING_INTERVAL) as Hq by (apply Z.div_pos; done).
  pose proof (Z.pow_pos_nonneg 2 (height / HALVING_INTERVAL) ltac:(lia) Hq).
  split; [apply Z.div_pos; done|]. apply Z.div_le_upper_bound; [lia|]. unfold INITIAL_SUBSIDY, COIN. nia.
Qed.

(** what is still to be issued is at most twice a full era at the current rate *)
Lemma subsidy_potential n :
  total_subsidy n +
    (2 * HALVING_INTERVAL - Z.of_nat n mod HALVING_INTERVAL) * (INITIAL_SUBSIDY / 2 ^ (Z.of_nat n / HALVING_INTERVAL))
  <= MAX_MONEY.
Proof.
  unfold HALVING_INTERVAL. induction n as [|n IH]; [done|]. cbn [total_subsidy]. rewrite subsidy_eq by lia. unfold HALVING_INTERVAL.
  set (x := Z.of_nat n) in *. replace (Z.of_nat (S n)) with (x + 1) by lia.
  set (q := x / 210000) in *. set (r := x mod 210000) in *.
  assert (x = 210000 * q + r /\ 0 <= r < 210000) as [Hx Hr] by (subst q r; Z.div_mod_to_equations; lia).
  assert (0 <= q) by lia. pose proof (Z.pow_pos_nonneg 2 q ltac:(lia) ltac:(lia)) as Hpow.
  set (y := INITIAL_SUBSIDY / 2 ^ q) in *. assert (0 <= y) by (apply Z.div_pos; [done|lia]).
  destruct (Z.eq_dec r 209999) as [Hlast|Hmid].
  - assert ((x + 1) / 210000 = q + 1) as -> by (Z.div_mod_to_equations; lia).
    assert ((x + 1) mod 210000 = 0) as -> by (Z.div_mod_to_equations; lia).
    assert (INITIAL_SUBSIDY / 2 ^ (q + 1) = y / 2) as ->.
    { rewrite Z.pow_add_r by lia. change (2 ^ 1) with 2. by rewrite <- Z.div_div by lia. }
    assert (2 * (y / 2) <= y) by (Z.div_mod_to_equations; lia). clearbody y. nia.
  - assert ((x + 1) / 210000 = q) as -> by (Z.div_mod_to_equations; lia).
    assert ((x + 1) mod 210000 = r + 1) as -> by (Z.div_mod_to_equations; lia).
    fold y. clearbody y. nia.
Qed.

(** the schedule never issues more than [MAX_MONEY] *)
Lemma total_subsidy_range (n : nat) : 0 <= total_subsidy n <= MAX_MONEY.
Proof.
  split.
  - induction n as [|n IH]; cbn [total_subsidy]; [done|]. pose proof (subsidy_range (Z.of_nat n)). lia.
  - pose proof (subsidy_potential n) as Hp. set (y := INITIAL_SUBSIDY / _) in *.
    assert (0 <= y) as Hy.
    { apply Z.div_pos; [done|]. apply Z.pow_pos_nonneg; [lia|]. apply Z.div_pos; [lia|done]. }
    clearbody y. unfold HALVING_INTERVAL in *. pose proof (Z.mod_pos_bound (Z.of_nat n) 210000). nia.
Qed.

(** ** What each check accepts *)

Definition output_ok (o : TxOut) : Prop := 0 <= value o <= MAX_MONEY.

(** the context-free rules a transaction must satisfy *)
Record tx_rules (tx : Transaction) : Prop := {
  tr_inputs : vin tx <> [];
  tr_outputs : vout tx <> [];
  tr_values : Forall output_ok (vout tx);
  tr_total : zsum (value <$> vout tx) <= MAX_MONEY;
  tr_nodup : NoDup (prev_output <$> vin tx);
  tr_coinbase : if is_coinbase tx
                then exists input, vin tx = [input] /\ 2 <= zlen (script_sig input) <= 100
                else OUTPOINT_COINBASE ∉ prev_output <$> vin tx;
}.

Lemma zlen_0 {A} (l : list A) : negb (zlen l =? 0) = true <-> l <> [].
Proof. unfold zlen. destruct l; [done|]. cbn. split; [done|]. intros _. apply negb_true_iff, Z.eqb_neq. lia. Qed.

Lemma check_outputs_Ok l : fold_res check_output_value tt l = Ok tt <-> Forall output_ok l.
Proof.
  rewrite fold_res_unit. apply Forall_proper; [|done]. intros o. unfold check_output_value, output_ok.
  rewrite Z.gtb_ltb. destruct (Z.ltb_spec (value o) 0), (Z.ltb_spec MAX_MONEY (value o)); split; (done || lia).
Qed.

Lemma check_inputs_Ok l seen :
  (exists seen', fold_res check_input_fresh seen l = Ok seen') <->
  NoDup (prev_output <$> l) /\ forall o, o ∈ prev_output <$> l -> (op_txid o, op_index o) ∉ seen.
Proof.
  revert seen. induction l as [|i l IH]; intros seen; cbn [fold_res fmap list_fmap].
  - split; [|by eauto]. intros _. split; [constructor|set_solver].
  - unfold check_input_fresh at 1. destruct (bool_decide_reflect ((op_txid (prev_output i), op_index (prev_output i)) ∈ seen)) as [Hin|Hnin].
    + split; [by intros (? & ?)|]. intros [_ Hf]. destruct (Hf (prev_output i)); set_solver.
    + rewrite IH, NoDup_cons. split.
      * intros [Hnd Hf]. split; [split; [|done]|].
        -- intros Hc. destruct (Hf _ Hc). set_solver.
        -- intros o [->|Ho]%elem_of_cons; [done|]. specialize (Hf o Ho). set_solver.
      * intros [[Hnew Hnd] Hf]. split; [done|]. intros o Ho. specialize (Hf o ltac:(set_solver)).
        rewrite not_elem_of_union, not_elem_of_singleton. split; [|done].
        intros [= H1 H2]. apply Hnew. destruct o, (prev_output i). cbn in *. by subst.
Qed.

Lemma check_nulls_Ok l : fold_res check_not_null tt l = Ok tt <-> OUTPOINT_COINBASE ∉ prev_output <$> l.
Proof.
  rewrite fold_res_unit, list_elem_of_fmap, Forall_forall. unfold check_not_null. split.
  - intros Hall (i & E & Hi). specialize (Hall i Hi). by rewrite bool_decide_true in Hall.
  - intros Hn i Hi. rewrite bool_decide_false; [done|]. intros E. apply Hn. by exists i.
Qed.

Lemma is_coinbase_iff tx :
  is_coinbase tx = true <-> exists input, vin tx = [input] /\ prev_output input = OUTPOINT_COINBASE.
Proof.
  unfold is_coinbase, zlen. destruct (vin tx) as [|i [|j l]]; cbn [length head].
  - split; [done|]. by intros (? & ? & _).
  - change (Z.of_nat 1 =? 1) with true. rewrite andb_true_l, bool_decide_eq_true. split; [by eauto|].
    by intros (? & [= <-] & ?).
  - rewrite (proj2 (Z.eqb_neq _ _)) by lia. split; [done|]. by intros (? & ? & _).
Qed.

Lemma try_total_Ok l :
  Forall output_ok l ->
  match try_sum 0 (value <$> l) with
  | Some sum => if sum <=? MAX_MONEY then Some sum else None
  | None => None
  end = if zsum (value <$> l) <=? MAX_MONEY then Some (zsum (value <$> l)) else None.
Proof.
  intros Hl. rewrite try_sum_spec; [|range|by apply Forall_fmap; eapply Forall_impl; [exact Hl|]; intros o [? _]].
  rewrite Z.add_0_l. destruct (Z.leb_spec (zsum (value <$> l)) i64_max); [done|].
  rewrite (proj2 (Z.leb_gt _ _)); [done|]. unfold MAX_MONEY, COIN. range.
Qed.

Lemma check_transaction_Ok tx : check_transaction tx = Ok tt <-> tx_rules tx.
Proof.
  unfold check_transaction. split.
  - intros H. destruct (negb (zlen (vin tx) =? 0)) eqn:Hi; [|done].
    destruct (negb (zlen (vout tx) =? 0)) eqn:Ho; [|done]. apply zlen_0 in Hi, Ho.
    apply res_bind_Ok in H as ([] & Hv%check_outputs_Ok & H). rewrite try_total_Ok in H by done.
    destruct (Z.leb_spec (zsum (value <$> vout tx)) MAX_MONEY); [|done].
    apply res_bind_Ok in H as (seen & Hs & H).
    assert (NoDup (prev_output <$> vin tx)) as Hnd by (eapply (check_inputs_Ok _ ∅); eauto).
    constructor; try done. destruct (is_coinbase tx) eqn:Hc.
    + apply is_coinbase_iff in Hc as (input & E & _). rewrite E in H. cbn in H. exists input. split; [done|].
      crush_match_in H. unfold MIN_COINBASE_SCRIPTSIG, MAX_COINBASE_SCRIPTSIG in *. bool_prop. lia.
    + by apply check_nulls_Ok.
  - intros [Hi Ho Hv Ht Hnd Hc]. apply zlen_0 in Hi, Ho. rewrite Hi, Ho, (proj2 (check_outputs_Ok _) Hv). cbn [mbind res_bind].
    rewrite try_total_Ok, (proj2 (Z.leb_le _ _) Ht) by done.
    destruct (proj2 (check_inputs_Ok (vin tx) ∅)) as [seen ->]; [split; [done|set_solver]|]. cbn [mbind res_bind].
    destruct (is_coinbase tx); [|by apply check_nulls_Ok].
    destruct Hc as (input & -> & Hlen). cbn [lookup list_lookup or_panic mbind res_bind].
    unfold MIN_COINBASE_SCRIPTSIG, MAX_COINBASE_SCRIPTSIG. by rewrite !(proj2 (Z.leb_le _ _)) by lia.
Qed.

(** ** Blocks *)

Record block_rules (b : Block) : Prop := {
  br_coinbase : exists cb rest, transactions b = cb :: rest /\ is_coinbase cb = true /\
                                Forall (fun tx => is_coinbase tx = false) rest;
  br_weight : 4 * block_serialized_size b <= MAX_BLOCK_WEIGHT;
  br_txs : Forall tx_rules (transactions b);
}.

Lemma check_block_Ok b : check_block b = Ok tt <-> block_rules b.
Proof.
  unfold check_block, WITNESS_SCALE_FACTOR.
  assert (fold_res (fun _ tx => context "transaction failed validation" (check_transaction tx)) tt (transactions b) = Ok tt
          <-> Forall tx_rules (transactions b)) as Htx.
  { rewrite fold_res_unit. apply Forall_proper; [|done]. intros tx. by rewrite context_Ok, check_transaction_Ok. }
  assert (forall l, fold_res check_single_coinbase tt l = Ok tt <-> Forall (fun tx => is_coinbase tx = false) l) as Hcb.
  { intros l. rewrite fold_res_unit. apply Forall_proper; [|done]. intros tx. unfold check_single_coinbase.
    by destruct (is_coinbase tx). }
  split.
  - intros H. destruct (transactions b) as [|cb rest] eqn:E; [done|]. cbn [lookup list_lookup or_panic mbind res_bind] in H.
    destruct (negb _) eqn:Hne in H; [|done]. destruct (is_coinbase cb) eqn:Ec; [|done].
    apply res_bind_Ok in H as ([] & Hrest%Hcb & H). destruct (negb _) eqn:Hw in H; [|done].
    bool_prop. constructor; rewrite ?E; [by eauto|lia|by apply Htx].
  - intros [(cb & rest & E & Ec & Hrest) Hw Hall]. rewrite E in *. cbn [lookup list_lookup or_panic mbind res_bind].
    rewrite (proj2 (zlen_0 (cb :: rest))), Ec by done.
    change (drop 1 (cb :: rest)) with rest. rewrite (proj2 (Hcb _) Hrest). cbn [mbind res_bind].
    rewrite Z.gtb_ltb, (proj2 (Z.ltb_ge _ _)) by lia. by apply Htx.
Qed.

Lemma check_transaction_no_panic tx : check_transaction tx <> Panic.
Proof.
  unfold check_transaction. destruct (negb _); [|done]. destruct (negb _); [|done].
  destruct (fold_res check_output_value tt (vout tx)) eqn:E1; cbn [mbind res_bind]; [|done|].
  - destruct (match try_sum 0 (value <$> vout tx) with Some sum => if sum <=? MAX_MONEY then Some sum else None | None => None end); [|done].
    destruct (fold_res check_input_fresh ∅ (vin tx)) eqn:E2; cbn [mbind res_bind]; [|done|].
    + destruct (is_coinbase tx) eqn:Ec.
      * apply is_coinbase_iff in Ec as (i & -> & _). cbn. by case_match.
      * apply fold_res_no_panic. intros s i. unfold check_not_null. by case_match.
    + exfalso. revert E2. apply fold_res_no_panic. intros s i. unfold check_input_fresh. by case_match.
  - exfalso. revert E1. apply fold_res_no_panic. intros s o. unfold check_output_value. by repeat case_match.
Qed.

Lemma check_block_no_panic b : check_block b <> Panic.
Proof.
  unfold check_block. destruct (transactions b) as [|cb rest]; [done|].
  cbn [lookup list_lookup or_panic mbind res_bind]. destruct (negb _); [|done]. destruct (is_coinbase cb); [|done].
  destruct (fold_res check_single_coinbase tt (drop 1 (cb :: rest))) eqn:E; cbn [mbind res_bind]; [|done|].
  - destruct (negb _); [|done]. apply fold_res_no_panic. intros s tx.
    pose proof (check_transaction_no_panic tx). by destruct (check_transaction tx).
  - exfalso. revert E. apply fold_res_no_panic. intros s tx. unfold check_single_coinbase. by case_match.
Qed.

Lemma varint_size_eq n : U 64 n -> varint_size n = zlen (write_varint n).
Proof.
  intros Hn. unfold varint_size, write_varint, zlen.
  repeat case_match; bool_prop; cbn [length]; rewrite ?length_le_bytes; try done; range.
Qed.

Lemma zlen_concat {A B} (f : A -> list B) (l : list A) : zlen (concat (map f l)) = zsum ((fun a => zlen (f a)) <$> l).
Proof.
  induction l as [|a l IH]; [done|]. cbn [map concat fmap list_fmap]. rewrite zlen_app, zsum_cons.
  by rewrite <- IH.
Qed.

Lemma block_size_eq b :
  header_ok (header b) -> zlen (transactions b) < 2 ^ 64 -> block_serialized_size b = zlen (block_to_bytes b).
Proof.
  intros Hh Hn. unfold block_serialized_size, block_to_bytes. rewrite !zlen_app, zlen_concat.
  rewrite varint_size_eq by (split; [apply zlen_nonneg|done]).
  assert (zlen (header_to_bytes (header b)) = 80) as -> by (unfold zlen; by rewrite length_header_to_bytes).
  unfold HEADER_SIZE. lia.
Qed.

(** ** Median time past *)

(** number of times strictly below [m] *)
Definition count_below (m : Z) (l : list Z) : nat := length (filter (fun x => x < m) l).

#[global] Instance count_below_Permutation m : Proper (Permutation ==> eq) (count_below m).
Proof. intros l k Hlk. unfold count_below. by rewrite Hlk. Qed.

Lemma count_below_app m l k : count_below m (l ++ k) = (count_below m l + count_below m k)%nat.
Proof. unfold count_below. by rewrite filter_app, length_app. Qed.

Lemma count_below_le m l : (count_below m l <= length l)%nat.
Proof. apply length_filter. Qed.

Lemma count_below_none m l : Forall (fun x => m <= x) l -> count_below m l = 0%nat.
Proof.
  unfold count_below. induction 1 as [|x l Hx Hl IH]; [done|]. rewrite filter_cons_False by lia. done.
Qed.

Lemma count_below_all m l : Forall (fun x => x < m) l -> count_below m l = length l.
Proof.
  unfold count_below. induction 1 as [|x l Hx Hl IH]; [done|]. rewrite filter_cons_True by done. cbn. by rewrite IH.
Qed.

(** position [i] of a sorted list holds a value [>= m] exactly when at most [i]
    of its elements are below [m] *)
Lemma sorted_index l i v m :
  StronglySorted Z.le l -> l !! i = Some v -> m <= v <-> (count_below m l <= i)%nat.
Proof.
  intros Hs Hi. apply take_drop_middle in Hi as Hl. rewrite <- Hl in Hs |- *.
  assert (i < length l)%nat as Hlt by (eapply lookup_lt_Some; eauto).
  rewrite count_below_app. split.
  - intros Hm. rewrite (count_below_none m (v :: _)).
    + pose proof (count_below_le m (take i l)). rewrite length_take in *. lia.
    + apply StronglySorted_app_1_r in Hs. inversion Hs as [|? ? Hs' Hall]; subst. constructor; [done|].
      eapply Forall_impl; [exact Hall|]. cbn. lia.
  - intros Hc. apply Z.nlt_ge. intros Hv.
    rewrite (count_below_all m (take i l)) in Hc.
    + rewrite length_take in Hc. unfold count_below in Hc. rewrite filter_cons_True in Hc by done. cbn in Hc. lia.
    + apply Forall_forall. intros x Hx. eapply Z.le_lt_trans; [|exact Hv].
      eapply (StronglySorted_app_1_elem_of Z.le); [exact Hs|done|left].
Qed.

Lemma sort_sorted l : StronglySorted Z.le (merge_sort Z.le l).
Proof. apply Sorted_StronglySorted; [intros ???; lia|]. apply Sorted_merge_sort. intros x y. lia. Qed.

(** the middle element of the sorted times *)
Lemma median_index l v m :
  merge_sort Z.le l !! (length (merge_sort Z.le l) / 2)%nat = Some v ->
  m <= v <-> (count_below m l <= length l / 2)%nat.
Proof.
  intros Hv. rewrite (sorted_index _ _ _ m (sort_sorted l) Hv). by rewrite (merge_sort_Permutation Z.le l).
Qed.

Lemma median_defined l : l <> [] -> exists v, merge_sort Z.le l !! (length (merge_sort Z.le l) / 2)%nat = Some v.
Proof.
  intros Hl. apply lookup_lt_is_Some. rewrite (merge_sort_Permutation Z.le l).
  destruct l; [done|]. apply Nat.Div0.div_lt_upper_bound; cbn; lia.
Qed.

Lemma seqZ_one m : seqZ m 1 = [m].
Proof. rewrite seqZ_cons by lia. by rewrite seqZ_nil by lia. Qed.

Section Mtp.
Context `{ChainLookup C} (chain : C).

Lemma collect_times_app hs ks :
  collect_times chain (hs ++ ks) =
  match collect_times chain hs, collect_times chain ks with
  | Some l, Some k => Some (l ++ k)
  | _, _ => None
  end.
Proof.
  induction hs as [|h hs IH]; cbn [app collect_times].
  - by destruct (collect_times chain ks).
  - destruct (header_at chain h) as [[ts b]|]; [|done]. rewrite IH.
    by destruct (collect_times chain hs), (collect_times chain ks).
Qed.

Lemma length_collect_times hs l : collect_times chain hs = Some l -> length l = length hs.
Proof.
  revert l. induction hs as [|h hs IH]; intros l; cbn [collect_times].
  - by intros [= <-].
  - destruct (header_at chain h) as [[ts b]|]; [|done]. destruct (collect_times chain hs) as [k|]; [|done].
    intros [= <-]. cbn. by rewrite (IH k).
Qed.

Lemma mtp_Some height m :
  compute_median_time_past chain height = Some m ->
  exists l, collect_times chain (seqZ (Z.max 0 (height - 10)) (height - Z.max 0 (height - 10) + 1)) = Some l /\
    merge_sort Z.le l !! (length (merge_sort Z.le l) / 2)%nat = Some m.
Proof.
  unfold compute_median_time_past, sat_sub, MEDIAN_TIME_SPAN. change (11 - 1) with 10.
  destruct (collect_times chain _) as [l|] eqn:E; [|done]. intros Hm. by exists l.
Qed.

(** the window of the next height: the newest time enters, the oldest leaves if
    the window was full *)
Lemma window_next height ts b l :
  0 <= height -> header_at chain (height + 1) = Some (ts, b) ->
  collect_times chain (seqZ (Z.max 0 (height - 10)) (height - Z.max 0 (height - 10) + 1)) = Some l ->
  exists l', collect_times chain (seqZ (Z.max 0 (height + 1 - 10)) (height + 1 - Z.max 0 (height + 1 - 10) + 1)) = Some l' /\
    (l' = l ++ [ts] \/ exists x l0, l = x :: l0 /\ l' = l0 ++ [ts]).
Proof.
  intros Hh Hts Hl. destruct (Z.lt_ge_cases height 10) as [Hlt|Hge].
  - rewrite !Z.max_l in * by lia. replace (height + 1 - 0 + 1) with (height - 0 + 1 + 1) by lia.
    rewrite seqZ_app, collect_times_app, Hl by lia. rewrite seqZ_one.
    cbn [collect_times]. replace (0 + (height - 0 + 1)) with (height + 1) by lia. rewrite Hts. cbn. eauto.
  - rewrite !Z.max_r in * by lia. replace (height - (height - 10) + 1) with 11 in Hl by lia.
    replace (height + 1 - (height + 1 - 10) + 1) with (10 + 1) by lia.
    rewrite seqZ_cons in Hl by lia. replace (Z.succ (height - 10)) with (height + 1 - 10) in Hl by lia. change (Z.pred 11) with 10 in Hl.
    cbn [collect_times] in Hl. destruct (header_at chain (height - 10)) as [[x bx]|]; [|done].
    rewrite seqZ_app, collect_times_app by lia. destruct (collect_times chain (seqZ (height + 1 - 10) 10)) as [l0|]; [|done].
    injection Hl as <-. rewrite seqZ_one.
    cbn [collect_times]. replace (height + 1 - 10 + 10) with (height + 1) by lia. rewrite Hts. cbn. eauto 10.
Qed.
End Mtp.

(** ** Height encoding *)

(** the three shapes of an encoded height *)
Lemma encode_script_height_cases h :
  U 32 h ->
  (h = 0 /\ encode_script_height h = [x00]) \/
  (1 <= h <= 16 /\ encode_script_height h = [z2b (0x50 + h)]) \/
  (exists data, encode_script_height h = z2b (zlen data) :: data /\ 1 <= zlen data <= 5 /\ le_val data = h).
Proof.
  intros Hh. unfold encode_script_height. destruct (Z.eqb_spec h 0); [by left|right].
  destruct (Z.leb_spec h 16); [left; split; [range|done]|right].
  pose proof (min_le_bytes_val 4 h Hh) as Hv. pose proof (length_min_le_bytes 4 h) as Hl.
  set (d := min_le_bytes 4 h) in *. clearbody d.
  assert (1 <= zlen d <= 4) as Hd by (unfold zlen; destruct d; [cbn in Hv; range|cbn in *; lia]).
  destruct (last d) as [b|]; [|exists d; split; [done|]; split; [lia|done]].
  destruct (negb _); [|exists d; split; [done|]; split; [lia|done]].
  exists (d ++ [x00]). split; [done|]. rewrite zlen_app. change (zlen [x00]) with 1. split; [lia|]. by rewrite le_val_app_0.
Qed.

Lemma app_prefix_eq {A} (l1 l2 r1 r2 : list A) : length l1 = length l2 -> l1 ++ r1 = l2 ++ r2 -> l1 = l2.
Proof. intros Hl E. by apply app_inj_1 in E as [-> _]. Qed.

(** no encoded height is a prefix of the encoding of another *)
Lemma encode_script_height_prefix h1 h2 r1 r2 :
  U 32 h1 -> U 32 h2 -> encode_script_height h1 ++ r1 = encode_script_height h2 ++ r2 -> h1 = h2.
Proof.
  intros H1 H2 E. assert (forall (a b : byte) l k, a :: l = b :: k -> a = b /\ l = k) as Hinj by (intros; split; congruence).
  destruct (encode_script_height_cases h1 H1) as [[-> E1]|[[? E1]|(d1 & E1 & Hl1 & Hv1)]];
  destruct (encode_script_height_cases h2 H2) as [[-> E2]|[[? E2]|(d2 & E2 & Hl2 & Hv2)]];
    rewrite ?E1, ?E2 in E; cbn [app] in E; apply Hinj in E as [Eb Et];
    try (apply (f_equal b2z) in Eb; change (b2z x00) with 0 in Eb; rewrite ?b2z_z2b_small in Eb by lia); try lia.
  subst h1 h2. f_equal. eapply app_prefix_eq; [|exact Et]. unfold zlen in Eb. lia.
Qed.

Lemma check_bip34_Ok coinbase h :
  check_bip34_height coinbase h = Ok tt <->
  exists input r, vin coinbase !! 0%nat = Some input /\ script_sig input = encode_script_height h ++ r.
Proof.
  unfold check_bip34_height. destruct (vin coinbase !! 0%nat) as [input|]; cbn [or_panic mbind res_bind].
  2: { split; [done|]. by intros (? & ? & ? & _). }
  set (e := encode_script_height h). destruct (Z.ltb_spec (zlen (script_sig input)) (zlen e)) as [Hlt|Hge].
  - split; [done|]. intros (i & r & [= <-] & E). rewrite E, zlen_app in Hlt. pose proof (zlen_nonneg r). lia.
  - destruct (bool_decide_reflect (take (length e) (script_sig input) = e)) as [Ht|Ht]; cbn [negb]; split; try done.
    + intros _. exists input, (drop (length e) (script_sig input)). split; [done|].
      etransitivity; [symmetry; apply (take_drop (length e))|]. by rewrite Ht.
    + intros (i & r & [= <-] & E). destruct Ht. rewrite E. by apply take_app_exact.
Qed.

(** ** Examples *)

Definition bip34_coinbase (height : Z) : Transaction :=
  mkTx 1 [mkTxIn OUTPOINT_COINBASE (encode_script_height height ++ [x2a]) 0xffffffff]
       [mkTxOut (get_block_subsidy height) [x51]] 0.
Definition spend_tx : Transaction :=
  mkTx 1 [mkTxIn (mkOutPoint (mkHash (replicate 32 x07)) 0) [x51] 0] [mkTxOut 100 [x51]; mkTxOut 200 [x51]] 0.
Definition bip34_block (height : Z) : Block :=
  mkBlock (mkHeader 2 HASH_ZERO HASH_ZERO 1387838302 0x1e0ffff0 0) [bip34_coinbase height; spend_tx].

(** ** Properties *)

(** [check_transaction] accepts exactly the transactions with at least one
    input and one output, every value and their exact sum within
    [0, MAX_MONEY], pairwise distinct inputs, and a coinbase script of 2 to 100
    bytes for a coinbase, no null input otherwise; it rejects every other
    transaction with an error and never panics, whatever the 64-bit values. *)
Theorem check_transaction_exact tx :
  (check_transaction tx = Ok tt <-> tx_rules tx) /\ check_transaction tx <> Panic.
Proof. split; [apply check_transaction_Ok|apply check_transaction_no_panic]. Qed.

(** C40: [check_block] accepts exactly the blocks whose first transaction is the
    only coinbase, whose transactions all pass the rules, and whose weight is
    within the limit; for a block of the wire format that weight is four times
    the length of its serialization.  It never panics. *)
Theorem check_block_exact b :
  (check_block b = Ok tt <-> block_rules b) /\ check_block b <> Panic /\
  (block_ok b -> block_serialized_size b = zlen (block_to_bytes b)).
Proof.
  split; [apply check_block_Ok|]. split; [apply check_block_no_panic|].
  intros (Hh & Hn & _). apply block_size_eq; [done|]. unfold MAX_BLOCK_TXS in Hn. lia.
Qed.

Lemma check_block_exact_witness :
  check_block (bip34_block 200) = Ok tt /\ block_serialized_size (bip34_block 200) = zlen (block_to_bytes (bip34_block 200)).
Proof.
  split; [vm_compute; reflexivity|]. apply (check_block_exact (bip34_block 200)).
  split; [repeat split; done|]. split; [vm_compute; intros Hc; discriminate Hc|].
  repeat constructor; vm_compute; (reflexivity || (intros Hc; discriminate Hc)).
Defined.

(** the median time past is a median of the last 11 timestamps (of all of
    them while there are fewer): it is one of them, at most half of them are
    below it, and for every later time more than half are below that. *)
Theorem mtp_is_median `{ChainLookup C} (chain : C) (height m : Z) :
  compute_median_time_past chain height = Some m ->
  exists l, collect_times chain (seqZ (Z.max 0 (height - 10)) (height - Z.max 0 (height - 10) + 1)) = Some l /\
    m ∈ l /\ (count_below m l <= length l / 2)%nat /\ forall x, m < x -> (length l / 2 < count_below x l)%nat.
Proof.
  intros (l & El & Hm)%mtp_Some. exists l. split; [done|]. split.
  - apply list_elem_of_lookup_2 in Hm. by rewrite (merge_sort_Permutation Z.le l) in Hm.
  - split; [by apply (median_index l m m Hm)|]. intros x Hx.
    pose proof (median_index l m x Hm). lia.
Qed.

Lemma mtp_is_median_witness :
  exists l, collect_times (even_chain 1000 600 0x1e0ffff0) (seqZ 10 11) = Some l /\ 10000 ∈ l.
Proof.
  destruct (mtp_is_median (even_chain 1000 600 0x1e0ffff0) 20 10000) as (l & E & Hin & _).
  - vm_compute. reflexivity.
  - exists l. exact (conj E Hin).
Defined.

(** the median time past never decreases along a chain whose blocks obey the
    timestamp rule (each block's time is above the median time past of its
    parent): accepting a block keeps the median defined and moves it forward or
    leaves it. *)
Theorem mtp_monotone `{ChainLookup C} (chain : C) (height m ts b : Z) :
  0 <= height -> compute_median_time_past chain height = Some m ->
  header_at chain (height + 1) = Some (ts, b) -> m < ts ->
  exists m', compute_median_time_past chain (height + 1) = Some m' /\ m <= m'.
Proof.
  intros Hh (l & El & Hm)%mtp_Some Hts Hlt.
  pose proof (proj1 (median_index l m m Hm) (Z.le_refl m)) as Hcount.
  destruct (window_next chain height ts b l Hh Hts El) as (l' & El' & Hl').
  assert (count_below m l' <= length l' / 2)%nat as Hcount'.
  { assert (count_below m [ts] = 0%nat) as Hone by (apply count_below_none; constructor; [lia|done]).
    destruct Hl' as [->|(x & l0 & -> & ->)]; rewrite count_below_app, Hone, length_app; cbn [length] in *.
    - pose proof (Nat.Div0.div_le_mono (length l) (length l + 1) 2 ltac:(lia)). lia.
    - replace (length l0 + 1)%nat with (S (length l0)) by lia. change (x :: l0) with ([x] ++ l0) in Hcount.
      rewrite count_below_app in Hcount. lia. }
  destruct (median_defined l') as [m' Hm'].
  { destruct Hl' as [->|(x & l0 & -> & ->)]; [by destruct l|by destruct l0]. }
  exists m'. split.
  - unfold compute_median_time_past, sat_sub, MEDIAN_TIME_SPAN. change (11 - 1) with 10. by rewrite El'.
  - by apply (median_index l' m' m Hm').
Qed.

Lemma mtp_monotone_witness :
  exists m', compute_median_time_past (even_chain 1000 600 0x1e0ffff0) 21 = Some m' /\ 10000 <= m'.
Proof.
  apply (mtp_monotone (even_chain 1000 600 0x1e0ffff0) 20 10000 13600 0x1e0ffff0);
    [lia|vm_compute; reflexivity|reflexivity|lia].
Defined.

(** the BIP34 rule binds a coinbase to one height.  It is accepted at a
    height exactly when its script starts with the encoding of that height, and
    a coinbase accepted at two heights has the heights equal, so the coinbases of
    different blocks of a chain differ. *)
Theorem bip34_unique coinbase h1 h2 :
  U 32 h1 -> U 32 h2 ->
  (check_bip34_height coinbase h1 = Ok tt <->
   exists input r, vin coinbase !! 0%nat = Some input /\ script_sig input = encode_script_height h1 ++ r) /\
  (check_bip34_height coinbase h1 = Ok tt -> check_bip34_height coinbase h2 = Ok tt -> h1 = h2).
Proof.
  intros H1 H2. split; [apply check_bip34_Ok|].
  intros (i1 & r1 & E1 & S1)%check_bip34_Ok (i2 & r2 & E2 & S2)%check_bip34_Ok.
  assert (i1 = i2) as -> by congruence. eapply encode_script_height_prefix; [done|done|]. by rewrite <- S1, <- S2.
Qed.

Lemma bip34_unique_witness :
  check_bip34_height (bip34_coinbase 300) 300 = Ok tt /\ (300 = 300).
Proof.
  assert (U 32 300) as H3 by (apply inU_spec; reflexivity).
  assert (check_bip34_height (bip34_coinbase 300) 300 = Ok tt) as Hc by (vm_compute; reflexivity).
  split; [exact Hc|]. exact (proj2 (bip34_unique (bip34_coinbase 300) 300 300 H3 H3) Hc Hc).
Defined.
