(* ===== verification/Vec.v ===== *)
(** * Vec: vectors updated by position

    The operations of [Vec] the script engine uses on its stacks, in the order of
    the source: index 0 is the bottom, [push] and [pop] work at the end.  An index
    out of range is a panic ([None]), as in the source. *)
From stdpp Require Import base numbers list.
From S2P Require Import Prelude.

Section Vec.
Context {A : Type}.
Implicit Types (v : list A) (x : A) (i j : Z).

(** [v[i]] *)
Definition vec_index v i : option A := if 0 <=? i then v !! Z.to_nat i else None.

(** [v.push(x)] *)
Definition vec_push v x : list A := v ++ [x].

(** [v.pop()] *)
Definition vec_pop v : option (A * list A) :=
  match last v with
  | Some x => Some (x, take (length v - 1) v)
  | None => None
  end.

(** [v.remove(i)]: the element and the vector without it *)
Definition vec_remove v i : option (A * list A) :=
  match vec_index v i with
  | Some x => Some (x, delete (Z.to_nat i) v)
  | None => None
  end.

(** [v.insert(i, x)]: panics when [i > len] *)
Definition vec_insert v i x : option (list A) :=
  if (0 <=? i) && (i <=? zlen v) then Some (take (Z.to_nat i) v ++ x :: drop (Z.to_nat i) v) else None.

(** [v.swap(i, j)] *)
Definition vec_swap v i j : option (list A) :=
  match vec_index v i, vec_index v j with
  | Some x, Some y => Some (<[Z.to_nat i := y]> (<[Z.to_nat j := x]> v))
  | _, _ => None
  end.

(** [v.get(a..b)] with [a <= b] *)
Definition vec_range v i j : option (list A) :=
  if (0 <=? i) && (i <=? j) && (j <=? zlen v) then Some (take (Z.to_nat (j - i)) (drop (Z.to_nat i) v)) else None.

Lemma vec_index_Some v i : 0 <= i < zlen v -> exists x, vec_index v i = Some x /\ x ∈ v.
Proof.
  intros Hi. unfold vec_index. rewrite (proj2 (Z.leb_le 0 i)) by lia.
  destruct (lookup_lt_is_Some_2 v (Z.to_nat i)) as [x Hx]; [unfold zlen in Hi; lia|].
  exists x. split; [done|]. by eapply list_elem_of_lookup_2.
Qed.

Lemma vec_index_elem v i x : vec_index v i = Some x -> 0 <= i < zlen v /\ x ∈ v.
Proof.
  unfold vec_index. destruct (Z.leb_spec 0 i); [|done]. intros Hx. apply lookup_lt_Some in Hx as Hl.
  split; [unfold zlen; lia|]. by eapply list_elem_of_lookup_2.
Qed.

Lemma vec_pop_snoc v x : vec_pop (v ++ [x]) = Some (x, v).
Proof. unfold vec_pop. rewrite last_snoc, length_app. cbn. by rewrite Nat.add_sub, take_app_length. Qed.

Lemma vec_pop_inv v x v' : vec_pop v = Some (x, v') <-> v = v' ++ [x].
Proof.
  split; [|intros ->; apply vec_pop_snoc].
  destruct v as [|y v0 _] using rev_ind; [done|]. rewrite vec_pop_snoc. by intros [= -> ->].
Qed.

Lemma vec_pop_None v : vec_pop v = None <-> v = [].
Proof. destruct v as [|y v0 _] using rev_ind; [done|]. rewrite vec_pop_snoc. split; [done|by destruct v0]. Qed.

Lemma vec_remove_inv v i x v' : vec_remove v i = Some (x, v') -> v ≡ₚ x :: v'.
Proof.
  unfold vec_remove, vec_index. destruct (Z.leb_spec 0 i); [|done].
  destruct (v !! Z.to_nat i) as [y|] eqn:E; [|done]. intros [= <- <-]. by apply delete_Permutation.
Qed.

Lemma vec_remove_Some v i : 0 <= i < zlen v -> exists x v', vec_remove v i = Some (x, v').
Proof. intros Hi. destruct (vec_index_Some v i Hi) as (x & E & _). unfold vec_remove. rewrite E. eauto. Qed.

Lemma vec_insert_inv v i x v' : vec_insert v i x = Some v' -> v' ≡ₚ x :: v.
Proof.
  unfold vec_insert. destruct (_ && _); [|done]. intros [= <-]. rewrite <- Permutation_middle. by rewrite take_drop.
Qed.

Lemma vec_swap_inv v i j v' : vec_swap v i j = Some v' -> v' ≡ₚ v.
Proof.
  unfold vec_swap. destruct (vec_index v i) as [x|] eqn:Ei; [|done]. destruct (vec_index v j) as [y|] eqn:Ej; [|done].
  intros [= <-]. unfold vec_index in *. destruct (Z.leb_spec 0 i), (Z.leb_spec 0 j); try done.
  by apply Permutation_insert_swap.
Qed.

Lemma vec_swap_Some v i j : 0 <= i < zlen v -> 0 <= j < zlen v -> exists v', vec_swap v i j = Some v'.
Proof.
  intros Hi Hj. destruct (vec_index_Some v i Hi) as (x & Ei & _), (vec_index_Some v j Hj) as (y & Ej & _).
  unfold vec_swap. rewrite Ei, Ej. eauto.
Qed.

Lemma vec_insert_Some v i x : 0 <= i <= zlen v -> exists v', vec_insert v i x = Some v'.
Proof. intros Hi. unfold vec_insert. rewrite !(proj2 (Z.leb_le _ _)) by lia. eauto. Qed.

Lemma zlen_push v x : zlen (vec_push v x) = zlen v + 1.
Proof. unfold vec_push. by rewrite zlen_app. Qed.
End Vec.

Lemma zlen_Permutation {A} (v w : list A) : v ≡ₚ w -> zlen v = zlen w.
Proof. intros Hp. unfold zlen. by rewrite Hp. Qed.
