(* ===== verification/ScriptNum.v ===== *)
(** * ScriptNum: script errors, numbers and truth values

    Models the error type of src/src/script/mod.rs and the number routines at the
    end of src/src/script/engine.rs: [encode_script_number],
    [decode_script_number] and [is_truthy]. *)
From Stdlib Require Import Strings.Byte.
From stdpp Require Import base numbers list.
From S2P Require Import Prelude.

Inductive ScriptError :=
| InvalidOpcode (b : byte)
| DisabledOpcode (b : byte)
| StackUnderflow
| StackOverflow
| ScriptTooLarge
| TooManyOps
| InvalidPushSize
| EqualVerifyFailed
| CheckSigFailed
| CheckMultiSigFailed
| InvalidSignatureEncoding
| InvalidPubKey
| NegativeLocktime
| UnsatisfiedLocktime
| UnbalancedConditional
| FalseReturned
| OpReturnEncountered
| InvalidRedeemScript
| NumericOverflow
| MultisigKeyCount
| MultisigSigCount
| InvalidStackIndex.

(** the loop compares the position with the last one *)
Fixpoint is_truthy (data : list byte) : bool :=
  match data with
  | [] => false
  | [b] => negb (b2z b =? 0x00) && negb (b2z b =? 0x80)
  | b :: data => if negb (b2z b =? 0x00) then true else is_truthy data
  end.

(** replace the last element: [*v.last_mut() = f(..)] *)
Definition update_last {A} (f : A -> A) (l : list A) : list A := alter f (length l - 1)%nat l.

Definition encode_script_number (value : Z) : list byte :=
  if value =? 0 then [] else
  let negative := value <? 0 in
  let abs_value := if negative then (- (value mod 2 ^ 64)) mod 2 ^ 64 else value mod 2 ^ 64 in
  let digits := min_le_bytes 8 abs_value in
  match last digits with
  | Some b =>
    if negb (Z.land (b2z b) 0x80 =? 0) then digits ++ [if negative then x80 else x00]
    else if negative then update_last (fun b => z2b (Z.lor (b2z b) 0x80)) digits
    else digits
  | None => digits
  end.

(** [for (i, &b) in data.iter().enumerate() { result |= i64::from(b) << (i * 8) }] *)
Fixpoint or_bytes (i : Z) (acc : Z) (data : list byte) : Z :=
  match data with
  | [] => acc
  | b :: data => or_bytes (i + 1) (Z.lor acc (Z.shiftl (b2z b) (i * 8))) data
  end.

Definition decode_script_number (data : list byte) : res ScriptError Z :=
  if zlen data =? 0 then Ok 0 else
  if zlen data >? 4 then Err NumericOverflow else
  let number := or_bytes 0 0 data in
  last_byte ← or_panic (last data);
  if negb (Z.land (b2z last_byte) 0x80 =? 0) then
    let shift := (zlen data - 1) * 8 in
    let number := Z.land number (Z.lnot (Z.shiftl 0x80 shift)) in
    Ok (- number)
  else Ok number.

(** ** Lemmas *)

Lemma or_bytes_eq i acc data :
  0 <= i -> 0 <= acc < 256 ^ i -> or_bytes i acc data = acc + 256 ^ i * le_val data.
Proof.
  revert i acc. induction data as [|b data IH]; intros i acc Hi Hacc; cbn [or_bytes le_val]; [lia|].
  pose proof (b2z_range b). assert (256 ^ i = 2 ^ (i * 8)) as Hp.
  { change 256 with (2 ^ 8). rewrite <- Z.pow_mul_r by lia. f_equal. lia. }
  rewrite lor_shiftl_add, <- Hp by lia.
  assert (256 ^ (i + 1) = 256 * 256 ^ i) as Hs by (rewrite Z.pow_add_r by lia; lia).
  rewrite IH by (rewrite ?Hs; nia). rewrite Hs. lia.
Qed.

(** removing a bit that is set *)
Lemma land_lnot_bit x n : 0 <= n -> Z.testbit x n = true -> Z.land x (Z.lnot (2 ^ n)) = x - 2 ^ n.
Proof.
  intros Hn Hb. change (Z.land x (Z.lnot (2 ^ n))) with (Z.land x (Z.lnot (2 ^ n))).
  rewrite <- Z.ldiff_land. symmetry. apply Z.sub_nocarry_ldiff.
  apply Z.bits_inj'. intros k Hk. rewrite Z.ldiff_spec, Z.bits_0, Z.pow2_bits_eqb by lia.
  destruct (Z.eqb_spec n k) as [->|]; [|done]. by rewrite Hb.
Qed.

(** the value of a number of at most four bytes, by its last byte *)
Lemma decode_snoc l b :
  (length l <= 3)%nat ->
  decode_script_number (l ++ [b]) =
    Ok (if b2z b <? 128 then le_val l + 256 ^ Z.of_nat (length l) * b2z b
        else - (le_val l + 256 ^ Z.of_nat (length l) * (b2z b - 128))).
Proof.
  intros Hl. unfold decode_script_number. rewrite zlen_app. change (zlen [b]) with 1.
  assert (0 <= zlen l <= 3) as Hz by (unfold zlen; lia).
  rewrite (proj2 (Z.eqb_neq _ 0)), Z.gtb_ltb, (proj2 (Z.ltb_ge 4 _)) by lia.
  rewrite last_snoc. cbn [or_panic mbind res_bind]. rewrite or_bytes_eq by lia.
  rewrite Z.pow_0_r, Z.mul_1_l, Z.add_0_l, le_val_snoc, land_128.
  destruct (Z.ltb_spec (b2z b) 128) as [Hb|Hb]; cbn [negb]; [done|].
  set (n := Z.of_nat (length l)). replace (zlen l + 1 - 1) with n by (unfold zlen, n; lia).
  assert (256 ^ n = 2 ^ (n * 8)) as Hp.
  { change 256 with (2 ^ 8). rewrite <- Z.pow_mul_r by lia. f_equal. lia. }
  pose proof (b2z_range b) as Hbr. pose proof (le_val_range l) as Hlr. fold n in Hlr. rewrite Hp in *.
  assert (Z.shiftl 0x80 (n * 8) = 2 ^ (n * 8 + 7)) as ->.
  { rewrite Z.shiftl_mul_pow2, Z.pow_add_r by lia. lia. }
  rewrite land_lnot_bit; [rewrite Z.pow_add_r by lia; do 2 f_equal; change (2 ^ 7) with 128; lia|lia|].
  rewrite Z.testbit_true by lia. rewrite Z.pow_add_r by lia. change (2 ^ 7) with 128.
  assert ((le_val l + 2 ^ (n * 8) * b2z b) / (2 ^ (n * 8) * 128) = 1) as ->; [|done].
  symmetry. apply (Z.div_unique_pos _ _ _ (le_val l + 2 ^ (n * 8) * (b2z b - 128))); nia.
Qed.

Lemma decode_range data n : decode_script_number data = Ok n -> - (2 ^ 31 - 1) <= n <= 2 ^ 31 - 1.
Proof.
  destruct data as [|b l _] using rev_ind; [by intros [= <-]|]. intros Hd.
  assert (length l <= 3)%nat as Hl.
  { unfold decode_script_number in Hd. rewrite zlen_app in Hd. change (zlen [b]) with 1 in Hd.
    pose proof (zlen_nonneg l). rewrite (proj2 (Z.eqb_neq _ 0)) in Hd by lia.
    rewrite Z.gtb_ltb in Hd. destruct (Z.ltb_spec 4 (zlen l + 1)); [done|]. unfold zlen in *. lia. }
  rewrite decode_snoc in Hd by done. injection Hd as <-.
  pose proof (le_val_range l) as Hlr. pose proof (b2z_range b).
  assert (256 ^ Z.of_nat (length l) <= 2 ^ 24) by (change (2 ^ 24) with (256 ^ 3); apply Z.pow_le_mono_r; lia).
  pow2. destruct (Z.ltb_spec (b2z b) 128); nia.
Qed.

Lemma decode_no_panic data : decode_script_number data <> Panic.
Proof.
  unfold decode_script_number. destruct data as [|b l _] using rev_ind; [done|].
  rewrite last_snoc. cbn [or_panic mbind res_bind]. by repeat case_match.
Qed.

Lemma update_last_snoc {A} (f : A -> A) l x : update_last f (l ++ [x]) = l ++ [f x].
Proof.
  unfold update_last. rewrite length_app. cbn [length].
  replace (length l + 1 - 1)%nat with (length l + 0)%nat by lia. by rewrite alter_app_r.
Qed.

(** the absolute value, computed on the unsigned representation *)
Lemma abs_u64 value : I 64 value -> value <> 0 ->
  (if value <? 0 then (- (value mod 2 ^ 64)) mod 2 ^ 64 else value mod 2 ^ 64) = Z.abs value.
Proof.
  unfold I. intros Hv Hne. pow2. destruct (Z.ltb_spec value 0).
  - symmetry. apply (Z.mod_unique_pos _ _ (-1)); [lia|].
    rewrite <- (Z.mod_add value 1), (Z.mod_small (value + _)) by lia. lia.
  - rewrite Z.mod_small; lia.
Qed.

(** an encoded number: the digits of its absolute value, the sign in the top bit
    of the last byte *)
Lemma encode_shape value :
  I 64 value -> value <> 0 ->
  exists l b, encode_script_number value = l ++ [b] /\
    le_val l + 256 ^ Z.of_nat (length l) * (b2z b mod 128) = Z.abs value /\
    (b2z b <? 128) = negb (value <? 0) /\ (l = [] -> b2z b mod 128 <> 0) /\
    256 ^ Z.of_nat (length l) <= 2 * Z.abs value.
Proof.
  intros Hv Hne. unfold encode_script_number. rewrite (proj2 (Z.eqb_neq value 0)), abs_u64 by done.
  assert (0 < Z.abs value < 256 ^ Z.of_nat 8) as Habs by (change (256 ^ Z.of_nat 8) with (2 ^ 64); unfold I in Hv; pow2; lia).
  destruct (min_le_bytes_snoc 8 (Z.abs value) Habs) as (l & b & E & Hb).
  pose proof (min_le_bytes_val 8 (Z.abs value) ltac:(lia)) as Hval. rewrite E in *. rewrite le_val_snoc in Hval.
  rewrite last_snoc, land_128. pose proof (b2z_range b) as Hbr. pose proof (le_val_range l) as Hlr.
  assert (0 < 256 ^ Z.of_nat (length l)) as Hpow by apply pow256_pos.
  destruct (Z.ltb_spec (b2z b) 128) as [Hlt|Hge]; cbn [negb].
  - destruct (value <? 0) eqn:Hneg; cbn [negb].
    + rewrite update_last_snoc. exists l, (z2b (Z.lor (b2z b) 0x80)). split; [done|].
      assert (Z.lor (b2z b) 0x80 = b2z b + 128) as El.
      { change (Z.lor (b2z b) 0x80) with (Z.lor (b2z b) (Z.shiftl 1 7)).
        rewrite (lor_shiftl_add (b2z b) 1 7); [done|done|change (2 ^ 7) with 128; lia|done]. }
      rewrite El, b2z_z2b_small by lia.
      assert ((b2z b + 128) mod 128 = b2z b) as -> by (Z.div_mod_to_equations; lia).
      split; [done|]. split; [by apply Z.ltb_ge; lia|]. split; [lia|nia].
    + exists l, b. rewrite Z.mod_small by lia. split; [done|]. split; [done|]. split; [by apply Z.ltb_lt|]. split; [lia|nia].
  - exists (l ++ [b]), (if value <? 0 then x80 else x00). split; [done|].
    assert (b2z (if value <? 0 then x80 else x00) mod 128 = 0) as -> by (by destruct (value <? 0)).
    rewrite le_val_snoc, length_app. cbn [length]. split; [lia|].
    split; [by destruct (value <? 0)|]. split; [by destruct l|].
    rewrite Nat.add_1_r, pow256_S. nia.
Qed.

Lemma length_encode value : (length (encode_script_number value) <= 9)%nat.
Proof.
  unfold encode_script_number. destruct (value =? 0); [cbn; lia|]. set (d := min_le_bytes 8 _).
  pose proof (length_min_le_bytes 8 (if value <? 0 then (- (value mod 2 ^ 64)) mod 2 ^ 64 else value mod 2 ^ 64)) as Hd.
  fold d in Hd. clearbody d. destruct (last d); [|lia]. destruct (negb _); [rewrite length_app; cbn; lia|].
  destruct (value <? 0); [|lia]. unfold update_last. rewrite length_alter. lia.
Qed.

Lemma is_truthy_snoc l b : is_truthy (l ++ [b]) = negb (le_val l + b2z b mod 128 =? 0).
Proof.
  induction l as [|c l IH].
  - cbn [app is_truthy le_val]. pose proof (b2z_range b). rewrite Z.add_0_l.
    destruct (Z.eqb_spec (b2z b) 0) as [->|]; [done|]. destruct (Z.eqb_spec (b2z b) 0x80) as [->|]; [done|].
    cbn. symmetry. apply negb_true_iff, Z.eqb_neq. Z.div_mod_to_equations. lia.
  - assert (is_truthy ((c :: l) ++ [b]) = if negb (b2z c =? 0) then true else is_truthy (l ++ [b])) as -> by (by destruct l).
    cbn [le_val]. pose proof (b2z_range c). pose proof (le_val_range l). pose proof (Z.mod_pos_bound (b2z b) 128 ltac:(lia)).
    destruct (Z.eqb_spec (b2z c) 0) as [E|Hc]; cbn [negb].
    + rewrite IH, E. f_equal. destruct (Z.eqb_spec (le_val l + b2z b mod 128) 0), (Z.eqb_spec (0 + 256 * le_val l + b2z b mod 128) 0); (done || lia).
    + symmetry. apply negb_true_iff, Z.eqb_neq. lia.
Qed.

(** ** Properties *)

(** script numbers.  Every number the engine can decode is within
    [-(2^31 - 1), 2^31 - 1], every number of that range decodes back from its
    encoding, every 64-bit number is truthy as a stack element exactly when it
    is not zero, and decoding never panics. *)
Theorem script_number_roundtrip :
  (forall n, - (2 ^ 31 - 1) <= n <= 2 ^ 31 - 1 -> decode_script_number (encode_script_number n) = Ok n) /\
  (forall data n, decode_script_number data = Ok n -> - (2 ^ 31 - 1) <= n <= 2 ^ 31 - 1) /\
  (forall n, I 64 n -> is_truthy (encode_script_number n) = negb (n =? 0)) /\
  (forall data, decode_script_number data <> Panic).
Proof.
  split; [|split; [exact decode_range|split; [|exact decode_no_panic]]].
  - intros n Hn. destruct (Z.eq_dec n 0) as [->|Hne]; [done|].
    destruct (encode_shape n) as (l & b & -> & Hval & Hsign & _ & Hlen); [range|done|].
    assert (length l <= 3)%nat as Hl.
    { apply Nat.nlt_ge. intros Hgt. assert (256 ^ 4 <= 256 ^ Z.of_nat (length l)) as Hp by (apply Z.pow_le_mono_r; lia).
      change (256 ^ 4) with (2 ^ 32) in Hp. pow2. lia. }
    rewrite decode_snoc, Hsign by done. f_equal. pose proof (b2z_range b) as Hb.
    destruct (Z.ltb_spec n 0); cbn [negb] in *.
    + apply Z.ltb_ge in Hsign. replace (b2z b mod 128) with (b2z b - 128) in Hval by (Z.div_mod_to_equations; lia). lia.
    + apply Z.ltb_lt in Hsign. rewrite Z.mod_small in Hval by lia. lia.
  - intros n Hn. destruct (Z.eqb_spec n 0) as [->|Hne]; [done|].
    destruct (encode_shape n Hn Hne) as (l & b & -> & Hval & _ & Hnil & _). rewrite is_truthy_snoc.
    apply negb_true_iff, Z.eqb_neq. pose proof (le_val_range l). pose proof (Z.mod_pos_bound (b2z b) 128 ltac:(lia)).
    intros Hz. assert (le_val l = 0 /\ b2z b mod 128 = 0) as [E1 E2] by lia. rewrite E1, E2 in Hval. lia.
Qed.
