(* ===== verification/Signature.v ===== *)
(** * Signature: signature hashes and signature encodings

    Models src/src/script/signature.rs.  The elliptic-curve arithmetic is the
    crate k256, a parameter: the class [K256].  A routine of the source that walks
    a slice with an index is a recursion on the rest of the slice; the fuel is
    the length of the slice, and the loops are shown to end before it does. *)
From Stdlib Require Import Strings.Byte.
From stdpp Require Import base numbers list strings sets.
From S2P Require Import Prelude Codec Types Vec ScriptNum.

(** the parts of k256 the sources call *)
Class K256 : Type := {
  k_signature : Type;
  k_verifying_key : Type;
  from_scalars : list byte -> list byte -> option k_signature;
  normalize_s : k_signature -> option k_signature;
  from_sec1_bytes : list byte -> option k_verifying_key;
  verify_prehash : k_verifying_key -> list byte -> k_signature -> bool;
}.

Definition OP_CODESEPARATOR : Z := 0xab.

(** ** Signature hash types *)

Inductive SigHashType := All | None_ | Single | AllAnyoneCanPay | NoneAnyoneCanPay | SingleAnyoneCanPay.

Definition sighash_from_byte (b : byte) : option SigHashType :=
  match b2z b with
  | 0x01 => Some All
  | 0x02 => Some None_
  | 0x03 => Some Single
  | 0x81 => Some AllAnyoneCanPay
  | 0x82 => Some NoneAnyoneCanPay
  | 0x83 => Some SingleAnyoneCanPay
  | _ => None
  end.

(** ** FindAndDelete *)

Definition build_push_patterns (data : list byte) : list (list byte) :=
  let len := zlen data in
  (if len <=? 75 then [z2b len :: data] else []) ++
  (if len <=? 255 then [x4c :: z2b len :: data] else []) ++
  (if len <=? 65535 then [x4d :: le_bytes 2 len ++ data] else []) ++
  [x4e :: le_bytes 4 len ++ data].

(** [i + pattern.len() <= script.len() && script[i..i + pattern.len()] == pattern] *)
Definition starts_with (rest pattern : list byte) : bool :=
  (zlen pattern <=? zlen rest) && bool_decide (take (length pattern) rest = pattern).

Fixpoint find_and_delete_loop (fuel : nat) (patterns : list (list byte)) (rest : list byte) : list byte :=
  match fuel, rest with
  | S fuel, b :: tail =>
    match List.find (starts_with rest) patterns with
    | Some pattern => find_and_delete_loop fuel patterns (drop (length pattern) rest)
    | None => b :: find_and_delete_loop fuel patterns tail
    end
  | _, _ => []
  end.

Definition find_and_delete (script data : list byte) : list byte :=
  if zlen data =? 0 then script
  else find_and_delete_loop (length script) (build_push_patterns data) script.

(** ** Removing OP_CODESEPARATOR *)

Fixpoint remove_codeseparators_loop (fuel : nat) (rest : list byte) : list byte :=
  match fuel, rest with
  | S fuel, op :: tail =>
    let copy n := take (Z.to_nat n) rest ++ remove_codeseparators_loop fuel (drop (Z.to_nat n) rest) in
    if b2z op =? OP_CODESEPARATOR then remove_codeseparators_loop fuel tail
    else if b2z op <=? 0x4b then copy (1 + b2z op)
    else if b2z op =? 0x4c then
      match tail with
      | [] => [op]
      | len :: _ => copy (2 + b2z len)
      end
    else if b2z op =? 0x4d then
      if 3 >? zlen rest then rest else copy (3 + le_val (take 2 tail))
    else if b2z op =? 0x4e then
      if 5 >? zlen rest then rest else copy (5 + le_val (take 4 tail))
    else op :: remove_codeseparators_loop fuel tail
  | _, _ => []
  end.

Definition remove_codeseparators (script : list byte) : list byte :=
  remove_codeseparators_loop (length script) script.

(** ** The legacy signature hash *)

(** the hardcoded hash of the SIGHASH_SINGLE bug *)
Definition HASH_ONE : Hash256 := mkHash (x01 :: replicate 31 x00).

(** [SINGLE]: blank outputs below [input_idx], that output, then stop *)
Fixpoint single_outputs (input_idx i : nat) (outputs : list TxOut) : list byte :=
  match outputs with
  | [] => []
  | output :: outputs =>
    match Nat.compare i input_idx with
    | Lt => le_bytes 8 (-1) ++ write_varint 0 ++ single_outputs input_idx (S i) outputs
    | Eq => le_bytes 8 (value output) ++ write_varint (zlen (script_pubkey output)) ++ script_pubkey output ++
            single_outputs input_idx (S i) outputs
    | Gt => []
    end
  end.

Definition sighash_input (base : Z) (input_idx : nat) (script_code : list byte) (i : nat) (input : TxIn) : list byte :=
  as_bytes (op_txid (prev_output input)) ++ le_bytes 4 (op_index (prev_output input)) ++
  (if (i =? input_idx)%nat then write_varint (zlen script_code) ++ script_code else write_varint 0) ++
  (if ((base =? 2) || (base =? 3)) && negb (i =? input_idx)%nat then le_bytes 4 0 else le_bytes 4 (sequence input)).

Definition signature_hash `{Sha256} {E} (tx : Transaction) (input_idx : nat) (script_code : list byte) (hash_type : byte)
    : res E Hash256 :=
  let base := Z.land (b2z hash_type) 0x1f in
  let anyonecanpay := negb (Z.land (b2z hash_type) 0x80 =? 0) in
  if (base =? 3) && (length (vout tx) <=? input_idx)%nat then Ok HASH_ONE else
  let script_code := remove_codeseparators script_code in
  inputs ← (if anyonecanpay then
              input ← or_panic (vin tx !! input_idx);
              Ok (write_varint 1 ++ as_bytes (op_txid (prev_output input)) ++ le_bytes 4 (op_index (prev_output input)) ++
                  write_varint (zlen script_code) ++ script_code ++ le_bytes 4 (sequence input))
            else
              Ok (write_varint (zlen (vin tx)) ++ concat (imap (sighash_input base input_idx script_code) (vin tx))));
  let outputs :=
    if base =? 2 then write_varint 0
    else if base =? 3 then write_varint (Z.of_nat input_idx + 1) ++ single_outputs input_idx 0 (vout tx)
    else write_varint (zlen (vout tx)) ++
         concat (map (fun output => le_bytes 8 (value output) ++ write_varint (zlen (script_pubkey output)) ++
                                    script_pubkey output) (vout tx)) in
  Ok (double_sha256 (le_bytes 4 (tx_version tx) ++ inputs ++ outputs ++ le_bytes 4 (locktime tx) ++
                     le_bytes 4 (b2z hash_type))).

(** ** Lenient DER *)

(** [for _ in 0..n { len = len.checked_shl(8)?.checked_add(byte)? }] *)
Fixpoint read_der_len_loop (n : nat) (len : Z) (data : list byte) : option (Z * list byte) :=
  match n with
  | O => Some (len, data)
  | S n =>
    match data with
    | [] => None
    | b :: data =>
      let len := Z.shiftl len 8 mod 2 ^ 64 + b2z b in
      if inU 64 len then read_der_len_loop n len data else None
    end
  end.

Definition read_der_len (data : list byte) : option (Z * list byte) :=
  match data with
  | [] => None
  | b :: data =>
    if Z.land (b2z b) 0x80 =? 0 then Some (b2z b, data)
    else
      let n := Z.land (b2z b) 0x7f in
      if (n =? 0) || (n >? 4) then None else read_der_len_loop (Z.to_nat n) 0 data
  end.

Definition read_der_integer (data : list byte) : option (list byte * list byte) :=
  match data with
  | [] => None
  | tag :: data =>
    if negb (b2z tag =? 0x02) then None else
    match read_der_len data with
    | None => None
    | Some (len, data) =>
      if len =? 0 then None else
      if len >? zlen data then None else
      Some (take (Z.to_nat len) data, drop (Z.to_nat len) data)
    end
  end.

Definition scalar_from_bytes (bytes : list byte) : option (list byte) :=
  let start := match list_find (fun b => b <> x00) bytes with
               | Some (i, _) => i
               | None => (length bytes - 1)%nat
               end in
  let significant := drop start bytes in
  if zlen significant >? 32 then None
  else Some (replicate (32 - length significant) x00 ++ significant).

Definition parse_der_lenient `{K256} (der : list byte) : option k_signature :=
  match der with
  | [] => None
  | tag :: rest =>
    if negb (b2z tag =? 0x30) then None else
    '(_, rest) ← read_der_len rest;
    '(r_bytes, rest) ← read_der_integer rest;
    '(s_bytes, rest) ← read_der_integer rest;
    r ← scalar_from_bytes r_bytes;
    s ← scalar_from_bytes s_bytes;
    from_scalars r s
  end.

Definition verify_ecdsa `{K256} (sig pubkey : list byte) (sighash : Hash256) : bool :=
  if zlen sig =? 0 then false else
  let der_sig := take (length sig - 1) sig in
  match parse_der_lenient der_sig with
  | None => false
  | Some signature =>
    let signature := default signature (normalize_s signature) in
    match from_sec1_bytes pubkey with
    | None => false
    | Some verifying_key => verify_prehash verifying_key (as_bytes sighash) signature
    end
  end.

(** ** Strict encodings *)

(** [v[i] as usize] *)
Definition byte_at (v : list byte) (i : Z) : res ScriptError Z := b2z <$> or_panic (vec_index v i).

Definition check_signature_encoding (sig : list byte) : res ScriptError unit :=
  let bad := Err InvalidSignatureEncoding in
  let len := zlen sig in
  if len =? 0 then Ok tt else
  if (len <? 9) || (len >? 73) then bad else
  b0 ← byte_at sig 0;
  if negb (b0 =? 0x30) then bad else
  total_len ← byte_at sig 1;
  if negb (total_len =? len - 3) then bad else
  b2 ← byte_at sig 2;
  if negb (b2 =? 0x02) then bad else
  r_len ← byte_at sig 3;
  if r_len =? 0 then bad else
  b4 ← byte_at sig 4;
  if negb (Z.land b4 0x80 =? 0) then bad else
  padded ← (if (r_len >? 1) && (b4 =? 0x00)
            then b5 ← byte_at sig 5; Ok (Z.land b5 0x80 =? 0) else Ok false);
  if padded : bool then bad else
  let s_marker_pos := 4 + r_len in
  if s_marker_pos >=? len then bad else
  marker ← byte_at sig s_marker_pos;
  if negb (marker =? 0x02) then bad else
  let s_len_pos := s_marker_pos + 1 in
  if s_len_pos >=? len then bad else
  s_len ← byte_at sig s_len_pos;
  if s_len =? 0 then bad else
  let s_start := s_len_pos + 1 in
  if s_start >=? len then bad else
  s0 ← byte_at sig s_start;
  if negb (Z.land s0 0x80 =? 0) then bad else
  padded ← (if (s_len >? 1) && (s0 =? 0x00) && (s_start + 1 <? len)
            then s1 ← byte_at sig (s_start + 1); Ok (Z.land s1 0x80 =? 0) else Ok false);
  if padded : bool then bad else
  if negb (r_len + s_len + 7 =? len) then bad else
  hashtype_byte ← or_panic (vec_index sig (len - 1));
  match sighash_from_byte hashtype_byte with
  | None => bad
  | Some _ => Ok tt
  end.

Definition HALF_ORDER : list byte :=
  [x7f; xff; xff; xff; xff; xff; xff; xff; xff; xff; xff; xff; xff; xff; xff; xff;
   x5d; x57; x6e; x73; x57; xa4; x50; x1d; xdf; xe9; x2f; x46; x68; x1b; x20; xa0].

(** [for i in 0..32 { match s[i].cmp(&half[i]) {..} }] *)
Fixpoint low_s_loop (s half : list byte) : res ScriptError unit :=
  match s, half with
  | a :: s, h :: half =>
    match Z.compare (b2z a) (b2z h) with
    | Gt => Err InvalidSignatureEncoding
    | Lt => Ok tt
    | Eq => low_s_loop s half
    end
  | _, _ => Ok tt
  end.

Definition check_low_s (sig : list byte) : res ScriptError unit :=
  if zlen sig =? 0 then Ok tt else
  r_len ← byte_at sig 3;
  s_len ← byte_at sig (4 + r_len + 1);
  let s_start := 4 + r_len + 2 in
  s_bytes ← or_panic (vec_range sig s_start (s_start + s_len));
  if s_len >? 32 then Err InvalidSignatureEncoding else
  low_s_loop (replicate (32 - length s_bytes) x00 ++ s_bytes) HALF_ORDER.

Definition check_pubkey_encoding (pubkey : list byte) : res ScriptError unit :=
  if zlen pubkey =? 0 then Err InvalidPubKey else
  b0 ← byte_at pubkey 0;
  if ((b0 =? 0x02) || (b0 =? 0x03)) && (zlen pubkey =? 33) then Ok tt
  else if (b0 =? 0x04) && (zlen pubkey =? 65) then Ok tt
  else Err InvalidPubKey.

(** ** Reference: the transaction that is signed *)

Definition blank_output : TxOut := mkTxOut (-1) [].

(** inputs other than the signed one lose their script and, for NONE and SINGLE,
    their sequence *)
Definition signed_input (base : Z) (input_idx : nat) (code : list byte) (i : nat) (input : TxIn) : TxIn :=
  mkTxIn (prev_output input) (if (i =? input_idx)%nat then code else [])
    (if ((base =? 2) || (base =? 3)) && negb (i =? input_idx)%nat then 0 else sequence input).

Definition signed_tx (tx : Transaction) (input_idx : nat) (code : list byte) (hash_type : byte) : Transaction :=
  let base := Z.land (b2z hash_type) 0x1f in
  let anyonecanpay := negb (Z.land (b2z hash_type) 0x80 =? 0) in
  mkTx (tx_version tx)
    (if anyonecanpay then (fun i => mkTxIn (prev_output i) code (sequence i)) <$> option_list (vin tx !! input_idx)
     else imap (signed_input base input_idx code) (vin tx))
    (if base =? 2 then [] else if base =? 3 then replicate input_idx blank_output ++ option_list (vout tx !! input_idx)
     else vout tx)
    (locktime tx).

Lemma sighash_input_eq base idx code i input :
  sighash_input base idx code i input = txin_to_bytes (signed_input base idx code i input).
Proof.
  unfold sighash_input, txin_to_bytes, outpoint_to_bytes, signed_input. cbn [prev_output script_sig sequence].
  rewrite <- !app_assoc. do 2 f_equal. destruct (i =? idx)%nat; cbn [negb].
  - by rewrite andb_false_r, <- app_assoc.
  - f_equal. rewrite andb_true_r. by destruct (_ || _).
Qed.

Lemma single_outputs_eq idx outs i output :
  (i <= idx)%nat -> outs !! (idx - i)%nat = Some output ->
  single_outputs idx i outs = concat (map txout_to_bytes (replicate (idx - i) blank_output ++ [output])).
Proof.
  revert i. induction outs as [|o outs IH]; intros i Hi Ho; [done|]. cbn [single_outputs].
  destruct (Nat.compare_spec i idx) as [->|Hlt|Hgt]; [| |lia].
  - rewrite Nat.sub_diag in *. injection Ho as ->. cbn [replicate app map concat]. unfold txout_to_bytes. rewrite app_nil_r.
    assert (single_outputs idx (S idx) outs = []) as -> by (destruct outs; cbn [single_outputs]; [done|]; by rewrite (proj2 (Nat.compare_gt_iff _ _)) by lia).
    by rewrite app_nil_r.
  - destruct (idx - i)%nat as [|k] eqn:E; [lia|]. cbn [replicate app map concat]. rewrite (IH (S i)); [|lia|].
    + replace (idx - S i)%nat with k by lia. unfold txout_to_bytes at 2. cbn [blank_output value script_pubkey zlen length].
      by rewrite <- !app_assoc.
    + replace (idx - S i)%nat with k by lia. exact Ho.
Qed.

(** the signature hash is the hash of the serialized signed transaction and the
    hash type *)
Lemma signature_hash_eq `{Sha256} {E} tx idx code ht :
  (idx < length (vin tx))%nat ->
  @signature_hash _ E tx idx code ht =
    if (Z.land (b2z ht) 0x1f =? 3) && (length (vout tx) <=? idx)%nat then Ok HASH_ONE
    else Ok (double_sha256 (tx_to_bytes (signed_tx tx idx (remove_codeseparators code) ht) ++ le_bytes 4 (b2z ht))).
Proof.
  intros Hidx. unfold signature_hash. destruct ((Z.land (b2z ht) 0x1f =? 3) && (length (vout tx) <=? idx)%nat) eqn:Hbug; [done|].
  destruct (lookup_lt_is_Some_2 (vin tx) idx Hidx) as [input Hin].
  set (base := Z.land (b2z ht) 0x1f) in *. set (code' := remove_codeseparators code).
  set (ins := vin (signed_tx tx idx code' ht)). set (outs := vout (signed_tx tx idx code' ht)).
  match goal with |- (?x ≫= _) = _ => assert (x = Ok (write_varint (zlen ins) ++ concat (map txin_to_bytes ins))) as -> end.
  { unfold ins, signed_tx. cbn [vin]. destruct (negb (Z.land (b2z ht) 0x80 =? 0)).
    - rewrite Hin. change (option_list (Some input)) with [input].
      cbn [or_panic mbind res_bind fmap list_fmap map concat].
      unfold txin_to_bytes, outpoint_to_bytes. cbn [prev_output script_sig sequence]. rewrite app_nil_r, <- !app_assoc. done.
    - unfold zlen. rewrite length_imap. do 3 f_equal. change (map txin_to_bytes) with (fmap (M := list) txin_to_bytes).
      rewrite fmap_imap. apply imap_ext. intros i x _. apply sighash_input_eq. }
  cbn [mbind res_bind].
  match goal with |- Ok (double_sha256 (_ ++ _ ++ ?x ++ _)) = _ => assert (x = write_varint (zlen outs) ++ concat (map txout_to_bytes outs)) as -> end.
  { unfold outs, signed_tx. cbn [vout]. fold base. destruct (base =? 2); [done|]. destruct (base =? 3) eqn:E3; [|done].
    rewrite andb_true_l in Hbug. apply Nat.leb_gt in Hbug.
    destruct (lookup_lt_is_Some_2 (vout tx) idx Hbug) as [o Ho]. rewrite Ho. change (option_list (Some o)) with [o].
    rewrite (single_outputs_eq idx (vout tx) 0 o) by (lia || by rewrite Nat.sub_0_r). rewrite Nat.sub_0_r.
    do 2 f_equal. unfold zlen. rewrite length_app, length_replicate. cbn. lia. }
  unfold tx_to_bytes. fold ins outs. cbn [tx_version locktime signed_tx]. by rewrite <- !app_assoc.
Qed.

(** ** Loops end within their fuel *)

Lemma remove_codeseparators_fuel fuel fuel' rest :
  (length rest <= fuel)%nat -> (length rest <= fuel')%nat ->
  remove_codeseparators_loop fuel rest = remove_codeseparators_loop fuel' rest.
Proof.
  revert fuel' rest. induction fuel as [|fuel IH]; intros fuel' rest Hf Hf'.
  - destruct rest; [|cbn in Hf; lia]. by destruct fuel'.
  - destruct rest as [|op tail]; [by destruct fuel'|]. destruct fuel' as [|fuel']; [cbn in Hf'; lia|].
    cbn [length] in Hf, Hf'. cbn [remove_codeseparators_loop]. pose proof (b2z_range op).
    assert (forall n, 1 <= n -> remove_codeseparators_loop fuel (drop (Z.to_nat n) (op :: tail))
      = remove_codeseparators_loop fuel' (drop (Z.to_nat n) (op :: tail))) as Hdrop.
    { intros n Hn. apply IH; rewrite length_drop; cbn [length]; lia. }
    repeat case_match; try done; try (f_equal; apply IH; lia); try (apply IH; lia);
      f_equal; apply Hdrop; try lia.
    + pose proof (b2z_range b). lia.
    + pose proof (le_val_range (take 2 tail)). lia.
    + pose proof (le_val_range (take 4 tail)). lia.
Qed.

Lemma length_remove_codeseparators_loop fuel rest : (length (remove_codeseparators_loop fuel rest) <= length rest)%nat.
Proof.
  revert rest. induction fuel as [|fuel IH]; intros rest; [cbn; lia|]. destruct rest as [|op tail]; [done|].
  cbn [remove_codeseparators_loop].
  assert (forall n, (length (take n (op :: tail) ++ remove_codeseparators_loop fuel (drop n (op :: tail))) <= length (op :: tail))%nat) as Hc.
  { intros n. rewrite length_app. specialize (IH (drop n (op :: tail))). rewrite length_take, length_drop in *. lia. }
  repeat case_match; try apply Hc; cbn [length] in *; try lia; specialize (IH tail); lia.
Qed.

Lemma length_remove_codeseparators s : (length (remove_codeseparators s) <= length s)%nat.
Proof. apply length_remove_codeseparators_loop. Qed.

Lemma patterns_long data p : p ∈ build_push_patterns data -> (length data < length p)%nat.
Proof.
  unfold build_push_patterns. rewrite !elem_of_app.
  assert (forall (c : bool) (x : list byte), p ∈ (if c then [x] else []) -> p = x) as Hif.
  { intros [] x Hx; [by apply list_elem_of_singleton in Hx|by apply not_elem_of_nil in Hx]. }
  intros [Hp%Hif|[Hp%Hif|[Hp%Hif|Hp%list_elem_of_singleton]]]; subst p; cbn [length]; rewrite ?length_app, ?length_le_bytes; lia.
Qed.

(** a script too short to contain the push of [data] is returned unchanged *)
Lemma find_and_delete_short script data :
  (length script <= length data)%nat -> find_and_delete script data = script.
Proof.
  intros Hlen. unfold find_and_delete. destruct (zlen data =? 0); [done|].
  assert (forall p, p ∈ build_push_patterns data -> (length script < length p)%nat) as Hp.
  { intros p Hp%patterns_long. lia. }
  revert Hp. generalize (build_push_patterns data) as ps. clear Hlen. intros ps.
  induction script as [|b tail IH]; intros Hp; [done|]. cbn [length find_and_delete_loop].
  assert (List.find (starts_with (b :: tail)) ps = None) as ->.
  { destruct (List.find (starts_with (b :: tail)) ps) as [p|] eqn:E; [|done].
    apply List.find_some in E as [Hin Hst]. apply list_elem_of_In, Hp in Hin.
    unfold starts_with, zlen in Hst. bool_prop. lia. }
  f_equal. apply IH. intros p Hin. specialize (Hp p Hin). cbn [length] in Hp. lia.
Qed.

(** deletion only removes bytes *)
Lemma find_and_delete_sublist script data : find_and_delete script data `sublist_of` script.
Proof.
  unfold find_and_delete. destruct (zlen data =? 0); [done|].
  generalize (build_push_patterns data) as ps. intros ps. generalize (length script) as fuel. intros fuel. revert script.
  induction fuel as [|fuel IH]; intros script; [apply sublist_nil_l|]. destruct script as [|b tail]; [done|].
  cbn [find_and_delete_loop]. destruct (List.find _ ps) as [p|].
  - etransitivity; [apply IH|]. apply sublist_drop.
  - apply sublist_skip, IH.
Qed.

(** ** What a signature hash of type ALL commits to *)

Lemma signed_tx_ok tx idx code ht :
  tx_ok tx -> zlen code <= MAX_SCRIPT_SIZE -> Z.land (b2z ht) 0x1f <> 2 -> Z.land (b2z ht) 0x1f <> 3 ->
  Z.land (b2z ht) 0x80 = 0 -> tx_ok (signed_tx tx idx code ht).
Proof.
  intros (Hv & [Hi1 Hi2] & Ho & Hl) Hcode H2 H3 Hacp. unfold signed_tx. rewrite Hacp.
  rewrite (proj2 (Z.eqb_neq _ 2) H2), (proj2 (Z.eqb_neq _ 3) H3). cbn [Z.eqb negb].
  split; [done|]. split; [|done]. cbn [vin]. split; [unfold zlen in *; by rewrite length_imap|].
  apply Forall_lookup. intros i x. rewrite list_lookup_imap. intros (y & Hy & ->)%fmap_Some.
  eapply Forall_lookup_1 in Hi2 as (Hop & Hs & Hq); [|exact Hy].
  unfold signed_input. rewrite (proj2 (Z.eqb_neq _ 2) H2), (proj2 (Z.eqb_neq _ 3) H3). cbn [orb andb].
  split; [done|]. split; [|done]. cbn [script_sig]. by case_match.
Qed.

Lemma signed_all tx idx code ht :
  Z.land (b2z ht) 0x1f <> 2 -> Z.land (b2z ht) 0x1f <> 3 -> Z.land (b2z ht) 0x80 = 0 ->
  let t := signed_tx tx idx code ht in
  prev_output <$> vin t = prev_output <$> vin tx /\ sequence <$> vin t = sequence <$> vin tx /\ vout t = vout tx /\
  script_sig <$> vin t !! idx = (fun _ => code) <$> vin tx !! idx.
Proof.
  intros H2 H3 Hacp. unfold signed_tx. rewrite Hacp, (proj2 (Z.eqb_neq _ 2) H2), (proj2 (Z.eqb_neq _ 3) H3).
  cbn [Z.eqb negb vin vout]. rewrite !fmap_imap, list_lookup_imap.
  split; [|split; [|split; [done|]]].
  - rewrite <- (imap_const prev_output). apply imap_ext. done.
  - rewrite <- (imap_const sequence). apply imap_ext. intros i x _. cbn. unfold signed_input. cbn [sequence].
    by rewrite (proj2 (Z.eqb_neq _ 2) H2), (proj2 (Z.eqb_neq _ 3) H3).
  - destruct (vin tx !! idx); [|done]. cbn. by rewrite Nat.eqb_refl.
Qed.

(** ** Strict DER *)

(** a DER integer of BIP66: not empty, not negative, no superfluous zero byte *)
Definition strict_int (l : list byte) : Prop :=
  match l with
  | [] => False
  | [a] => b2z a < 128
  | a :: b :: _ => b2z a < 128 /\ (b2z a = 0 -> 128 <= b2z b)
  end.

Definition strict_sig (r s : list byte) (ht : byte) : list byte :=
  x30 :: z2b (zlen r + zlen s + 4) :: x02 :: z2b (zlen r) :: r ++ x02 :: z2b (zlen s) :: s ++ [ht].

Definition strict_der (sig r s : list byte) (ht : byte) : Prop :=
  sig = strict_sig r s ht /\ strict_int r /\ strict_int s /\ zlen r + zlen s + 7 <= 73 /\
  is_Some (sighash_from_byte ht).

Lemma byte_at_Ok v i x : byte_at v i = Ok x <-> exists b, vec_index v i = Some b /\ x = b2z b.
Proof. unfold byte_at. destruct (vec_index v i); cbn; naive_solver. Qed.

Lemma vec_index_app {A} (l k : list A) (i : Z) : 0 <= i -> vec_index (l ++ k) (zlen l + i) = vec_index k i.
Proof.
  intros Hi. unfold vec_index, zlen. rewrite !(proj2 (Z.leb_le 0 _)) by lia.
  replace (Z.to_nat (Z.of_nat (length l) + i)) with (length l + Z.to_nat i)%nat by lia. apply lookup_app_add || (rewrite lookup_app_r by lia; f_equal; lia).
Qed.

Lemma vec_index_cons {A} (a : A) (k : list A) i : 0 <= i -> vec_index (a :: k) (1 + i) = vec_index k i.
Proof. apply (vec_index_app [a]). Qed.

Lemma vec_index_cons_pos {A} (a : A) (k : list A) i : 0 < i -> vec_index (a :: k) i = vec_index k (i - 1).
Proof. intros Hi. replace i with (1 + (i - 1)) at 1 by lia. by apply vec_index_cons; lia. Qed.

Lemma zlen_strict_sig r s ht : zlen (strict_sig r s ht) = zlen r + zlen s + 7.
Proof.
  unfold strict_sig. rewrite !zlen_cons, zlen_app, !zlen_cons, zlen_app. change (zlen [ht]) with 1. lia.
Qed.

(** bytes of a signature of that shape *)
Lemma strict_sig_r r s ht i : 0 <= i < zlen r -> vec_index (strict_sig r s ht) (4 + i) = vec_index r i.
Proof.
  intros Hi. unfold strict_sig. do 4 (rewrite vec_index_cons_pos by lia).
  replace (4 + i - 1 - 1 - 1 - 1) with i by lia. unfold vec_index, zlen in *. rewrite (proj2 (Z.leb_le 0 i)) by lia.
  apply lookup_app_l. lia.
Qed.

Lemma strict_sig_tail r s ht i :
  0 <= i -> vec_index (strict_sig r s ht) (4 + zlen r + i) = vec_index (x02 :: z2b (zlen s) :: s ++ [ht]) i.
Proof.
  intros Hi. pose proof (zlen_nonneg r). unfold strict_sig. do 4 (rewrite vec_index_cons_pos by lia).
  replace (4 + zlen r + i - 1 - 1 - 1 - 1) with (zlen r + i) by lia. by apply vec_index_app.
Qed.

Lemma strict_int_zlen l : strict_int l -> 1 <= zlen l.
Proof. destruct l; [done|]. rewrite zlen_cons. pose proof (zlen_nonneg l). lia. Qed.

(** the two tests the checker makes on an integer *)
Lemma strict_int_checks l :
  strict_int l <->
  exists a, vec_index l 0 = Some a /\ b2z a < 128 /\ (1 < zlen l -> b2z a = 0 -> exists b, vec_index l 1 = Some b /\ 128 <= b2z b).
Proof.
  destruct l as [|a [|b l]].
  - split; [done|]. by intros (? & ? & _).
  - cbn. change (zlen [a]) with 1. split; [|by intros (? & [= <-] & ? & _)]. intros Ha. exists a. split; [done|]. split; [done|lia].
  - cbn [strict_int]. change (vec_index (a :: b :: l) 0) with (Some a). change (vec_index (a :: b :: l) 1) with (Some b).
    rewrite !zlen_cons. pose proof (zlen_nonneg l). split.
    + intros [Ha Hz]. exists a. split; [done|]. split; [done|]. intros _ E. exists b. auto.
    + intros (? & [= <-] & Ha & Hz). split; [done|]. intros E. destruct (Hz ltac:(lia) E) as (? & [= <-] & ?). done.
Qed.

(** reassemble a byte string whose fields are where the checker found them *)
Lemma strict_sig_parse (sig : list byte) rl sl b0 b1 b2 b3 m l ht :
  zlen sig = rl + sl + 7 -> 0 < rl -> 0 < sl ->
  vec_index sig 0 = Some b0 -> vec_index sig 1 = Some b1 -> vec_index sig 2 = Some b2 -> vec_index sig 3 = Some b3 ->
  vec_index sig (4 + rl) = Some m -> vec_index sig (4 + rl + 1) = Some l -> vec_index sig (zlen sig - 1) = Some ht ->
  exists r s, sig = b0 :: b1 :: b2 :: b3 :: r ++ m :: l :: s ++ [ht] /\ zlen r = rl /\ zlen s = sl.
Proof.
  intros Hlen Hrl Hsl E0 E1 E2 E3 Em El Eh.
  destruct sig as [|c0 [|c1 [|c2 [|c3 t]]]]; try done.
  injection E0 as ->. injection E1 as ->. injection E2 as ->. injection E3 as ->. rewrite !zlen_cons in *.
  do 4 (rewrite vec_index_cons_pos in Em by lia). do 4 (rewrite vec_index_cons_pos in El by lia).
  do 4 (rewrite vec_index_cons_pos in Eh by lia).
  replace (4 + rl - 1 - 1 - 1 - 1) with rl in Em by lia. replace (4 + rl + 1 - 1 - 1 - 1 - 1) with (rl + 1) in El by lia.
  replace (1 + (1 + (1 + (1 + zlen t))) - 1 - 1 - 1 - 1 - 1) with (rl + (sl + 2)) in Eh by lia.
  rewrite <- (take_drop (Z.to_nat rl) t) in Em, El, Eh.
  set (r := take (Z.to_nat rl) t) in *. set (k := drop (Z.to_nat rl) t) in *.
  assert (zlen r = rl) as Hr by (unfold r, zlen in *; rewrite length_take; lia).
  assert (zlen k = sl + 3) as Hk by (unfold k, zlen in *; rewrite length_drop; lia).
  assert (t = r ++ k) as Et by (symmetry; apply take_drop). clearbody r k.
  replace rl with (zlen r + 0) in Em by lia. rewrite vec_index_app in Em by lia.
  rewrite <- Hr, vec_index_app in El by lia.
  rewrite <- Hr in Eh.
  rewrite vec_index_app in Eh by lia.
  destruct k as [|k0 [|k1 u]]; [done|done|]. injection Em as ->. injection El as ->. rewrite !zlen_cons in Hk.
  do 2 (rewrite vec_index_cons_pos in Eh by lia). destruct u as [|h s _] using rev_ind; [change (zlen (@nil byte)) with 0 in Hk; lia|].
  rewrite zlen_app in Hk. change (zlen [h]) with 1 in Hk.
  replace (sl + 2 - 1 - 1) with (zlen s + 0) in Eh by lia. rewrite vec_index_app in Eh by lia. injection Eh as ->.
  exists r, s. split; [|lia]. by rewrite Et.
Qed.

(** pass a rejected test / a read byte *)
Ltac enc_test H := match type of H with (if ?c then _ else _) = _ => destruct c eqn:?; [done|] end.
Ltac enc_byte H b E := apply res_bind_Ok in H as (? & E & H); apply byte_at_Ok in E as (b & E & ->).

(** a byte without superfluous zero in front *)
Lemma not_padded (c : bool) v i :
  (if c then b ← byte_at v i; Ok (Z.land b 0x80 =? 0) else Ok false) = @Ok ScriptError bool false ->
  c = true -> exists b, vec_index v i = Some b /\ 128 <= b2z b.
Proof.
  intros H ->. apply res_bind_Ok in H as (? & E & H). apply byte_at_Ok in E as (b & E & ->).
  exists b. split; [done|]. rewrite land_128 in H. injection H as H. by apply Z.ltb_ge in H.
Qed.

Lemma check_signature_encoding_strict sig :
  check_signature_encoding sig = Ok tt -> sig = [] \/ exists r s ht, strict_der sig r s ht.
Proof.
  intros H. unfold check_signature_encoding in H. destruct (Z.eqb_spec (zlen sig) 0) as [Hz|Hz].
  { left. destruct sig; [done|]. rewrite zlen_cons in Hz. pose proof (zlen_nonneg sig). lia. }
  right. enc_test H. enc_byte H b0 E0. enc_test H. enc_byte H b1 E1. enc_test H. enc_byte H b2 E2. enc_test H.
  enc_byte H b3 E3. enc_test H. enc_byte H b4 E4. enc_test H.
  apply res_bind_Ok in H as (pr & Hpr & H). enc_test H. subst pr. enc_test H. enc_byte H m Em. enc_test H. enc_test H.
  enc_byte H l El. enc_test H. enc_test H. enc_byte H s0 Es. enc_test H.
  apply res_bind_Ok in H as (ps & Hps & H). enc_test H. subst ps. enc_test H.
  apply res_bind_Ok in H as (ht & Eh%or_panic_Ok & H). destruct (sighash_from_byte ht) as [t|] eqn:Ht; [|done].
  rewrite land_128 in *. bool_prop. pose proof (b2z_range b3). pose proof (b2z_range l).
  destruct (strict_sig_parse sig (b2z b3) (b2z l) b0 b1 b2 b3 m l ht) as (r & s & E & Hr & Hs); try done; [lia..|].
  assert (sig = strict_sig r s ht) as Esig.
  { rewrite E. unfold strict_sig. assert (b0 = x30 /\ b2 = x02 /\ m = x02) as (-> & -> & ->) by (split; [|split]; by apply b2z_inj).
    rewrite Hr, Hs, !z2b_b2z. replace (b2z b3 + b2z l + 4) with (b2z b1) by lia. by rewrite z2b_b2z. }
  exists r, s, ht. split; [done|]. rewrite Esig in *. rewrite zlen_strict_sig in *.
  split; [|split; [|split; [lia|by rewrite Ht]]]; apply strict_int_checks.
  - exists b4. replace 4 with (4 + 0) in E4 by lia. rewrite strict_sig_r in E4 by lia. split; [done|]. split; [done|].
    intros Hgt Hb4. destruct (not_padded _ _ _ Hpr) as (b5 & E5 & Hb5).
    { rewrite Z.gtb_ltb, (proj2 (Z.ltb_lt 1 _)), (proj2 (Z.eqb_eq _ _) Hb4) by lia. done. }
    replace 5 with (4 + 1) in E5 by lia. rewrite strict_sig_r in E5 by lia. eauto.
  - exists s0. rewrite <- Hr in Es, Hps. replace (4 + zlen r + 1 + 1) with (4 + zlen r + 2) in Es, Hps by lia.
    rewrite strict_sig_tail in Es by lia. do 2 (rewrite vec_index_cons_pos in Es by lia). change (2 - 1 - 1) with 0 in Es.
    destruct s as [|s0' s']; [unfold zlen in Hs at 1; cbn in Hs; lia|]. cbn in Es. injection Es as ->. split; [done|]. split; [done|].
    intros Hgt Hs0. destruct (not_padded _ _ _ Hps) as (b5 & E5 & Hb5).
    { rewrite Z.gtb_ltb, (proj2 (Z.ltb_lt 1 _)), (proj2 (Z.eqb_eq _ _) Hs0), (proj2 (Z.ltb_lt _ _)) by lia. done. }
    replace (4 + zlen r + 2 + 1) with (4 + zlen r + 3) in E5 by lia. rewrite strict_sig_tail in E5 by lia.
    do 2 (rewrite vec_index_cons_pos in E5 by lia). change (3 - 1 - 1) with 1 in E5.
    destruct s' as [|s1 s']; [unfold zlen in Hgt; cbn in Hgt; lia|]. exists b5. split; [exact E5|done].
Qed.

Lemma byte_at_in v i : 0 <= i < zlen v -> exists b, vec_index v i = Some b /\ byte_at v i = Ok (b2z b).
Proof. intros Hi. destruct (vec_index_Some v i Hi) as (b & E & _). exists b. split; [done|]. apply byte_at_Ok. eauto. Qed.

(** step over a test or a guarded read of the goal *)
Ltac safe_test := match goal with |- (if ?c then _ else _) <> _ => destruct c eqn:?; [done|] end; bool_prop.
Ltac safe_byte := match goal with |- (byte_at ?v ?i ≫= _) <> _ =>
  let b := fresh "b" in let E := fresh "E" in
  destruct (byte_at_in v i) as (b & _ & E); [lia|rewrite E; cbn [mbind res_bind]; pose proof (b2z_range b)] end.

Lemma check_signature_encoding_no_panic sig : check_signature_encoding sig <> Panic.
Proof.
  unfold check_signature_encoding. set (len := zlen sig) in *. destruct (len =? 0); [done|].
  destruct ((len <? 9) || (len >? 73)) eqn:Hl; [done|]. bool_prop. rewrite ?Z.gtb_ltb in *. bool_prop. unfold len in *.
  do 3 (safe_byte; safe_test). safe_byte. safe_test. safe_byte. safe_test.
  match goal with |- (?x ≫= _) <> _ => assert (exists pad, x = Ok pad) as [pad ->] end.
  { destruct (_ && _); [|by eexists]. destruct (byte_at_in sig 5) as (c & _ & E'); [lia|]. rewrite E'. by eexists. }
  cbn [mbind res_bind]. destruct pad; [done|]. safe_test. safe_byte. safe_test. safe_test. safe_byte. safe_test. safe_test.
  safe_byte. safe_test.
  match goal with |- (?x ≫= _) <> _ => assert (exists pad, x = Ok pad) as [pad ->] end.
  { destruct (_ && _) eqn:Hc; [|by eexists]. bool_prop. edestruct byte_at_in as (c & _ & E'); [|rewrite E'; by eexists]. lia. }
  cbn [mbind res_bind]. destruct pad; [done|]. safe_test.
  destruct (byte_at_in sig (zlen sig - 1)) as (c & E' & _); [lia|]. rewrite E'. cbn. by destruct (sighash_from_byte c).
Qed.

(** reads inside a strict signature *)
Lemma strict_byte_r r s ht i b :
  0 <= i < zlen r -> vec_index r i = Some b -> byte_at (strict_sig r s ht) (4 + i) = Ok (b2z b).
Proof. intros Hi E. apply byte_at_Ok. exists b. by rewrite strict_sig_r. Qed.

Lemma strict_byte_s r s ht i b :
  0 <= i < zlen s -> vec_index s i = Some b -> byte_at (strict_sig r s ht) (4 + zlen r + 1 + 1 + i) = Ok (b2z b).
Proof.
  intros Hi E. apply byte_at_Ok. exists b. split; [|done].
  replace (4 + zlen r + 1 + 1 + i) with (4 + zlen r + (2 + i)) by lia. rewrite strict_sig_tail by lia.
  do 2 (rewrite vec_index_cons_pos by lia). replace (2 + i - 1 - 1) with i by lia. revert E.
  unfold vec_index, zlen in *. rewrite (proj2 (Z.leb_le 0 i)) by lia. intros E. by apply lookup_app_l_Some.
Qed.

(** the padding test passes on a minimal integer *)
Lemma strict_pad_ok (n first : Z) (guard : bool) v i :
  (1 < n -> first = 0 -> exists b, byte_at v i = Ok (b2z b) /\ 128 <= b2z b) ->
  (if (n >? 1) && (first =? 0) && guard then b ← byte_at v i; Ok (Z.land b 0x80 =? 0) else Ok false) = @Ok ScriptError bool false.
Proof.
  intros Hp. rewrite Z.gtb_ltb. destruct (Z.ltb_spec 1 n) as [Hn|]; [|done].
  destruct (Z.eqb_spec first 0) as [Hf|]; [|done]. cbn [andb]. destruct guard; [|done].
  destruct (Hp Hn Hf) as (b & -> & Hb). cbn [mbind res_bind]. by rewrite land_128, (proj2 (Z.ltb_ge _ _) Hb).
Qed.

Lemma strict_check_signature_encoding sig r s ht : strict_der sig r s ht -> check_signature_encoding sig = Ok tt.
Proof.
  intros (-> & Hr & Hs & Hlen & Hht). pose proof (strict_int_zlen r Hr). pose proof (strict_int_zlen s Hs).
  apply strict_int_checks in Hr as (a & Er & Ha & Har), Hs as (c & Es & Hc & Hcr).
  unfold check_signature_encoding. rewrite zlen_strict_sig.
  rewrite (proj2 (Z.eqb_neq (zlen r + zlen s + 7) 0)), (proj2 (Z.ltb_ge _ 9)), (Z.gtb_ltb _ 73), (proj2 (Z.ltb_ge 73 _)) by lia. cbn [orb].
  change (byte_at (strict_sig r s ht) 0) with (@Ok ScriptError Z 48).
  change (byte_at (strict_sig r s ht) 1) with (@Ok ScriptError Z (b2z (z2b (zlen r + zlen s + 4)))).
  change (byte_at (strict_sig r s ht) 2) with (@Ok ScriptError Z 2).
  change (byte_at (strict_sig r s ht) 3) with (@Ok ScriptError Z (b2z (z2b (zlen r)))).
  cbn [mbind res_bind Z.eqb Pos.eqb negb]. rewrite !b2z_z2b_small by lia.
  rewrite (proj2 (Z.eqb_eq (zlen r + zlen s + 4) _)), (proj2 (Z.eqb_neq (zlen r) 0)) by lia. cbn [negb].
  rewrite (strict_byte_r r s ht 0 a ltac:(lia) Er : byte_at (strict_sig r s ht) 4 = _). cbn [mbind res_bind].
  rewrite land_128, (proj2 (Z.ltb_lt _ _) Ha). cbn [negb]. rewrite <- (andb_true_r ((zlen r >? 1) && _)), strict_pad_ok.
  2: { intros Hn Hz. destruct (Har Hn Hz) as (b & Eb & Hb). exists b. split; [|done]. by apply (strict_byte_r r s ht 1). }
  cbn [mbind res_bind]. rewrite !Z.geb_leb, (proj2 (Z.leb_gt _ (4 + zlen r))), (proj2 (Z.leb_gt _ (4 + zlen r + 1))),
    (proj2 (Z.leb_gt _ (4 + zlen r + 1 + 1))) by lia.
  assert (forall i b, 0 <= i -> vec_index (x02 :: z2b (zlen s) :: s ++ [ht]) i = Some b ->
    byte_at (strict_sig r s ht) (4 + zlen r + i) = Ok (b2z b)) as Htail.
  { intros i b Hi E. apply byte_at_Ok. exists b. by rewrite strict_sig_tail. }
  rewrite <- (Z.add_0_r (4 + zlen r)) at 1. rewrite (Htail 0 x02) by done.
  cbn [mbind res_bind]. change (b2z x02 =? 2) with true. cbn [negb]. rewrite (Htail 1 (z2b (zlen s))) by done.
  cbn [mbind res_bind]. rewrite b2z_z2b_small, (proj2 (Z.eqb_neq (zlen s) 0)) by lia.
  rewrite <- (Z.add_0_r (4 + zlen r + 1 + 1)) at 1. rewrite (strict_byte_s r s ht 0 c) by (lia || done). cbn [mbind res_bind].
  rewrite land_128, (proj2 (Z.ltb_lt _ _) Hc). cbn [negb]. rewrite strict_pad_ok.
  2: { intros Hn Hz. destruct (Hcr Hn Hz) as (b & Eb & Hb). exists b. split; [|done]. by apply (strict_byte_s r s ht 1). }
  cbn [mbind res_bind]. rewrite Z.eqb_refl. cbn [negb].
  replace (zlen r + zlen s + 7 - 1) with (4 + zlen r + (2 + zlen s)) by lia. rewrite strict_sig_tail by lia.
  do 2 (rewrite vec_index_cons_pos by lia). replace (2 + zlen s - 1 - 1) with (zlen s + 0) by lia.
  rewrite vec_index_app by lia. change (vec_index [ht] 0) with (Some ht). cbn [or_panic mbind res_bind]. by destruct Hht as [t ->].
Qed.

(** ** Big-endian values *)

Definition be_val (l : list byte) : Z := le_val (rev l).

Lemma be_val_cons a l : be_val (a :: l) = b2z a * 256 ^ zlen l + be_val l.
Proof. unfold be_val, zlen. cbn [rev]. rewrite le_val_snoc, length_rev. lia. Qed.

Lemma be_val_range l : 0 <= be_val l < 256 ^ zlen l.
Proof. unfold be_val, zlen. rewrite <- length_rev. apply le_val_range. Qed.

Lemma be_val_zeros n l : be_val (replicate n x00 ++ l) = be_val l.
Proof. induction n as [|n IH]; [done|]. cbn [replicate app]. rewrite be_val_cons, IH. change (b2z x00) with 0. lia. Qed.

Lemma be_val_inj l k : length l = length k -> be_val l = be_val k -> l = k.
Proof.
  intros Hl Hv. rewrite <- (rev_involutive l), <- (rev_involutive k). f_equal. apply le_val_inj; [by rewrite !length_rev|done].
Qed.

(** the 32-byte scalar of a number *)
Definition scalar32 (v : Z) : list byte := rev (le_bytes 32 v).

(** comparing byte by byte from the front compares the numbers *)
Lemma low_s_loop_eq a h :
  length a = length h -> low_s_loop a h = if be_val a <=? be_val h then Ok tt else Err InvalidSignatureEncoding.
Proof.
  revert h. induction a as [|x a IH]; intros [|y h] Hl; try done. cbn [low_s_loop]. rewrite !be_val_cons.
  injection Hl as Hl. assert (zlen a = zlen h) as Hz by (unfold zlen; lia).
  pose proof (be_val_range a) as Ha. pose proof (be_val_range h) as Hh. rewrite Hz in *. set (p := 256 ^ zlen h) in *.
  destruct (Z.compare_spec (b2z x) (b2z y)) as [->|Hlt|Hgt].
  - rewrite IH by done. destruct (Z.leb_spec (be_val a) (be_val h)), (Z.leb_spec (b2z y * p + be_val a) (b2z y * p + be_val h)); (done || lia).
  - rewrite (proj2 (Z.leb_le _ _)); [done|]. nia.
  - rewrite (proj2 (Z.leb_gt _ _)); [done|]. nia.
Qed.

(** a number without leading zeros fits 32 bytes exactly when its bytes do *)
Lemma leading_nonzero l : l <> [] -> head l <> Some x00 -> be_val l < 256 ^ 32 <-> zlen l <= 32.
Proof.
  destruct l as [|a l]; [done|]. intros _ Ha. rewrite be_val_cons, zlen_cons.
  assert (1 <= b2z a) as Hpos.
  { pose proof (b2z_range a). destruct (Z.eq_dec (b2z a) 0) as [E|]; [|lia]. destruct Ha. cbn. f_equal. by apply b2z_inj. }
  pose proof (be_val_range l) as Hl. pose proof (zlen_nonneg l) as Hn. pose proof (b2z_range a). split; intros Hlt.
  - apply Z.nlt_ge. intros Hgt. assert (256 ^ 32 <= 256 ^ zlen l) by (apply Z.pow_le_mono_r; lia). nia.
  - assert (256 ^ (zlen l + 1) <= 256 ^ 32) as Hp by (apply Z.pow_le_mono_r; lia). rewrite Z.pow_add_r in Hp by lia. nia.
Qed.

Lemma scalar_pad l v : zlen l <= 32 -> be_val l = v -> replicate (32 - length l) x00 ++ l = scalar32 v.
Proof.
  intros Hl Hv. apply be_val_inj.
  - unfold scalar32. rewrite length_app, length_replicate, length_rev, length_le_bytes. unfold zlen in Hl. lia.
  - rewrite be_val_zeros. unfold be_val at 2, scalar32. rewrite rev_involutive, le_val_le_bytes, Z.mod_small; [done|].
    pose proof (be_val_range l). assert (256 ^ zlen l <= 256 ^ 32) by (apply Z.pow_le_mono_r; lia). change (Z.of_nat 32) with 32. lia.
Qed.

Lemma scalar_from_bytes_eq l :
  l <> [] -> scalar_from_bytes l = if be_val l <? 2 ^ 256 then Some (scalar32 (be_val l)) else None.
Proof.
  intros Hne. unfold scalar_from_bytes. change (2 ^ 256) with (256 ^ 32).
  destruct (list_find (fun b => b <> x00) l) as [[i b]|] eqn:Hf.
  - apply list_find_Some in Hf as (Hi & Hb & Hbefore).
    assert (l = replicate i x00 ++ drop i l) as Hl.
    { rewrite <- (take_drop i l) at 1. f_equal. apply list_eq. intros k. destruct (decide (k < i)%nat).
      - rewrite lookup_take_lt, lookup_replicate_2 by done.
        destruct (lookup_lt_is_Some_2 l k) as [c Hc]; [apply lookup_lt_Some in Hi; lia|].
        rewrite Hc. f_equal. destruct (decide (c = x00)); [done|]. by destruct (Hbefore k c Hc).
      - rewrite lookup_take_ge, (lookup_ge_None_2 (replicate i x00)); [done|rewrite length_replicate; lia|lia]. }
    assert (drop i l <> [] /\ head (drop i l) = Some b) as [Hd Hh].
    { apply take_drop_middle in Hi as Hm. assert (drop i l = b :: drop (S i) l) as -> by (by erewrite drop_S). done. }
    assert (be_val l = be_val (drop i l)) as -> by (rewrite Hl at 1; apply be_val_zeros).
    pose proof (leading_nonzero (drop i l) Hd ltac:(congruence)) as Hiff.
    rewrite Z.gtb_ltb. destruct (Z.ltb_spec 32 (zlen (drop i l))).
    + rewrite (proj2 (Z.ltb_ge _ _)) by lia. done.
    + rewrite (proj2 (Z.ltb_lt _ _)) by lia. f_equal. by apply scalar_pad.
  - assert (l = replicate (length l) x00) as Hl.
    { apply list_find_None in Hf. symmetry. apply replicate_as_Forall. split; [done|].
      eapply Forall_impl; [exact Hf|]. intros x Hx. symmetry. by apply dec_stable. }
    destruct l as [|c l _] using rev_ind; [done|]. rewrite length_app, drop_app_length' by (cbn; lia).
    assert (be_val (l ++ [c]) = 0) as ->.
    { rewrite Hl, <- (app_nil_r (replicate _ _)), be_val_zeros. done. }
    assert (c = x00) as -> by (apply (f_equal last) in Hl; rewrite last_snoc in Hl;
      destruct (length (l ++ [c])) as [|n] eqn:En; [done|]; rewrite replicate_S_end, last_snoc in Hl; by injection Hl).
    reflexivity.
Qed.

(** ** Lenient parsing of a strict signature *)

Lemma read_der_len_short n rest : 0 <= n < 128 -> read_der_len (z2b n :: rest) = Some (n, rest).
Proof.
  intros Hn. unfold read_der_len. rewrite land_128, b2z_z2b_small by lia. by rewrite (proj2 (Z.ltb_lt _ _)) by lia.
Qed.

Lemma read_der_integer_app r k : 1 <= zlen r < 128 -> read_der_integer (x02 :: z2b (zlen r) :: r ++ k) = Some (r, k).
Proof.
  intros Hr. unfold read_der_integer. change (b2z x02 =? 2) with true. cbn [negb].
  rewrite read_der_len_short by lia. rewrite (proj2 (Z.eqb_neq _ 0)) by lia. pose proof (zlen_nonneg k).
  rewrite zlen_app, Z.gtb_ltb, (proj2 (Z.ltb_ge _ _)), to_nat_zlen by lia.
  by rewrite take_app_length, drop_app_length.
Qed.

Lemma strict_int_nonempty l : strict_int l -> l <> [].
Proof. by destruct l. Qed.

Lemma parse_strict `{K256} sig r s ht :
  strict_der sig r s ht ->
  parse_der_lenient (take (length sig - 1) sig) =
    if (be_val r <? 2 ^ 256) && (be_val s <? 2 ^ 256) then from_scalars (scalar32 (be_val r)) (scalar32 (be_val s)) else None.
Proof.
  intros (-> & Hr & Hs & Hlen & _). pose proof (strict_int_zlen r Hr). pose proof (strict_int_zlen s Hs).
  assert (take (length (strict_sig r s ht) - 1) (strict_sig r s ht)
    = x30 :: z2b (zlen r + zlen s + 4) :: x02 :: z2b (zlen r) :: r ++ x02 :: z2b (zlen s) :: s ++ []) as ->.
  { unfold strict_sig. rewrite app_nil_r.
    transitivity (take (length (x30 :: z2b (zlen r + zlen s + 4) :: x02 :: z2b (zlen r) :: r ++ x02 :: z2b (zlen s) :: s))
      ((x30 :: z2b (zlen r + zlen s + 4) :: x02 :: z2b (zlen r) :: r ++ x02 :: z2b (zlen s) :: s) ++ [ht])); [|apply take_app_length].
    f_equal; [cbn [length]; rewrite !length_app; cbn [length]; rewrite length_app; cbn [length]; lia|].
    cbn [app]. by rewrite <- app_assoc. }
  unfold parse_der_lenient. change (b2z x30 =? 0x30) with true. cbn [negb]. rewrite read_der_len_short by lia.
  cbn [mbind option_bind]. rewrite read_der_integer_app by lia. cbn [mbind option_bind].
  rewrite read_der_integer_app by lia. cbn [mbind option_bind].
  rewrite !scalar_from_bytes_eq by (by apply strict_int_nonempty).
  destruct (be_val r <? 2 ^ 256); [|done]. cbn [mbind option_bind andb]. by destruct (be_val s <? 2 ^ 256).
Qed.

Lemma strict_int_high s : strict_int s -> 32 < zlen s -> be_val HALF_ORDER < be_val s.
Proof.
  destruct s as [|a [|b s]]; [done|unfold zlen; cbn; lia|]. intros [Ha Hz] Hlen. rewrite !be_val_cons, !zlen_cons in *.
  pose proof (be_val_range s). pose proof (b2z_range a). pose proof (b2z_range b). pose proof (zlen_nonneg s).
  assert (256 ^ 31 <= 256 ^ zlen s) by (apply Z.pow_le_mono_r; lia).
  assert (256 ^ (1 + zlen s) = 256 * 256 ^ zlen s) as Hp by (rewrite Z.pow_add_r; lia). rewrite Hp.
  assert (128 * 256 ^ zlen s <= b2z a * (256 * 256 ^ zlen s) + b2z b * 256 ^ zlen s).
  { destruct (Z.eq_dec (b2z a) 0) as [E|]; [specialize (Hz E)|]; nia. }
  assert (be_val HALF_ORDER < 128 * 256 ^ 31) by reflexivity. lia.
Qed.

Lemma check_low_s_strict sig r s ht :
  strict_der sig r s ht ->
  check_low_s sig = if be_val s <=? be_val HALF_ORDER then Ok tt else Err InvalidSignatureEncoding.
Proof.
  intros (-> & Hr & Hs & Hlen & _). pose proof (strict_int_zlen r Hr). pose proof (strict_int_zlen s Hs).
  unfold check_low_s. rewrite zlen_strict_sig, (proj2 (Z.eqb_neq _ 0)) by lia.
  change (byte_at (strict_sig r s ht) 3) with (@Ok ScriptError Z (b2z (z2b (zlen r)))). cbn [mbind res_bind].
  rewrite b2z_z2b_small by lia.
  assert (byte_at (strict_sig r s ht) (4 + zlen r + 1) = Ok (zlen s)) as ->.
  { apply byte_at_Ok. exists (z2b (zlen s)). rewrite b2z_z2b_small by lia. by rewrite strict_sig_tail by lia. }
  cbn [mbind res_bind].
  assert (vec_range (strict_sig r s ht) (4 + zlen r + 2) (4 + zlen r + 2 + zlen s) = Some s) as ->.
  { unfold vec_range. rewrite zlen_strict_sig, !(proj2 (Z.leb_le _ _)) by lia. cbn [andb]. f_equal.
    replace (4 + zlen r + 2 + zlen s - (4 + zlen r + 2)) with (zlen s) by lia. unfold strict_sig.
    replace (Z.to_nat (4 + zlen r + 2)) with (4 + (length r + 2))%nat by (unfold zlen; lia).
    cbn [Nat.add]. rewrite !skipn_cons. rewrite <- drop_drop, drop_app_length.
    change (drop 2 (x02 :: z2b (zlen s) :: s ++ [ht])) with (s ++ [ht]). by rewrite to_nat_zlen, take_app_length. }
  cbn [or_panic mbind res_bind]. rewrite Z.gtb_ltb. destruct (Z.ltb_spec 32 (zlen s)) as [Hbig|Hsmall].
  - by rewrite (proj2 (Z.leb_gt _ _) (strict_int_high s Hs Hbig)).
  - rewrite low_s_loop_eq, be_val_zeros; [done|]. rewrite length_app, length_replicate. unfold zlen in Hsmall. cbn. lia.
Qed.

(** ** Properties *)

(** C18: the legacy signature hash is the double SHA-256 of the serialization of
    one explicit transaction followed by the hash type: the signed input carries
    the script code (without OP_CODESEPARATOR), the other inputs an empty script;
    NONE drops the outputs, SINGLE keeps the outputs up to the index and blanks
    those before it, both zero the other sequences; ANYONECANPAY keeps only the
    signed input.  The one exception is the historical constant for SINGLE
    without a matching output. *)
Theorem signature_hash_reference `{Sha256} (tx : Transaction) (idx : nat) (code : list byte) (ht : byte) :
  (idx < length (vin tx))%nat ->
  @signature_hash _ ScriptError tx idx code ht =
    Ok (if (Z.land (b2z ht) 0x1f =? 3) && (length (vout tx) <=? idx)%nat then HASH_ONE
        else double_sha256 (tx_to_bytes (signed_tx tx idx (remove_codeseparators code) ht) ++ le_bytes 4 (b2z ht))).
Proof. intros Hidx. rewrite signature_hash_eq by done. by case_match. Qed.

Definition sample_tx : Transaction :=
  mkTx 1 [mkTxIn (mkOutPoint (mkHash (replicate 32 x07)) 1) [x51] 5; mkTxIn (mkOutPoint (mkHash (replicate 32 x08)) 0) [] 6]
       [mkTxOut 100 [x51]; mkTxOut 200 [x52]] 9.

Lemma signature_hash_reference_witness :
  exists h, @signature_hash toy_sha256 ScriptError sample_tx 1 [x76; xab; xac] x03 = Ok h /\
    h = @double_sha256 toy_sha256 (tx_to_bytes (mkTx 1
      [mkTxIn (mkOutPoint (mkHash (replicate 32 x07)) 1) [] 0; mkTxIn (mkOutPoint (mkHash (replicate 32 x08)) 0) [x76; xac] 6]
      [mkTxOut (-1) []; mkTxOut 200 [x52]] 9) ++ le_bytes 4 3).
Proof.
  eexists. split; [apply (@signature_hash_reference toy_sha256 sample_tx 1 [x76; xab; xac] x03); cbn; lia|].
  reflexivity.
Defined.

(** a signature of type ALL commits to the whole transaction: two
    well-formed transactions with the same signature hash for an input agree in
    version, spent outputs, sequences, outputs, lock time and signed script code,
    or exhibit a collision of double SHA-256. *)
Theorem sighash_all_commits `{Sha256} (tx1 tx2 : Transaction) (idx : nat) (code1 code2 : list byte) (ht : byte) :
  tx_ok tx1 -> tx_ok tx2 -> (idx < length (vin tx1))%nat -> (idx < length (vin tx2))%nat ->
  zlen code1 <= MAX_SCRIPT_SIZE -> zlen code2 <= MAX_SCRIPT_SIZE ->
  Z.land (b2z ht) 0x1f <> 2 -> Z.land (b2z ht) 0x1f <> 3 -> Z.land (b2z ht) 0x80 = 0 ->
  @signature_hash _ ScriptError tx1 idx code1 ht = signature_hash tx2 idx code2 ht ->
  (tx_version tx1 = tx_version tx2 /\ prev_output <$> vin tx1 = prev_output <$> vin tx2 /\
   sequence <$> vin tx1 = sequence <$> vin tx2 /\ vout tx1 = vout tx2 /\ locktime tx1 = locktime tx2 /\
   remove_codeseparators code1 = remove_codeseparators code2) \/
  exists a b, a <> b /\ double_sha256 a = double_sha256 b.
Proof.
  intros Hok1 Hok2 Hi1 Hi2 Hc1 Hc2 H2 H3 Hacp Heq. rewrite !signature_hash_eq in Heq by done.
  rewrite (proj2 (Z.eqb_neq _ 3) H3) in Heq. cbn [andb] in Heq.
  assert (forall c, zlen c <= MAX_SCRIPT_SIZE -> zlen (remove_codeseparators c) <= MAX_SCRIPT_SIZE) as Hrem.
  { intros c Hc. pose proof (length_remove_codeseparators c). unfold zlen in *. lia. }
  set (c1 := remove_codeseparators code1) in *. set (c2 := remove_codeseparators code2) in *.
  pose proof (signed_tx_ok tx1 idx c1 ht Hok1 (Hrem _ Hc1) H2 H3 Hacp) as Hs1.
  pose proof (signed_tx_ok tx2 idx c2 ht Hok2 (Hrem _ Hc2) H2 H3 Hacp) as Hs2.
  set (m1 := tx_to_bytes (signed_tx tx1 idx c1 ht) ++ le_bytes 4 (b2z ht)) in *.
  set (m2 := tx_to_bytes (signed_tx tx2 idx c2 ht) ++ le_bytes 4 (b2z ht)) in *.
  assert (double_sha256 m1 = double_sha256 m2) as Hh by congruence.
  destruct (decide (m1 = m2)) as [Em|Hne]; [left|right; by exists m1, m2].
  apply (encode_inj tx_codec (signed_tx tx1 idx c1 ht) (signed_tx tx2 idx c2 ht)) in Em as [E _]; [|done|done].
  destruct (signed_all tx1 idx c1 ht H2 H3 Hacp) as (P1 & S1 & O1 & C1).
  destruct (signed_all tx2 idx c2 ht H2 H3 Hacp) as (P2 & S2 & O2 & C2).
  rewrite <- P1, <- P2, <- S1, <- S2, <- O1, <- O2, E.
  split; [exact (f_equal tx_version E)|]. do 3 (split; [done|]). split; [exact (f_equal locktime E)|].
  destruct (lookup_lt_is_Some_2 _ _ Hi1) as [x1 L1], (lookup_lt_is_Some_2 _ _ Hi2) as [x2 L2].
  rewrite L1 in C1. rewrite L2 in C2. rewrite E, C2 in C1. by injection C1.
Qed.

Lemma sighash_all_commits_witness :
  remove_codeseparators [x76; xab; xac] = remove_codeseparators [x76; xac; xab] \/
  exists a b, a <> b /\ @double_sha256 toy_sha256 a = @double_sha256 toy_sha256 b.
Proof.
  destruct (@sighash_all_commits toy_sha256 sample_tx sample_tx 1 [x76; xab; xac] [x76; xac; xab] x01)
    as [(_ & _ & _ & _ & _ & E)|Hc].
  1,2: split; [split; vm_compute; (reflexivity || (intros Hc; discriminate Hc))|];
    split; [split; [vm_compute; intros Hc; discriminate Hc|]|split; [split; [vm_compute; intros Hc; discriminate Hc|]|]];
    repeat constructor; vm_compute; (reflexivity || (intros Hc; discriminate Hc)).
  1,2: cbn; lia.
  1,2: vm_compute; intros Hc; discriminate Hc.
  1,2: vm_compute; intros Hc; discriminate Hc.
  - reflexivity.
  - vm_compute. reflexivity.
  - left. exact E.
  - right. exact Hc.
Defined.

(** [check_signature_encoding] accepts exactly the empty signature and the
    strict DER signatures of BIP66 (minimal non-negative integers, exact lengths,
    a known hash type), without ever indexing out of range.  On each strict
    signature the lenient parser of the consensus path reads the same two
    integers, rejecting only those that do not fit 256 bits, and [check_low_s]
    accepts exactly when the second is at most half the group order. *)
Theorem strict_der_exact `{K256} (sig : list byte) :
  (check_signature_encoding sig = Ok tt <-> sig = [] \/ exists r s ht, strict_der sig r s ht) /\
  check_signature_encoding sig <> Panic /\
  forall r s ht, strict_der sig r s ht ->
    parse_der_lenient (take (length sig - 1) sig) =
      (if (be_val r <? 2 ^ 256) && (be_val s <? 2 ^ 256)
       then from_scalars (scalar32 (be_val r)) (scalar32 (be_val s)) else None) /\
    check_low_s sig = (if be_val s <=? be_val HALF_ORDER then Ok tt else Err InvalidSignatureEncoding).
Proof.
  split; [split|split].
  - apply check_signature_encoding_strict.
  - intros [->|(r & s & ht & Hs)]; [done|]. by eapply strict_check_signature_encoding.
  - apply check_signature_encoding_no_panic.
  - intros r s ht Hs. split; [by eapply parse_strict|by eapply check_low_s_strict].
Qed.
