(* ===== verification/Engine.v ===== *)
(** * Engine: the script interpreter

    Models src/src/script/opcodes.rs and src/src/script/engine.rs.  The mutable
    engine is the record [Engine]; a method is a function of it in the monad
    [eng], whose outcome is a value and the new engine, a [ScriptError], or a
    panic (an index out of range, or a loop that has not ended within the length
    of the script: both are shown not to happen). *)
From Stdlib Require Import Strings.Byte.
From stdpp Require Import base numbers list strings.
From S2P Require Import Prelude Codec Types Vec ScriptNum Signature.

(** RIPEMD-160 (crate ripemd) and SHA-1 (crate sha1), with the digest lengths *)
Class Digests : Type := {
  ripemd160 : list byte -> list byte;
  sha1 : list byte -> list byte;
}.
Class DigestsLen (D : Digests) : Prop := {
  ripemd160_length : forall m, length (ripemd160 m) = 20%nat;
  sha1_length : forall m, length (sha1 m) = 20%nat;
}.

(** ** Opcodes (opcodes.rs) *)

Inductive Opcode :=
| Op0 | PushBytes (n : Z) | PushData1 | PushData2 | PushData4 | Op1Negate | OpN (n : Z) | OpNop (n : Z)
| OpIf | OpNotIf | OpElse | OpEndIf | OpVerify | OpReturn | OpToAltStack | OpFromAltStack
| Op2Drop | Op2Dup | Op3Dup | Op2Over | Op2Rot | Op2Swap | OpIfDup | OpDepth | OpDrop | OpDup | OpNip | OpOver
| OpPick | OpRoll | OpRot | OpSwap | OpTuck | OpSize | OpEqual | OpEqualVerify
| Op1Add | Op1Sub | OpNegate | OpAbs | OpNot | Op0NotEqual | OpAdd | OpSub | OpBoolAnd | OpBoolOr
| OpNumEqual | OpNumEqualVerify | OpNumNotEqual | OpLessThan | OpGreaterThan | OpLessThanOrEqual
| OpGreaterThanOrEqual | OpMin | OpMax | OpWithin
| OpRipemd160 | OpSha1 | OpSha256 | OpHash160 | OpHash256 | OpCodeSeparator
| OpCheckSig | OpCheckSigVerify | OpCheckMultiSig | OpCheckMultiSigVerify
| OpCheckLockTimeVerify | OpCheckSequenceVerify
| Disabled (b : byte) | Invalid (b : byte).

Definition in_range (b lo hi : Z) : bool := (lo <=? b) && (b <=? hi).

Definition opcode_from (byte : byte) : Opcode :=
  let b := b2z byte in
  if in_range b 0x01 0x4b then PushBytes b
  else if in_range b 0x51 0x60 then OpN (b - 0x50)
  else if in_range b 0x7e 0x81 || in_range b 0x83 0x86 || in_range b 0x95 0x99 then Disabled byte
  else if in_range b 0xb3 0xb9 then OpNop (b - 0xaf)
  else match b with
  | 0x00 => Op0
  | 0x4c => PushData1
  | 0x4d => PushData2
  | 0x4e => PushData4
  | 0x4f => Op1Negate
  | 0x61 => OpNop 0
  | 0x63 => OpIf
  | 0x64 => OpNotIf
  | 0x67 => OpElse
  | 0x68 => OpEndIf
  | 0x69 => OpVerify
  | 0x6a => OpReturn
  | 0x6b => OpToAltStack
  | 0x6c => OpFromAltStack
  | 0x6d => Op2Drop
  | 0x6e => Op2Dup
  | 0x6f => Op3Dup
  | 0x70 => Op2Over
  | 0x71 => Op2Rot
  | 0x72 => Op2Swap
  | 0x73 => OpIfDup
  | 0x74 => OpDepth
  | 0x75 => OpDrop
  | 0x76 => OpDup
  | 0x77 => OpNip
  | 0x78 => OpOver
  | 0x79 => OpPick
  | 0x7a => OpRoll
  | 0x7b => OpRot
  | 0x7c => OpSwap
  | 0x7d => OpTuck
  | 0x82 => OpSize
  | 0x87 => OpEqual
  | 0x88 => OpEqualVerify
  | 0x8b => Op1Add
  | 0x8c => Op1Sub
  | 0x8d | 0x8e => Disabled byte
  | 0x8f => OpNegate
  | 0x90 => OpAbs
  | 0x91 => OpNot
  | 0x92 => Op0NotEqual
  | 0x93 => OpAdd
  | 0x94 => OpSub
  | 0x9a => OpBoolAnd
  | 0x9b => OpBoolOr
  | 0x9c => OpNumEqual
  | 0x9d => OpNumEqualVerify
  | 0x9e => OpNumNotEqual
  | 0x9f => OpLessThan
  | 0xa0 => OpGreaterThan
  | 0xa1 => OpLessThanOrEqual
  | 0xa2 => OpGreaterThanOrEqual
  | 0xa3 => OpMin
  | 0xa4 => OpMax
  | 0xa5 => OpWithin
  | 0xa6 => OpRipemd160
  | 0xa7 => OpSha1
  | 0xa8 => OpSha256
  | 0xa9 => OpHash160
  | 0xaa => OpHash256
  | 0xab => OpCodeSeparator
  | 0xac => OpCheckSig
  | 0xad => OpCheckSigVerify
  | 0xae => OpCheckMultiSig
  | 0xaf => OpCheckMultiSigVerify
  | 0xb0 => OpNop 1
  | 0xb1 => OpCheckLockTimeVerify
  | 0xb2 => OpCheckSequenceVerify
  | _ => Invalid byte
  end.

Definition is_disabled (op : Opcode) : bool := match op with Disabled _ => true | _ => false end.

(** the [matches!] of the main loop *)
Definition is_push (op : Opcode) : bool :=
  match op with
  | Op0 | PushBytes _ | PushData1 | PushData2 | PushData4 | Op1Negate | OpN _ => true
  | _ => false
  end.

(** ** The engine *)

Definition ENGINE_MAX_SCRIPT_SIZE : Z := 10000.
Definition MAX_OPS : Z := 201.
Definition MAX_STACK_SIZE : Z := 1000.
Definition MAX_PUSH_SIZE : Z := 520.
Definition MAX_MULTISIG_KEYS : Z := 20.

Definition item : Type := list byte.

(** the transaction and the index of the input being verified *)
Record SignatureContext := mkCtx { ctx_tx : Transaction; input_idx : nat }.

Record Engine := mkEngine {
  stack : list item;
  alt_stack : list item;
  script : list byte;
  pc : Z;
  op_count : Z;
  conditions : list bool;
  codesep_pos : Z;
  sig_ctx : option SignatureContext;
}.

Definition engine_with_stack_and_sig_context (script : list byte) (stack : list item) (ctx : SignatureContext) : Engine :=
  mkEngine stack [] script 0 0 [] 0 (Some ctx).
Definition engine_with_sig_context (script : list byte) (ctx : SignatureContext) : Engine :=
  mkEngine [] [] script 0 0 [] 0 (Some ctx).

Definition set_stack (s : list item) (e : Engine) : Engine :=
  mkEngine s (alt_stack e) (script e) (pc e) (op_count e) (conditions e) (codesep_pos e) (sig_ctx e).
Definition set_alt (s : list item) (e : Engine) : Engine :=
  mkEngine (stack e) s (script e) (pc e) (op_count e) (conditions e) (codesep_pos e) (sig_ctx e).
Definition set_pc (n : Z) (e : Engine) : Engine :=
  mkEngine (stack e) (alt_stack e) (script e) n (op_count e) (conditions e) (codesep_pos e) (sig_ctx e).
Definition set_op_count (n : Z) (e : Engine) : Engine :=
  mkEngine (stack e) (alt_stack e) (script e) (pc e) n (conditions e) (codesep_pos e) (sig_ctx e).
Definition set_conditions (c : list bool) (e : Engine) : Engine :=
  mkEngine (stack e) (alt_stack e) (script e) (pc e) (op_count e) c (codesep_pos e) (sig_ctx e).
Definition set_codesep (n : Z) (e : Engine) : Engine :=
  mkEngine (stack e) (alt_stack e) (script e) (pc e) (op_count e) (conditions e) n (sig_ctx e).

(** ** The monad of engine methods *)

Definition eng (A : Type) : Type := Engine -> res ScriptError (A * Engine).

#[global] Instance eng_ret : MRet eng := fun A a e => Ok (a, e).
#[global] Instance eng_bind : MBind eng := fun A B f m e =>
  match m e with
  | Ok (a, e') => f a e'
  | Err x => Err x
  | Panic => Panic
  end.

Definition get {A} (f : Engine -> A) : eng A := fun e => Ok (f e, e).
Definition modify (f : Engine -> Engine) : eng unit := fun e => Ok (tt, f e).
Definition throw {A} (x : ScriptError) : eng A := fun _ => Err x.
Definition lift {A} (r : res ScriptError A) : eng A := fun e =>
  match r with
  | Ok a => Ok (a, e)
  | Err x => Err x
  | Panic => Panic
  end.

Definition usize_checked_add (a b : Z) : option Z := if inU 64 (a + b) then Some (a + b) else None.

(** ** Helpers (engine.rs) *)

Definition read_byte : eng byte :=
  s ← get script;
  p ← get pc;
  b ← lift (ok_or InvalidPushSize (vec_index s p));
  p ← lift (ok_or ScriptTooLarge (usize_checked_add p 1));
  _ ← modify (set_pc p);
  mret b.

Definition push_item (x : item) : eng unit := modify (fun e => set_stack (vec_push (stack e) x) e).

Definition push_data (len : Z) : eng unit :=
  if len >? MAX_PUSH_SIZE then throw InvalidPushSize else
  p ← get pc;
  endp ← lift (ok_or InvalidPushSize (usize_checked_add p len));
  s ← get script;
  data ← lift (ok_or InvalidPushSize (vec_range s p endp));
  _ ← modify (set_pc endp);
  push_item data.

Definition peek : eng item := s ← get stack; lift (ok_or StackUnderflow (last s)).

Definition pop : eng item :=
  s ← get stack;
  '(x, s) ← lift (ok_or StackUnderflow (vec_pop s));
  _ ← modify (set_stack s);
  mret x.

Definition require_stack (n : Z) : eng unit :=
  s ← get stack;
  if zlen s <? n then throw StackUnderflow else mret tt.

Definition pop_index : eng Z :=
  val ← pop;
  n ← lift (map_err (fun _ => InvalidStackIndex) (decode_script_number val));
  if n <? 0 then throw InvalidStackIndex else mret n.

Definition is_executing (e : Engine) : bool := forallb id (conditions e).

Definition op_else : eng unit :=
  c ← get conditions;
  match last c with
  | None => throw UnbalancedConditional
  | Some _ => modify (set_conditions (update_last negb c))
  end.

Definition op_endif : eng unit :=
  c ← get conditions;
  '(_, c) ← lift (ok_or UnbalancedConditional (vec_pop c));
  modify (set_conditions c).

Definition skip_bytes (n : Z) : eng unit :=
  p ← get pc;
  p ← lift (ok_or InvalidPushSize (usize_checked_add p n));
  _ ← modify (set_pc p);
  s ← get script;
  if p >? zlen s then throw InvalidPushSize else mret tt.

Definition pop_number : eng Z := val ← pop; lift (decode_script_number val).

Definition pop_two_numbers : eng (Z * Z) :=
  b ← pop_number;
  a ← pop_number;
  mret (a, b).

Definition push_number (n : Z) : eng unit := push_item (encode_script_number n).

(** [i64::from(b)] *)
Definition bool_num (b : bool) : Z := if b then 1 else 0.

(** two and four little-endian length bytes *)
Definition read_u16_len : eng Z :=
  b0 ← read_byte;
  b1 ← read_byte;
  mret (le_val [b0; b1]).
Definition read_u32_len : eng Z :=
  b0 ← read_byte;
  b1 ← read_byte;
  b2 ← read_byte;
  b3 ← read_byte;
  mret (le_val [b0; b1; b2; b3]).

(** panicking accesses to the stack *)
Definition stack_at (i : Z) : eng item := s ← get stack; lift (or_panic (vec_index s i)).
Definition stack_remove (i : Z) : eng item :=
  s ← get stack;
  '(x, s) ← lift (or_panic (vec_remove s i));
  _ ← modify (set_stack s);
  mret x.
Definition stack_swap (i j : Z) : eng unit :=
  s ← get stack;
  s ← lift (or_panic (vec_swap s i j));
  modify (set_stack s).
Definition stack_insert (i : Z) (x : item) : eng unit :=
  s ← get stack;
  s ← lift (or_panic (vec_insert s i x));
  modify (set_stack s).
Definition stack_len : eng Z := get (fun e => zlen (stack e)).

Section Ops.
Context `{Sha256} `{Digests} `{K256}.

(** ** OP_CHECKSIG and OP_CHECKMULTISIG *)

(** [&self.script[self.codesep_pos..]] *)
Definition code_from_separator : eng (list byte) :=
  s ← get script;
  c ← get codesep_pos;
  lift (or_panic (vec_range s c (zlen s))).

(** the common end of the two opcodes *)
Definition push_verdict (valid verify : bool) (failure : ScriptError) : eng unit :=
  if valid then (if negb verify then push_item [x01] else mret tt)
  else if verify then throw failure
  else push_item [].

Definition op_checksig (verify : bool) : eng unit :=
  pubkey ← pop;
  sig ← pop;
  if zlen sig =? 0 then
    if verify then throw CheckSigFailed else push_item []
  else
  ctx ← get sig_ctx;
  ctx ← lift (ok_or CheckSigFailed ctx);
  hash_type ← lift (or_panic (last sig));
  script_code ← code_from_separator;
  let script_code := find_and_delete script_code sig in
  sighash ← lift (signature_hash (ctx_tx ctx) (input_idx ctx) script_code hash_type);
  let valid := verify_ecdsa sig pubkey sighash in
  push_verdict valid verify CheckSigFailed.

(** [for _ in 0..n { v.push(self.pop()?) }] *)
Fixpoint pop_n (n : nat) : eng (list item) :=
  match n with
  | O => mret []
  | S n => x ← pop; l ← pop_n n; mret (x :: l)
  end.

(** try the remaining keys in order; on a match, the keys after it remain *)
Fixpoint match_key (sig : item) (sighash : Hash256) (keys : list item) : option (list item) :=
  match keys with
  | [] => None
  | key :: keys => if verify_ecdsa sig key sighash then Some keys else match_key sig sighash keys
  end.

Fixpoint match_sigs (ctx : SignatureContext) (script_code : list byte) (sigs keys : list item) : res ScriptError bool :=
  match sigs with
  | [] => Ok true
  | sig :: sigs =>
    if zlen sig =? 0 then Ok false else
    hash_type ← or_panic (last sig);
    sighash ← signature_hash (ctx_tx ctx) (input_idx ctx) script_code hash_type;
    match match_key sig sighash keys with
    | None => Ok false
    | Some keys => match_sigs ctx script_code sigs keys
    end
  end.

Definition delete_sigs (script_code : list byte) (sigs : list item) : list byte :=
  foldl (fun code sig => if negb (zlen sig =? 0) then find_and_delete code sig else code) script_code sigs.

Definition op_checkmultisig (verify : bool) : eng unit :=
  n_keys ← pop_number;
  if negb ((0 <=? n_keys) && (n_keys <=? MAX_MULTISIG_KEYS)) then throw MultisigKeyCount else
  _ ← require_stack n_keys;
  keys ← pop_n (Z.to_nat n_keys);
  count ← get op_count;
  count ← lift (ok_or TooManyOps (usize_checked_add count n_keys));
  _ ← modify (set_op_count count);
  if count >? MAX_OPS then throw TooManyOps else
  n_sigs ← pop_number;
  if (n_sigs <? 0) || (n_sigs >? n_keys) then throw MultisigSigCount else
  _ ← require_stack n_sigs;
  sigs ← pop_n (Z.to_nat n_sigs);
  _ ← pop;
  ctx ← get sig_ctx;
  ctx ← lift (ok_or CheckMultiSigFailed ctx);
  script_code ← code_from_separator;
  let script_code := delete_sigs script_code sigs in
  success ← lift (match_sigs ctx script_code sigs keys);
  push_verdict success verify CheckMultiSigFailed.

(** ** Opcodes by group *)

Definition exec_push (op : Opcode) : eng unit :=
  match op with
  | Op0 => push_item []
  | PushBytes n => push_data n
  | PushData1 => b ← read_byte; push_data (b2z b)
  | PushData2 => len ← read_u16_len; push_data len
  | PushData4 => len ← read_u32_len; push_data len
  | Op1Negate => push_item [x81]
  | OpN n => push_item [z2b n]
  | _ => mret tt
  end.

Definition exec_stack (op : Opcode) : eng unit :=
  match op with
  | OpDup => top ← peek; push_item top
  | OpDrop => _ ← pop; mret tt
  | OpSwap => _ ← require_stack 2; len ← stack_len; stack_swap (len - 1) (len - 2)
  | OpOver => _ ← require_stack 2; len ← stack_len; x ← stack_at (len - 2); push_item x
  | OpRot => _ ← require_stack 3; len ← stack_len; x ← stack_remove (len - 3); push_item x
  | OpNip => _ ← require_stack 2; len ← stack_len; _ ← stack_remove (len - 2); mret tt
  | OpTuck => _ ← require_stack 2; top ← peek; len ← stack_len; stack_insert (len - 2) top
  | OpPick =>
    n ← pop_index;
    m ← lift (ok_or InvalidStackIndex (usize_checked_add n 1));
    _ ← require_stack m;
    len ← stack_len;
    x ← stack_at (len - 1 - n);
    push_item x
  | OpRoll =>
    n ← pop_index;
    m ← lift (ok_or InvalidStackIndex (usize_checked_add n 1));
    _ ← require_stack m;
    len ← stack_len;
    x ← stack_remove (len - 1 - n);
    push_item x
  | Op2Dup =>
    _ ← require_stack 2; len ← stack_len;
    a ← stack_at (len - 2); b ← stack_at (len - 1);
    _ ← push_item a; push_item b
  | Op2Drop => _ ← require_stack 2; _ ← pop; _ ← pop; mret tt
  | Op3Dup =>
    _ ← require_stack 3; len ← stack_len;
    a ← stack_at (len - 3); b ← stack_at (len - 2); c ← stack_at (len - 1);
    _ ← push_item a; _ ← push_item b; push_item c
  | Op2Over =>
    _ ← require_stack 4; len ← stack_len;
    a ← stack_at (len - 4); b ← stack_at (len - 3);
    _ ← push_item a; push_item b
  | Op2Rot =>
    _ ← require_stack 6; len ← stack_len;
    a ← stack_remove (len - 6); b ← stack_remove (len - 6);
    _ ← push_item a; push_item b
  | Op2Swap =>
    _ ← require_stack 4; len ← stack_len;
    _ ← stack_swap (len - 4) (len - 2); stack_swap (len - 3) (len - 1)
  | OpIfDup => top ← peek; if is_truthy top then push_item top else mret tt
  | OpDepth => depth ← stack_len; push_number depth
  | OpSize => top ← peek; push_number (zlen top)
  | OpToAltStack => x ← pop; modify (fun e => set_alt (vec_push (alt_stack e) x) e)
  | OpFromAltStack =>
    s ← get alt_stack;
    '(x, s) ← lift (ok_or StackUnderflow (vec_pop s));
    _ ← modify (set_alt s);
    push_item x
  | _ => mret tt
  end.

Definition exec_control (op : Opcode) : eng unit :=
  match op with
  | OpEqual =>
    _ ← require_stack 2; b ← pop; a ← pop;
    if bool_decide (a = b) then push_item [x01] else push_item []
  | OpEqualVerify =>
    _ ← require_stack 2; b ← pop; a ← pop;
    if bool_decide (a = b) then mret tt else throw EqualVerifyFailed
  | OpIf => top ← pop; modify (fun e => set_conditions (vec_push (conditions e) (is_truthy top)) e)
  | OpNotIf => top ← pop; modify (fun e => set_conditions (vec_push (conditions e) (negb (is_truthy top))) e)
  | OpElse => op_else
  | OpEndIf => op_endif
  | OpNop _ | OpCheckLockTimeVerify | OpCheckSequenceVerify => mret tt
  | OpVerify => top ← pop; if is_truthy top then mret tt else throw FalseReturned
  | OpReturn => throw OpReturnEncountered
  | _ => mret tt
  end.

(** pop one number (or two, or three) and push the result *)
Definition unary (f : Z -> option Z) : eng unit :=
  n ← pop_number; r ← lift (ok_or NumericOverflow (f n)); push_number r.
Definition binary (f : Z -> Z -> option Z) : eng unit :=
  '(a, b) ← pop_two_numbers; r ← lift (ok_or NumericOverflow (f a b)); push_number r.

Definition exec_arith (op : Opcode) : eng unit :=
  match op with
  | Op1Add => unary (fun n => i64_checked_add n 1)
  | Op1Sub => unary (fun n => i64_checked_sub n 1)
  | OpNegate => unary (fun n => i64_checked (- n))
  | OpAbs => unary (fun n => i64_checked (Z.abs n))
  | OpNot => unary (fun n => Some (bool_num (n =? 0)))
  | Op0NotEqual => unary (fun n => Some (bool_num (negb (n =? 0))))
  | OpAdd => binary i64_checked_add
  | OpSub => binary i64_checked_sub
  | OpBoolAnd => binary (fun a b => Some (bool_num (negb (a =? 0) && negb (b =? 0))))
  | OpBoolOr => binary (fun a b => Some (bool_num (negb (a =? 0) || negb (b =? 0))))
  | OpNumEqual => binary (fun a b => Some (bool_num (a =? b)))
  | OpNumEqualVerify => '(a, b) ← pop_two_numbers; if negb (a =? b) then throw FalseReturned else mret tt
  | OpNumNotEqual => binary (fun a b => Some (bool_num (negb (a =? b))))
  | OpLessThan => binary (fun a b => Some (bool_num (a <? b)))
  | OpGreaterThan => binary (fun a b => Some (bool_num (a >? b)))
  | OpLessThanOrEqual => binary (fun a b => Some (bool_num (a <=? b)))
  | OpGreaterThanOrEqual => binary (fun a b => Some (bool_num (a >=? b)))
  | OpMin => binary (fun a b => Some (Z.min a b))
  | OpMax => binary (fun a b => Some (Z.max a b))
  | OpWithin =>
    max ← pop_number; min ← pop_number; x ← pop_number;
    push_number (bool_num ((x >=? min) && (x <? max)))
  | _ => mret tt
  end.

Definition hash_top (f : list byte -> list byte) : eng unit := data ← pop; push_item (f data).

Definition exec_crypto (op : Opcode) : eng unit :=
  match op with
  | OpSha256 => hash_top sha256
  | OpHash256 => hash_top (fun data => sha256 (sha256 data))
  | OpHash160 => hash_top (fun data => ripemd160 (sha256 data))
  | OpRipemd160 => hash_top ripemd160
  | OpSha1 => hash_top sha1
  | OpCodeSeparator => p ← get pc; modify (set_codesep p)
  | OpCheckSig => op_checksig false
  | OpCheckSigVerify => op_checksig true
  | OpCheckMultiSig => op_checkmultisig false
  | OpCheckMultiSigVerify => op_checkmultisig true
  | Disabled b => throw (DisabledOpcode b)
  | Invalid b => throw (InvalidOpcode b)
  | _ => mret tt
  end.

Definition execute_opcode (op : Opcode) : eng unit :=
  match op with
  | Op0 | PushBytes _ | PushData1 | PushData2 | PushData4 | Op1Negate | OpN _ => exec_push op
  | OpDup | OpDrop | OpSwap | OpOver | OpRot | OpNip | OpTuck | OpPick | OpRoll | Op2Dup | Op2Drop | Op3Dup | Op2Over
  | Op2Rot | Op2Swap | OpIfDup | OpDepth | OpSize | OpToAltStack | OpFromAltStack => exec_stack op
  | OpEqual | OpEqualVerify | OpIf | OpNotIf | OpElse | OpEndIf | OpNop _ | OpCheckLockTimeVerify
  | OpCheckSequenceVerify | OpVerify | OpReturn => exec_control op
  | Op1Add | Op1Sub | OpNegate | OpAbs | OpNot | Op0NotEqual | OpAdd | OpSub | OpBoolAnd | OpBoolOr | OpNumEqual
  | OpNumEqualVerify | OpNumNotEqual | OpLessThan | OpGreaterThan | OpLessThanOrEqual | OpGreaterThanOrEqual
  | OpMin | OpMax | OpWithin => exec_arith op
  | OpSha256 | OpHash256 | OpHash160 | OpRipemd160 | OpSha1 | OpCodeSeparator | OpCheckSig | OpCheckSigVerify
  | OpCheckMultiSig | OpCheckMultiSigVerify | Disabled _ | Invalid _ => exec_crypto op
  end.

(** an opcode of a branch that is not taken *)
Definition skip_opcode (op : Opcode) : eng unit :=
  match op with
  | OpIf | OpNotIf => modify (fun e => set_conditions (vec_push (conditions e) false) e)
  | OpElse => op_else
  | OpEndIf => op_endif
  | PushBytes n => skip_bytes n
  | PushData1 => b ← read_byte; skip_bytes (b2z b)
  | PushData2 => len ← read_u16_len; skip_bytes len
  | PushData4 => len ← read_u32_len; skip_bytes len
  | _ => mret tt
  end.

Definition count_op (op : Opcode) : eng unit :=
  if is_push op then mret tt else
  n ← get op_count;
  n ← lift (ok_or TooManyOps (usize_checked_add n 1));
  _ ← modify (set_op_count n);
  if n >? MAX_OPS then throw TooManyOps else mret tt.

(** one iteration of the main loop *)
Definition execute_step : eng unit :=
  byte ← read_byte;
  let op := opcode_from byte in
  if is_disabled op then throw (DisabledOpcode byte) else
  _ ← count_op op;
  executing ← get is_executing;
  if negb executing then skip_opcode op else
  _ ← execute_opcode op;
  len ← stack_len;
  alt_len ← get (fun e => zlen (alt_stack e));
  total_stack ← lift (ok_or StackOverflow (usize_checked_add len alt_len));
  if total_stack >? MAX_STACK_SIZE then throw StackOverflow else mret tt.

(** [while self.pc < self.script.len()]; out of fuel is [Panic] *)
Fixpoint execute_loop (fuel : nat) : eng unit := fun e =>
  if pc e <? zlen (script e) then
    match fuel with
    | O => Panic
    | S fuel => (execute_step ≫= fun _ => execute_loop fuel) e
    end
  else Ok (tt, e).

Definition execute : eng (list item) :=
  s ← get script;
  if zlen s >? ENGINE_MAX_SCRIPT_SIZE then throw ScriptTooLarge else
  _ ← execute_loop (length s);
  c ← get conditions;
  if negb (zlen c =? 0) then throw UnbalancedConditional else
  get stack.
End Ops.
