(* ===== verification/EngineSafety.v ===== *)
(** * EngineSafety: the interpreter stops, stays in range and within its limits

    A weakest precondition for the monad [eng] gives each helper of Engine.v one
    rule; the invariant [inv] (program counter and separator inside the script,
    bounded operation count, bounded stack elements) is then carried through
    every opcode.  Out of these come the absence of panics, the termination of the
    main loop, and the limits on the stacks. *)
From Stdlib Require Import Strings.Byte.
From stdpp Require Import base numbers list strings.
From S2P Require Import Prelude Codec Types Vec ScriptNum Signature Engine.

(** [m] does not panic from [e], and its result satisfies [Q] *)
Definition wp {A} (m : eng A) (Q : A -> Engine -> Prop) (e : Engine) : Prop :=
  match m e with
  | Ok (a, e') => Q a e'
  | Err _ => True
  | Panic => False
  end.

Section Rules.
Context {A B : Type}.
Implicit Types (Q : A -> Engine -> Prop) (R : B -> Engine -> Prop).

Lemma wp_bind (m : eng A) (k : A -> eng B) R e : wp m (fun a e' => wp (k a) R e') e -> wp (m ≫= k) R e.
Proof. unfold wp, mbind, eng_bind. by destruct (m e) as [[a e']| |]. Qed.

Lemma wp_mono (m : eng A) Q Q' e : (forall a e', Q a e' -> Q' a e') -> wp m Q e -> wp m Q' e.
Proof. unfold wp. destruct (m e) as [[a e']| |]; auto. Qed.

Lemma wp_ret Q a e : Q a e -> wp (mret a) Q e.
Proof. done. Qed.
Lemma wp_throw Q x e : wp (throw x) Q e.
Proof. done. Qed.
Lemma wp_get Q (f : Engine -> A) e : Q (f e) e -> wp (get f) Q e.
Proof. done. Qed.
Lemma wp_ok_or Q x (o : option A) e : (forall a, o = Some a -> Q a e) -> wp (lift (ok_or x o)) Q e.
Proof. unfold wp, lift. destruct o; cbn; auto. Qed.
Lemma wp_or_panic Q (o : option A) a e : o = Some a -> Q a e -> wp (lift (or_panic o)) Q e.
Proof. by intros ->. Qed.
Lemma wp_if (c : bool) (m n : eng A) Q e :
  (c = true -> wp m Q e) -> (c = false -> wp n Q e) -> wp (if c then m else n) Q e.
Proof. destruct c; auto. Qed.
Lemma wp_lift Q (r : res ScriptError A) e : r <> Panic -> (forall a, r = Ok a -> Q a e) -> wp (lift r) Q e.
Proof. unfold wp, lift. destruct r; auto. Qed.
End Rules.

Lemma wp_modify (Q : unit -> Engine -> Prop) f e : Q tt (f e) -> wp (modify f) Q e.
Proof. done. Qed.

(** ** The invariant *)

Definition item_ok (x : item) : Prop := zlen x <= MAX_PUSH_SIZE.

Record inv (s0 : list byte) (ctx : option SignatureContext) (p0 : Z) (e : Engine) : Prop := {
  i_script : script e = s0;
  i_ctx : sig_ctx e = ctx;
  i_pc : p0 <= pc e <= zlen s0;
  i_sep : 0 <= codesep_pos e <= zlen s0;
  i_ops : 0 <= op_count e <= MAX_OPS;
  i_stack : Forall item_ok (stack e);
  i_alt : Forall item_ok (alt_stack e);
}.

Definition ctx_ok (ctx : option SignatureContext) : Prop :=
  match ctx with Some c => (input_idx c < length (vin (ctx_tx c)))%nat | None => True end.

Section Safety.
Context `{HS : Sha256} `{!Sha256Len HS} `{HD : Digests} `{!DigestsLen HD} `{K256}.
Context (s0 : list byte) (ctx : option SignatureContext) (p0 : Z).
Hypothesis Hs0 : zlen s0 <= ENGINE_MAX_SCRIPT_SIZE.
Hypothesis Hctx : ctx_ok ctx.
Hypothesis Hp0 : 0 <= p0.
Notation inv' := (inv s0 ctx p0).
(** what an operation guarantees *)
Notation post := (fun (_ : unit) e' => inv' e').

Lemma inv_set_stack e s : inv' e -> Forall item_ok s -> inv' (set_stack s e).
Proof. by intros []. Qed.
Lemma inv_set_alt e s : inv' e -> Forall item_ok s -> inv' (set_alt s e).
Proof. by intros []. Qed.
Lemma inv_set_pc e p : inv' e -> p0 <= p <= zlen s0 -> inv' (set_pc p e).
Proof. by intros []. Qed.
Lemma inv_set_conditions e c : inv' e -> inv' (set_conditions c e).
Proof. by intros []. Qed.

(** ** Rules for the helpers *)

Lemma wp_push x (Q : unit -> Engine -> Prop) e : Q tt (set_stack (stack e ++ [x]) e) -> wp (push_item x) Q e.
Proof. done. Qed.

Lemma wp_push_inv x e : inv' e -> item_ok x -> wp (push_item x) post e.
Proof.
  intros He Hx. apply wp_push, inv_set_stack; [done|]. apply Forall_app. split; [apply He|]. by constructor.
Qed.

Lemma wp_pop (Q : item -> Engine -> Prop) e :
  (forall x s, stack e = s ++ [x] -> Q x (set_stack s e)) -> wp pop Q e.
Proof.
  intros HQ. unfold wp, pop, mbind, eng_bind, get, lift, modify. destruct (vec_pop (stack e)) as [[x s]|] eqn:E; [|done].
  apply vec_pop_inv in E. by apply HQ.
Qed.

(** popping keeps the invariant and yields a bounded element *)
Lemma wp_pop_inv (Q : item -> Engine -> Prop) e :
  inv' e -> (forall x e', inv' e' -> item_ok x -> zlen (stack e) = zlen (stack e') + 1 -> Q x e') -> wp pop Q e.
Proof.
  intros He HQ. apply wp_pop. intros x s E.
  pose proof (i_stack _ _ _ _ He) as Hf. rewrite E, Forall_app, Forall_singleton in Hf.
  apply HQ; [apply inv_set_stack; naive_solver|naive_solver|]. cbn. by rewrite E, zlen_app.
Qed.

Lemma wp_require n (Q : unit -> Engine -> Prop) e : (n <= zlen (stack e) -> Q tt e) -> wp (require_stack n) Q e.
Proof.
  intros HQ. unfold wp, require_stack, mbind, eng_bind, get. destruct (Z.ltb_spec (zlen (stack e)) n); [done|]. by apply HQ.
Qed.

Lemma wp_peek (Q : item -> Engine -> Prop) e : inv' e -> (forall x, item_ok x -> Q x e) -> wp peek Q e.
Proof.
  intros He HQ. apply wp_bind, wp_get, wp_ok_or. intros x Hx. apply HQ.
  apply last_Some in Hx as [l Hl]. pose proof (i_stack _ _ _ _ He) as Hf. rewrite Hl, Forall_app, Forall_singleton in Hf. naive_solver.
Qed.

Lemma wp_stack_at i (Q : item -> Engine -> Prop) e :
  inv' e -> 0 <= i < zlen (stack e) -> (forall x, item_ok x -> Q x e) -> wp (stack_at i) Q e.
Proof.
  intros He Hi HQ. destruct (vec_index_Some (stack e) i Hi) as (x & E & Hx).
  apply wp_bind, wp_get. apply (wp_or_panic _ _ x); [done|]. apply HQ.
  eapply Forall_forall in Hx; [exact Hx|apply He].
Qed.

Lemma wp_stack_remove i (Q : item -> Engine -> Prop) e :
  inv' e -> 0 <= i < zlen (stack e) ->
  (forall x e', inv' e' -> item_ok x -> zlen (stack e) = zlen (stack e') + 1 -> Q x e') -> wp (stack_remove i) Q e.
Proof.
  intros He Hi HQ. destruct (vec_remove_Some (stack e) i Hi) as (x & s & E).
  apply wp_bind, wp_get, wp_bind. apply (wp_or_panic _ _ (x, s)); [done|]. apply wp_bind, wp_modify, wp_ret.
  apply vec_remove_inv in E. pose proof (i_stack _ _ _ _ He) as Hf. rewrite E, Forall_cons in Hf.
  apply HQ; [apply inv_set_stack; naive_solver|naive_solver|]. cbn. rewrite (zlen_Permutation _ _ E), zlen_cons. lia.
Qed.

Lemma wp_stack_swap i j (Q : unit -> Engine -> Prop) e :
  inv' e -> 0 <= i < zlen (stack e) -> 0 <= j < zlen (stack e) ->
  (forall e', inv' e' -> zlen (stack e') = zlen (stack e) -> Q tt e') -> wp (stack_swap i j) Q e.
Proof.
  intros He Hi Hj HQ. destruct (vec_swap_Some (stack e) i j Hi Hj) as (s & E).
  apply wp_bind, wp_get, wp_bind. apply (wp_or_panic _ _ s); [done|]. apply wp_modify. apply vec_swap_inv in E.
  apply HQ; [apply inv_set_stack; [done|]; rewrite E; apply He|]. cbn. by apply zlen_Permutation.
Qed.

Lemma wp_stack_insert i x e :
  inv' e -> item_ok x -> 0 <= i <= zlen (stack e) -> wp (stack_insert i x) post e.
Proof.
  intros He Hx Hi. destruct (vec_insert_Some (stack e) i x Hi) as (s & E).
  apply wp_bind, wp_get, wp_bind. apply (wp_or_panic _ _ s); [done|]. apply wp_modify. apply vec_insert_inv in E.
  apply inv_set_stack; [done|]. rewrite E. constructor; [done|apply He].
Qed.

Lemma wp_read_byte (Q : byte -> Engine -> Prop) e :
  inv' e -> (forall b, inv' (set_pc (pc e + 1) e) -> Q b (set_pc (pc e + 1) e)) -> wp read_byte Q e.
Proof.
  intros He HQ. apply wp_bind, wp_get, wp_bind, wp_get, wp_bind, wp_ok_or. intros b Hb.
  apply wp_bind, wp_ok_or. intros p Hp. apply wp_bind, wp_modify, wp_ret.
  apply vec_index_elem in Hb as [Hlt _]. rewrite (i_script _ _ _ _ He) in Hlt.
  unfold usize_checked_add in Hp. destruct (inU 64 (pc e + 1)); [|done]. injection Hp as <-.
  apply HQ, inv_set_pc; [done|]. destruct (i_pc _ _ _ _ He). lia.
Qed.

Lemma wp_push_data len e : inv' e -> 0 <= len -> wp (push_data len) post e.
Proof.
  intros He Hlen. apply wp_if; [done|]. intros Hmax. rewrite Z.gtb_ltb in Hmax. bool_prop.
  apply wp_bind, wp_get, wp_bind, wp_ok_or. intros p Hp. apply wp_bind, wp_get, wp_bind, wp_ok_or. intros data Hd.
  apply wp_bind, wp_modify. unfold usize_checked_add in Hp. destruct (inU 64 (pc e + len)); [|done]. injection Hp as <-.
  unfold vec_range in Hd. destruct (_ && _) eqn:Hr; [|done]. injection Hd as <-. bool_prop.
  rewrite (i_script _ _ _ _ He) in *. apply wp_push_inv.
  - apply inv_set_pc; [done|]. destruct (i_pc _ _ _ _ He). lia.
  - unfold item_ok, zlen. rewrite length_take. lia.
Qed.

Lemma wp_skip_bytes n e : inv' e -> 0 <= n -> wp (skip_bytes n) post e.
Proof.
  intros He Hn. apply wp_bind, wp_get, wp_bind, wp_ok_or. intros p Hp. apply wp_bind, wp_modify, wp_bind, wp_get. cbn [script set_pc].
  apply wp_if; [done|]. intros Hle. rewrite Z.gtb_ltb in Hle. bool_prop. apply wp_ret.
  unfold usize_checked_add in Hp. destruct (inU 64 (pc e + n)); [|done]. injection Hp as <-.
  apply inv_set_pc; [done|]. rewrite (i_script _ _ _ _ He) in *. destruct (i_pc _ _ _ _ He). lia.
Qed.

Lemma wp_read_u16_len (Q : Z -> Engine -> Prop) e :
  inv' e -> (forall n e', inv' e' -> pc e <= pc e' -> 0 <= n -> Q n e') -> wp read_u16_len Q e.
Proof.
  intros He HQ. apply wp_bind, wp_read_byte; [done|]. intros b0 He0. apply wp_bind, wp_read_byte; [done|]. intros b1 He1.
  apply wp_ret, HQ; [done|cbn; lia|]. apply le_val_range.
Qed.

Lemma wp_read_u32_len (Q : Z -> Engine -> Prop) e :
  inv' e -> (forall n e', inv' e' -> pc e <= pc e' -> 0 <= n -> Q n e') -> wp read_u32_len Q e.
Proof.
  intros He HQ. apply wp_bind, wp_read_byte; [done|]. intros b0 He0. apply wp_bind, wp_read_byte; [done|]. intros b1 He1.
  apply wp_bind, wp_read_byte; [done|]. intros b2 He2. apply wp_bind, wp_read_byte; [done|]. intros b3 He3.
  apply wp_ret, HQ; [done|cbn; lia|]. apply le_val_range.
Qed.

Lemma item_number n : item_ok (encode_script_number n).
Proof. unfold item_ok, zlen, MAX_PUSH_SIZE. pose proof (length_encode n). lia. Qed.

Lemma wp_push_number n e : inv' e -> wp (push_number n) post e.
Proof. intros He. apply wp_push_inv; [done|apply item_number]. Qed.

Lemma wp_pop_number (Q : Z -> Engine -> Prop) e :
  inv' e -> (forall n e', inv' e' -> Q n e') -> wp pop_number Q e.
Proof.
  intros He HQ. apply wp_bind, wp_pop_inv; [done|]. intros x e' He' _ _. apply wp_lift; [apply decode_no_panic|auto].
Qed.

Lemma wp_pop_index (Q : Z -> Engine -> Prop) e :
  inv' e -> (forall n e', inv' e' -> 0 <= n -> Q n e') -> wp pop_index Q e.
Proof.
  intros He HQ. apply wp_bind, wp_pop_inv; [done|]. intros x e' He' _ _. apply wp_bind, wp_lift.
  - pose proof (decode_no_panic x). by destruct (decode_script_number x).
  - intros n _. apply wp_if; [done|]. intros Hn%Z.ltb_ge. by apply wp_ret, HQ.
Qed.

Lemma wp_op_else e : inv' e -> wp op_else post e.
Proof. intros He. apply wp_bind, wp_get. destruct (last (conditions e)); [|done]. by apply wp_modify, inv_set_conditions. Qed.

Lemma wp_op_endif e : inv' e -> wp op_endif post e.
Proof.
  intros He. apply wp_bind, wp_get, wp_bind, wp_ok_or. intros [b c] _. by apply wp_modify, inv_set_conditions.
Qed.

Lemma wp_unary f e : inv' e -> wp (unary f) post e.
Proof.
  intros He. apply wp_bind, wp_pop_number; [done|]. intros n e' He'. apply wp_bind, wp_ok_or. intros r _. by apply wp_push_number.
Qed.

Lemma wp_pop_two (Q : Z * Z -> Engine -> Prop) e :
  inv' e -> (forall n e', inv' e' -> Q n e') -> wp pop_two_numbers Q e.
Proof.
  intros He HQ. apply wp_bind, wp_pop_number; [done|]. intros b e1 He1. apply wp_bind, wp_pop_number; [done|].
  intros a e2 He2. by apply wp_ret, HQ.
Qed.

Lemma wp_binary f e : inv' e -> wp (binary f) post e.
Proof.
  intros He. apply wp_bind, wp_pop_two; [done|]. intros [a b] e' He'. apply wp_bind, wp_ok_or. intros r _. by apply wp_push_number.
Qed.

Lemma wp_hash_top f e : (forall m, length (f m) <= 32)%nat -> inv' e -> wp (hash_top f) post e.
Proof.
  intros Hf He. apply wp_bind, wp_pop_inv; [done|]. intros x e' He' _ _. apply wp_push_inv; [done|].
  unfold item_ok, zlen, MAX_PUSH_SIZE. specialize (Hf x). lia.
Qed.

(** ** Signature opcodes *)

Lemma wp_code (Q : list byte -> Engine -> Prop) e :
  inv' e -> (forall code, Q code e) -> wp code_from_separator Q e.
Proof.
  intros He HQ. apply wp_bind, wp_get, wp_bind, wp_get. eapply wp_or_panic; [|apply HQ].
  unfold vec_range. rewrite (i_script _ _ _ _ He). pose proof (i_sep _ _ _ _ He). by rewrite !(proj2 (Z.leb_le _ _)) by lia.
Qed.

Lemma wp_verdict v verify x e : inv' e -> wp (push_verdict v verify x) post e.
Proof.
  intros He. unfold push_verdict. destruct v, verify; cbn [negb]; try done; apply wp_push_inv; done.
Qed.

Lemma sighash_no_panic c code ht : ctx = Some c -> @signature_hash _ ScriptError (ctx_tx c) (input_idx c) code ht <> Panic.
Proof. intros ->. cbn in Hctx. rewrite signature_hash_eq by done. by case_match. Qed.

Lemma last_nonempty (sig : item) : (zlen sig =? 0) = false -> exists b, last sig = Some b.
Proof. intros Hz. apply Z.eqb_neq in Hz. destruct sig as [|b l _] using rev_ind; [done|]. exists b. apply last_snoc. Qed.

Lemma wp_op_checksig verify e : inv' e -> wp (op_checksig verify) post e.
Proof.
  intros He. apply wp_bind, wp_pop_inv; [done|]. intros pk e1 He1 _ _. apply wp_bind, wp_pop_inv; [done|]. intros sig e2 He2 _ _.
  apply wp_if; intros Hsig. { destruct verify; [done|]. by apply wp_push_inv. }
  apply wp_bind, wp_get, wp_bind, wp_ok_or. intros c Hc. rewrite (i_ctx _ _ _ _ He2) in Hc.
  destruct (last_nonempty sig Hsig) as [ht Hht]. apply wp_bind. eapply wp_or_panic; [exact Hht|].
  apply wp_bind, wp_code; [done|]. intros code. apply wp_bind, wp_lift; [by apply sighash_no_panic|].
  intros h _. by apply wp_verdict.
Qed.

Lemma wp_pop_n n (Q : list item -> Engine -> Prop) e :
  inv' e -> (forall l e', inv' e' -> Q l e') -> wp (pop_n n) Q e.
Proof.
  revert e Q. induction n as [|n IH]; intros e Q He HQ; cbn [pop_n]; [by apply wp_ret, HQ|].
  apply wp_bind, wp_pop_inv; [done|]. intros x e1 He1 _ _. apply wp_bind, IH; [done|]. intros l e2 He2. by apply wp_ret, HQ.
Qed.

Lemma match_sigs_no_panic c code sigs keys : ctx = Some c -> match_sigs c code sigs keys <> Panic.
Proof.
  intros Hc. revert keys. induction sigs as [|sig sigs IH]; intros keys; cbn [match_sigs]; [done|].
  destruct (zlen sig =? 0) eqn:Hz; [done|]. destruct (last_nonempty sig Hz) as [ht ->]. cbn [or_panic mbind res_bind].
  pose proof (sighash_no_panic c code ht Hc). destruct (signature_hash _ _ _ _); [|done|done]. cbn.
  destruct (match_key sig a keys); [apply IH|done].
Qed.

Lemma wp_op_checkmultisig verify e : inv' e -> wp (op_checkmultisig verify) post e.
Proof.
  intros He. apply wp_bind, wp_pop_number; [done|]. intros nk e1 He1. apply wp_if; [done|]. intros Hnk. bool_prop.
  apply wp_bind, wp_require. intros _. apply wp_bind, wp_pop_n; [done|]. intros keys e2 He2.
  apply wp_bind, wp_get, wp_bind, wp_ok_or. intros n Hn. apply wp_bind, wp_modify. apply wp_if; [done|]. intros Hmax.
  assert (inv' (set_op_count n e2)) as He3.
  { unfold usize_checked_add in Hn. destruct (inU 64 (op_count e2 + nk)) eqn:Hu; [|done]. injection Hn as <-.
    rewrite Z.gtb_ltb in Hmax. bool_prop. apply inU_spec in Hu. destruct He2. constructor; cbn; try done. unfold U in Hu. lia. }
  apply wp_bind, wp_pop_number; [done|]. intros ns e4 He4. apply wp_if; [done|]. intros _.
  apply wp_bind, wp_require. intros _. apply wp_bind, wp_pop_n; [done|]. intros sigs e5 He5.
  apply wp_bind, wp_pop_inv; [done|]. intros _ e6 He6 _ _. apply wp_bind, wp_get, wp_bind, wp_ok_or. intros c Hc.
  rewrite (i_ctx _ _ _ _ He6) in Hc. apply wp_bind, wp_code; [done|]. intros code.
  apply wp_bind, wp_lift; [by apply match_sigs_no_panic|]. intros ok _. by apply wp_verdict.
Qed.

(** ** Every opcode *)

Lemma opcode_push_len b n : opcode_from b = PushBytes n -> 0 <= n.
Proof. pose proof (b2z_range b). destruct b; cbn; intros [= <-]; lia. Qed.

Lemma exec_push_safe op e : (forall n, op = PushBytes n -> 0 <= n) -> inv' e -> wp (exec_push op) post e.
Proof.
  intros Hn He. destruct op; cbn [exec_push]; try by apply wp_ret.
  - by apply wp_push_inv.
  - apply wp_push_data; auto.
  - apply wp_bind, wp_read_byte; [done|]. intros b He'. apply wp_push_data; [done|]. apply b2z_range.
  - apply wp_bind, wp_read_u16_len; [done|]. intros n e' He' _ H0. by apply wp_push_data.
  - apply wp_bind, wp_read_u32_len; [done|]. intros n e' He' _ H0. by apply wp_push_data.
  - by apply wp_push_inv.
  - by apply wp_push_inv.
Qed.

(** apply the rule of the next helper *)
Ltac wp_next :=
  lazymatch goal with
  | |- wp (require_stack _ ≫= _) _ _ => apply wp_bind, wp_require; intros ?
  | |- wp (stack_len ≫= _) _ _ => apply wp_bind, wp_get
  | |- wp (peek ≫= _) _ _ => apply wp_bind, wp_peek; [done|intros ? ?]
  | |- wp (pop ≫= _) _ _ => apply wp_bind, wp_pop_inv; [done|intros ? ? ? ? ?]
  | |- wp (pop_number ≫= _) _ _ => apply wp_bind, wp_pop_number; [done|intros ? ? ?]
  | |- wp (pop_index ≫= _) _ _ => apply wp_bind, wp_pop_index; [done|intros ? ? ? ?]
  | |- wp (stack_at _ ≫= _) _ _ => apply wp_bind, wp_stack_at; [done|lia|intros ? ?]
  | |- wp (stack_remove _ ≫= _) _ _ => apply wp_bind, wp_stack_remove; [done|lia|intros ? ? ? ? ?]
  | |- wp (stack_swap _ _ ≫= _) _ _ => apply wp_bind, wp_stack_swap; [done|lia|lia|intros ? ? ?]
  | |- wp (stack_swap _ _) _ _ => apply wp_stack_swap; [done|lia|lia|by intros ? ? ?]
  | |- wp (stack_insert _ _) _ _ => apply wp_stack_insert; [done|done|lia]
  | |- wp (push_item _ ≫= _) _ _ => apply wp_bind; eapply wp_mono; [|apply wp_push_inv; done]; cbn beta; intros _ ? ?
  | |- wp (push_item _) _ _ => by apply wp_push_inv
  | |- wp (push_number _) _ _ => by apply wp_push_number
  | |- wp (unary _) _ _ => by apply wp_unary
  | |- wp (binary _) _ _ => by apply wp_binary
  | |- wp (throw _) _ _ => done
  | |- wp (mret _) _ _ => by apply wp_ret
  | |- wp (if _ then _ else _) _ _ => apply wp_if; intros ?
  end.

Lemma wp_pick (n : Z) (k : Z -> eng unit) e :
  inv' e -> 0 <= n ->
  (n + 1 <= zlen (stack e) -> wp (k (zlen (stack e))) post e) ->
  wp (m ← lift (ok_or InvalidStackIndex (usize_checked_add n 1)); _ ← require_stack m; len ← stack_len; k len) post e.
Proof.
  intros He Hn Hk. apply wp_bind, wp_ok_or. intros m Hm. unfold usize_checked_add in Hm.
  destruct (inU 64 (n + 1)); [|done]. injection Hm as <-. wp_next. wp_next. auto.
Qed.

Lemma exec_stack_safe op e : inv' e -> wp (exec_stack op) post e.
Proof.
  intros He. destruct op; cbn [exec_stack]; try by apply wp_ret.
  all: try (repeat wp_next; fail).
  - apply wp_bind, wp_pop_inv; [done|]. intros x e' He' Hx _. apply wp_modify, inv_set_alt; [done|].
    apply Forall_app. split; [apply He'|by constructor].
  - apply wp_bind, wp_get, wp_bind, wp_ok_or. intros [x s] E%vec_pop_inv. apply wp_bind, wp_modify.
    pose proof (i_alt _ _ _ _ He) as Ha. rewrite E, Forall_app, Forall_singleton in Ha. destruct Ha as [Hs Hx].
    apply wp_push_inv; [by apply inv_set_alt|done].
  - wp_next. apply wp_pick; [done|done|]. intros Hlen. wp_next. wp_next.
  - wp_next. apply wp_pick; [done|done|]. intros Hlen. wp_next. wp_next.
Qed.

Lemma exec_control_safe op e : inv' e -> wp (exec_control op) post e.
Proof.
  intros He. destruct op; cbn [exec_control]; try by apply wp_ret.
  all: try (repeat wp_next; fail).
  - wp_next. by apply wp_modify, inv_set_conditions.
  - wp_next. by apply wp_modify, inv_set_conditions.
  - by apply wp_op_else.
  - by apply wp_op_endif.
Qed.

Lemma exec_arith_safe op e : inv' e -> wp (exec_arith op) post e.
Proof.
  intros He. destruct op; cbn [exec_arith]; try by apply wp_ret.
  all: try (repeat wp_next; fail).
  apply wp_bind, wp_pop_two; [done|]. intros [a b] e' He'. repeat wp_next.
Qed.

Lemma exec_crypto_safe op e : inv' e -> wp (exec_crypto op) post e.
Proof.
  intros He. destruct op; cbn [exec_crypto]; try by apply wp_ret.
  all: try (apply wp_hash_top; [intros m; rewrite ?ripemd160_length, ?sha1_length, ?sha256_length; lia|done]).
  - apply wp_bind, wp_get, wp_modify. destruct He. constructor; cbn; try done. lia.
  - by apply wp_op_checksig.
  - by apply wp_op_checksig.
  - by apply wp_op_checkmultisig.
  - by apply wp_op_checkmultisig.
Qed.

Lemma execute_opcode_safe op e : (forall n, op = PushBytes n -> 0 <= n) -> inv' e -> wp (execute_opcode op) post e.
Proof.
  intros Hn He. destruct op; cbn [execute_opcode];
    first [by apply exec_push_safe|by apply exec_stack_safe|by apply exec_control_safe|by apply exec_arith_safe|by apply exec_crypto_safe].
Qed.

Lemma skip_opcode_safe op e : (forall n, op = PushBytes n -> 0 <= n) -> inv' e -> wp (skip_opcode op) post e.
Proof.
  intros Hn He. destruct op; cbn [skip_opcode]; try by apply wp_ret.
  - apply wp_skip_bytes; auto.
  - apply wp_bind, wp_read_byte; [done|]. intros b He'. apply wp_skip_bytes; [done|]. apply b2z_range.
  - apply wp_bind, wp_read_u16_len; [done|]. intros n e' He' _ H0. by apply wp_skip_bytes.
  - apply wp_bind, wp_read_u32_len; [done|]. intros n e' He' _ H0. by apply wp_skip_bytes.
  - by apply wp_modify, inv_set_conditions.
  - by apply wp_modify, inv_set_conditions.
  - by apply wp_op_else.
  - by apply wp_op_endif.
Qed.

Lemma count_op_safe op (Q : unit -> Engine -> Prop) e :
  inv' e -> (forall e', inv' e' -> stack e' = stack e -> alt_stack e' = alt_stack e -> Q tt e') -> wp (count_op op) Q e.
Proof.
  intros He HQ. unfold count_op. destruct (is_push op); [by apply wp_ret, HQ|].
  apply wp_bind, wp_get, wp_bind, wp_ok_or. intros n Hn. apply wp_bind, wp_modify. apply wp_if; [done|]. intros Hmax.
  apply wp_ret, HQ; [|done|done]. unfold usize_checked_add in Hn. destruct (inU 64 (op_count e + 1)); [|done]. injection Hn as <-.
  rewrite Z.gtb_ltb in Hmax. bool_prop. destruct He. constructor; cbn; try done. lia.
Qed.
End Safety.

(** ** Skipping leaves the stacks alone *)

Definition keeps_stacks {A} (m : eng A) : Prop :=
  forall e a e', m e = Ok (a, e') -> stack e' = stack e /\ alt_stack e' = alt_stack e.

Lemma keeps_bind {A B} (m : eng A) (k : A -> eng B) : keeps_stacks m -> (forall a, keeps_stacks (k a)) -> keeps_stacks (m ≫= k).
Proof.
  intros Hm Hk e b e' E. unfold mbind, eng_bind in E. destruct (m e) as [[a e1]| |] eqn:Em; [|done|done].
  destruct (Hm _ _ _ Em), (Hk _ _ _ _ E). split; congruence.
Qed.

Lemma keeps_lift {A} (r : res ScriptError A) : keeps_stacks (lift r).
Proof. intros e a e' E. unfold lift in E. by destruct r; simplify_eq. Qed.

Lemma keeps_modify f : (forall e, stack (f e) = stack e /\ alt_stack (f e) = alt_stack e) -> keeps_stacks (modify f).
Proof. intros Hf e a e' [= <- <-]. apply Hf. Qed.

Lemma keeps_get {A} (f : Engine -> A) : keeps_stacks (get f).
Proof. by intros e a e' [= <- <-]. Qed.
Lemma keeps_ret {A} (a : A) : keeps_stacks (mret a).
Proof. by intros e b e' [= <- <-]. Qed.
Lemma keeps_throw {A} x : keeps_stacks (@throw A x).
Proof. by intros e a e'. Qed.
Lemma keeps_if {A} (c : bool) (m n : eng A) : keeps_stacks m -> keeps_stacks n -> keeps_stacks (if c then m else n).
Proof. by destruct c. Qed.

#[local] Hint Resolve keeps_lift keeps_get keeps_ret keeps_throw : ironcat.
Ltac keeps := repeat first [apply keeps_bind; [|intros ?]|apply keeps_if|apply keeps_modify; done|solve [auto with ironcat]|case_match].

Lemma keeps_read_byte : keeps_stacks read_byte.
Proof. unfold read_byte. keeps. Qed.
Lemma keeps_skip_bytes n : keeps_stacks (skip_bytes n).
Proof. unfold skip_bytes. keeps. Qed.
#[local] Hint Resolve keeps_read_byte keeps_skip_bytes : ironcat.

Lemma keeps_skip_opcode op : keeps_stacks (skip_opcode op).
Proof. destruct op; cbn [skip_opcode]; unfold read_u16_len, read_u32_len, op_else, op_endif; keeps. Qed.

Lemma wp_keeps {A} (m : eng A) Q e :
  keeps_stacks m -> wp m Q e -> wp m (fun a e' => Q a e' /\ stack e' = stack e /\ alt_stack e' = alt_stack e) e.
Proof. unfold wp. intros Hm. destruct (m e) as [[a e']| |] eqn:E; [|done|done]. intros HQ. split; [done|]. by eapply Hm. Qed.

(** ** The main loop *)

Section Loop.
Context `{HS : Sha256} `{!Sha256Len HS} `{HD : Digests} `{!DigestsLen HD} `{K256}.
Context (s0 : list byte) (ctx : option SignatureContext).
Hypothesis Hctx : ctx_ok ctx.

(** the state between two opcodes *)
Definition loop_inv (e : Engine) : Prop :=
  inv s0 ctx 0 e /\ zlen (stack e) + zlen (alt_stack e) <= MAX_STACK_SIZE.

(** an iteration advances the program counter *)
Lemma step_safe e : loop_inv e -> wp execute_step (fun _ e' => loop_inv e' /\ pc e < pc e') e.
Proof.
  intros [He Hst]. apply wp_bind, (wp_read_byte s0 ctx 0); [done|]. intros b He0.
  assert (inv s0 ctx (pc e + 1) (set_pc (pc e + 1) e)) as He1 by (destruct He0, He; constructor; cbn in *; try done; lia).
  assert (0 <= pc e + 1) as Hp by (destruct (i_pc _ _ _ _ He); lia).
  assert (forall e', inv s0 ctx (pc e + 1) e' -> inv s0 ctx 0 e' /\ pc e < pc e') as Hweak.
  { intros e' []. split; [constructor; try done; lia|lia]. }
  apply wp_if; [done|]. intros _. apply wp_bind, (count_op_safe s0 ctx (pc e + 1)); [done|]. intros e2 He2 Hs2 Ha2.
  apply wp_bind, wp_get. apply wp_if; intros _.
  - eapply wp_mono; [|apply wp_keeps; [apply keeps_skip_opcode|]; apply (skip_opcode_safe s0 ctx (pc e + 1)); [intros n; apply opcode_push_len|exact He2]].
    intros _ e' (He' & Es & Ea). destruct (Hweak e' He'). split; [|done]. split; [done|]. by rewrite Es, Ea, Hs2, Ha2.
  - apply wp_bind. eapply wp_mono; [|apply (execute_opcode_safe s0 ctx (pc e + 1)); [done|done|intros n; apply opcode_push_len|exact He2]].
    intros u e3 He3. apply wp_bind, wp_get, wp_bind, wp_get, wp_bind, wp_ok_or. intros t Ht. apply wp_if; [done|].
    intros Hmax. apply wp_ret. destruct (Hweak e3 He3). split; [|done]. split; [done|].
    unfold usize_checked_add in Ht. destruct (inU _ _); [|done]. injection Ht as <-. rewrite Z.gtb_ltb in Hmax. bool_prop. lia.
Qed.

(** each iteration consumes a byte, so the fuel is not exhausted *)
Lemma loop_safe fuel e :
  loop_inv e -> zlen s0 - pc e <= Z.of_nat fuel -> wp (execute_loop fuel) (fun _ e' => loop_inv e') e.
Proof.
  revert e. induction fuel as [|fuel IH]; intros e He Hf; unfold wp; cbn [execute_loop];
    rewrite (i_script _ _ _ _ (proj1 He)); destruct (Z.ltb_spec (pc e) (zlen s0)); try done; [lia|].
  apply wp_bind. eapply wp_mono; [|by apply step_safe]. intros u e' [He' Hpc]. apply IH; [done|lia].
Qed.

Lemma execute_safe e :
  loop_inv e -> pc e = 0 -> wp execute (fun st _ => Forall item_ok st /\ zlen st <= MAX_STACK_SIZE) e.
Proof.
  intros He Hpc. apply wp_bind, wp_get. apply wp_if; [done|]. intros _. apply wp_bind.
  rewrite (i_script _ _ _ _ (proj1 He)). eapply wp_mono; [|apply loop_safe; [done|unfold zlen; lia]].
  intros u e' [He' Hst]. apply wp_bind, wp_get. apply wp_if; [done|]. intros _. apply wp_get.
  split; [apply He'|]. pose proof (zlen_nonneg (alt_stack e')). lia.
Qed.
End Loop.

Lemma initial_loop_inv s0 st ctx :
  Forall item_ok st -> zlen st <= MAX_STACK_SIZE -> loop_inv s0 (Some ctx) (engine_with_stack_and_sig_context s0 st ctx).
Proof.
  intros Hf Hl. split; [|cbn; change (zlen (@nil item)) with 0; lia]. pose proof (zlen_nonneg s0).
  constructor; cbn; try done; lia.
Qed.

(** ** Properties *)

Definition toy_digests : Digests := {| ripemd160 m := take 20 (toy_sha256 m); sha1 m := take 20 (toy_sha256 m) |}.
#[global] Instance toy_digests_length : DigestsLen toy_digests.
Proof. split; intros m; change (length (take 20 (toy_sha256 m)) = 20%nat); rewrite length_take; unfold toy_sha256; by rewrite length_le_bytes. Qed.

(** a stand-in for the curve: the key must equal the first scalar *)
Definition toy_k256 : K256 := {|
  k_signature := list byte * list byte; k_verifying_key := list byte;
  from_scalars r s := Some (r, s); normalize_s _ := None;
  from_sec1_bytes k := Some k; verify_prehash k _ sig := bool_decide (k = sig.1) |}.

(** C12: the interpreter is total and within its limits.  From any script and any
    stack of at most 1000 elements of at most 520 bytes, with the index of an
    existing input, execution ends without a panic (no index out of range, and
    the main loop ends within the length of the script), and a successful run
    leaves at most 1000 elements of at most 520 bytes each. *)
Theorem execute_total `{HS : Sha256} `{!Sha256Len HS} `{HD : Digests} `{!DigestsLen HD} `{K256}
    (script : list byte) (st : list item) (tx : Transaction) (idx : nat) :
  Forall item_ok st -> zlen st <= MAX_STACK_SIZE -> (idx < length (vin tx))%nat ->
  match execute (engine_with_stack_and_sig_context script st (mkCtx tx idx)) with
  | Ok (st', _) => Forall item_ok st' /\ zlen st' <= MAX_STACK_SIZE
  | Err _ => True
  | Panic => False
  end.
Proof.
  intros Hf Hl Hidx. pose proof (initial_loop_inv script st (mkCtx tx idx) Hf Hl) as He.
  pose proof (execute_safe script (Some (mkCtx tx idx)) Hidx _ He eq_refl) as Hw. unfold wp in Hw.
  destruct (execute _) as [[st' e']| |]; exact Hw.
Qed.

Definition sample_engine : Engine := engine_with_stack_and_sig_context [x52; x93; x54; x87] [[x02]] (mkCtx sample_tx 0).

Lemma execute_total_witness :
  exists e', @execute toy_sha256 toy_digests toy_k256 sample_engine = Ok ([[x01]], e') /\ Forall item_ok [[x01]].
Proof.
  assert (exists e', @execute toy_sha256 toy_digests toy_k256 sample_engine = Ok ([[x01]], e')) as [e' E]
    by (eexists; vm_compute; reflexivity).
  assert (Forall item_ok [[x02]]) as H1 by (repeat constructor; vm_compute; intros Hc; discriminate Hc).
  assert (zlen [[x02]] <= MAX_STACK_SIZE) as H2 by (vm_compute; intros Hc; discriminate Hc).
  assert (0 < length (vin sample_tx))%nat as H3 by (cbn; lia).
  pose proof (@execute_total toy_sha256 _ toy_digests _ toy_k256 [x52; x93; x54; x87] [[x02]] sample_tx 0 H1 H2 H3) as H.
  fold sample_engine in H. rewrite E in H. exists e'. split; [exact E|exact (proj1 H)].
Defined.
