(* ===== verification/ScriptVerify.v ===== *)
(** * ScriptVerify: verification of a transaction input

    Models src/src/script/verify.rs: scriptSig, scriptPubKey and, for a P2SH
    output, the redeem script.  The standard output types are characterised by
    symbolic execution of the engine. *)
From Stdlib Require Import Strings.Byte.
From stdpp Require Import base numbers list strings sets.
From S2P Require Import Prelude Codec Types Vec ScriptNum Signature Engine EngineSafety.

Definition require_truthy_top (stack : list item) : res ScriptError unit :=
  match last stack with
  | Some top => if is_truthy top then Ok tt else Err FalseReturned
  | None => Err FalseReturned
  end.

(** [i] past the end is the empty rest *)
Fixpoint is_push_only_loop (fuel : nat) (rest : list byte) : bool :=
  match fuel, rest with
  | S fuel, op :: tail =>
    let b := b2z op in
    if (b =? 0x00) || (b =? 0x4f) || in_range b 0x51 0x60 then is_push_only_loop fuel tail
    else if in_range b 0x01 0x4b then is_push_only_loop fuel (drop (Z.to_nat (1 + b)) rest)
    else if b =? 0x4c then
      match tail with
      | [] => false
      | len :: _ => is_push_only_loop fuel (drop (Z.to_nat (2 + b2z len)) rest)
      end
    else if b =? 0x4d then
      if 3 >? zlen rest then false else is_push_only_loop fuel (drop (Z.to_nat (3 + le_val (take 2 tail))) rest)
    else if b =? 0x4e then
      if 5 >? zlen rest then false else is_push_only_loop fuel (drop (Z.to_nat (5 + le_val (take 4 tail))) rest)
    else false
  | _, _ => true
  end.

Definition is_push_only (script : list byte) : bool := is_push_only_loop (length script) script.

Definition is_p2sh (script : list byte) : bool :=
  (zlen script =? 23) && bool_decide (script !! 0%nat = Some xa9) && bool_decide (script !! 1%nat = Some x14) &&
  bool_decide (script !! 22%nat = Some x87).

Section Verify.
Context `{Sha256} `{Digests} `{K256}.

(** [engine.execute()?] on a fresh engine *)
Definition run_script (e : Engine) : res ScriptError (list item) :=
  '(st, _) ← execute e; Ok st.

Definition verify_script (script_sig script_pubkey : list byte) (tx : Transaction) (input_idx : nat) : res ScriptError unit :=
  sig_stack ← run_script (engine_with_sig_context script_sig (mkCtx tx input_idx));
  let p2sh_stack := sig_stack in
  final_stack ← run_script (engine_with_stack_and_sig_context script_pubkey sig_stack (mkCtx tx input_idx));
  _ ← require_truthy_top final_stack;
  if is_p2sh script_pubkey then
    if negb (is_push_only script_sig) then Err InvalidRedeemScript else
    redeem ← ok_or InvalidRedeemScript (vec_pop p2sh_stack);
    let '(redeem_script, redeem_stack) := redeem in
    redeem_result ← run_script (engine_with_stack_and_sig_context redeem_script redeem_stack (mkCtx tx input_idx));
    require_truthy_top redeem_result
  else Ok tt.

(** ** Symbolic execution *)

(** an engine outside conditionals, with an empty alternative stack *)
Definition at_ (st : list item) (s : list byte) (p c : Z) (ctx : SignatureContext) : Engine :=
  mkEngine st [] s p c [] 0 (Some ctx).

(** the stack check at the end of an iteration *)
Definition stack_check (st : list item) (e : Engine) : res ScriptError (unit * Engine) :=
  if zlen st >? MAX_STACK_SIZE then Err StackOverflow else Ok (tt, e).

Lemma usize_add_small a b : 0 <= a < 2 ^ 62 -> 0 <= b < 2 ^ 62 -> usize_checked_add a b = Some (a + b).
Proof. intros Ha Hb. unfold usize_checked_add. by rewrite (proj2 (inU_spec 64 (a + b))) by range. Qed.

Lemma bind_Ok {A B} (m : eng A) (k : A -> eng B) e a e' : m e = Ok (a, e') -> (m ≫= k) e = k a e'.
Proof. intros E. unfold mbind, eng_bind. by rewrite E. Qed.
Lemma bind_Err {A B} (m : eng A) (k : A -> eng B) e x : m e = Err x -> (m ≫= k) e = Err x.
Proof. intros E. unfold mbind, eng_bind. by rewrite E. Qed.
Lemma lift_some {A} x (o : option A) a e : o = Some a -> lift (ok_or x o) e = Ok (a, e).
Proof. by intros ->. Qed.

Tactic Notation "run_by" tactic(tac) := erewrite bind_Ok by tac; cbn [script pc op_count conditions stack alt_stack at_].
Ltac run := run_by reflexivity.

Lemma read_byte_at st s p c ctx b :
  0 <= p < 2 ^ 61 -> vec_index s p = Some b -> read_byte (at_ st s p c ctx) = Ok (b, at_ st s (p + 1) c ctx).
Proof.
  intros Hp E. unfold read_byte. run. run. run_by (by apply lift_some).
  run_by (apply lift_some, usize_add_small; lia). run. done.
Qed.

Lemma check_at st s p c ctx :
  zlen st < 2 ^ 61 ->
  (len ← stack_len; alt_len ← get (fun e => zlen (alt_stack e));
   total ← lift (ok_or StackOverflow (usize_checked_add len alt_len));
   if total >? MAX_STACK_SIZE then throw StackOverflow else mret tt) (at_ st s p c ctx) = stack_check st (at_ st s p c ctx).
Proof.
  intros Hst. pose proof (zlen_nonneg st). run. run. change (zlen (@nil item)) with 0.
  run_by (apply lift_some, usize_add_small; lia). rewrite Z.add_0_r. unfold stack_check.
  by destruct (zlen st >? MAX_STACK_SIZE).
Qed.

(** pushing [n <= 75] bytes *)
Lemma push_data_at st s p c ctx n data :
  0 <= n <= 520 -> 0 <= p < 2 ^ 60 -> vec_range s p (p + n) = Some data ->
  push_data n (at_ st s p c ctx) = Ok (tt, at_ (st ++ [data]) s (p + n) c ctx).
Proof.
  intros Hn Hp Ed. unfold push_data. rewrite Z.gtb_ltb, (proj2 (Z.ltb_ge MAX_PUSH_SIZE n)) by (unfold MAX_PUSH_SIZE; lia).
  run. run_by (apply lift_some, usize_add_small; lia). run. run_by (by apply lift_some). run. done.
Qed.

Lemma step_push st s p c ctx n data :
  1 <= n <= 75 -> 0 <= p < 2 ^ 59 -> zlen st < 2 ^ 60 ->
  vec_index s p = Some (z2b n) -> vec_range s (p + 1) (p + 1 + n) = Some data ->
  execute_step (at_ st s p c ctx) = stack_check (st ++ [data]) (at_ (st ++ [data]) s (p + 1 + n) c ctx).
Proof.
  intros Hn Hp Hst Eb Ed. unfold execute_step. run_by (apply read_byte_at; [lia|exact Eb]).
  assert (opcode_from (z2b n) = PushBytes n) as ->.
  { unfold opcode_from. rewrite b2z_z2b_small by lia. unfold in_range. by rewrite !(proj2 (Z.leb_le _ _)) by lia. }
  cbn [is_disabled]. run. run. change (is_executing _) with true. cbn [negb execute_opcode exec_push].
  run_by (apply push_data_at; [lia|lia|exact Ed]). apply check_at. rewrite zlen_app. change (zlen [data]) with 1. lia.
Qed.

(** counting an operation *)
Lemma count_op_at st s p c ctx op :
  0 <= c < 201 -> is_push op = false -> count_op op (at_ st s p c ctx) = Ok (tt, at_ st s p (c + 1) ctx).
Proof.
  intros Hc Hp. unfold count_op. rewrite Hp. run. run_by (apply lift_some, usize_add_small; lia). run.
  by rewrite Z.gtb_ltb, (proj2 (Z.ltb_ge MAX_OPS (c + 1))) by (unfold MAX_OPS; lia).
Qed.

(** any other opcode *)
Lemma step_op_eq st s p c ctx b :
  0 <= p < 2 ^ 60 -> 0 <= c < 201 -> vec_index s p = Some b ->
  is_disabled (opcode_from b) = false -> is_push (opcode_from b) = false ->
  execute_step (at_ st s p c ctx) =
    (_ ← execute_opcode (opcode_from b); len ← stack_len; alt_len ← get (fun e => zlen (alt_stack e));
     total ← lift (ok_or StackOverflow (usize_checked_add len alt_len));
     if total >? MAX_STACK_SIZE then throw StackOverflow else mret tt) (at_ st s (p + 1) (c + 1) ctx).
Proof.
  intros Hp Hc Eb Hdis Hpush. unfold execute_step. run_by (apply read_byte_at; [lia|exact Eb]).
  rewrite Hdis. run_by (apply count_op_at; [lia|exact Hpush]). by run.
Qed.

Lemma step_op st s p c ctx b st' :
  0 <= p < 2 ^ 60 -> 0 <= c < 201 -> zlen st' < 2 ^ 60 -> vec_index s p = Some b ->
  is_disabled (opcode_from b) = false -> is_push (opcode_from b) = false ->
  execute_opcode (opcode_from b) (at_ st s (p + 1) (c + 1) ctx) = Ok (tt, at_ st' s (p + 1) (c + 1) ctx) ->
  execute_step (at_ st s p c ctx) = stack_check st' (at_ st' s (p + 1) (c + 1) ctx).
Proof.
  intros Hp Hc Hst Eb Hdis Hpush Hop. rewrite (step_op_eq st s p c ctx b) by done.
  run_by exact Hop. apply check_at. lia.
Qed.

(** an opcode that fails *)
Lemma step_op_err st s p c ctx b x :
  0 <= p < 2 ^ 60 -> 0 <= c < 201 -> vec_index s p = Some b ->
  is_disabled (opcode_from b) = false -> is_push (opcode_from b) = false ->
  execute_opcode (opcode_from b) (at_ st s (p + 1) (c + 1) ctx) = Err x ->
  execute_step (at_ st s p c ctx) = Err x.
Proof.
  intros Hp Hc Eb Hdis Hpush Hop. rewrite (step_op_eq st s p c ctx b) by done. by apply bind_Err.
Qed.

(** the loop, one iteration at a time *)
Lemma loop_step fuel st s p c ctx :
  p < zlen s -> execute_loop (S fuel) (at_ st s p c ctx) = (execute_step ≫= fun _ => execute_loop fuel) (at_ st s p c ctx).
Proof. intros Hp. cbn [execute_loop script pc at_]. by rewrite (proj2 (Z.ltb_lt _ _) Hp). Qed.

Lemma loop_end fuel st s p c ctx : zlen s <= p -> execute_loop fuel (at_ st s p c ctx) = Ok (tt, at_ st s p c ctx).
Proof. intros Hp. destruct fuel; cbn [execute_loop script pc at_]; by rewrite (proj2 (Z.ltb_ge _ _) Hp). Qed.

(** ** Opcodes of the standard scripts *)

Lemma pop_at st x s p c ctx : pop (at_ (st ++ [x]) s p c ctx) = Ok (x, at_ st s p c ctx).
Proof. unfold pop. run. run_by (apply lift_some, vec_pop_snoc). by run. Qed.

Lemma require_at st n s p c ctx : n <= zlen st -> require_stack n (at_ st s p c ctx) = Ok (tt, at_ st s p c ctx).
Proof. intros Hn. unfold require_stack. run. by rewrite (proj2 (Z.ltb_ge _ _)). Qed.

Lemma hash160_at st x s p c ctx :
  execute_opcode OpHash160 (at_ (st ++ [x]) s p c ctx) = Ok (tt, at_ (st ++ [ripemd160 (sha256 x)]) s p c ctx).
Proof. cbn [execute_opcode exec_crypto]. unfold hash_top. by run_by (apply pop_at). Qed.

Lemma two_on_top {A} (st : list A) x y : 2 <= zlen (st ++ [x; y]).
Proof. rewrite zlen_app. change (zlen [x; y]) with 2. pose proof (zlen_nonneg st). lia. Qed.

Lemma app_two {A} (st : list A) x y : st ++ [x; y] = (st ++ [x]) ++ [y].
Proof. by rewrite <- app_assoc. Qed.

Lemma equalverify_at st x y s p c ctx :
  execute_opcode OpEqualVerify (at_ (st ++ [x; y]) s p c ctx) =
    if bool_decide (x = y) then Ok (tt, at_ st s p c ctx) else Err EqualVerifyFailed.
Proof.
  cbn [execute_opcode exec_control]. run_by (apply require_at, two_on_top). rewrite app_two.
  run_by (apply pop_at). run_by (apply pop_at). by case_match.
Qed.

Lemma equal_at st x y s p c ctx :
  execute_opcode OpEqual (at_ (st ++ [x; y]) s p c ctx) =
    Ok (tt, at_ (st ++ [if bool_decide (x = y) then [x01] else []]) s p c ctx).
Proof.
  cbn [execute_opcode exec_control]. run_by (apply require_at, two_on_top). rewrite app_two.
  run_by (apply pop_at). run_by (apply pop_at). by case_match.
Qed.

Lemma vec_range_all {A} (v : list A) : vec_range v 0 (zlen v) = Some v.
Proof.
  unfold vec_range. pose proof (zlen_nonneg v). rewrite !(proj2 (Z.leb_le _ _)) by lia. cbn [andb].
  rewrite drop_0, Z.sub_0_r, to_nat_zlen. f_equal. by apply take_ge.
Qed.

Lemma checksig_at st sig pk s p c ctx ht h :
  last sig = Some ht -> @signature_hash _ ScriptError (ctx_tx ctx) (input_idx ctx) (find_and_delete s sig) ht = Ok h ->
  execute_opcode OpCheckSig (at_ (st ++ [sig; pk]) s p c ctx) =
    Ok (tt, at_ (st ++ [if verify_ecdsa sig pk h then [x01] else []]) s p c ctx).
Proof.
  intros Hht Hh. cbn [execute_opcode exec_crypto]. unfold op_checksig. rewrite app_two.
  run_by (apply pop_at). run_by (apply pop_at).
  assert ((zlen sig =? 0) = false) as ->.
  { apply Z.eqb_neq. destruct sig; [done|]. rewrite zlen_cons. pose proof (zlen_nonneg sig). lia. }
  run. run_by reflexivity. run_by (unfold lift; rewrite Hht; reflexivity).
  unfold code_from_separator. run_by (run; run; unfold lift; cbn [codesep_pos at_]; rewrite vec_range_all; reflexivity).
  run_by (unfold lift; rewrite Hh; reflexivity). unfold push_verdict. by destruct (verify_ecdsa sig pk h).
Qed.

(** ** Running a script *)

Lemma run_script_Ok st s ctx st' p c :
  zlen s <= ENGINE_MAX_SCRIPT_SIZE -> execute_loop (length s) (at_ st s 0 0 ctx) = Ok (tt, at_ st' s p c ctx) ->
  run_script (at_ st s 0 0 ctx) = Ok st'.
Proof.
  intros Hs E. unfold run_script, execute. run_by reflexivity. rewrite Z.gtb_ltb, (proj2 (Z.ltb_ge _ _) Hs).
  run_by exact E. by run.
Qed.

Lemma run_script_Err st s ctx x :
  zlen s <= ENGINE_MAX_SCRIPT_SIZE -> execute_loop (length s) (at_ st s 0 0 ctx) = Err x ->
  run_script (at_ st s 0 0 ctx) = Err x.
Proof.
  intros Hs E. unfold run_script, execute. run_by reflexivity. rewrite Z.gtb_ltb, (proj2 (Z.ltb_ge _ _) Hs).
  by rewrite (bind_Err _ _ _ x E).
Qed.

(** one iteration whose stack stays small *)
Lemma loop_step_Ok fuel st s p c ctx st' p' c' :
  p < zlen s -> zlen st' <= MAX_STACK_SIZE -> execute_step (at_ st s p c ctx) = stack_check st' (at_ st' s p' c' ctx) ->
  execute_loop (S fuel) (at_ st s p c ctx) = execute_loop fuel (at_ st' s p' c' ctx).
Proof.
  intros Hp Hst E. rewrite loop_step by done. unfold stack_check in E.
  rewrite Z.gtb_ltb, (proj2 (Z.ltb_ge _ _) Hst) in E. by rewrite (bind_Ok _ _ _ _ _ E).
Qed.

Lemma vec_range_app {A} (l x r : list A) : vec_range (l ++ x ++ r) (zlen l) (zlen l + zlen x) = Some x.
Proof.
  unfold vec_range. pose proof (zlen_nonneg l). pose proof (zlen_nonneg x). pose proof (zlen_nonneg r).
  rewrite !zlen_app, !(proj2 (Z.leb_le _ _)) by lia. cbn [andb].
  replace (zlen l + zlen x - zlen l) with (zlen x) by lia. by rewrite !to_nat_zlen, drop_app_length, take_app_length.
Qed.

Definition push_of (x : list byte) : list byte := z2b (zlen x) :: x.

(** a direct push inside a script *)
Lemma step_push_of st pre x post s p p' c ctx :
  s = pre ++ push_of x ++ post -> p = zlen pre -> p' = p + 1 + zlen x ->
  1 <= zlen x <= 75 -> p < 2 ^ 50 -> zlen st < 2 ^ 50 ->
  execute_step (at_ st s p c ctx) = stack_check (st ++ [x]) (at_ (st ++ [x]) s p' c ctx).
Proof.
  intros -> -> -> Hx Hpre Hst. pose proof (zlen_nonneg pre). apply step_push; [lia|lia|lia| |].
  - unfold push_of. replace (zlen pre) with (zlen pre + 0) by lia. by rewrite vec_index_app by lia.
  - assert (pre ++ push_of x ++ post = (pre ++ [z2b (zlen x)]) ++ x ++ post) as -> by (unfold push_of; by rewrite <- app_assoc).
    assert (zlen pre + 1 = zlen (pre ++ [z2b (zlen x)])) as -> by (by rewrite zlen_app). apply vec_range_app.
Qed.

Lemma run_two_pushes x y ctx :
  1 <= zlen x <= 75 -> 1 <= zlen y <= 75 -> run_script (at_ [] (push_of x ++ push_of y) 0 0 ctx) = Ok [x; y].
Proof.
  intros Hx Hy. set (s := push_of x ++ push_of y).
  assert (zlen s = 2 + zlen x + zlen y) as Hlen by (unfold s, push_of; rewrite zlen_app, !zlen_cons; lia).
  apply (run_script_Ok _ _ _ _ (zlen s) 0); [unfold ENGINE_MAX_SCRIPT_SIZE; lia|].
  replace (length s) with (S (S (length s - 2))) by (unfold zlen in Hlen; lia).
  rewrite (loop_step_Ok _ _ _ _ _ _ [x] (1 + zlen x) 0); [|lia|done|by apply (step_push_of [] [] x (push_of y))].
  rewrite (loop_step_Ok _ _ _ _ _ _ [x; y] (zlen s) 0); [by apply loop_end|lia|done|].
  apply (step_push_of [x] (push_of x) y []); [by rewrite app_nil_r|unfold push_of; by rewrite zlen_cons|lia|done|lia|done].
Qed.

(** ** Pay to public key hash *)

Definition p2pkh_script (h : list byte) : list byte := [x76; xa9] ++ push_of h ++ [x88; xac].

Section P2pkh.
Context (sig pk h : list byte) (ctx : SignatureContext) (ht : byte) (sh : Hash256).
Hypothesis Hh : length h = 20%nat.
Hypothesis Hht : last sig = Some ht.
Hypothesis Hsh : @signature_hash _ ScriptError (ctx_tx ctx) (input_idx ctx) (find_and_delete (p2pkh_script h) sig) ht = Ok sh.

Lemma zlen_p2pkh : zlen (p2pkh_script h) = 25.
Proof. unfold zlen, p2pkh_script, push_of. rewrite !length_app. cbn [length]. lia. Qed.

(** DUP HASH160 <h> leaves both hashes on the stack *)
Lemma p2pkh_prefix fuel :
  execute_loop (S (S (S fuel))) (at_ [sig; pk] (p2pkh_script h) 0 0 ctx) =
  execute_loop fuel (at_ [sig; pk; ripemd160 (sha256 pk); h] (p2pkh_script h) 23 2 ctx).
Proof.
  pose proof zlen_p2pkh as Hlen.
  rewrite (loop_step_Ok _ _ _ _ _ _ [sig; pk; pk] 1 1); [|lia|done|by apply (step_op _ _ 0 0 _ x76)].
  rewrite (loop_step_Ok _ _ _ _ _ _ [sig; pk; ripemd160 (sha256 pk)] 2 2);
    [|lia|done|apply (step_op _ _ 1 1 _ xa9); try done; apply (hash160_at [sig; pk])].
  rewrite (loop_step_Ok _ _ _ _ _ _ [sig; pk; ripemd160 (sha256 pk); h] 23 2); [done|lia|done|].
  apply (step_push_of [sig; pk; ripemd160 (sha256 pk)] [x76; xa9] h [x88; xac]); try done; unfold zlen; rewrite Hh; done.
Qed.

Lemma p2pkh_at23 : vec_index (p2pkh_script h) 23 = Some x88 /\ vec_index (p2pkh_script h) 24 = Some xac.
Proof.
  assert (p2pkh_script h = ([x76; xa9] ++ push_of h) ++ [x88; xac]) as -> by (unfold p2pkh_script; by rewrite app_assoc).
  assert (zlen ([x76; xa9] ++ push_of h) = 23) as Hl.
  { unfold zlen, push_of. rewrite !length_app. cbn [length]. lia. }
  split; [replace 23 with (zlen ([x76; xa9] ++ push_of h) + 0) by lia|replace 24 with (zlen ([x76; xa9] ++ push_of h) + 1) by lia];
    by rewrite vec_index_app by lia.
Qed.

Lemma run_p2pkh :
  run_script (at_ [sig; pk] (p2pkh_script h) 0 0 ctx) =
    if bool_decide (ripemd160 (sha256 pk) = h) then Ok [if verify_ecdsa sig pk sh then [x01] else []]
    else Err EqualVerifyFailed.
Proof.
  destruct p2pkh_at23 as [H23 H24]. pose proof zlen_p2pkh as Hlen.
  assert (length (p2pkh_script h) = 25%nat) as Hl25 by (unfold zlen in Hlen; lia).
  pose proof (equalverify_at [sig; pk] (ripemd160 (sha256 pk)) h (p2pkh_script h) 24 3 ctx) as Heq.
  destruct (bool_decide_reflect (ripemd160 (sha256 pk) = h)) as [E|E];
    [rewrite bool_decide_true in Heq by done|rewrite bool_decide_false in Heq by done].
  - apply (run_script_Ok _ _ _ _ 25 4); [rewrite Hlen; done|]. rewrite Hl25, p2pkh_prefix.
    rewrite (loop_step_Ok _ _ _ _ _ _ [sig; pk] 24 3); [|lia|done|apply (step_op _ _ 23 2 _ x88); [lia|lia|done|exact H23|done|done|exact Heq]].
    rewrite (loop_step_Ok _ _ _ _ _ _ [if verify_ecdsa sig pk sh then [x01] else []] 25 4); [by apply loop_end; lia|lia|done|].
    apply (step_op _ _ 24 3 _ xac); try done. by apply (checksig_at [] sig pk _ _ _ _ ht).
  - apply run_script_Err; [rewrite Hlen; done|]. rewrite Hl25, p2pkh_prefix. rewrite loop_step by lia.
    apply bind_Err. apply (step_op_err _ _ 23 2 _ x88); [lia|lia|exact H23|done|done|exact Heq].
Qed.
End P2pkh.

(** ** Pay to script hash *)

Lemma is_p2sh_shape s : is_p2sh s = true -> exists h, length h = 20%nat /\ s = [xa9] ++ push_of h ++ [x87].
Proof.
  unfold is_p2sh. intros Hs. bool_prop. assert (length s = 23%nat) as Hl by (unfold zlen in *; lia).
  destruct s as [|a [|b s]]; try done. cbn in *. simplify_eq. exists (take 20 s).
  assert (length (take 20 s) = 20%nat) as Ht by (rewrite length_take; lia). split; [done|].
  unfold push_of, zlen. rewrite Ht. change (z2b (Z.of_nat 20)) with x14. cbn [app]. do 2 f_equal.
  rewrite <- (take_drop 20 s) at 1. f_equal.
  assert (s !! 20%nat = Some x87) as H20 by done. erewrite drop_S by exact H20. f_equal. apply drop_ge. lia.
Qed.

(** a successful run went through the iteration *)
Lemma loop_step_inv fuel st s p c ctx st' e' r :
  execute_loop (S fuel) (at_ st s p c ctx) = Ok r -> p < zlen s -> execute_step (at_ st s p c ctx) = stack_check st' e' ->
  execute_loop fuel e' = Ok r.
Proof.
  intros Hr Hp E. rewrite loop_step in Hr by done. unfold mbind, eng_bind in Hr. rewrite E in Hr. unfold stack_check in Hr.
  by destruct (zlen st' >? MAX_STACK_SIZE).
Qed.

Lemma run_script_inv st s ctx r :
  run_script (at_ st s 0 0 ctx) = Ok r ->
  exists e', execute_loop (length s) (at_ st s 0 0 ctx) = Ok (tt, e') /\ stack e' = r.
Proof.
  unfold run_script. intros ([st' e'] & E & [= <-])%res_bind_Ok. unfold execute in E. erewrite bind_Ok in E by reflexivity.
  cbn [script at_] in E. destruct (zlen s >? _); [done|]. unfold mbind, eng_bind in E.
  destruct (execute_loop (length s) (at_ st s 0 0 ctx)) as [[[] e1]| |]; [|done|done]. exists e1. split; [done|].
  unfold get in E. destruct (negb _); [done|]. by injection E as <- <-.
Qed.

(** HASH160 <h> EQUAL on a stack with the redeem script on top *)
Lemma run_p2sh st redeem h ctx r :
  length h = 20%nat -> zlen st < 2 ^ 40 ->
  run_script (at_ (st ++ [redeem]) ([xa9] ++ push_of h ++ [x87]) 0 0 ctx) = Ok r ->
  r = st ++ [if bool_decide (ripemd160 (sha256 redeem) = h) then [x01] else []].
Proof.
  intros Hh Hst Hr. set (s := [xa9] ++ push_of h ++ [x87]) in *. assert (zlen h = 20) as Hz by (unfold zlen; by rewrite Hh).
  assert (length s = 23%nat) as Hl by (unfold s, push_of; rewrite !length_app; cbn [length]; lia).
  assert (zlen s = 23) as Hlen by (unfold zlen; lia). pose proof (zlen_nonneg st).
  apply run_script_inv in Hr as (e' & Hr & <-). rewrite Hl in Hr.
  set (x := ripemd160 (sha256 redeem)) in *. 
  assert (forall y : item, @zlen item (st ++ [y]) < 2 ^ 60) as Hs1 by (intros y; rewrite zlen_app; change (zlen [y]) with 1; lia).
  eapply (loop_step_inv _ _ _ _ _ _ (st ++ [x]) (at_ (st ++ [x]) s 1 1 ctx)) in Hr; [|lia|].
  2: { apply (step_op _ _ 0 0 _ xa9); try done; apply hash160_at. }
  eapply (loop_step_inv _ _ _ _ _ _ ((st ++ [x]) ++ [h]) (at_ ((st ++ [x]) ++ [h]) s 22 1 ctx)) in Hr; [|lia|].
  2: { apply (step_push_of _ [xa9] h [x87]); [done|done|rewrite Hz; done|rewrite Hz; lia|lia|]. rewrite zlen_app. change (zlen [x]) with 1. lia. }
  rewrite <- app_two in Hr. set (y := if bool_decide (x = h) then [x01] else []).
  eapply (loop_step_inv _ _ _ _ _ _ (st ++ [y]) (at_ (st ++ [y]) s 23 2 ctx)) in Hr; [|lia|].
  2: { apply (step_op _ _ 22 1 _ x87); try done; [|apply equal_at].
    assert (s = ([xa9] ++ push_of h) ++ [x87]) as -> by (unfold s; by rewrite app_assoc).
    assert (zlen ([xa9] ++ push_of h) = 22) as Hp by (unfold zlen, push_of; rewrite !length_app; cbn [length]; lia).
    replace 22 with (zlen ([xa9] ++ push_of h) + 0) by lia. by rewrite vec_index_app by lia. }
  rewrite loop_end in Hr by lia. by injection Hr as <-.
Qed.
End Verify.

(** ** Multisignature matching *)

Section Multisig.
Context `{Sha256} `{K256} (ctx : SignatureContext) (code : list byte).
Hypothesis Hidx : (input_idx ctx < length (vin (ctx_tx ctx)))%nat.

(** [sig] is a signature of the input by [key] *)
Definition signs (sig key : item) : Prop :=
  exists ht h, last sig = Some ht /\ @signature_hash _ ScriptError (ctx_tx ctx) (input_idx ctx) code ht = Ok h /\
    verify_ecdsa sig key h = true.

(** the signatures are by distinct keys, taken in order *)
Definition signed_in_order (sigs keys : list item) : Prop :=
  exists ks, ks `sublist_of` keys /\ Forall2 signs sigs ks.

Lemma sublist_after_match sig h keys rest ks k :
  (forall key, verify_ecdsa sig key h = true <-> signs sig key) ->
  match_key sig h keys = Some rest -> k :: ks `sublist_of` keys -> signs sig k -> ks `sublist_of` rest.
Proof.
  intros Hs. revert rest. induction keys as [|key keys IH]; intros rest Hm Hsub Hk; cbn [match_key] in Hm; [done|].
  destruct (verify_ecdsa sig key h) eqn:E.
  - injection Hm as ->. apply sublist_cons_r in Hsub as [Hsub|(l & [= <- <-] & Hsub)]; [|done].
    etransitivity; [|exact Hsub]. by apply sublist_cons.
  - apply sublist_cons_r in Hsub as [Hsub|(l & [= <- <-] & Hsub)]; [by eapply IH|].
    apply Hs in Hk. congruence.
Qed.

Lemma match_key_Some sig h keys rest :
  match_key sig h keys = Some rest -> exists k, verify_ecdsa sig k h = true /\ k :: rest `sublist_of` keys.
Proof.
  revert rest. induction keys as [|key keys IH]; intros rest; cbn [match_key]; [done|].
  destruct (verify_ecdsa sig key h) eqn:E.
  - intros [= ->]. by exists key.
  - intros (k & Hk & Hsub)%IH. exists k. split; [done|]. by apply sublist_cons.
Qed.

Lemma match_key_None sig h keys : match_key sig h keys = None -> forall k, k ∈ keys -> verify_ecdsa sig k h = false.
Proof.
  induction keys as [|key keys IH]; cbn [match_key]; [set_solver|].
  destruct (verify_ecdsa sig key h) eqn:E; [done|]. intros Hn k [->|Hk]%elem_of_cons; [done|]. by apply IH.
Qed.

Lemma signs_iff sig ht h key :
  last sig = Some ht -> @signature_hash _ ScriptError (ctx_tx ctx) (input_idx ctx) code ht = Ok h ->
  verify_ecdsa sig key h = true <-> signs sig key.
Proof.
  intros Hht Hh. split; [by exists ht, h|]. intros (ht' & h' & E1 & E2 & Hv). rewrite Hht in E1. injection E1 as <-.
  rewrite Hh in E2. by injection E2 as <-.
Qed.

Lemma match_sigs_spec sigs keys :
  exists b : bool, match_sigs ctx code sigs keys = Ok b /\ (b = true <-> signed_in_order sigs keys).
Proof.
  revert keys. induction sigs as [|sig sigs IH]; intros keys; cbn [match_sigs].
  { exists true. split; [done|]. split; [|done]. intros _. exists []. split; [apply sublist_nil_l|constructor]. }
  destruct (zlen sig =? 0) eqn:Hz.
  { exists false. split; [done|]. split; [done|]. intros (ks & _ & Hf). apply Forall2_cons_inv_l in Hf as (k & ks' & Hk & _).
    destruct Hk as (ht & h & E & _). apply Z.eqb_eq in Hz. destruct sig; [done|]. rewrite zlen_cons in Hz. pose proof (zlen_nonneg sig). lia. }
  destruct (last_nonempty sig Hz) as [ht Hht]. rewrite Hht. cbn [or_panic mbind res_bind].
  assert (exists h, @signature_hash _ ScriptError (ctx_tx ctx) (input_idx ctx) code ht = Ok h) as [h Hh].
  { rewrite signature_hash_eq by done. case_match; eauto. }
  rewrite Hh. cbn [mbind res_bind]. pose proof (fun key => signs_iff sig ht h key Hht Hh) as Hs.
  destruct (match_key sig h keys) as [rest|] eqn:Em.
  - destruct (IH rest) as (b & -> & Hb). exists b. split; [done|]. rewrite Hb. split.
    + intros (ks & Hsub & Hf). destruct (match_key_Some _ _ _ _ Em) as (k & Hk & Hkr). exists (k :: ks).
      split; [etransitivity; [by apply sublist_skip|done]|]. constructor; [by apply Hs|done].
    + intros (ks & Hsub & Hf). apply Forall2_cons_inv_l in Hf as (k & ks' & Hk & Hf & ->).
      exists ks'. split; [|done]. by eapply sublist_after_match.
  - exists false. split; [done|]. split; [done|]. intros (ks & Hsub & Hf).
    apply Forall2_cons_inv_l in Hf as (k & ks' & Hk & Hf & ->). apply Hs in Hk.
    rewrite (match_key_None _ _ _ Em k) in Hk; [done|]. eapply elem_of_sublist; [|exact Hsub]. left.
Qed.
End Multisig.

Section VerifySafe.
Context `{HS : Sha256} `{!Sha256Len HS} `{HD : Digests} `{!DigestsLen HD} `{K256}.

Lemma run_script_safe s st ctx :
  Forall item_ok st -> zlen st <= MAX_STACK_SIZE -> (input_idx ctx < length (vin (ctx_tx ctx)))%nat ->
  run_script (engine_with_stack_and_sig_context s st ctx) <> Panic /\
  forall st', run_script (engine_with_stack_and_sig_context s st ctx) = Ok st' -> Forall item_ok st' /\ zlen st' <= MAX_STACK_SIZE.
Proof.
  intros Hf Hl Hidx. pose proof (execute_safe s (Some ctx) Hidx _ (initial_loop_inv s st ctx Hf Hl) eq_refl) as Hw.
  unfold wp, run_script in *. destruct (execute _) as [[st' e']| |]; cbn [mbind res_bind]; [|done|done].
  split; [done|]. by intros ? [= <-].
Qed.

Lemma require_truthy_no_panic st : require_truthy_top st <> Panic.
Proof. unfold require_truthy_top. by repeat case_match. Qed.
End VerifySafe.

Lemma verify_script_no_panic `{HS : Sha256} `{!Sha256Len HS} `{HD : Digests} `{!DigestsLen HD} `{K256}
    (script_sig script_pubkey : list byte) (tx : Transaction) (idx : nat) :
  (idx < length (vin tx))%nat -> verify_script script_sig script_pubkey tx idx <> Panic.
Proof.
  intros Hidx. unfold verify_script.
  destruct (run_script_safe script_sig [] (mkCtx tx idx)) as [Hn1 Hok1]; [done|done|done|].
  change (engine_with_sig_context script_sig (mkCtx tx idx)) with (engine_with_stack_and_sig_context script_sig [] (mkCtx tx idx)).
  destruct (run_script (engine_with_stack_and_sig_context script_sig [] _)) as [st| |]; cbn [mbind res_bind]; [|done|done].
  destruct (Hok1 st eq_refl) as [Hf1 Hl1].
  destruct (run_script_safe script_pubkey st (mkCtx tx idx) Hf1 Hl1 Hidx) as [Hn2 Hok2].
  destruct (run_script (engine_with_stack_and_sig_context script_pubkey st _)) as [st2| |]; cbn [mbind res_bind]; [|done|done].
  pose proof (require_truthy_no_panic st2). destruct (require_truthy_top st2); cbn [mbind res_bind]; [|done|done].
  destruct (is_p2sh script_pubkey); [|done]. destruct (negb _); [done|].
  destruct (vec_pop st) as [[redeem rest]|] eqn:Ep; cbn [ok_or mbind res_bind]; [|done].
  apply vec_pop_inv in Ep. rewrite Ep, Forall_app in Hf1. rewrite Ep, zlen_app in Hl1. pose proof (zlen_nonneg [redeem]).
  destruct (run_script_safe redeem rest (mkCtx tx idx)) as [Hn3 Hok3]; [naive_solver|lia|done|].
  destruct (run_script (engine_with_stack_and_sig_context redeem rest _)) as [st3| |]; cbn [mbind res_bind]; [|done|done].
  apply require_truthy_no_panic.
Qed.

(** ** Properties *)

(** verifying an input never panics: whatever the two scripts, the three runs
    of the engine end with a verdict or an error. *)
Theorem verify_script_total `{HS : Sha256} `{!Sha256Len HS} `{HD : Digests} `{!DigestsLen HD} `{K256}
    (script_sig script_pubkey : list byte) (tx : Transaction) (idx : nat) :
  (idx < length (vin tx))%nat -> verify_script script_sig script_pubkey tx idx <> Panic.
Proof. apply verify_script_no_panic. Qed.

Lemma verify_script_total_witness :
  @verify_script toy_sha256 toy_digests toy_k256 [x51] [x52; x93; x53; x87] sample_tx 0 <> Panic.
Proof. apply (@verify_script_total toy_sha256 _ toy_digests _ toy_k256). cbn. lia. Defined.

(** C11: spending a pay-to-public-key-hash output with a pushed signature and a
    pushed key (of 25 to 75 and of 1 to 75 bytes, so that a one-byte push is used) succeeds
    exactly when the key hashes to the one in the output and
    the signature verifies for the transaction, the input and the output script;
    otherwise it fails with the error of the check that failed. *)
Theorem p2pkh_exact `{Sha256} `{Digests} `{K256} (sig pk h : list byte) (tx : Transaction) (idx : nat) (ht : byte) (sh : Hash256) :
  25 <= zlen sig <= 75 -> 1 <= zlen pk <= 75 -> length h = 20%nat -> last sig = Some ht ->
  @signature_hash _ ScriptError tx idx (p2pkh_script h) ht = Ok sh ->
  verify_script (push_of sig ++ push_of pk) (p2pkh_script h) tx idx =
    if bool_decide (ripemd160 (sha256 pk) = h) then
      if verify_ecdsa sig pk sh then Ok tt else Err FalseReturned
    else Err EqualVerifyFailed.
Proof.
  intros Hsig Hpk Hh Hht Hsh. unfold verify_script.
  change (engine_with_sig_context (push_of sig ++ push_of pk) (mkCtx tx idx)) with (at_ [] (push_of sig ++ push_of pk) 0 0 (mkCtx tx idx)).
  rewrite run_two_pushes by lia. cbn [mbind res_bind].
  change (engine_with_stack_and_sig_context (p2pkh_script h) [sig; pk] (mkCtx tx idx)) with (at_ [sig; pk] (p2pkh_script h) 0 0 (mkCtx tx idx)).
  pose proof (zlen_p2pkh h Hh) as Hlen.
  rewrite (run_p2pkh sig pk h (mkCtx tx idx) ht sh Hh Hht).
  2: { cbn [ctx_tx input_idx]. rewrite find_and_delete_short; [done|]. unfold zlen in *. lia. }
  destruct (bool_decide _); [|done]. cbn [mbind res_bind].
  assert (is_p2sh (p2pkh_script h) = false) as -> by (unfold is_p2sh; by rewrite Hlen).
  by destruct (verify_ecdsa sig pk sh).
Qed.

(** a signature for the stand-in curve: its first integer is the key *)
Definition toy_key : list byte := replicate 2 x07.
Definition toy_sig : list byte :=
  x30 :: x26 :: x02 :: x02 :: x07 :: x07 :: x02 :: x20 :: replicate 32 x01 ++ [x01].
Definition toy_pubkey : list byte := replicate 30 x00 ++ toy_key.
Definition toy_hash160 : list byte := @ripemd160 toy_digests (toy_sha256 toy_pubkey).

Lemma p2pkh_exact_witness :
  @verify_script toy_sha256 toy_digests toy_k256 (push_of toy_sig ++ push_of toy_pubkey) (p2pkh_script toy_hash160) sample_tx 1 = Ok tt.
Proof.
  assert (exists sh, @signature_hash toy_sha256 ScriptError sample_tx 1 (p2pkh_script toy_hash160) x01 = Ok sh) as [sh Hsh]
    by (eexists; vm_compute; reflexivity).
  rewrite (@p2pkh_exact toy_sha256 toy_digests toy_k256 toy_sig toy_pubkey toy_hash160 sample_tx 1 x01 sh).
  - rewrite bool_decide_true by reflexivity. reflexivity.
  - split; vm_compute; intros Hc; discriminate Hc.
  - split; vm_compute; intros Hc; discriminate Hc.
  - vm_compute. reflexivity.
  - reflexivity.
  - exact Hsh.
Defined.

(** C22: a pay-to-script-hash output is spent only with its redeem script: a
    successful verification means that the scriptSig is push-only, the last
    element it leaves hashes to the value in the output, and that element, run as
    a script on the remaining elements, ends with a truthy top. *)
Theorem p2sh_binds `{HS : Sha256} `{!Sha256Len HS} `{HD : Digests} `{!DigestsLen HD} `{K256}
    (script_sig script_pubkey : list byte) (tx : Transaction) (idx : nat) :
  (idx < length (vin tx))%nat -> is_p2sh script_pubkey = true -> verify_script script_sig script_pubkey tx idx = Ok tt ->
  exists h st redeem r, script_pubkey = [xa9] ++ push_of h ++ [x87] /\ is_push_only script_sig = true /\
    run_script (engine_with_sig_context script_sig (mkCtx tx idx)) = Ok (st ++ [redeem]) /\
    ripemd160 (sha256 redeem) = h /\
    run_script (engine_with_stack_and_sig_context redeem st (mkCtx tx idx)) = Ok r /\ require_truthy_top r = Ok tt.
Proof.
  intros Hidx Hp2sh Hv. unfold verify_script in Hv. rewrite Hp2sh in Hv.
  apply res_bind_Ok in Hv as (st & Hst & Hv). apply res_bind_Ok in Hv as (fin & Hfin & Hv).
  apply res_bind_Ok in Hv as ([] & Htop & Hv). destruct (is_push_only script_sig) eqn:Hpush; [|done]. cbn [negb] in Hv.
  apply res_bind_Ok in Hv as ([redeem rest] & Hpop%ok_or_Ok%vec_pop_inv & Hv). apply res_bind_Ok in Hv as (r & Hr & Hv).
  destruct (is_p2sh_shape _ Hp2sh) as (h & Hh & ->). subst st.
  destruct (run_script_safe script_sig [] (mkCtx tx idx)) as [_ Hok]; [done|done|done|].
  destruct (Hok _ Hst) as [_ Hlen]. rewrite zlen_app in Hlen. pose proof (@zlen_nonneg item [redeem]). unfold MAX_STACK_SIZE in Hlen.
  apply run_p2sh in Hfin as ->; [|done|lia]. exists h, rest, redeem, r. do 3 (split; [done|]). split; [|done].
  unfold require_truthy_top in Htop. rewrite last_snoc in Htop. by destruct (bool_decide_reflect (ripemd160 (sha256 redeem) = h)).
Qed.

Definition toy_redeem : list byte := [x51].
Definition toy_p2sh : list byte := [xa9] ++ push_of (@ripemd160 toy_digests (toy_sha256 toy_redeem)) ++ [x87].

Lemma p2sh_binds_witness :
  exists h st redeem r, toy_p2sh = [xa9] ++ push_of h ++ [x87] /\ @ripemd160 toy_digests (@sha256 toy_sha256 redeem) = h /\
    @run_script toy_sha256 toy_digests toy_k256 (engine_with_stack_and_sig_context redeem st (mkCtx sample_tx 0)) = Ok r.
Proof.
  destruct (@p2sh_binds toy_sha256 _ toy_digests _ toy_k256 (push_of toy_redeem) toy_p2sh sample_tx 0)
    as (h & st & redeem & r & E1 & _ & _ & E2 & E3 & _).
  - cbn. lia.
  - vm_compute. reflexivity.
  - vm_compute. reflexivity.
  - exists h, st, redeem, r. exact (conj E1 (conj E2 E3)).
Defined.

(** C32: the signature matching of OP_CHECKMULTISIG is exact: it always ends with a
    verdict, and the verdict is true exactly when the signatures are by distinct
    keys of the list taken in order (the greedy choice of the first matching key
    loses no solution). *)
Theorem multisig_exact `{Sha256} `{K256} (tx : Transaction) (idx : nat) (code : list byte) (sigs keys : list item) :
  (idx < length (vin tx))%nat ->
  exists b : bool, match_sigs (mkCtx tx idx) code sigs keys = Ok b /\
    (b = true <-> signed_in_order (mkCtx tx idx) code sigs keys).
Proof. intros Hidx. by apply match_sigs_spec. Qed.

Lemma multisig_exact_witness :
  signed_in_order (H := toy_sha256) (H0 := toy_k256) (mkCtx sample_tx 0) [x51] [toy_sig] [[x02]; toy_pubkey; [x03]].
Proof.
  destruct (@multisig_exact toy_sha256 toy_k256 sample_tx 0 [x51] [toy_sig] [[x02]; toy_pubkey; [x03]]) as (b & E & Hb).
  - cbn. lia.
  - apply Hb. vm_compute in E. injection E as <-. reflexivity.
Defined.
