(* ===== verification/Database.v ===== *)
(** * Database: the interface of the embedded key-value store

    The node keeps its tables in the [redb] crate.  The development does not
    model that crate: [Table] lists the operations the sources call on an open
    table and [TableLaws] what its documentation promises of them (a read sees
    the last write to its key, and an iteration visits exactly the entries).
    The operations are total: an input/output error of the store, which the
    sources pass on before any commit, is outside the model.  A write
    transaction is a sequence of operations on a copy of the tables that
    replaces them on commit; an error before the commit drops the copy.

    Two tables with the same entries are equivalent ([≡]) without being equal;
    the operations respect that equivalence. *)
From Stdlib Require Import Strings.Byte.
From stdpp Require Import base numbers list strings gmap.
From S2P Require Import Prelude.

Class Table (K V T : Type) : Type := {
  t_get : T -> K -> option V;
  t_insert : T -> K -> V -> T;
  t_remove : T -> K -> T;
  t_empty : T;
  t_entries : T -> list (K * V);
}.

Class TableLaws (K V T : Type) `{EqDecision K} (HT : Table K V T) : Prop := {
  get_insert t k v k' : t_get (t_insert t k v) k' = if decide (k = k') then Some v else t_get t k';
  get_remove t k k' : t_get (t_remove t k) k' = if decide (k = k') then None else t_get t k';
  get_empty k : t_get t_empty k = None;
  elem_entries t k v : (k, v) ∈ t_entries t <-> t_get t k = Some v;
}.

Section Tables.
Context {K V T : Type} `{EqDecision K} {HT : Table K V T} `{!TableLaws K V T HT}.
Implicit Types (t : T) (k : K) (v : V).

#[global] Instance table_equiv : Equiv T := fun t u => forall k, t_get t k = t_get u k.

#[global] Instance table_equivalence : Equivalence (≡@{T}).
Proof.
  split; [done| |].
  - intros t u Htu k. by rewrite Htu.
  - intros t u w Htu Huw k. by rewrite Htu.
Qed.

#[global] Instance t_get_proper : Proper ((≡@{T}) ==> (=) ==> (=)) t_get.
Proof. intros t u Htu k ? <-. apply Htu. Qed.
#[global] Instance t_insert_proper : Proper ((≡@{T}) ==> (=) ==> (=) ==> (≡@{T})) t_insert.
Proof. intros t u Htu k ? <- v ? <- k'. by rewrite !get_insert, Htu. Qed.
#[global] Instance t_remove_proper : Proper ((≡@{T}) ==> (=) ==> (≡@{T})) t_remove.
Proof. intros t u Htu k ? <- k'. by rewrite !get_remove, Htu. Qed.

Lemma get_insert_eq t k v : t_get (t_insert t k v) k = Some v.
Proof. by rewrite get_insert, decide_True. Qed.
Lemma get_insert_ne t k v k' : k <> k' -> t_get (t_insert t k v) k' = t_get t k'.
Proof. intros. by rewrite get_insert, decide_False. Qed.

(** writing back what was removed *)
Lemma insert_remove t k v : t_get t k = Some v -> t_insert (t_remove t k) k v ≡ t.
Proof. intros Hk k'. rewrite get_insert, get_remove. destruct (decide (k = k')) as [<-|]; done. Qed.
End Tables.

(** ** The store as a finite map, for evaluation *)
#[global] Instance gmap_table {K V} `{Countable K} : Table K V (gmap K V) := {|
  t_get m k := m !! k;
  t_insert m k v := <[k := v]> m;
  t_remove m k := delete k m;
  t_empty := ∅;
  t_entries m := map_to_list m;
|}.

#[global] Instance gmap_laws {K V} `{Countable K} : TableLaws K V (gmap K V) gmap_table.
Proof.
  split; cbn.
  - intros m k v k'. destruct (decide (k = k')) as [<-|Hne]; [apply lookup_insert_eq|by apply lookup_insert_ne].
  - intros m k k'. destruct (decide (k = k')) as [<-|Hne]; [apply lookup_delete_eq|by apply lookup_delete_ne].
  - intros k. apply lookup_empty.
  - intros m k v. apply elem_of_map_to_list.
Qed.
