(* ===== verification/Coin.v ===== *)
(** * Coin: unspent outputs and undo records

    Models src/src/chainstate/coin.rs and src/src/chainstate/undo.rs: the coin
    stored for an unspent output, the coins a transaction and a block spent, and
    their storage formats.  The undo formats nest length-prefixed records; a
    record is decoded from its own slice, so what it leaves unread is skipped. *)
From Stdlib Require Import Strings.Byte.
From stdpp Require Import base numbers list strings.
From S2P Require Import Prelude Codec Types.

Record Coin := mkCoin { tx_out : TxOut; coin_height : Z; coin_is_coinbase : bool }.

#[global] Instance Coin_eq_dec : EqDecision Coin.
Proof. solve_decision. Defined.

Record TxUndo := mkTxUndo { spent_outputs : list Coin }.
Record BlockUndo := mkBlockUndo { tx_undos : list TxUndo }.

(** ** Coins (coin.rs) *)

Definition coin_to_bytes (c : Coin) : list byte :=
  le_bytes 4 (coin_height c) ++
  [if coin_is_coinbase c then x01 else x00] ++
  le_bytes 8 (value (tx_out c)) ++
  le_bytes 4 (zlen (script_pubkey (tx_out c))) ++
  script_pubkey (tx_out c).

Definition coin_from_cursor : reader Coin :=
  height ← rcontext "failed to read coin height" read_u32;
  flag ← rcontext "failed to read coin is_coinbase flag" (read_exact 1);
  let is_coinbase := negb (bool_decide (flag = [x00])) in
  value ← rcontext "failed to read coin value" read_i64;
  script_len ← rcontext "failed to read coin script length" read_u32;
  script_pubkey ← rcontext "failed to read coin script bytes" (read_exact (Z.to_nat script_len));
  mret (mkCoin (mkTxOut value script_pubkey) height is_coinbase).

Definition coin_from_bytes (data : list byte) : result Coin := run_reader coin_from_cursor data.

(** ** Undo records (undo.rs) *)

(** [len(4 LE) | bytes] *)
Definition framed (bytes : list byte) : list byte := le_bytes 4 (zlen bytes) ++ bytes.

(** the [?] of a decoder that does not use the cursor *)
Definition of_result {A} (r : result A) : reader A := fun s => a ← r; Ok (a, s).

(** the slice [inner[pos..end]] after its length was read *)
Definition read_slice (past_end : string) (len : Z) : reader (list byte) := fun s =>
  if zlen s <? len then Err past_end else Ok (take (Z.to_nat len) s, drop (Z.to_nat len) s).

Definition tx_undo_to_bytes (u : TxUndo) : list byte :=
  le_bytes 4 (zlen (spent_outputs u)) ++ concat (map (fun c => framed (coin_to_bytes c)) (spent_outputs u)).

Definition undo_coin_from_cursor : reader Coin :=
  coin_len ← rcontext "failed to read tx undo coin length" read_u32;
  coin_data ← read_slice "tx undo coin data extends past end of buffer" coin_len;
  of_result (context "failed to decode coin in tx undo" (coin_from_bytes coin_data)).

Definition tx_undo_from_cursor : reader TxUndo :=
  count ← rcontext "failed to read tx undo coin count" read_u32;
  spent ← read_many (Z.to_nat count) undo_coin_from_cursor;
  mret (mkTxUndo spent).

Definition tx_undo_from_bytes (data : list byte) : result TxUndo := run_reader tx_undo_from_cursor data.

Definition block_undo_to_bytes (u : BlockUndo) : list byte :=
  le_bytes 4 (zlen (tx_undos u)) ++ concat (map (fun t => framed (tx_undo_to_bytes t)) (tx_undos u)).

Definition undo_entry_from_cursor : reader TxUndo :=
  undo_len ← rcontext "failed to read block undo entry length" read_u32;
  undo_data ← read_slice "block undo entry extends past end of buffer" undo_len;
  of_result (context "failed to decode tx undo in block undo" (tx_undo_from_bytes undo_data)).

Definition block_undo_from_bytes (data : list byte) : result BlockUndo :=
  run_reader
    (tx_count ← rcontext "failed to read block undo tx count" read_u32;
     undos ← read_many (Z.to_nat tx_count) undo_entry_from_cursor;
     mret (mkBlockUndo undos)) data.

(** ** Well-formedness *)

Definition coin_ok (c : Coin) : Prop := U 32 (coin_height c) /\ txout_ok (tx_out c).

Definition tx_undo_ok (u : TxUndo) : Prop :=
  Forall coin_ok (spent_outputs u) /\ U 32 (zlen (tx_undo_to_bytes u)).

Definition block_undo_ok (u : BlockUndo) : Prop :=
  Forall tx_undo_ok (tx_undos u) /\ U 32 (zlen (block_undo_to_bytes u)).

Definition coin_codec : codec Coin := Codec_ coin_to_bytes coin_from_cursor coin_ok.
Definition undo_coin_codec : codec Coin :=
  Codec_ (fun c => framed (coin_to_bytes c)) undo_coin_from_cursor coin_ok.
Definition tx_undo_codec : codec TxUndo := Codec_ tx_undo_to_bytes tx_undo_from_cursor tx_undo_ok.
Definition undo_entry_codec : codec TxUndo :=
  Codec_ (fun u => framed (tx_undo_to_bytes u)) undo_entry_from_cursor tx_undo_ok.

(** ** Round trips *)

#[local] Arguments le_bytes : simpl never.

Lemma zlen_coin_to_bytes c : zlen (coin_to_bytes c) = 17 + zlen (script_pubkey (tx_out c)).
Proof. unfold coin_to_bytes, zlen. rewrite !length_app, !length_le_bytes. cbn [length]. lia. Qed.

Lemma zlen_framed l : zlen (framed l) = 4 + zlen l.
Proof. unfold framed, zlen. rewrite length_app, length_le_bytes. lia. Qed.

#[global] Instance coin_decodes : Decodes coin_codec.
Proof.
  intros [[v scr] h cb] s (Hh & Hv & Hscr). cbn in *. unfold coin_to_bytes, coin_from_cursor. cbn [tx_out coin_height value script_pubkey coin_is_coinbase].
  rewrite <- !app_assoc. field_step (le_codec 4); [exact Hh|].
  field_step (raw_codec 1); [done|]. field_step (le_signed_codec 8); [split; [lia|exact Hv]|].
  field_step (le_codec 4); [pose proof (zlen_nonneg scr); unfold MAX_SCRIPT_SIZE in *; cbn; range|].
  field_step (raw_codec (Z.to_nat (zlen scr))); [cbn; by rewrite to_nat_zlen|]. by destruct cb.
Qed.

Lemma coin_from_to c : coin_ok c -> coin_from_bytes (coin_to_bytes c) = Ok c.
Proof. intros Hc. rewrite <- (app_nil_r (coin_to_bytes c)). by apply (run_decode coin_codec). Qed.

Lemma read_slice_app msg l s : read_slice msg (zlen l) (l ++ s) = Ok (l, s).
Proof.
  unfold read_slice. rewrite zlen_app, (proj2 (Z.ltb_ge _ _)) by (pose proof (zlen_nonneg s); lia).
  by rewrite to_nat_zlen, take_app_length, drop_app_length.
Qed.

(** a record framed by its length is read back by a reader that decodes the slice *)
Lemma framed_decodes {A} msg1 msg2 msg3 (from : list byte -> result A) l (a : A) s :
  U 32 (zlen l) -> from l = Ok a ->
  (n ← rcontext msg1 read_u32; d ← read_slice msg2 n; of_result (context msg3 (from d)) : reader A)
    (framed l ++ s) = Ok (a, s).
Proof.
  intros Hl Ha. unfold framed. rewrite <- app_assoc. field_step (le_codec 4); [exact Hl|].
  rewrite (reader_bind_eq _ _ _ _ _ (read_slice_app msg2 l s)). unfold of_result. by rewrite Ha.
Qed.

#[global] Instance undo_coin_decodes : Decodes undo_coin_codec.
Proof.
  intros c s Hc. cbn. apply framed_decodes; [|by apply coin_from_to].
  rewrite zlen_coin_to_bytes. destruct Hc as (_ & _ & Hs). pose proof (zlen_nonneg (script_pubkey (tx_out c))).
  unfold MAX_SCRIPT_SIZE in Hs. range.
Qed.

(** the number of records is at most the number of bytes they take *)
Lemma zlen_records {A} (f : A -> list byte) l :
  (forall a, 4 <= zlen (f a)) -> 4 * zlen l <= zlen (concat (map f l)).
Proof.
  intros Hf. induction l as [|a l IH]; [done|]. cbn [map concat]. rewrite zlen_app, zlen_cons. specialize (Hf a). lia.
Qed.

Lemma U32_count {A} (f : A -> list byte) l :
  (forall a, 4 <= zlen (f a)) -> U 32 (zlen (le_bytes 4 (zlen l) ++ concat (map f l))) -> U 32 (zlen l).
Proof.
  intros Hf Hu. pose proof (zlen_records f l Hf). pose proof (zlen_nonneg l). rewrite zlen_app in Hu.
  pose proof (zlen_nonneg (le_bytes 4 (zlen l))). range.
Qed.

Lemma framed_ge l : 4 <= zlen (framed l).
Proof. rewrite zlen_framed. pose proof (zlen_nonneg l). lia. Qed.

#[global] Instance tx_undo_decodes : Decodes tx_undo_codec.
Proof.
  intros [cs] s [Hc Hl]. cbn in *. unfold tx_undo_to_bytes, tx_undo_from_cursor. cbn [spent_outputs].
  rewrite <- app_assoc. field_step (le_codec 4).
  - eapply (U32_count (fun c => framed (coin_to_bytes c))); [intros; apply framed_ge|exact Hl].
  - rewrite to_nat_zlen. read_step (many_codec (length cs) undo_coin_codec); [by split|]. done.
Qed.

#[global] Instance undo_entry_decodes : Decodes undo_entry_codec.
Proof.
  intros u s Hu. cbn. apply framed_decodes; [apply Hu|]. rewrite <- (app_nil_r (tx_undo_to_bytes u)). by apply (run_decode tx_undo_codec).
Qed.

Lemma block_undo_from_to u : block_undo_ok u -> block_undo_from_bytes (block_undo_to_bytes u) = Ok u.
Proof.
  destruct u as [us]. intros [Hu Hl]. unfold block_undo_from_bytes, block_undo_to_bytes in *. cbn [tx_undos] in *.
  apply run_reader_Ok. exists []. rewrite <- (app_nil_r (concat _)). field_step (le_codec 4).
  - eapply (U32_count (fun c => framed (tx_undo_to_bytes c))); [intros; apply framed_ge|exact Hl].
  - rewrite to_nat_zlen. read_step (many_codec (length us) undo_entry_codec); [by split|]. done.
Qed.
