(* ===== verification/UndoStore.v ===== *)
(** * UndoStore: undo records in append-only files

    Models src/src/chainstate/undo_store.rs.  The directory of [revNNNNN.dat]
    files is a finite map from file numbers to contents; the open handle is in
    append mode, so a write goes to the end of the current file whatever the
    recorded offset says.  The index from block hashes to locations is a table
    of the database. *)
From Stdlib Require Import Strings.Byte.
From stdpp Require Import base numbers list strings gmap.
From S2P Require Import Prelude Codec Types Database Coin.

Definition UNDO_MAGIC : list byte := [xfc; xc1; xb7; xdc].
Definition DEFAULT_MAX_FILE_SIZE : Z := 256 * 1024 * 1024.
Definition ENTRY_PREFIX_SIZE : Z := 8.

(** [u64::saturating_add] *)
Definition u64_sat_add (a b : Z) : Z := Z.min u64_max (a + b).

Record UndoLocation := mkLoc { loc_hash : list byte; loc_file : Z; loc_offset : Z; loc_size : Z }.

Record UndoStore := mkUndoStore {
  files : gmap Z (list byte);
  max_file_size : Z;
  file_number : Z;
  offset : Z;
}.

(** the bytes of a file, none if it does not exist *)
Definition contents (fs : gmap Z (list byte)) (n : Z) : list byte := default [] (fs !! n).

(** [OpenOptions::new().append(true).create(true).open(path)] *)
Definition open_append (fs : gmap Z (list byte)) (n : Z) : gmap Z (list byte) := <[n := contents fs n]> fs.

Definition append (fs : gmap Z (list byte)) (n : Z) (bytes : list byte) : gmap Z (list byte) :=
  <[n := contents fs n ++ bytes]> fs.

Definition rotate (us : UndoStore) : result UndoStore :=
  next ← ok_or "undo file number overflow" (if inU 16 (file_number us + 1) then Some (file_number us + 1) else None);
  Ok (mkUndoStore (open_append (files us) next) (max_file_size us) next 0).

Definition store_undo_to_file (us : UndoStore) (block_hash : Hash256) (undo : BlockUndo) : result (UndoLocation * UndoStore) :=
  let raw_bytes := block_undo_to_bytes undo in
  let entry_size := u64_sat_add ENTRY_PREFIX_SIZE (zlen raw_bytes) in
  us ← (if (offset us >? 0) && (u64_sat_add (offset us) entry_size >? max_file_size us) then rotate us else Ok us);
  let entry_offset := offset us mod 2 ^ 32 in
  let entry_size_u32 := zlen raw_bytes mod 2 ^ 32 in
  let fs := append (files us) (file_number us) UNDO_MAGIC in
  let fs := append fs (file_number us) (le_bytes 4 entry_size_u32) in
  let fs := append fs (file_number us) raw_bytes in
  Ok (mkLoc (as_bytes block_hash) (file_number us) entry_offset entry_size_u32,
      mkUndoStore fs (max_file_size us) (file_number us) (u64_sat_add (offset us) entry_size)).

Section Index.
Context {IT : Type} {HI : Table (list byte) (Z * Z * Z) IT}.
Implicit Types (index : IT).

Definition load_undo (us : UndoStore) index (block_hash : Hash256) : result BlockUndo :=
  '(file_number, entry_offset, size) ← ok_or "no undo data found for block" (t_get index (as_bytes block_hash));
  file ← ok_or "failed to open undo file" (files us !! file_number);
  let data_offset := entry_offset + ENTRY_PREFIX_SIZE in
  '(buf, _) ← context "failed to read undo data from flat file"
                (read_exact (Z.to_nat size) (drop (Z.to_nat data_offset) file));
  context "failed to deserialize undo data" (block_undo_from_bytes buf).

(** the smallest size each file must have for the entries of the index *)
Definition expected_sizes (entries : list (list byte * (Z * Z * Z))) : gmap Z Z :=
  foldl (fun sizes entry =>
    let '(_, (fnum, off, size)) := entry in
    let last := u64_sat_add (u64_sat_add off ENTRY_PREFIX_SIZE) size in
    let current := default 0 (sizes !! fnum) in
    <[fnum := if last >? current then last else current]> sizes) ∅ entries.

Definition verify_or_clear_index (fs : gmap Z (list byte)) index : IT * Z :=
  let sizes := map_to_list (expected_sizes (t_entries index)) in
  if (zlen sizes =? 0) then (index, 0) else
  if existsb (fun '(fnum, expected) => zlen (contents fs fnum) <? expected) sizes then (t_empty, 0) else
  (index, foldr Z.max 0 sizes.*1).

Definition open_with_max_file_size (fs : gmap Z (list byte)) index (max_size : Z) : result (UndoStore * IT) :=
  if max_size >? u32_max then Err "max_file_size exceeds u32::MAX" else
  let '(index, file_number) := verify_or_clear_index fs index in
  let fs := open_append fs file_number in
  Ok (mkUndoStore fs max_size file_number (zlen (contents fs file_number)), index).
End Index.

#[local] Arguments le_bytes : simpl never.

(** ** Consistency of a store *)

(** the current file ends at the recorded offset and no later file has data *)
Record store_ok (us : UndoStore) : Prop := {
  so_number : U 16 (file_number us);
  so_max : U 32 (max_file_size us);
  so_offset : zlen (contents (files us) (file_number us)) = offset us;
  so_current : is_Some (files us !! file_number us);
  so_later n : file_number us < n -> contents (files us) n = [];
  so_small : offset us < 2 ^ 34;
}.

(** an undo record lies at a location *)
Definition recorded (fs : gmap Z (list byte)) (loc : Z * Z * Z) (undo : BlockUndo) : Prop :=
  let '(f, o, n) := loc in
  exists pre post, fs !! f = Some (pre ++ block_undo_to_bytes undo ++ post) /\
    zlen pre = o + ENTRY_PREFIX_SIZE /\ 0 <= o /\ n = zlen (block_undo_to_bytes undo) /\ block_undo_ok undo.

(** every entry of the index leads to a record *)
Definition index_ok {IT} {HI : Table (list byte) (Z * Z * Z) IT} (us : UndoStore) (index : IT) : Prop :=
  forall h loc, t_get index h = Some loc -> exists undo, recorded (files us) loc undo.

Lemma contents_append fs n l m : contents (append fs n l) m = if decide (n = m) then contents fs n ++ l else contents fs m.
Proof.
  unfold append, contents. rewrite lookup_insert. by destruct (decide (n = m)).
Qed.

Lemma contents_open fs n m : contents (open_append fs n) m = contents fs m.
Proof. unfold open_append, contents. rewrite lookup_insert. destruct (decide (n = m)) as [<-|]; done. Qed.

Lemma append_3 fs n a b c : append (append (append fs n a) n b) n c = append fs n (a ++ b ++ c).
Proof.
  unfold append, contents. rewrite !lookup_insert_eq. cbn. rewrite !insert_insert_eq. by rewrite <- !app_assoc.
Qed.

(** appending keeps every record *)
Lemma recorded_append fs n l loc undo : recorded fs loc undo -> recorded (append fs n l) loc undo.
Proof.
  destruct loc as [[f o] k]. intros (pre & post & Hf & Hrest). unfold recorded, append.
  destruct (decide (n = f)) as [<-|Hne].
  - exists pre, (post ++ l). split; [|done]. unfold contents. rewrite lookup_insert_eq, Hf. cbn [from_option id]. by rewrite <- !app_assoc.
  - exists pre, post. by rewrite lookup_insert_ne.
Qed.

Lemma recorded_open fs n loc undo : recorded fs loc undo -> recorded (open_append fs n) loc undo.
Proof.
  destruct loc as [[f o] k]. intros (pre & post & Hf & Hrest). exists pre, post. split; [|done].
  unfold open_append. destruct (decide (n = f)) as [<-|Hne]; [|by rewrite lookup_insert_ne].
  unfold contents. by rewrite lookup_insert_eq, Hf.
Qed.

Lemma read_exact_app n l s : n = length l -> read_exact n (l ++ s) = Ok (l, s).
Proof. intros ->. by apply (decode_encode (c := raw_codec (length l))). Qed.

Lemma rotate_cases us : store_ok us ->
  match rotate us with
  | Ok us1 => store_ok us1 /\ offset us1 = 0 /\ max_file_size us1 = max_file_size us /\ file_number us1 = file_number us + 1 /\
      forall loc undo, recorded (files us) loc undo -> recorded (files us1) loc undo
  | Err _ => file_number us = 2 ^ 16 - 1
  | Panic => False
  end.
Proof.
  intros [Hn Hm Ho Hc Hl Hs]. unfold rotate. destruct (inU 16 (file_number us + 1)) eqn:E; cbn [ok_or mbind res_bind].
  - apply inU_spec in E. cbn. split; [|do 3 (split; [done|]); intros; by apply recorded_open]. split; cbn; try done.
    + by rewrite contents_open, Hl by lia.
    + unfold open_append. rewrite lookup_insert_eq. by eexists.
    + intros n Hlt'. rewrite contents_open. apply Hl. lia.
  - rewrite <- Bool.not_true_iff_false, inU_spec in E. unfold U in *. lia.
Qed.

(** a write keeps the store consistent; it is refused only when the last file is full *)
Lemma store_undo_cases us h undo : store_ok us -> block_undo_ok undo ->
  match store_undo_to_file us h undo with
  | Ok (loc, us') => store_ok us' /\ loc_hash loc = as_bytes h /\
      recorded (files us') (loc_file loc, loc_offset loc, loc_size loc) undo /\
      file_number us <= file_number us' <= file_number us + 1 /\
      forall l u, recorded (files us) l u -> recorded (files us') l u
  | Err _ => file_number us = 2 ^ 16 - 1 /\ 0 < offset us /\ max_file_size us < offset us + ENTRY_PREFIX_SIZE + zlen (block_undo_to_bytes undo)
  | Panic => False
  end.
Proof.
  intros Hok Hu. unfold store_undo_to_file.
  set (raw := block_undo_to_bytes undo). assert (U 32 (zlen raw)) as Hraw by apply Hu.
  set (entry := u64_sat_add ENTRY_PREFIX_SIZE (zlen raw)).
  assert (entry = 8 + zlen raw) as Hentry by (unfold entry, u64_sat_add, ENTRY_PREFIX_SIZE; range).
  pose proof (so_small _ Hok) as Hsm. pose proof (so_offset _ Hok) as Hof. pose proof (zlen_nonneg (contents (files us) (file_number us))) as Hnn0.
  destruct (if (offset us >? 0) && (u64_sat_add (offset us) entry >? max_file_size us) then rotate us else Ok us) as [us1|e|] eqn:E0; cbn [mbind res_bind].
  2: { destruct (_ && _) eqn:E in E0; [|done]. pose proof (rotate_cases us Hok) as Hr. rewrite E0 in Hr. split; [done|].
       apply andb_true_iff in E as [E1 E2]. unfold u64_sat_add, u64_max, ENTRY_PREFIX_SIZE in *. bool_prop. range. }
  2: { destruct (_ && _) in E0; [|done]. pose proof (rotate_cases us Hok) as Hr. by rewrite E0 in Hr. }
  assert (store_ok us1 /\ offset us1 < 2 ^ 32 /\ file_number us <= file_number us1 <= file_number us + 1 /\
    forall loc u, recorded (files us) loc u -> recorded (files us1) loc u) as (Hok1 & Hoff & Hfn & Hkeep).
  { destruct (_ && _) eqn:E in E0.
    - pose proof (rotate_cases us Hok) as Hr. rewrite E0 in Hr. destruct Hr as (Hok1 & H0 & _ & Hfn & Hk). rewrite H0, Hfn. split; [done|]. split; [lia|]. split; [lia|done].
    - injection E0 as <-. split; [done|]. split; [|split; [lia|done]]. destruct Hok as [_ Hm Ho _ _ Hs].
      apply andb_false_iff in E. unfold u64_sat_add, u64_max in E. bool_prop. destruct E as [E|E]; bool_prop; range. }
  rewrite append_3. destruct Hok1 as [Hn Hm Ho Hc Hl Hs].
  pose proof (zlen_nonneg (contents (files us1) (file_number us1))) as Hnn.
  rewrite !(Z.mod_small _ (2 ^ 32)) by (unfold U in *; lia). cbn [files max_file_size file_number offset loc_hash loc_file loc_offset loc_size].
  split; [|split; [done|split; [|split; [done|intros; by apply recorded_append, Hkeep]]]].
  - assert (zlen (UNDO_MAGIC ++ le_bytes 4 (zlen raw) ++ raw) = entry) as Hz.
    { rewrite !zlen_app. change (zlen UNDO_MAGIC) with 4. unfold zlen at 1. rewrite length_le_bytes. lia. }
    assert (u64_sat_add (offset us1) entry = offset us1 + entry) as Hsat by (unfold u64_sat_add; range).
    split; cbn [files max_file_size file_number offset]; try done.
    + rewrite contents_append, decide_True, zlen_app, Ho, Hz by done. by rewrite Hsat.
    + unfold append. rewrite lookup_insert_eq. by eexists.
    + intros n Hn'. rewrite contents_append, decide_False by lia. by apply Hl.
    + rewrite Hsat. range.
  - exists (contents (files us1) (file_number us1) ++ UNDO_MAGIC ++ le_bytes 4 (zlen raw)), [].
    unfold append. rewrite lookup_insert_eq, !app_nil_r. fold raw. rewrite <- !app_assoc. split; [done|].
    rewrite !zlen_app, Ho. change (zlen UNDO_MAGIC) with 4. unfold ENTRY_PREFIX_SIZE. unfold zlen at 1. rewrite length_le_bytes.
    split; [lia|]. split; [lia|]. done.
Qed.

(** a store that has not used its last file number can always write *)
Lemma store_undo_ok us h undo :
  store_ok us -> file_number us < 2 ^ 16 - 1 -> block_undo_ok undo -> exists loc us', store_undo_to_file us h undo = Ok (loc, us').
Proof.
  intros Hok Hlt Hu. pose proof (store_undo_cases us h undo Hok Hu) as H. destruct (store_undo_to_file us h undo) as [[loc us']|e|]; [by exists loc, us'|lia|done].
Qed.

Section IndexLemmas.
Context {IT : Type} {HI : Table (list byte) (Z * Z * Z) IT} `{!TableLaws (list byte) (Z * Z * Z) IT HI}.
Implicit Types (index : IT).

Lemma load_recorded us index h loc undo :
  t_get index (as_bytes h) = Some loc -> recorded (files us) loc undo -> load_undo us index h = Ok undo.
Proof.
  destruct loc as [[f o] n]. intros Hget (pre & post & Hf & Hpre & Ho & -> & Hu). unfold load_undo.
  rewrite Hget. cbn [ok_or mbind res_bind]. rewrite Hf. cbn [ok_or mbind res_bind].
  rewrite (drop_app_exact pre) by (unfold zlen in Hpre; lia).
  rewrite read_exact_app by apply to_nat_zlen. cbn [context mbind res_bind]. by rewrite block_undo_from_to.
Qed.

(** opening a store whose files are as the index expects *)
Lemma open_fresh max_size :
  U 32 max_size -> exists us, open_with_max_file_size ∅ (t_empty : IT) max_size = Ok (us, t_empty) /\ store_ok us /\ files us = {[0 := []]}.
Proof.
  intros Hm. unfold open_with_max_file_size, verify_or_clear_index.
  assert (t_entries (t_empty : IT) = []) as ->.
  { destruct (t_entries t_empty) as [|[k v] l] eqn:E; [done|].
    assert (t_get (t_empty : IT) k = Some v) as Hk by (apply elem_entries; rewrite E; set_solver).
    by rewrite get_empty in Hk. }
  rewrite Z.gtb_ltb, (proj2 (Z.ltb_ge _ _)) by (unfold U, u32_max in *; lia). cbn. eexists. split; [done|].
  split; [|done]. split; cbn; try done. intros n Hn. unfold open_append, contents. by rewrite lookup_insert_ne by lia.
Qed.

(** opening gives a consistent store exactly when no file above the one it continues has
    data *)
Lemma open_consistent fs index max_size us index' :
  U 32 max_size -> zlen (contents fs (file_number us)) < 2 ^ 34 -> U 16 (file_number us) ->
  open_with_max_file_size fs index max_size = Ok (us, index') -> store_ok us <-> forall n, file_number us < n -> contents fs n = [].
Proof.
  intros Hm Hs Hn. unfold open_with_max_file_size. destruct (_ >? _); [done|]. destruct (verify_or_clear_index fs index) as [ix n0]. intros [= <- _]. cbn [file_number] in *. split.
  - intros Hok n Hlt. pose proof (so_later _ Hok n Hlt) as E. cbn in E. by rewrite contents_open in E.
  - intros Hl. split; cbn; rewrite ?contents_open; try done; [unfold open_append; rewrite lookup_insert_eq; by eexists|]. intros n Hlt. rewrite contents_open. by apply Hl.
Qed.
End IndexLemmas.

(** ** Properties *)

(** C33: the undo store returns what was stored.  In a consistent store (the current file
    ends at the recorded offset, and no file with a higher number has data) a
    write is refused only when the current file is full and has the last 16-bit
    number.  Otherwise it succeeds, and once the returned location is in the index the
    block's record loads back, every record that loaded before still loads with the
    same value, and the store and its index are consistent again, whether or not
    the write rotated to a new file. *)
Theorem undo_store_roundtrip {IT} {HI : Table (list byte) (Z * Z * Z) IT} `{!TableLaws (list byte) (Z * Z * Z) IT HI}
    (us : UndoStore) (index : IT) (h : Hash256) (undo : BlockUndo) :
  store_ok us -> index_ok us index -> block_undo_ok undo ->
  match store_undo_to_file us h undo with
  | Ok (loc, us') =>
    let index' := t_insert index (loc_hash loc) (loc_file loc, loc_offset loc, loc_size loc) in
    load_undo us' index' h = Ok undo /\
    (forall h', h' <> h -> is_Some (t_get index (as_bytes h')) -> load_undo us' index' h' = load_undo us index h') /\
    store_ok us' /\ index_ok us' index'
  | Err _ => file_number us = 2 ^ 16 - 1 /\ 0 < offset us /\ max_file_size us < offset us + ENTRY_PREFIX_SIZE + zlen (block_undo_to_bytes undo)
  | Panic => False
  end.
Proof.
  intros Hok Hidx Hu. pose proof (store_undo_cases us h undo Hok Hu) as H. destruct (store_undo_to_file us h undo) as [[loc us']|e|]; [|exact H|exact H].
  destruct H as (Hok' & Hh & Hrec & _ & Hkeep). cbn zeta. rewrite Hh. split; [|split; [|split; [done|]]].
  - eapply load_recorded; [apply get_insert_eq|done].
  - intros h' Hne [l Hl]. destruct (Hidx _ _ Hl) as (u & Hr).
    rewrite (load_recorded us index h' l u Hl Hr). eapply load_recorded; [|by apply Hkeep].
    rewrite get_insert_ne; [done|]. intros E. apply Hne. destruct h, h'. cbn in E. by subst.
  - intros k l. rewrite get_insert. destruct (decide (as_bytes h = k)); [intros [= <-]; by exists undo|].
    intros Hl. destruct (Hidx _ _ Hl) as (u & Hr). exists u. by apply Hkeep.
Qed.

Definition sample_undo (v : Z) : BlockUndo :=
  mkBlockUndo [mkTxUndo [mkCoin (mkTxOut v [x51]) 7 false]].
Definition sample_index : Type := gmap (list byte) (Z * Z * Z).

(** a store whose file of 40 bytes is nearly full: the write goes to file 1 *)
Definition nearly_full : UndoStore := mkUndoStore {[0 := replicate 39 x00]} 40 0 39.

Lemma undo_store_roundtrip_witness :
  exists loc us', store_undo_to_file nearly_full HASH_ZERO (sample_undo 5) = Ok (loc, us') /\ loc_file loc = 1 /\ file_number us' = 1 /\
    load_undo us' (t_insert (t_empty : sample_index) (loc_hash loc) (loc_file loc, loc_offset loc, loc_size loc)) HASH_ZERO = Ok (sample_undo 5).
Proof.
  assert (store_ok nearly_full) as Hok.
  { split; cbn; try done. intros n Hn. unfold contents. by rewrite lookup_singleton_ne by lia. }
  pose proof (undo_store_roundtrip nearly_full (t_empty : sample_index) HASH_ZERO (sample_undo 5) Hok) as H.
  assert (exists loc us', store_undo_to_file nearly_full HASH_ZERO (sample_undo 5) = Ok (loc, us') /\ loc_file loc = 1 /\ file_number us' = 1) as (loc & us' & E & E1 & E2)
    by (eexists _, _; split; [reflexivity|]; split; reflexivity).
  exists loc, us'. split; [exact E|]. split; [exact E1|]. split; [exact E2|]. rewrite E in H. apply H.
  - intros k l Hk. rewrite (get_empty (T := sample_index)) in Hk. done.
  - split; [|by apply inU_spec]. repeat constructor; apply inU_spec || apply inI_spec || done; done.
Defined.

(** rotation can record a wrong offset.  The offset is reset to zero when the
    store moves to the next file, but that file is opened in append mode and may
    hold data, for instance when the database was recreated beside the old files:
    the index then starts empty and the store at file 0.  Here the record written
    after reopening is indexed at offset 0 of file 1, and loading it returns the
    record of another block that was there before, without any error. *)
Theorem undo_rotation_misplaces :
  let stale := UNDO_MAGIC ++ framed (block_undo_to_bytes (sample_undo 1)) in
  let fs : gmap Z (list byte) := {[0 := stale; 1 := stale]} in
  exists us loc us', open_with_max_file_size fs (t_empty : sample_index) 40 = Ok (us, t_empty) /\
    store_undo_to_file us HASH_ZERO (sample_undo 2) = Ok (loc, us') /\
    load_undo us' (t_insert (t_empty : sample_index) (loc_hash loc) (loc_file loc, loc_offset loc, loc_size loc)) HASH_ZERO
      = Ok (sample_undo 1).
Proof. eexists _, _, _. split; [vm_compute; reflexivity|]. split; [vm_compute; reflexivity|]. vm_compute. reflexivity. Qed.
