(* ===== verification/Ledger.v ===== *)
(** * Ledger: what connecting a block means

    The abstract state of the chain is a finite map from outpoints to coins.
    [txs_apply] says when a block's transactions can be applied to a ledger, to
    which ledger they lead, what they spend and which fees they leave;
    [block_applies] adds the bound on the coinbase.  The file Chainstate.v shows
    that [connect_block] and [disconnect_block] of src/src/chainstate/mod.rs
    implement these transitions on the database tables.

    Two facts follow for any sequence of blocks: undoing a transaction with the
    coins it spent restores the ledger, and the total value never grows by more
    than the subsidy. *)
From Stdlib Require Import Strings.Byte.
From stdpp Require Import base numbers list strings gmap.
From S2P Require Import Prelude Codec Types Difficulty Validation ScriptNum Signature Engine ScriptVerify Coin.

Abbreviation ledger := (gmap OutPoint Coin).

Definition COINBASE_MATURITY : Z := 100.

Definition coin_value (c : Coin) : Z := value (tx_out c).

Section Ledger.
Context `{HS : Sha256} `{HD : Digests} `{HK : K256}.
Implicit Types (m : ledger) (tx : Transaction).

(** the coins a transaction creates *)
Definition created (height : Z) (cb : bool) tx : list (OutPoint * Coin) :=
  imap (fun i o => (mkOutPoint (txid tx) (Z.of_nat i), mkCoin o height cb)) (vout tx).

Definition credit m (l : list (OutPoint * Coin)) : ledger := foldl (fun m kv => <[kv.1 := kv.2]> m) m l.
Definition debit m (l : list OutPoint) : ledger := foldl (fun m o => delete o m) m l.

Definition inputs_of tx : list OutPoint := prev_output <$> vin tx.

(** the transaction may spend [coins], in the order of its inputs *)
Record tx_spends (verify : bool) (height : Z) m tx (coins : list Coin) (fee : Z) : Prop := {
  ts_inputs : vin tx <> [];
  ts_nodup : NoDup (inputs_of tx);
  ts_coins : Forall2 (fun o c => m !! o = Some c) (inputs_of tx) coins;
  ts_mature : Forall (fun c => coin_is_coinbase c = true -> COINBASE_MATURITY <= height - coin_height c) coins;
  ts_scripts : verify = true -> forall i input c, vin tx !! i = Some input -> coins !! i = Some c ->
    verify_script (script_sig input) (script_pubkey (tx_out c)) tx i = Ok tt;
  ts_in : try_sum 0 (coin_value <$> coins) = Some (fee + zsum (value <$> vout tx));
  ts_out : try_sum 0 (value <$> vout tx) = Some (zsum (value <$> vout tx));
  ts_fee : 0 <= fee;
}.

(** transactions applied in order, with what each of the others than the
    coinbase spends and the fees they leave *)
Inductive txs_apply (verify : bool) (height : Z) : ledger -> list Transaction -> ledger -> list TxUndo -> Z -> Prop :=
| apply_nil m : txs_apply verify height m [] m [] 0
| apply_coinbase m tx txs m' undos fees :
  is_coinbase tx = true ->
  txs_apply verify height (credit m (created height true tx)) txs m' undos fees ->
  txs_apply verify height m (tx :: txs) m' undos fees
| apply_spend m tx txs m' undos coins fee fees :
  is_coinbase tx = false ->
  tx_spends verify height m tx coins fee ->
  txs_apply verify height (credit (debit m (inputs_of tx)) (created height false tx)) txs m' undos fees ->
  txs_apply verify height m (tx :: txs) m' (mkTxUndo coins :: undos) (fee + fees).

(** the coinbase claims at most the subsidy and the fees *)
Definition coinbase_bounded (height : Z) (block : Block) (fees : Z) : Prop :=
  exists cb, transactions block !! 0%nat = Some cb /\
    try_sum 0 (value <$> vout cb) = Some (zsum (value <$> vout cb)) /\
    get_block_subsidy height + fees <= i64_max /\
    zsum (value <$> vout cb) <= get_block_subsidy height + fees.

Definition block_applies (verify : bool) (height : Z) m (block : Block) m' (undos : list TxUndo) : Prop :=
  exists fees, txs_apply verify height m (transactions block) m' undos fees /\ coinbase_bounded height block fees.

(** the coins a transaction created are taken out and those it spent put back *)
Definition unapply m tx (coins : list Coin) : ledger :=
  credit (debit m (created 0 false tx).*1) (zip (inputs_of tx) coins).

(** ** Lookups *)

Lemma credit_cons m o c l : credit m ((o, c) :: l) = credit (<[o := c]> m) l.
Proof. done. Qed.
Lemma debit_cons m o l : debit m (o :: l) = debit (delete o m) l.
Proof. done. Qed.

Lemma lookup_debit m l o : debit m l !! o = if decide (o ∈ l) then None else m !! o.
Proof.
  revert m. induction l as [|x l IH]; intros m; [done|]. rewrite debit_cons, IH.
  destruct (decide (o ∈ l)); [by rewrite decide_True by set_solver|].
  destruct (decide (x = o)) as [<-|Hne].
  - by rewrite lookup_delete_eq, decide_True by set_solver.
  - rewrite lookup_delete_ne, decide_False by set_solver. done.
Qed.

Lemma lookup_credit_notin m l o : o ∉ l.*1 -> credit m l !! o = m !! o.
Proof.
  revert m. induction l as [|[k c] l IH]; intros m; cbn [fmap list_fmap]; [done|].
  intros [Hne Hn]%not_elem_of_cons. rewrite credit_cons, IH, lookup_insert_ne; done.
Qed.

Lemma lookup_credit_in m l o c : NoDup l.*1 -> (o, c) ∈ l -> credit m l !! o = Some c.
Proof.
  revert m. induction l as [|[k d] l IH]; intros m; cbn [fmap list_fmap]; [set_solver|].
  intros [Hk Hnd]%NoDup_cons [[= -> ->]|Hin]%elem_of_cons; rewrite credit_cons.
  - rewrite lookup_credit_notin by done. apply lookup_insert_eq.
  - by apply IH.
Qed.

Lemma created_key height cb tx o c :
  (o, c) ∈ created height cb tx -> exists i out, vout tx !! i = Some out /\ o = mkOutPoint (txid tx) (Z.of_nat i) /\ c = mkCoin out height cb.
Proof. unfold created. rewrite elem_of_lookup_imap. naive_solver. Qed.

Lemma created_txid height cb tx o : o ∈ (created height cb tx).*1 -> op_txid o = txid tx.
Proof. rewrite list_elem_of_fmap. intros ([o' c] & -> & (i & out & _ & -> & _)%created_key). done. Qed.

Lemma created_keys height cb tx : (created height cb tx).*1 = (fun i => mkOutPoint (txid tx) (Z.of_nat i)) <$> seq 0 (length (vout tx)).
Proof. unfold created. rewrite fmap_imap. apply list_eq. intros i. rewrite list_lookup_imap, list_lookup_fmap.
  destruct (decide (i < length (vout tx))%nat) as [Hi|Hi].
  - rewrite lookup_seq_lt by done. destruct (lookup_lt_is_Some_2 _ _ Hi) as [o ->]. done.
  - rewrite (lookup_ge_None_2 (vout tx)), lookup_seq_ge by lia. done.
Qed.

Lemma created_NoDup height cb tx : NoDup (created height cb tx).*1.
Proof. rewrite created_keys. apply NoDup_fmap_2; [|apply NoDup_seq]. intros i j [= Hij]. lia. Qed.

(** ** Undoing a transaction *)

(** the outputs of a transaction are new, apart from what it spends itself *)
Definition new_outputs m tx : Prop :=
  forall o, o ∈ (created 0 false tx).*1 -> o ∉ inputs_of tx -> m !! o = None.

Lemma created_keys_eq h cb tx : (created h cb tx).*1 = (created 0 false tx).*1.
Proof. by rewrite !created_keys. Qed.

Lemma Forall2_zip_in {A B} (R : A -> B -> Prop) l k a : Forall2 R l k -> a ∈ l -> exists b, (a, b) ∈ zip l k /\ R a b.
Proof. induction 1 as [|x y l k Hxy Hl IH]; [set_solver|]. intros [->|Ha]%elem_of_cons; [exists y; set_solver|]. destruct (IH Ha) as (b & Hb & Hr). exists b. set_solver. Qed.

Lemma Forall2_impl_in {A B} (R S : A -> B -> Prop) l k :
  Forall2 R l k -> (forall a b, a ∈ l -> R a b -> S a b) -> Forall2 S l k.
Proof. induction 1; intros Himp; constructor; [|apply IHForall2]; naive_solver set_solver. Qed.

Lemma fst_zip_Forall2 {A B} (R : A -> B -> Prop) l k : Forall2 R l k -> (zip l k).*1 = l.
Proof. intros Hl. apply fst_zip. apply Forall2_length in Hl. lia. Qed.

Lemma unapply_spend h m tx coins :
  NoDup (inputs_of tx) -> Forall2 (fun o c => m !! o = Some c) (inputs_of tx) coins -> new_outputs m tx ->
  unapply (credit (debit m (inputs_of tx)) (created h false tx)) tx coins = m.
Proof.
  intros Hnd Hc Hnew. apply map_eq. intros o. unfold unapply. destruct (decide (o ∈ inputs_of tx)) as [Hin|Hin].
  - destruct (Forall2_zip_in _ _ _ _ Hc Hin) as (c & Hz & ->). apply lookup_credit_in; [|done].
    by rewrite (fst_zip_Forall2 _ _ _ Hc).
  - rewrite lookup_credit_notin by (by rewrite (fst_zip_Forall2 _ _ _ Hc)). rewrite lookup_debit.
    destruct (decide (o ∈ (created 0 false tx).*1)) as [Hcr|Hcr]; [by rewrite Hnew|].
    by rewrite lookup_credit_notin, lookup_debit, decide_False by (by rewrite ?created_keys_eq).
Qed.

(** taking back on another ledger: an output that the transaction did not create is restored
    where the two ledgers agree on it *)
Lemma unapply_outside h m m1 tx coins o :
  NoDup (inputs_of tx) -> Forall2 (fun o c => m !! o = Some c) (inputs_of tx) coins -> op_txid o <> txid tx ->
  m1 !! o = credit (debit m (inputs_of tx)) (created h false tx) !! o -> unapply m1 tx coins !! o = m !! o.
Proof.
  intros Hnd Hc Ho Hm. assert (forall h cb, o ∉ (created h cb tx).*1) as Hn by (intros h0 cb Hin%created_txid; done). unfold unapply. destruct (decide (o ∈ inputs_of tx)) as [Hin|Hin].
  - destruct (Forall2_zip_in _ _ _ _ Hc Hin) as (c & Hz & ->). apply lookup_credit_in; [by rewrite (fst_zip_Forall2 _ _ _ Hc)|done].
  - rewrite lookup_credit_notin by (by rewrite (fst_zip_Forall2 _ _ _ Hc)). rewrite lookup_debit, decide_False by apply Hn. rewrite Hm, lookup_credit_notin by apply Hn. by rewrite lookup_debit, decide_False.
Qed.

Lemma uncreate h cb m tx :
  (forall o, o ∈ (created 0 false tx).*1 -> m !! o = None) -> debit (credit m (created h cb tx)) (created 0 false tx).*1 = m.
Proof.
  intros Hnew. apply map_eq. intros o. rewrite lookup_debit. destruct (decide _) as [Ho|Ho]; [by rewrite Hnew|].
  by rewrite lookup_credit_notin by (by rewrite created_keys_eq).
Qed.

(** the transactions of a block carry new identifiers *)
Record new_txids m (txs : list Transaction) : Prop := {
  nt_nodup : NoDup (txid <$> txs);
  nt_new : forall o, op_txid o ∈ txid <$> txs -> m !! o = None;
}.

Lemma new_txids_tail m tx txs (l : list OutPoint) h cb :
  new_txids m (tx :: txs) -> new_txids (credit (debit m l) (created h cb tx)) txs.
Proof.
  intros [[Hnin Hnd]%NoDup_cons Hnew]. split; [done|]. intros o Ho.
  rewrite lookup_credit_notin by (intros Hc%created_txid; by rewrite Hc in Ho).
  rewrite lookup_debit, Hnew by (cbn; set_solver). by case_decide.
Qed.

Lemma new_txids_outputs m tx txs o : new_txids m (tx :: txs) -> o ∈ (created 0 false tx).*1 -> m !! o = None.
Proof. intros [_ Hnew] Ho%created_txid. apply Hnew. rewrite Ho. cbn. set_solver. Qed.

(** ** Value *)

Definition total m : Z := zsum ((fun kv => coin_value kv.2) <$> map_to_list m).
Definition nonneg m : Prop := map_Forall (fun _ c => 0 <= coin_value c) m.

#[local] Instance zsum_perm : Proper (Permutation ==> eq) zsum.
Proof. intros l k Hlk. induction Hlk; rewrite ?zsum_cons in *; lia. Qed.

Lemma total_insert m o c : m !! o = None -> total (<[o := c]> m) = coin_value c + total m.
Proof. intros Ho. unfold total. by rewrite (map_to_list_insert _ _ _ Ho). Qed.

Lemma total_delete m o c : m !! o = Some c -> total m = coin_value c + total (delete o m).
Proof. intros Ho. rewrite <- (insert_delete_id m o c Ho) at 1. apply total_insert, lookup_delete_eq. Qed.

Lemma total_nonneg m : nonneg m -> 0 <= total m.
Proof.
  intros Hm. apply zsum_nonneg, Forall_fmap, Forall_forall. intros [o c] Ho%elem_of_map_to_list. cbn. by eapply Hm.
Qed.

Lemma total_overwrite m o c : nonneg m -> total (<[o := c]> m) <= coin_value c + total m.
Proof.
  intros Hm. destruct (m !! o) as [d|] eqn:E; [|by rewrite total_insert by done].
  rewrite <- insert_delete_eq, total_insert by apply lookup_delete_eq. rewrite (total_delete m o d E). pose proof (Hm o d E : 0 <= coin_value d). lia.
Qed.

Lemma nonneg_insert m o c : nonneg m -> 0 <= coin_value c -> nonneg (<[o := c]> m).
Proof. intros Hm Hc. by apply map_Forall_insert_2. Qed.

Lemma credit_total m l :
  nonneg m -> Forall (fun kv => 0 <= coin_value kv.2) l ->
  nonneg (credit m l) /\ total (credit m l) <= total m + zsum ((fun kv => coin_value kv.2) <$> l).
Proof.
  intros Hm Hl. revert m Hm. induction Hl as [|[o c] l Hc Hl IH]; intros m Hm.
  - split; [done|]. cbn. lia.
  - rewrite credit_cons. cbn [fmap list_fmap]. rewrite zsum_cons. cbn [fst snd] in *.
    destruct (IH (<[o := c]> m)) as [Hn Ht]; [by apply nonneg_insert|]. split; [done|].
    pose proof (total_overwrite m o c Hm). lia.
Qed.

Lemma debit_total m l coins :
  NoDup l -> Forall2 (fun o c => m !! o = Some c) l coins -> total (debit m l) = total m - zsum (coin_value <$> coins).
Proof.
  intros Hnd Hc. revert m Hc. revert coins. induction l as [|o l IH]; intros coins m Hc.
  - apply Forall2_nil_inv_l in Hc as ->. cbn. lia.
  - apply Forall2_cons_inv_l in Hc as (c & cs & Ho & Hc & ->). apply NoDup_cons in Hnd as [Hn Hnd].
    rewrite debit_cons. cbn [fmap list_fmap]. rewrite zsum_cons, (IH Hnd cs).
    + rewrite (total_delete m o c Ho). lia.
    + eapply Forall2_impl_in; [exact Hc|]. intros o' c' Ho' Hl. rewrite lookup_delete_ne; [done|]. by intros ->.
Qed.

Lemma nonneg_debit m l : nonneg m -> nonneg (debit m l).
Proof. intros Hm o c. rewrite lookup_debit. case_decide; [done|]. apply Hm. Qed.

Lemma created_values h cb tx : (fun kv => coin_value kv.2) <$> created h cb tx = value <$> vout tx.
Proof. unfold created. rewrite fmap_imap. apply list_eq. intros i. rewrite list_lookup_imap, list_lookup_fmap. done. Qed.

Lemma created_nonneg h cb tx :
  Forall output_ok (vout tx) -> Forall (fun kv => 0 <= coin_value kv.2) (created h cb tx).
Proof.
  intros Ho. apply Forall_forall. intros [o c] (i & out & Hi & -> & ->)%created_key. cbn.
  eapply Forall_lookup_1 in Ho; [|exact Hi]. by destruct Ho.
Qed.

(** what the coinbases among the transactions claim *)
Definition claimed (txs : list Transaction) : Z :=
  zsum ((fun tx => if is_coinbase tx then zsum (value <$> vout tx) else 0) <$> txs).

(** fees move value from the spent coins, nothing else is created *)
Lemma txs_apply_total verify h m txs m' undos fees :
  txs_apply verify h m txs m' undos fees -> nonneg m -> Forall (fun tx => Forall output_ok (vout tx)) txs ->
  nonneg m' /\ total m' <= total m + claimed txs - fees.
Proof.
  induction 1 as [m|m tx txs m' undos fees Hcb _ IH|m tx txs m' undos coins fee fees Hcb Hsp _ IH]; intros Hm Hv.
  - split; [done|]. cbn. lia.
  - apply Forall_cons in Hv as [Ho Hv]. destruct (credit_total m (created h true tx)) as [Hn Ht]; [done|by apply created_nonneg|].
    destruct (IH Hn Hv) as [Hn' Ht']. split; [done|]. rewrite created_values in Ht.
    unfold claimed in *. cbn [fmap list_fmap]. rewrite zsum_cons, Hcb. lia.
  - apply Forall_cons in Hv as [Ho Hv].
    destruct (credit_total (debit m (inputs_of tx)) (created h false tx)) as [Hn Ht];
      [by apply nonneg_debit|by apply created_nonneg|].
    destruct (IH Hn Hv) as [Hn' Ht']. split; [done|]. rewrite created_values in Ht.
    destruct Hsp as [_ Hnd Hc _ _ Hin _ _]. rewrite (debit_total m _ coins Hnd Hc) in Ht. apply try_sum_Some in Hin.
    unfold claimed in *. cbn [fmap list_fmap]. rewrite zsum_cons, Hcb. lia.
Qed.

Lemma block_applies_total verify h m b m' undos :
  block_rules b -> block_applies verify h m b m' undos -> nonneg m ->
  nonneg m' /\ total m' <= total m + get_block_subsidy h.
Proof.
  intros [(cb & rest & Hb & Hcb & Hrest) _ Htx] (fees & Happ & cb' & Hcb' & _ & _ & Hle) Hm. rewrite Hb in *.
  injection Hcb' as <-. eapply txs_apply_total in Happ as [Hn Ht]; [split; [done|]|done|].
  - unfold claimed in Ht. cbn [fmap list_fmap] in Ht. rewrite zsum_cons, Hcb in Ht.
    enough (zsum ((fun tx => if is_coinbase tx then zsum (value <$> vout tx) else 0) <$> rest) = 0) by lia.
    clear -Hrest. induction Hrest as [|tx rest Htx _ IH]; [done|]. cbn [fmap list_fmap]. by rewrite zsum_cons, Htx, IH.
  - eapply Forall_impl; [exact Htx|]. intros tx Ht. apply Ht.
Qed.
End Ledger.
