(* ===== verification/Chainstate.v ===== *)
(** * Chainstate: connecting and disconnecting blocks

    Models src/src/chainstate/mod.rs.  The state is the three tables of the
    database, the undo store and the chain tip kept in memory.  A write
    transaction works on copies of the tables; [connect_block] and
    [disconnect_block] return the new state, or an error and no new state (the
    only step that can fail after the undo file was written is the commit, which
    the database interface does not model).

    The counters that only feed the log message of [connect_block] are left out.
    The parallel verification of a transaction's inputs is modelled by the
    sequential one: it succeeds when every input verifies, and its errors carry
    the same message whichever input failed first. *)
From Stdlib Require Import Strings.Byte.
From stdpp Require Import base numbers list strings gmap.
From S2P Require Import Prelude Codec Types Difficulty Validation Vec ScriptNum Signature Engine EngineSafety ScriptVerify Database Coin UndoStore Ledger.

Definition TIP_KEY : string := "tip".
Definition TIP_HEIGHT_KEY : string := "tip_height".

(** [outpoint_to_key] *)
Definition outpoint_to_key (o : OutPoint) : list byte := as_bytes (op_txid o) ++ le_bytes 4 (op_index o).

Record ChainState (UT MT IT : Type) := mkChainState {
  utxos : UT;
  meta : MT;
  undo_index : IT;
  undo_store : UndoStore;
  tip : Hash256 * Z;
  script_verify_height : Z;
}.
Arguments mkChainState {UT MT IT} _ _ _ _ _ _.
Arguments utxos {UT MT IT} _.
Arguments meta {UT MT IT} _.
Arguments undo_index {UT MT IT} _.
Arguments undo_store {UT MT IT} _.
Arguments tip {UT MT IT} _.
Arguments script_verify_height {UT MT IT} _.

Section Chainstate.
Context `{HS : Sha256} `{HD : Digests} `{HK : K256}.
Context {UT MT IT : Type} {HU : Table (list byte) (list byte) UT} {HM : Table string (list byte) MT}.
Context {HI : Table (list byte) (Z * Z * Z) IT}.
Implicit Types (t : UT) (cs : ChainState UT MT IT) (tx : Transaction).

(** ** Outputs *)

Definition insert_outputs t (txid : Hash256) (outputs : list TxOut) (height : Z) (is_coinbase : bool) : UT :=
  foldl (fun t '(vout_idx, output) =>
    let outpoint := mkOutPoint txid (Z.of_nat vout_idx mod 2 ^ 32) in
    let coin := mkCoin output height is_coinbase in
    t_insert t (outpoint_to_key outpoint) (coin_to_bytes coin)) t (imap pair outputs).

(** ** Connecting *)

(** look up, check and remove the coin an input spends *)
Definition spend_input (height : Z) (acc : UT * list Coin * Z) (input : TxIn) : result (UT * list Coin * Z) :=
  let '(t, spent, input_sum) := acc in
  let key := outpoint_to_key (prev_output input) in
  bytes ← ok_or "input references missing utxo" (t_get t key);
  coin ← context "failed to deserialize utxo coin" (coin_from_bytes bytes);
  _ ← (if coin_is_coinbase coin then
         let confirmations := sat_sub height (coin_height coin) in
         if confirmations <? COINBASE_MATURITY then Err "coinbase output not mature" else Ok tt
       else Ok tt);
  input_sum ← ok_or "input value sum overflow" (i64_checked_add input_sum (value (tx_out coin)));
  Ok (t_remove t key, vec_push spent coin, input_sum).

Definition verify_input tx (_ : unit) (entry : nat * Coin) : result unit :=
  let '(input_idx, coin) := entry in
  input ← or_panic (vin tx !! input_idx);
  map_err (fun _ => "script verification failed"%string)
    (verify_script (script_sig input) (script_pubkey (tx_out coin)) tx input_idx).

Definition connect_tx (script_verify_height height : Z) (acc : UT * list TxUndo * Z) tx : result (UT * list TxUndo * Z) :=
  let '(t, undos, total_fees) := acc in
  let id := txid tx in
  if is_coinbase tx then Ok (insert_outputs t id (vout tx) height true, undos, total_fees)
  else
  ensure (negb (zlen (vin tx) =? 0)) else "non-coinbase transaction has no inputs" ;;
  '(t, spent, input_sum) ← fold_res (spend_input height) (t, [], 0) (vin tx);
  _ ← (if height >? script_verify_height then fold_res (verify_input tx) tt (imap pair spent) else Ok tt);
  output_sum ← ok_or "output value sum overflow" (try_sum 0 (value <$> vout tx));
  if output_sum >? input_sum then Err "outputs exceed inputs" else
  fee ← i64_op (input_sum - output_sum);
  total_fees ← ok_or "total fee overflow" (i64_checked_add total_fees fee);
  Ok (insert_outputs t id (vout tx) height false, vec_push undos (mkTxUndo spent), total_fees).

Definition check_coinbase_value (block : Block) (height total_fees : Z) : result unit :=
  match head (transactions block) with
  | None => Ok tt
  | Some coinbase =>
    coinbase_value ← ok_or "coinbase value sum overflow" (try_sum 0 (value <$> vout coinbase));
    let subsidy := get_block_subsidy height in
    max_coinbase ← ok_or "subsidy + fees overflow" (i64_checked_add subsidy total_fees);
    if coinbase_value >? max_coinbase then Err "coinbase value exceeds allowed" else Ok tt
  end.

Definition connect_block cs (block : Block) (height : Z) (block_hash : Hash256) : result (ChainState UT MT IT) :=
  let current_height := (tip cs).2 in
  if negb (height =? u32_sat_add current_height 1) then Err "connect_block: unexpected height" else
  ensure (negb (zlen (transactions block) =? 0)) else "block has no transactions (missing coinbase)" ;;
  '(t, undos, total_fees) ← fold_res (connect_tx (script_verify_height cs) height) (utxos cs, [], 0) (transactions block);
  _ ← check_coinbase_value block height total_fees;
  '(us, index) ← (if negb (zlen undos =? 0) then
      '(loc, us) ← context "failed to write block undo data to flat file"
                     (store_undo_to_file (undo_store cs) block_hash (mkBlockUndo undos));
      Ok (us, t_insert (undo_index cs) (loc_hash loc) (loc_file loc, loc_offset loc, loc_size loc))
    else Ok (undo_store cs, undo_index cs));
  let meta := t_insert (meta cs) TIP_KEY (as_bytes block_hash) in
  let meta := t_insert meta TIP_HEIGHT_KEY (le_bytes 4 height) in
  Ok (mkChainState t meta index us (block_hash, height) (script_verify_height cs)).

(** ** Disconnecting *)

Definition remove_outputs t tx : UT :=
  foldl (fun t vout_idx => t_remove t (outpoint_to_key (mkOutPoint (txid tx) (Z.of_nat vout_idx mod 2 ^ 32)))) t
    (seq 0 (length (vout tx))).

Definition restore_input (tx_undo : TxUndo) t (entry : nat * TxIn) : result UT :=
  let '(input_idx, input) := entry in
  coin ← ok_or "missing spent output" (spent_outputs tx_undo !! input_idx);
  Ok (t_insert t (outpoint_to_key (prev_output input)) (coin_to_bytes coin)).

Definition disconnect_tx (block_undo : option BlockUndo) t (entry : nat * Transaction) : result UT :=
  let '(tx_idx, tx) := entry in
  let t := remove_outputs t tx in
  match block_undo with
  | Some undo =>
    if negb (is_coinbase tx) then
      undo_idx ← usize_sub (Z.of_nat tx_idx) 1;
      tx_undo ← ok_or "missing tx undo" (tx_undos undo !! Z.to_nat undo_idx);
      fold_res (restore_input tx_undo) t (imap pair (vin tx))
    else Ok t
  | None => Ok t
  end.

Definition disconnect_block cs (block : Block) (height : Z) (block_hash : Hash256) : result (ChainState UT MT IT) :=
  if height =? 0 then Err "cannot disconnect the genesis block" else
  let '(current_tip, current_height) := tip cs in
  if negb (bool_decide (block_hash = current_tip)) || negb (height =? current_height)
  then Err "disconnect_block: unexpected tip" else
  prev_height ← u32_sub height 1;
  let non_coinbase_count := zlen (filter (fun tx => is_coinbase tx = false) (transactions block)) in
  block_undo ← (if non_coinbase_count >? 0 then
      undo ← context "failed to load block undo data" (load_undo (undo_store cs) (undo_index cs) block_hash);
      if negb (zlen (tx_undos undo) =? non_coinbase_count) then Err "undo data does not match the block"
      else Ok (Some undo)
    else Ok None);
  t ← fold_res (disconnect_tx block_undo) (utxos cs) (reverse (imap pair (transactions block)));
  let meta := t_insert (meta cs) TIP_KEY (as_bytes (prev_hash (header block))) in
  let meta := t_insert meta TIP_HEIGHT_KEY (le_bytes 4 prev_height) in
  Ok (mkChainState t meta (undo_index cs) (undo_store cs) (prev_hash (header block), prev_height) (script_verify_height cs)).

(** ** Lookup and opening *)

Definition get_utxo cs (outpoint : OutPoint) : result (option Coin) :=
  match t_get (utxos cs) (outpoint_to_key outpoint) with
  | Some bytes => Some <$> context "failed to deserialize utxo coin" (coin_from_bytes bytes)
  | None => Ok None
  end.

(** the tip stored in the META table *)
Definition load_tip (m : MT) : Hash256 * Z :=
  (match t_get m TIP_KEY with
   | Some bytes => if bool_decide (length bytes = HASH_LEN) then mkHash bytes else HASH_ZERO
   | None => HASH_ZERO
   end,
   match t_get m TIP_HEIGHT_KEY with
   | Some bytes => if bool_decide (length bytes = 4%nat) then le_val bytes else 0
   | None => 0
   end).

(** [ChainState::open] on the database and the undo files found in the data directory *)
Definition open (t : UT) (m : MT) (index : IT) (fs : gmap Z (list byte)) (script_verify_height : Z) : result (ChainState UT MT IT) :=
  let tip := load_tip m in
  '(us, index) ← context "failed to open undo store" (open_with_max_file_size fs index DEFAULT_MAX_FILE_SIZE);
  Ok (mkChainState t m index us tip script_verify_height).
End Chainstate.
