(* ===== verification/ChainstateCorrect.v ===== *)
(** * ChainstateCorrect: the chain state implements the ledger

    The UTXO table of Chainstate.v represents a ledger of Ledger.v: the key of an
    outpoint leads to the encoding of its coin.  Every step of [connect_block]
    and [disconnect_block] is followed on the ledger. *)
From Stdlib Require Import Strings.Byte.
From stdpp Require Import base numbers list strings gmap.
From S2P Require Import Prelude Codec Types Merkle Difficulty Validation Vec ScriptNum Signature Engine EngineSafety ScriptVerify Database Coin UndoStore Ledger Chainstate.

#[local] Arguments le_bytes : simpl never.

(** ** Well-formed ledgers *)

Definition entry_ok (o : OutPoint) (c : Coin) : Prop := outpoint_ok o /\ coin_ok c.
Definition wf (m : ledger) : Prop := map_Forall entry_ok m.

Lemma wf_credit m l : wf m -> Forall (fun kv => entry_ok kv.1 kv.2) l -> wf (credit m l).
Proof.
  intros Hm Hl. revert m Hm. induction Hl as [|[o c] l Ho Hl IH]; intros m Hm; [done|].
  rewrite credit_cons. apply IH. by apply map_Forall_insert_2.
Qed.

Lemma wf_debit m l : wf m -> wf (debit m l).
Proof. intros Hm o c. rewrite lookup_debit. case_decide; [done|]. apply Hm. Qed.

Lemma created_ok `{HS : Sha256} `{!Sha256Len HS} h cb tx :
  tx_ok tx -> U 32 h -> Forall (fun kv => entry_ok kv.1 kv.2) (created h cb tx).
Proof.
  intros (_ & _ & [Hn Ho] & _) Hh. apply Forall_forall. intros [o c] (i & out & Hi & -> & ->)%created_key.
  apply lookup_lt_Some in Hi as Hlt. split; cbn.
  - split; [apply hash_ok_double_sha256|]. cbn. unfold zlen, MAX_TX_IN_OUT in Hn. range.
  - split; [done|]. by eapply Forall_lookup_1.
Qed.

(** ** Representation *)

Section Represents.
Context {UT : Type} {HU : Table (list byte) (list byte) UT} `{!TableLaws (list byte) (list byte) UT HU}.
Implicit Types (t : UT) (m : ledger).

Record represents t m : Prop := {
  rp_get o : outpoint_ok o -> t_get t (outpoint_to_key o) = coin_to_bytes <$> m !! o;
  rp_wf : wf m;
}.

#[global] Instance represents_proper : Proper ((≡@{UT}) ==> (=) ==> iff) represents.
Proof. intros t u Htu m ? <-. split; intros [Hg Hw]; (split; [|done]); intros o Ho; rewrite <- Hg by done; by rewrite Htu. Qed.

Lemma key_inj o o' : outpoint_ok o -> outpoint_ok o' -> outpoint_to_key o = outpoint_to_key o' -> o = o'.
Proof.
  intros [Hh Hi] [Hh' Hi'] E. apply app_inj_1 in E as [E1 E2]; [|by rewrite Hh, Hh'].
  apply le_bytes_inj in E2; [|done|done]. destruct o as [[h] i], o' as [[h'] i']. cbn in *. by subst.
Qed.

Lemma represents_insert t m o c :
  represents t m -> entry_ok o c -> represents (t_insert t (outpoint_to_key o) (coin_to_bytes c)) (<[o := c]> m).
Proof.
  intros [Hg Hw] [Ho Hc]. split; [|by apply map_Forall_insert_2].
  intros o' Ho'. rewrite get_insert, lookup_insert. destruct (decide (o = o')) as [<-|Hne]; [by rewrite decide_True|].
  rewrite decide_False by (intros E; by apply key_inj in E). by apply Hg.
Qed.

Lemma represents_remove t m o : represents t m -> outpoint_ok o -> represents (t_remove t (outpoint_to_key o)) (delete o m).
Proof.
  intros [Hg Hw] Ho. split; [|by apply map_Forall_delete].
  intros o' Ho'. rewrite get_remove, lookup_delete. destruct (decide (o = o')) as [<-|Hne]; [by rewrite decide_True|].
  rewrite decide_False by (intros E; by apply key_inj in E). by apply Hg.
Qed.

Lemma represents_lookup t m o :
  represents t m -> outpoint_ok o ->
  match m !! o with
  | Some c => exists bytes, t_get t (outpoint_to_key o) = Some bytes /\ coin_from_bytes bytes = Ok c
  | None => t_get t (outpoint_to_key o) = None
  end.
Proof.
  intros [Hg Hw] Ho. rewrite Hg by done. destruct (m !! o) as [c|] eqn:E; [|done]. exists (coin_to_bytes c). split; [done|].
  apply coin_from_to. by apply (Hw o c E).
Qed.

(** the loops that write and delete entries *)
Lemma represents_credit t m l :
  represents t m -> Forall (fun kv => entry_ok kv.1 kv.2) l ->
  represents (foldl (fun t kv => t_insert t (outpoint_to_key kv.1) (coin_to_bytes kv.2)) t l) (credit m l).
Proof.
  intros Hr Hl. revert t m Hr. induction Hl as [|[o c] l Ho Hl IH]; intros t m Hr; [done|].
  rewrite credit_cons. apply IH. by apply represents_insert.
Qed.

Lemma represents_debit t m l :
  represents t m -> Forall outpoint_ok l -> represents (foldl (fun t o => t_remove t (outpoint_to_key o)) t l) (debit m l).
Proof.
  intros Hr Hl. revert t m Hr. induction Hl as [|o l Ho Hl IH]; intros t m Hr; [done|].
  rewrite debit_cons. apply IH. by apply represents_remove.
Qed.

Context `{HS : Sha256} `{!Sha256Len HS}.

Lemma vout_index tx i out : tx_ok tx -> vout tx !! i = Some out -> Z.of_nat i mod 2 ^ 32 = Z.of_nat i.
Proof.
  intros (_ & _ & [Hn _] & _) Hi%lookup_lt_Some. apply Z.mod_small. unfold zlen, MAX_TX_IN_OUT in Hn. lia.
Qed.

(** the loops of the code over outputs, over the entries they stand for *)
Lemma insert_outputs_eq t tx h cb : tx_ok tx ->
  insert_outputs t (txid tx) (vout tx) h cb = foldl (fun t kv => t_insert t (outpoint_to_key kv.1) (coin_to_bytes kv.2)) t (created h cb tx).
Proof.
  intros Htx. unfold insert_outputs, created.
  assert (imap (fun i o => (mkOutPoint (txid tx) (Z.of_nat i), mkCoin o h cb)) (vout tx) =
    (fun '(i, o) => (mkOutPoint (txid tx) (Z.of_nat i), mkCoin o h cb)) <$> imap pair (vout tx)) as -> by by rewrite fmap_imap.
  rewrite foldl_fmap. apply foldl_ext_in. intros t' [i o] (i' & o' & [= <- <-] & Hi)%elem_of_lookup_imap.
  cbn. by rewrite (vout_index tx i o).
Qed.

Lemma remove_outputs_eq t tx : tx_ok tx -> remove_outputs t tx = foldl (fun t o => t_remove t (outpoint_to_key o)) t (created 0 false tx).*1.
Proof.
  intros Htx. rewrite created_keys, foldl_fmap. unfold remove_outputs. apply foldl_ext_in. intros t' i Hi%elem_of_seq.
  destruct (lookup_lt_is_Some_2 (vout tx) i) as [out Hout]; [lia|]. by rewrite (vout_index tx i out).
Qed.

Lemma created_outpoints tx : tx_ok tx -> Forall outpoint_ok (created 0 false tx).*1.
Proof. intros Htx. apply Forall_fmap. eapply Forall_impl; [apply created_ok; [done|range]|]. intros [o c] [Ho _]. exact Ho. Qed.

Lemma insert_outputs_represents t m tx h cb :
  represents t m -> tx_ok tx -> U 32 h ->
  represents (insert_outputs t (txid tx) (vout tx) h cb) (credit m (created h cb tx)).
Proof. intros Hr Htx Hh. rewrite insert_outputs_eq by done. by apply represents_credit, created_ok. Qed.

Lemma remove_outputs_represents t m tx :
  represents t m -> tx_ok tx -> represents (remove_outputs t tx) (debit m (created 0 false tx).*1).
Proof. intros Hr Htx. rewrite remove_outputs_eq by done. by apply represents_debit, created_outpoints. Qed.
End Represents.

(** ** Spending the inputs of a transaction *)

Section Connect.
Context `{HS : Sha256} `{!Sha256Len HS} `{HD : Digests} `{!DigestsLen HD} `{HK : K256}.
Context {UT MT IT : Type} {HU : Table (list byte) (list byte) UT} `{!TableLaws (list byte) (list byte) UT HU}.
Context {HM : Table string (list byte) MT} {HI : Table (list byte) (Z * Z * Z) IT} `{!TableLaws (list byte) (Z * Z * Z) IT HI}.
Implicit Types (t : UT) (m : ledger) (tx : Transaction) (cs : ChainState UT MT IT).

Definition mature (height : Z) (c : Coin) : Prop :=
  coin_is_coinbase c = true -> COINBASE_MATURITY <= height - coin_height c.

Definition spent_table t (ins : list TxIn) : UT :=
  foldl (fun t o => t_remove t (outpoint_to_key o)) t (prev_output <$> ins).

Lemma coin_from_bytes_no_panic bytes : coin_from_bytes bytes <> Panic.
Proof. apply run_reader_safe. unfold coin_from_cursor, read_u32, read_i64. apply _. Qed.

(** one input *)
Lemma spend_input_Ok h t m sp s input r :
  represents t m -> outpoint_ok (prev_output input) -> U 32 h ->
  spend_input h (t, sp, s) input = Ok r <->
  exists c s', m !! prev_output input = Some c /\ mature h c /\ i64_checked_add s (coin_value c) = Some s' /\
    r = (t_remove t (outpoint_to_key (prev_output input)), sp ++ [c], s').
Proof.
  intros Hr Ho Hh. unfold spend_input. pose proof (represents_lookup t m _ Hr Ho) as Hl.
  destruct (m !! prev_output input) as [c|] eqn:Em.
  - destruct Hl as (bytes & -> & Hb). cbn [ok_or mbind res_bind]. rewrite Hb. cbn [context mbind res_bind].
    destruct (proj2 (rp_wf t m Hr _ _ Em)) as [Hch _].
    assert ((if coin_is_coinbase c then if sat_sub h (coin_height c) <? COINBASE_MATURITY
             then Err "coinbase output not mature" else Ok tt else Ok tt) = (Ok tt : result unit) <-> mature h c) as Hmat.
    { unfold mature, sat_sub, COINBASE_MATURITY. destruct (coin_is_coinbase c); [|done].
      destruct (Z.ltb_spec (Z.max 0 (h - coin_height c)) 100); split; try done; intros; try lia. }
    unfold coin_value. split.
    + intros H. apply res_bind_Ok in H as ([] & H1%Hmat & H). apply res_bind_Ok in H as (s' & H2%ok_or_Ok & [= <-]). eauto 10.
    + intros (c' & s' & [= <-] & H1%Hmat & H2 & ->). rewrite H1. cbn [mbind res_bind]. by rewrite H2.
  - rewrite Hl. cbn. split; [done|]. by intros (? & ? & ? & _).
Qed.

Lemma Forall2_lookup_delete m o (l : list OutPoint) (coins : list Coin) :
  Forall2 (fun x c => delete o m !! x = Some c) l coins <-> o ∉ l /\ Forall2 (fun x c => m !! x = Some c) l coins.
Proof.
  split.
  - intros Hf. split.
    + intros Ho. destruct (Forall2_zip_in _ _ _ _ Hf Ho) as (c & _ & Hc). by rewrite lookup_delete_eq in Hc.
    + eapply Forall2_impl; [exact Hf|]. intros x c Hc. by apply lookup_delete_Some in Hc as [_ ?].
  - intros [Ho Hf]. eapply Forall2_impl_in; [exact Hf|]. intros x c Hx Hc. rewrite lookup_delete_ne; [done|]. by intros ->.
Qed.

(** when the first input cannot be spent, neither can the transaction *)
Lemma spend_input_stuck h t m sp s i (ins : list TxIn) (P : list Coin -> Z -> Prop) :
  represents t m -> outpoint_ok (prev_output i) -> U 32 h -> (forall r, spend_input h (t, sp, s) i <> Ok r) ->
  ~ exists coins s', NoDup (prev_output i :: (prev_output <$> ins)) /\
    Forall2 (fun o c => m !! o = Some c) (prev_output i :: (prev_output <$> ins)) coins /\
    Forall (mature h) coins /\ try_sum s (coin_value <$> coins) = Some s' /\ P coins s'.
Proof.
  intros Hr Hi Hh Hno (coins & s' & _ & (c & cs & Hc & _ & ->)%Forall2_cons_inv_l & [Hmat _]%Forall_cons & Hsum & _).
  cbn [fmap list_fmap try_sum] in Hsum. destruct (i64_checked_add s (coin_value c)) as [s1|] eqn:Es; [|done].
  eapply Hno, (spend_input_Ok h t m); eauto 10.
Qed.

(** all inputs: what is spent, in order, and no coin twice *)
Lemma spend_inputs_Ok h ins t m sp s r :
  represents t m -> Forall (fun i => outpoint_ok (prev_output i)) ins -> U 32 h ->
  fold_res (spend_input h) (t, sp, s) ins = Ok r <->
  exists coins s', NoDup (prev_output <$> ins) /\ Forall2 (fun o c => m !! o = Some c) (prev_output <$> ins) coins /\
    Forall (mature h) coins /\ try_sum s (coin_value <$> coins) = Some s' /\ r = (spent_table t ins, sp ++ coins, s').
Proof.
  intros Hr Hins Hh. revert t m sp s Hr. induction Hins as [|i ins Hi Hins IH]; intros t m sp s Hr; cbn [fold_res fmap list_fmap].
  - split.
    + intros [= <-]. exists [], s. rewrite app_nil_r. by repeat constructor.
    + intros (coins & s' & _ & ->%Forall2_nil_inv_l & _ & Hs & ->). cbn in Hs. injection Hs as <-. by rewrite app_nil_r.
  - destruct (spend_input h (t, sp, s) i) as [r1| |] eqn:E1.
    + apply (spend_input_Ok h t m sp s i r1 Hr Hi Hh) in E1 as (c & s1 & Hc & Hm & Hs & ->).
      rewrite (IH _ (delete (prev_output i) m)) by (by apply represents_remove). split.
      * intros (coins & s' & Hnd & [Hnin Hf]%Forall2_lookup_delete & Hmat & Hsum & ->). exists (c :: coins), s'.
        split; [by constructor|]. split; [by constructor|]. split; [by constructor|]. cbn [fmap list_fmap try_sum]. rewrite Hs.
        split; [done|]. by rewrite <- app_assoc.
      * intros (coins & s' & [Hnin Hnd]%NoDup_cons & (c' & cs & Hc' & Hf & ->)%Forall2_cons_inv_l & [_ Hmat]%Forall_cons & Hsum & ->).
        rewrite Hc in Hc'. injection Hc' as <-. cbn [fmap list_fmap try_sum] in Hsum. rewrite Hs in Hsum. exists cs, s'.
        split; [done|]. split; [by apply Forall2_lookup_delete|]. split; [done|]. split; [done|]. by rewrite <- app_assoc.
    + split; [done|]. intros Hex. exfalso. eapply (spend_input_stuck h t m sp s i ins (fun coins s' => r = (spent_table t (i :: ins), sp ++ coins, s'))); [done..| |exact Hex]. by rewrite E1.
    + split; [done|]. intros Hex. exfalso. eapply (spend_input_stuck h t m sp s i ins (fun coins s' => r = (spent_table t (i :: ins), sp ++ coins, s'))); [done..| |exact Hex]. by rewrite E1.
Qed.

Lemma spend_inputs_no_panic h acc ins : fold_res (spend_input h) acc ins <> Panic.
Proof.
  apply fold_res_no_panic. intros [[t sp] s] i. unfold spend_input.
  destruct (t_get t _) as [bytes|]; cbn [ok_or mbind res_bind]; [|done].
  pose proof (coin_from_bytes_no_panic bytes). destruct (coin_from_bytes bytes) as [c| |]; cbn [context mbind res_bind]; [|done|done].
  destruct (coin_is_coinbase c); [destruct (_ <? _)|]; cbn [mbind res_bind]; try done; by destruct (i64_checked_add _ _).
Qed.

(** ** Scripts *)

Lemma verify_inputs_Ok tx coins :
  length coins = length (vin tx) ->
  fold_res (verify_input tx) tt (imap pair coins) = Ok tt <->
  forall i input c, vin tx !! i = Some input -> coins !! i = Some c ->
    verify_script (script_sig input) (script_pubkey (tx_out c)) tx i = Ok tt.
Proof.
  intros Hlen. rewrite fold_res_unit, Forall_forall. unfold verify_input. split.
  - intros Hall i input c Hi Hc. specialize (Hall (i, c)). cbn in Hall. rewrite Hi in Hall. cbn [or_panic mbind res_bind] in Hall.
    destruct (verify_script _ _ _ _) as [[]| |]; [done|exfalso|exfalso]; cbn in Hall;
      (by specialize (Hall ltac:(apply elem_of_lookup_imap; eauto))).
  - intros Hall [i c] (i' & c' & [= <- <-] & Hc)%elem_of_lookup_imap.
    destruct (lookup_lt_is_Some_2 (vin tx) i) as [input Hi]; [rewrite <- Hlen; by eapply lookup_lt_Some|].
    rewrite Hi. cbn. by rewrite (Hall i input c Hi Hc).
Qed.

Lemma verify_inputs_no_panic tx coins :
  length coins = length (vin tx) -> fold_res (verify_input tx) tt (imap pair coins) <> Panic.
Proof.
  intros Hlen. assert (forall e, e ∈ imap pair coins -> (e.1 < length (vin tx))%nat) as Hin.
  { intros e (i & c & -> & Hc%lookup_lt_Some)%elem_of_lookup_imap. cbn. lia. }
  revert Hin. generalize (imap pair coins) as l. induction l as [|[i c] l IH]; intros Hin; cbn [fold_res]; [done|].
  assert (i < length (vin tx))%nat as Hi by (apply (Hin (i, c)); set_solver).
  assert (verify_input tx () (i, c) <> Panic) as Hv.
  { unfold verify_input. destruct (lookup_lt_is_Some_2 _ _ Hi) as [input ->]. cbn [or_panic mbind res_bind].
    pose proof (verify_script_no_panic (script_sig input) (script_pubkey (tx_out c)) tx i Hi). by destruct (verify_script _ _ _ _). }
  destruct (verify_input tx () (i, c)) as [[]| |]; [|done|done]. apply IH. intros e He. apply Hin. set_solver.
Qed.

(** ** One transaction *)

Lemma length_coins (R : OutPoint -> Coin -> Prop) tx coins : Forall2 R (inputs_of tx) coins -> length coins = length (vin tx).
Proof. intros Hc%Forall2_length. unfold inputs_of in Hc. by rewrite length_fmap in Hc. Qed.

Lemma outputs_sum tx v : Forall output_ok (vout tx) -> try_sum 0 (value <$> vout tx) = Some v -> 0 <= v /\ v = zsum (value <$> vout tx).
Proof.
  intros Ho Hv%try_sum_Some. split; [|lia]. enough (0 <= zsum (value <$> vout tx)) by lia.
  apply zsum_nonneg, Forall_fmap. eapply Forall_impl; [exact Ho|]. by intros o [? _].
Qed.

Lemma inputs_ok tx : tx_ok tx -> Forall (fun i => outpoint_ok (prev_output i)) (vin tx).
Proof. intros (_ & [_ Hi] & _). eapply Forall_impl; [exact Hi|]. by intros i [? _]. Qed.

Lemma connect_spend_Ok svh h t m us f tx r :
  represents t m -> tx_ok tx -> Forall output_ok (vout tx) -> is_coinbase tx = false -> U 32 h -> 0 <= f <= i64_max ->
  connect_tx svh h (t, us, f) tx = Ok r <->
  exists coins fee, tx_spends (svh <? h) h m tx coins fee /\ f + fee <= i64_max /\
    r = (insert_outputs (spent_table t (vin tx)) (txid tx) (vout tx) h false, us ++ [mkTxUndo coins], f + fee).
Proof.
  intros Hr Htx Ho Hcb Hh Hf. unfold connect_tx. rewrite Hcb, Z.gtb_ltb.
  pose proof (fun r => spend_inputs_Ok h (vin tx) t m [] 0 r Hr (inputs_ok tx Htx) Hh) as Hspend. split.
  - intros H. destruct (negb _) eqn:Hne; [|done]. apply zlen_0 in Hne. apply res_bind_Ok in H as ([[t1 sp] s] & Hs%Hspend & H).
    destruct Hs as (coins & s' & Hnd & Hc & Hmat & Hsum & [= -> -> ->]). cbn [app] in H.
    apply res_bind_Ok in H as ([] & Hv & H). apply res_bind_Ok in H as (out & Hout%ok_or_Ok & H).
    destruct (outputs_sum tx out Ho Hout) as [H0 ->]. destruct (_ >? s') eqn:Hgt; [done|]. bool_prop.
    apply res_bind_Ok in H as (fee & Hfee%or_panic_Ok%i64_checked_Some & H). destruct Hfee as [-> _].
    apply res_bind_Ok in H as (f' & [-> Hf']%ok_or_Ok%i64_checked_Some & [= <-]).
    exists coins, (s' - zsum (value <$> vout tx)). split; [|split; [range|done]].
    split; try done; [|rewrite Hsum; f_equal; lia|lia].
    intros Hvf. rewrite Hvf in Hv. by apply (verify_inputs_Ok tx coins (length_coins _ _ _ Hc)).
  - intros (coins & fee & [Hne Hnd Hc Hmat Hv Hin Hout Hfee] & Hle & ->).
    rewrite (proj2 (zlen_0 _) Hne), (proj2 (Hspend (spent_table t (vin tx), coins, fee + zsum (value <$> vout tx)))) by eauto 10.
    cbn [mbind res_bind]. pose proof (length_coins _ _ _ Hc) as Hlen.
    assert ((if svh <? h then fold_res (verify_input tx) tt (imap pair coins) else Ok tt) = Ok tt) as ->.
    { destruct (svh <? h); [|done]. apply verify_inputs_Ok; [done|]. by apply Hv. }
    cbn [mbind res_bind]. rewrite Hout. cbn [ok_or mbind res_bind]. destruct (outputs_sum tx _ Ho Hout) as [H0 _].
    rewrite Z.gtb_ltb, (proj2 (Z.ltb_ge _ _)) by lia.
    replace (fee + zsum (value <$> vout tx) - zsum (value <$> vout tx)) with fee by lia.
    apply try_sum_range in Hin as Hrange; [|range]. rewrite i64_op_Ok by range. cbn [mbind res_bind].
    unfold i64_checked_add. rewrite i64_checked_in by range. done.
Qed.

Lemma spend_inputs_shape h ins t sp s t' sp' s' :
  I 64 s -> fold_res (spend_input h) (t, sp, s) ins = Ok (t', sp', s') ->
  length sp' = (length sp + length ins)%nat /\ I 64 s'.
Proof.
  revert t sp s. induction ins as [|i ins IH]; intros t sp s Hs; cbn [fold_res].
  - intros [= <- <- <-]. cbn. split; [lia|done].
  - destruct (spend_input h (t, sp, s) i) as [[[t2 sp2] s2]| |] eqn:E; [|done|done]. intros Hr.
    unfold spend_input in E. apply res_bind_Ok in E as (bs & _ & E). apply res_bind_Ok in E as (c & _ & E).
    apply res_bind_Ok in E as ([] & _ & E). apply res_bind_Ok in E as (s3 & [-> Hr3]%ok_or_Ok%i64_checked_Some & [= <- <- <-]).
    apply IH in Hr as [Hl Hi]; [|done]. unfold vec_push in Hl. rewrite length_app in Hl. cbn [length] in *. split; [lia|done].
Qed.

Lemma connect_tx_no_panic svh h acc tx : tx_ok tx -> Forall output_ok (vout tx) -> connect_tx svh h acc tx <> Panic.
Proof.
  intros Htx Ho. destruct acc as [[t us] f]. unfold connect_tx. destruct (is_coinbase tx); [done|]. destruct (negb _); [|done].
  pose proof (spend_inputs_no_panic h (t, [], 0) (vin tx)) as Hs.
  destruct (fold_res (spend_input h) (t, [], 0) (vin tx)) as [[[t1 sp] s]| |] eqn:Es; cbn [mbind res_bind]; [|done|done].
  destruct (spend_inputs_shape h (vin tx) t [] 0 t1 sp s) as [Hlen Hsr]; [range|done|].
  assert ((if h >? svh then fold_res (verify_input tx) tt (imap pair sp) else Ok tt) <> Panic) as Hv
    by (destruct (h >? svh); [by apply verify_inputs_no_panic|done]).
  destruct (if h >? svh then _ else _) as [[]| |]; cbn [mbind res_bind]; [|done|done].
  destruct (try_sum 0 _) as [out|] eqn:Eo; cbn [ok_or mbind res_bind]; [|done].
  destruct (outputs_sum tx out Ho Eo) as [H0 _]. destruct (out >? s) eqn:Eg; [done|]. bool_prop.
  rewrite i64_op_Ok by range. cbn [mbind res_bind]. by destruct (i64_checked_add f _).
Qed.

(** ** The transactions of a block *)

Definition tx_fine tx : Prop := tx_ok tx /\ Forall output_ok (vout tx).

Lemma txs_apply_fees verify h m txs m' undos fees : txs_apply verify h m txs m' undos fees -> 0 <= fees.
Proof. induction 1 as [| |m tx txs m' undos coins fee fees _ Hsp _ IH]; [done|done|]. destruct Hsp. lia. Qed.

Lemma spent_represents t m tx : represents t m -> tx_ok tx -> represents (spent_table t (vin tx)) (debit m (inputs_of tx)).
Proof. intros Hr Htx. apply represents_debit; [done|]. apply Forall_fmap, inputs_ok, Htx. Qed.

Lemma connect_txs_sound svh h txs t m us f t' us' f' :
  represents t m -> Forall tx_fine txs -> U 32 h -> 0 <= f <= i64_max ->
  fold_res (connect_tx svh h) (t, us, f) txs = Ok (t', us', f') ->
  exists m' undos fees, txs_apply (svh <? h) h m txs m' undos fees /\ represents t' m' /\
    us' = us ++ undos /\ f' = f + fees /\ f' <= i64_max.
Proof.
  intros Hr Htxs Hh Hf. revert t m us f Hr Hf. induction Htxs as [|tx txs [Htx Ho] Htxs IH]; intros t m us f Hr Hf Hfold.
  - cbn in Hfold. injection Hfold as <- <- <-. exists m, [], 0. rewrite app_nil_r, Z.add_0_r. split; [constructor|]. split; [done|]. split; [done|]. lia.
  - cbn [fold_res] in Hfold. destruct (connect_tx svh h (t, us, f) tx) as [r1| |] eqn:E; [|done|done].
    destruct (is_coinbase tx) eqn:Hcb.
    + unfold connect_tx in E. rewrite Hcb in E. injection E as <-.
      destruct (IH _ _ _ _ (insert_outputs_represents t m tx h true Hr Htx Hh) Hf Hfold) as (m' & undos & fees & Ha & Hrest).
      exists m', undos, fees. split; [by constructor|done].
    + apply (connect_spend_Ok svh h t m us f tx r1 Hr Htx Ho Hcb Hh Hf) in E as (coins & fee & Hsp & Hle & ->).
      assert (0 <= fee) by apply Hsp.
      pose proof (insert_outputs_represents _ _ tx h false (spent_represents t m tx Hr Htx) Htx Hh) as Hr1.
      destruct (IH _ _ _ (f + fee) Hr1 ltac:(lia) Hfold) as (m' & undos & fees & Ha & Hr' & -> & -> & Hle').
      exists m', (mkTxUndo coins :: undos), (fee + fees). rewrite <- app_assoc. split; [by econstructor|].
      split; [done|]. split; [done|]. split; lia.
Qed.

Lemma connect_txs_complete svh h m txs m' undos fees :
  txs_apply (svh <? h) h m txs m' undos fees ->
  forall t us f, represents t m -> Forall tx_fine txs -> U 32 h -> 0 <= f -> f + fees <= i64_max ->
  exists t', fold_res (connect_tx svh h) (t, us, f) txs = Ok (t', us ++ undos, f + fees) /\ represents t' m'.
Proof.
  induction 1 as [m|m tx txs m' undos fees Hcb Ha IH|m tx txs m' undos coins fee fees Hcb Hsp Ha IH];
    intros t us f Hr Htxs Hh Hf Hle; cbn [fold_res].
  - exists t. by rewrite app_nil_r, Z.add_0_r.
  - apply Forall_cons in Htxs as [[Htx Ho] Htxs]. unfold connect_tx at 1. rewrite Hcb.
    apply IH; [by apply insert_outputs_represents|done..].
  - apply Forall_cons in Htxs as [[Htx Ho] Htxs]. assert (0 <= fee) by apply Hsp. pose proof (txs_apply_fees _ _ _ _ _ _ _ Ha).
    rewrite (proj2 (connect_spend_Ok svh h t m us f tx (insert_outputs (spent_table t (vin tx)) (txid tx) (vout tx) h false,
      us ++ [mkTxUndo coins], f + fee) Hr Htx Ho Hcb Hh ltac:(lia))).
    + destruct (IH (insert_outputs (spent_table t (vin tx)) (txid tx) (vout tx) h false) (us ++ [mkTxUndo coins]) (f + fee))
        as (t' & Hfold & Hr'); [|done|done|lia|lia|].
      * apply insert_outputs_represents; [by apply spent_represents|done|done].
      * exists t'. rewrite Hfold, <- app_assoc. split; [|done]. cbn. f_equal. f_equal. lia.
    + exists coins, fee. split; [done|]. split; [lia|done].
Qed.

(** ** The size of the undo data *)

Lemma tx_undo_size coins :
  Forall coin_ok coins -> zlen (framed (tx_undo_to_bytes (mkTxUndo coins))) <= 8 + 10021 * zlen coins.
Proof.
  intros Hc. rewrite zlen_framed. unfold tx_undo_to_bytes. cbn [spent_outputs]. rewrite zlen_app, zlen_concat.
  unfold zlen at 1. rewrite length_le_bytes.
  enough (zsum ((fun c => zlen (framed (coin_to_bytes c))) <$> coins) <= 10021 * zlen coins) by lia.
  induction Hc as [|c coins (_ & _ & Hs) _ IH]; [done|]. cbn [fmap list_fmap].
  rewrite zsum_cons, zlen_cons, zlen_framed, zlen_coin_to_bytes. unfold MAX_SCRIPT_SIZE in Hs. lia.
Qed.

Lemma tx_size_inputs tx : tx_ok tx -> 10 + 41 * Z.of_nat (length (vin tx)) <= zlen (tx_to_bytes tx).
Proof.
  intros (_ & [_ Hi] & _). unfold tx_to_bytes. rewrite !zlen_app, !zlen_concat.
  assert (41 * zlen (vin tx) <= zsum ((fun i => zlen (txin_to_bytes i)) <$> vin tx)) as Hin.
  { induction Hi as [|i ins ([Hh _] & _) _ IH]; [done|]. cbn [fmap list_fmap]. rewrite zsum_cons, zlen_cons.
    enough (41 <= zlen (txin_to_bytes i)) by lia. unfold txin_to_bytes, outpoint_to_bytes, zlen.
    rewrite !length_app, !length_le_bytes. unfold hash_ok, HASH_LEN in Hh. pose proof (length_write_varint (Z.of_nat (length (script_sig i)))). lia. }
  assert (0 <= zsum ((fun o => zlen (txout_to_bytes o)) <$> vout tx)) by (apply zsum_nonneg, Forall_fmap, Forall_forall; intros; apply zlen_nonneg).
  pose proof (length_write_varint (zlen (vin tx))). pose proof (length_write_varint (zlen (vout tx))).
  unfold zlen in *. rewrite !length_le_bytes. lia.
Qed.

Lemma txs_apply_wf verify h m txs m' undos fees :
  txs_apply verify h m txs m' undos fees -> wf m -> Forall tx_ok txs -> U 32 h ->
  wf m' /\ Forall (fun u => Forall coin_ok (spent_outputs u)) undos /\
  zsum ((fun u => zlen (framed (tx_undo_to_bytes u))) <$> undos) <= 250 * zsum ((fun tx => zlen (tx_to_bytes tx)) <$> txs).
Proof.
  induction 1 as [m|m tx txs m' undos fees Hcb Ha IH|m tx txs m' undos coins fee fees Hcb Hsp Ha IH]; intros Hm Htxs Hh.
  - split; [done|]. split; [constructor|]. done.
  - apply Forall_cons in Htxs as [Htx Htxs]. destruct IH as (Hw & Hu & Hz); [|done|done|].
    { apply wf_credit; [done|]. by apply created_ok. }
    split; [done|]. split; [done|]. cbn [fmap list_fmap]. rewrite zsum_cons. pose proof (zlen_nonneg (tx_to_bytes tx)). lia.
  - apply Forall_cons in Htxs as [Htx Htxs]. destruct IH as (Hw & Hu & Hz); [|done|done|].
    { apply wf_credit; [by apply wf_debit|]. by apply created_ok. }
    assert (Forall coin_ok coins) as Hc.
    { apply Forall_forall. intros c Hin. destruct (proj1 (list_elem_of_lookup _ _) Hin) as [i Hi].
      destruct Hsp as [_ _ Hco _ _ _ _ _]. destruct (Forall2_lookup_r _ _ _ _ _ Hco Hi) as (o & _ & Ho). by apply (Hm o c Ho). }
    split; [done|]. split; [by constructor|]. cbn [fmap list_fmap]. rewrite !zsum_cons.
    enough (zlen (framed (tx_undo_to_bytes (mkTxUndo coins))) <= 250 * zlen (tx_to_bytes tx)) by lia.
    pose proof (tx_undo_size coins Hc). pose proof (tx_size_inputs tx Htx) as Hts. rewrite <- (length_coins _ _ _ (ts_coins _ _ _ _ _ _ Hsp)) in Hts.
    unfold zlen in *. lia.
Qed.

Lemma zsum_elem {A} (f : A -> Z) l a : (forall a, 0 <= f a) -> a ∈ l -> f a <= zsum (f <$> l).
Proof.
  intros Hf. induction l as [|b l IH]; [set_solver|]. cbn [fmap list_fmap]. rewrite zsum_cons.
  pose proof (zsum_nonneg (f <$> l) ltac:(apply Forall_fmap, Forall_forall; intros; apply Hf)). specialize (Hf b) as Hb.
  intros [->|Ha]%elem_of_cons; [lia|]. specialize (IH Ha). lia.
Qed.

Lemma block_undo_fits verify h m b m' undos fees :
  txs_apply verify h m (transactions b) m' undos fees -> wf m -> block_ok b -> block_rules b -> U 32 h ->
  block_undo_ok (mkBlockUndo undos).
Proof.
  intros Ha Hm (_ & _ & Htxs) [_ Hw _] Hh. destruct (txs_apply_wf _ _ _ _ _ _ _ Ha Hm Htxs Hh) as (_ & Hu & Hz).
  unfold block_serialized_size, MAX_BLOCK_WEIGHT, HEADER_SIZE in Hw.
  assert (0 <= varint_size (zlen (transactions b))) by (unfold varint_size; repeat case_match; lia).
  set (size := zsum ((fun u => zlen (framed (tx_undo_to_bytes u))) <$> undos)) in *. assert (size <= 250 * 1000000) as Hsize by lia.
  assert (forall l : list byte, U 32 (zlen l) <-> zlen l < 2 ^ 32) as HU32 by (intros l; pose proof (zlen_nonneg l); unfold U; lia).
  split.
  - apply Forall_forall. intros u Hin. split; [by eapply Forall_forall in Hu|]. apply HU32.
    assert (zlen (framed (tx_undo_to_bytes u)) <= size) as Hle
      by (by apply (zsum_elem (fun u => zlen (framed (tx_undo_to_bytes u)))); [intros; apply zlen_nonneg|]).
    rewrite zlen_framed in Hle. lia.
  - apply HU32. unfold block_undo_to_bytes. cbn [tx_undos]. rewrite zlen_app, zlen_concat. fold size.
    unfold zlen at 1. rewrite length_le_bytes. lia.
Qed.

(** ** The whole block *)

Lemma check_coinbase_Ok b h fees :
  transactions b <> [] -> 0 <= h -> 0 <= fees ->
  check_coinbase_value b h fees = Ok tt <-> coinbase_bounded h b fees.
Proof.
  intros Hne Hh Hf. unfold check_coinbase_value, coinbase_bounded. destruct (transactions b) as [|cb rest]; [done|]. cbn [head lookup list_lookup].
  pose proof (subsidy_range h Hh) as Hs. split.
  - intros H. apply res_bind_Ok in H as (v & Hv%ok_or_Ok & H). apply res_bind_Ok in H as (mx & [-> Hm]%ok_or_Ok%i64_checked_Some & H).
    destruct (v >? _) eqn:E; [done|]. bool_prop. pose proof (try_sum_Some _ _ _ Hv). exists cb. split; [done|].
    assert (v = zsum (value <$> vout cb)) as <- by lia. split; [done|]. split; [range|lia].
  - intros (cb' & [= <-] & Hv & Hm & Hle). rewrite Hv. cbn [ok_or mbind res_bind].
    unfold i64_checked_add. rewrite i64_checked_in by (unfold INITIAL_SUBSIDY, COIN in *; range). cbn [ok_or mbind res_bind].
    by rewrite Z.gtb_ltb, (proj2 (Z.ltb_ge _ _)) by lia.
Qed.

(** the state of the undo store after a block *)
Definition undo_stored cs (hash : Hash256) (undos : list TxUndo) cs' : Prop :=
  if decide (undos = []) then undo_store cs' = undo_store cs /\ undo_index cs' = undo_index cs
  else exists loc, store_undo_to_file (undo_store cs) hash (mkBlockUndo undos) = Ok (loc, undo_store cs') /\
    undo_index cs' = t_insert (undo_index cs) (loc_hash loc) (loc_file loc, loc_offset loc, loc_size loc).

Definition connected cs (b : Block) (h : Z) (hash : Hash256) (t' : UT) (undos : list TxUndo) cs' : Prop :=
  utxos cs' = t' /\ tip cs' = (hash, h) /\ script_verify_height cs' = script_verify_height cs /\ undo_stored cs hash undos cs' /\
  meta cs' = t_insert (t_insert (meta cs) TIP_KEY (as_bytes hash)) TIP_HEIGHT_KEY (le_bytes 4 h).

Lemma rules_fine b : block_ok b -> block_rules b -> Forall tx_fine (transactions b) /\ transactions b <> [].
Proof.
  intros (_ & _ & Hok) [(cb & rest & E & _) _ Hr]. split; [|by rewrite E].
  rewrite Forall_forall in *. intros tx Hin. split; [by apply Hok|]. apply (Hr tx Hin).
Qed.

Lemma zlen_nil_dec {A} (l : list A) : (zlen l =? 0) = bool_decide (l = []).
Proof. destruct l; [done|]. rewrite bool_decide_false by done. unfold zlen. cbn [length]. apply Z.eqb_neq. lia. Qed.

Lemma connect_block_sound cs m b h hash cs' :
  represents (utxos cs) m -> U 32 (tip cs).2 -> block_ok b -> block_rules b -> connect_block cs b h hash = Ok cs' ->
  U 32 h /\ exists m' undos t', block_applies (script_verify_height cs <? h) h m b m' undos /\ represents t' m' /\
    connected cs b h hash t' undos cs'.
Proof.
  intros Hr Htip Hb Hrules H. destruct (rules_fine b Hb Hrules) as [Hfine Hne]. unfold connect_block in H.
  destruct (negb (h =? _)) eqn:Eh; [done|]. bool_prop. assert (U 32 h) as Hh by (unfold u32_sat_add in Eh; range). split; [done|].
  rewrite (proj2 (zlen_0 _) Hne) in H. apply res_bind_Ok in H as ([[t' undos] fees] & Hfold & H).
  apply connect_txs_sound with (m := m) in Hfold as (m' & undos' & fees' & Ha & Hr' & -> & -> & Hle); [|done|done|done|range].
  apply res_bind_Ok in H as ([] & Hcb & H). cbn [app] in *. rewrite Z.add_0_l in *.
  apply check_coinbase_Ok in Hcb; [|done|apply Hh|by eapply txs_apply_fees].
  exists m', undos', t'. split; [by exists fees'|]. split; [done|]. unfold connected, undo_stored.
  rewrite zlen_nil_dec in H. destruct (decide (undos' = [])) as [->|Hun].
  - cbn in H. injection H as <-. cbn. done.
  - rewrite bool_decide_false in H by done. cbn [negb] in H. apply res_bind_Ok in H as ([us idx] & Hs & [= <-]).
    apply res_bind_Ok in Hs as ([loc us'] & Hs%context_Ok & [= <- <-]). cbn. split; [done|]. split; [done|]. split; [done|].
    split; [|done]. by exists loc.
Qed.

Lemma connect_block_complete cs m b h hash m' undos :
  represents (utxos cs) m -> h = (tip cs).2 + 1 -> U 32 h -> block_ok b -> block_rules b ->
  store_ok (undo_store cs) -> file_number (undo_store cs) < 2 ^ 16 - 1 ->
  block_applies (script_verify_height cs <? h) h m b m' undos -> exists cs', connect_block cs b h hash = Ok cs'.
Proof.
  intros Hr Heq Hh Hb Hrules Hst Hfn (fees & Ha & Hcb). destruct (rules_fine b Hb Hrules) as [Hfine Hne].
  pose proof (txs_apply_fees _ _ _ _ _ _ _ Ha) as Hfees. pose proof (subsidy_range h ltac:(apply Hh)).
  assert (fees <= i64_max) as Hle by (destruct Hcb as (_ & _ & _ & ? & _); lia). unfold connect_block.
  rewrite (proj2 (Z.eqb_eq h _)) by (unfold u32_sat_add; range). cbn [negb]. rewrite (proj2 (zlen_0 _) Hne).
  destruct (connect_txs_complete _ _ _ _ _ _ _ Ha (utxos cs) [] 0 Hr Hfine Hh) as (t' & -> & _); [lia|lia|].
  cbn [mbind res_bind app]. rewrite Z.add_0_l, (proj2 (check_coinbase_Ok b h fees Hne ltac:(apply Hh) Hfees) Hcb). cbn [mbind res_bind].
  rewrite zlen_nil_dec. destruct (decide (undos = [])) as [->|Hun]; [cbn; by eexists|].
  rewrite bool_decide_false by done. cbn [negb].
  destruct (store_undo_ok (undo_store cs) hash (mkBlockUndo undos)) as (loc & us' & ->); [done|done| |cbn; by eexists].
  eapply block_undo_fits; [exact Ha|apply Hr|done..].
Qed.

Lemma connect_block_height cs b h hash cs' : connect_block cs b h hash = Ok cs' -> h = u32_sat_add (tip cs).2 1.
Proof. unfold connect_block. destruct (Z.eqb_spec h (u32_sat_add (tip cs).2 1)) as [E|]; [done|]. done. Qed.

Lemma connect_block_no_panic cs b h hash :
  block_ok b -> block_rules b -> connect_block cs b h hash <> Panic.
Proof.
  intros Hb Hrules. destruct (rules_fine b Hb Hrules) as [Hfine Hne]. unfold connect_block.
  destruct (negb (h =? _)); [done|]. destruct (negb _); [|done].
  assert (forall txs acc, Forall tx_fine txs -> fold_res (connect_tx (script_verify_height cs) h) acc txs <> Panic) as Hnp.
  { induction txs as [|tx txs IH]; intros acc [[Htx Ho] Hf]%Forall_cons || (intros acc _); cbn [fold_res]; [done|].
    pose proof (connect_tx_no_panic (script_verify_height cs) h acc tx Htx Ho). destruct (connect_tx _ h acc tx); [by apply IH|done|done]. }
  specialize (Hnp (transactions b) (utxos cs, [], 0) Hfine). destruct (fold_res _ _ _) as [[[t us] f]| |]; cbn [mbind res_bind]; [|done|done].
  assert (check_coinbase_value b h f <> Panic) as Hc.
  { unfold check_coinbase_value. destruct (head _); [|done]. destruct (try_sum _ _); cbn; [|done].
    destruct (i64_checked_add _ _); cbn; [|done]. by case_match. }
  destruct (check_coinbase_value b h f) as [[]| |]; cbn [mbind res_bind]; [|done|done].
  destruct (negb _); cbn [mbind res_bind]; [|done].
  assert (forall us h u, store_undo_to_file us h u <> Panic) as Hs.
  { intros us0 h0 u0. unfold store_undo_to_file. destruct (_ && _); [|done]. unfold rotate. by destruct (inU 16 _). }
  specialize (Hs (undo_store cs) hash (mkBlockUndo us)). by destruct (store_undo_to_file _ _ _) as [[]| |].
Qed.

(** ** Disconnecting *)

(** putting the spent coins back *)
Lemma restore_inputs_eq (pre coins : list Coin) ins t :
  length coins = length ins ->
  fold_res (restore_input (mkTxUndo (pre ++ coins))) t (imap (fun i x => (length pre + i, x)%nat) ins) =
  Ok (foldl (fun t kv => t_insert t (outpoint_to_key kv.1) (coin_to_bytes kv.2)) t (zip (prev_output <$> ins) coins)).
Proof.
  revert pre coins t. induction ins as [|i ins IH]; intros pre coins t Hlen; destruct coins as [|c coins]; try done.
  cbn [imap fold_res fmap list_fmap zip_with zip foldl fst snd]. rewrite Nat.add_0_r. unfold restore_input at 1. cbn [spent_outputs].
  rewrite lookup_app_r, Nat.sub_diag by lia. cbn [lookup list_lookup ok_or mbind res_bind].
  specialize (IH (pre ++ [c]) coins (t_insert t (outpoint_to_key (prev_output i)) (coin_to_bytes c))).
  rewrite <- app_assoc in IH. cbn [app] in IH. rewrite <- IH by (cbn in Hlen; lia). f_equal. apply imap_ext.
  intros j x _. rewrite length_app. cbn [length compose]. f_equal. lia.
Qed.

Lemma restore_inputs_represents coins tx t m :
  represents t m -> tx_ok tx -> Forall coin_ok coins -> length coins = length (vin tx) ->
  exists t', fold_res (restore_input (mkTxUndo coins)) t (imap pair (vin tx)) = Ok t' /\
    represents t' (credit m (zip (inputs_of tx) coins)).
Proof.
  intros Hr Htx Hc Hlen. eexists. split; [apply (restore_inputs_eq [] coins (vin tx) t Hlen)|].
  apply represents_credit; [done|]. apply Forall_forall. intros [o c] Hin. split; cbn.
  - apply elem_of_zip_l in Hin. unfold inputs_of in Hin. apply list_elem_of_fmap in Hin as (i & -> & Hi). pose proof (inputs_ok tx Htx) as Hok. rewrite Forall_forall in Hok. by apply Hok.
  - apply elem_of_zip_r in Hin. rewrite Forall_forall in Hc. by apply Hc.
Qed.

Lemma coins_ok m l coins : wf m -> Forall2 (fun o c => m !! o = Some c) l coins -> Forall coin_ok coins.
Proof. intros Hm Hf. induction Hf as [|o c l coins Ho Hf IH]; constructor; [|done]. by apply (Hm o c Ho). Qed.

(** one transaction is taken back, on whatever ledger *)
Lemma disconnect_spend verify h m tx coins fee un k t' m1 :
  tx_spends verify h m tx coins fee -> wf m -> tx_ok tx -> is_coinbase tx = false -> tx_undos un !! k = Some (mkTxUndo coins) ->
  represents t' m1 -> exists t, disconnect_tx (Some un) t' (S k, tx) = Ok t /\ represents t (unapply m1 tx coins).
Proof.
  intros Hsp Hm Htx Hcb Hun Hr. unfold disconnect_tx. rewrite Hcb. cbn [negb].
  unfold usize_sub. rewrite (proj2 (Z.ltb_ge _ _)) by lia. cbn [mbind res_bind].
  replace (Z.to_nat (Z.of_nat (S k) - 1)) with k by lia. rewrite Hun. cbn [ok_or mbind res_bind].
  destruct (restore_inputs_represents coins tx (remove_outputs t' tx) _ (remove_outputs_represents t' _ tx Hr Htx) Htx) as (t & -> & Ht).
  - eapply coins_ok; [exact Hm|apply Hsp].
  - eapply length_coins, Hsp.
  - by exists t.
Qed.

(** the ledger [m0] is [m] but for the outputs of the transactions [txs] *)
Definition restored m0 m (txs : list Transaction) : Prop :=
  (forall o, op_txid o ∉ txid <$> txs -> m0 !! o = m !! o) /\ (new_txids m txs -> m0 = m).

(** the transactions after the coinbase, last first, on a ledger that differs from the one they
    led to at most in outputs that they themselves created *)
Lemma disconnect_rest verify h m txs m' undos fees :
  txs_apply verify h m txs m' undos fees -> wf m -> Forall tx_ok txs -> Forall (fun tx => is_coinbase tx = false) txs -> U 32 h ->
  forall un k t', (forall j, tx_undos un !! (k + j)%nat = undos !! j) -> represents t' m' ->
  exists t m0, fold_res (disconnect_tx (Some un)) t' (reverse (imap (fun i tx => (S k + i, tx)%nat) txs)) = Ok t /\ represents t m0 /\ restored m0 m txs.
Proof.
  induction 1 as [m|m tx txs m' undos fees Hcb Ha IH|m tx txs m' undos coins fee fees Hcb Hsp Ha IH]; intros Hm Htxs Hncb Hh un k t' Hun Hr.
  - by exists t', m.
  - apply Forall_cons in Hncb as [? _]. congruence.
  - apply Forall_cons in Htxs as [Htx Htxs]. apply Forall_cons in Hncb as [_ Hncb]. cbn [imap].
    rewrite reverse_cons, fold_res_app, Nat.add_0_r.
    destruct (IH ltac:(apply wf_credit; [by apply wf_debit|by apply created_ok]) Htxs Hncb Hh un (S k) t') as (t1 & m1 & Hf & Hr1 & Hout & Hnew); [|done|].
    { intros j. transitivity ((mkTxUndo coins :: undos) !! S j); [|done]. rewrite <- Hun. f_equal. lia. }
    assert (imap (compose (fun i tx => (S k + i, tx)%nat) S) txs = imap (fun i tx => (S (S k) + i, tx)%nat) txs) as -> by (apply imap_ext; intros; cbn; f_equal; lia).
    rewrite Hf. cbn [mbind res_bind fold_res].
    destruct (disconnect_spend verify h m tx coins fee un k t1 m1) as (t & -> & Ht); [done|done|done|done|specialize (Hun 0%nat); by rewrite Nat.add_0_r in Hun|done|].
    exists t, (unapply m1 tx coins). split; [done|]. split; [done|]. split.
    + intros o Ho. cbn [fmap list_fmap] in Ho. apply not_elem_of_cons in Ho as [Ho1 Ho2]. eapply unapply_outside; [apply Hsp|apply Hsp|done|by apply Hout].
    + intros Hn. rewrite Hnew by (by apply new_txids_tail). apply unapply_spend; [apply Hsp|apply Hsp|]. intros o Ho _. by apply (new_txids_outputs m tx txs).
Qed.

(** ** The state invariant *)

Context `{!TableLaws string (list byte) MT HM}.

(** the tables represent the ledger [m], every recorded undo entry can be loaded,
    and the tip in memory is the stored one *)
Record chain_ok cs m : Prop := {
  co_utxos : represents (utxos cs) m;
  co_store : store_ok (undo_store cs);
  co_index : index_ok (undo_store cs) (undo_index cs);
  co_meta : load_tip (meta cs) = tip cs;
  co_height : U 32 (tip cs).2;
}.

Lemma load_stored_tip (mt : MT) hash h :
  hash_ok hash -> U 32 h -> load_tip (t_insert (t_insert mt TIP_KEY (as_bytes hash)) TIP_HEIGHT_KEY (le_bytes 4 h)) = (hash, h).
Proof.
  intros Hh Hu. unfold load_tip. rewrite get_insert_ne by done. rewrite !get_insert_eq.
  rewrite !bool_decide_true by (done || apply length_le_bytes). rewrite le_val_le_bytes, Z.mod_small by (unfold U in Hu; exact Hu). by destruct hash.
Qed.

Lemma undo_stored_ok cs hash undos cs' :
  store_ok (undo_store cs) -> index_ok (undo_store cs) (undo_index cs) -> block_undo_ok (mkBlockUndo undos) -> undo_stored cs hash undos cs' ->
  store_ok (undo_store cs') /\ index_ok (undo_store cs') (undo_index cs') /\
  (undos <> [] -> load_undo (undo_store cs') (undo_index cs') hash = Ok (mkBlockUndo undos)).
Proof.
  intros Hst Hix Hu. unfold undo_stored. case_decide as Hn; [intros [-> ->]; naive_solver|]. intros (loc & Hs & ->).
  pose proof (store_undo_cases _ hash _ Hst Hu) as H. rewrite Hs in H. destruct H as (Hok & Hh & Hrec & _ & Hkeep). rewrite Hh. split; [done|]. split.
  - intros k l. rewrite get_insert. destruct (decide (as_bytes hash = k)); [intros [= <-]; by eexists|].
    intros Hl. destruct (Hix _ _ Hl) as (u & Hr). exists u. by apply Hkeep.
  - intros _. eapply load_recorded; [apply get_insert_eq|done].
Qed.

Lemma connect_block_ok cs m b h hash cs' :
  chain_ok cs m -> block_ok b -> block_rules b -> hash_ok hash -> connect_block cs b h hash = Ok cs' ->
  exists m' undos fees, txs_apply (script_verify_height cs <? h) h m (transactions b) m' undos fees /\ coinbase_bounded h b fees /\
    chain_ok cs' m' /\ tip cs' = (hash, h) /\ U 32 h /\
    (undos <> [] -> load_undo (undo_store cs') (undo_index cs') hash = Ok (mkBlockUndo undos)).
Proof.
  intros [Hr Hst Hix Hmt Hht] Hb Hrules Hhash Hc.
  destruct (connect_block_sound cs m b h hash cs' Hr Hht Hb Hrules Hc) as (Hh & m' & undos & t' & (fees & Ha & Hcb) & Hr' & Hcon).
  destruct Hcon as (<- & Htip & _ & Hun & Hme). exists m', undos, fees. split; [done|]. split; [done|].
  destruct (undo_stored_ok cs hash undos cs' Hst Hix) as (Hst' & Hix' & Hload);
    [eapply block_undo_fits; [exact Ha|apply Hr|done..]|done|].
  split; [|done]. split; try done; rewrite Htip; [rewrite Hme; by apply load_stored_tip|done].
Qed.

Lemma disconnect_none t tx : disconnect_tx None t (0%nat, tx) = Ok (remove_outputs t tx).
Proof. done. Qed.

(** what was connected last can be taken back *)
Lemma disconnect_txs_ok verify h m b m' undos fees t' un :
  txs_apply verify h m (transactions b) m' undos fees -> wf m -> block_ok b -> block_rules b -> U 32 h ->
  represents t' m' -> (undos <> [] -> un = Some (mkBlockUndo undos)) -> (undos = [] -> un = None) ->
  exists t m0, fold_res (disconnect_tx un) t' (reverse (imap pair (transactions b))) = Ok t /\ represents t m0 /\ restored m0 m (transactions b).
Proof.
  intros Ha Hm (_ & _ & Hok) [(cb & rest & E & Hcb & Hrest) _ _] Hh Hr Hun Hnun. rewrite E in *.
  inversion Ha as [|? ? ? ? ? ? _ Hrest_ap|? ? ? ? ? ? ? ? Hnc]; subst; [|congruence]. apply Forall_cons in Hok as [Htx Hok].
  assert (wf (credit m (created h true cb))) as Hm1 by (apply wf_credit; [done|by apply created_ok]).
  cbn [imap]. rewrite reverse_cons, fold_res_app.
  assert (exists t1 m1, fold_res (disconnect_tx un) t' (reverse (imap (compose pair S) rest)) = Ok t1 /\ represents t1 m1 /\ restored m1 (credit m (created h true cb)) rest) as (t1 & m1 & -> & Hr1 & Hout & Hnew).
  { destruct undos as [|u undos].
    - inversion Hrest_ap; subst; [by exists t', (credit m (created h true cb))|]. apply Forall_cons in Hrest as [? _]. congruence.
    - rewrite (Hun ltac:(done)).
      destruct (disconnect_rest _ _ _ _ _ _ _ Hrest_ap Hm1 Hok Hrest Hh (mkBlockUndo (u :: undos)) 0 t') as (t1 & m1 & Hf & Hr1 & H1); [done|done|].
      exists t1, m1. split; [|done]. rewrite <- Hf. f_equal. }
  cbn [mbind res_bind fold_res]. assert (disconnect_tx un t1 (0%nat, cb) = Ok (remove_outputs t1 cb)) as ->
    by (unfold disconnect_tx; rewrite Hcb; by destruct un).
  eexists _, _. split; [done|]. split; [exact (remove_outputs_represents t1 _ cb Hr1 Htx)|]. split.
  - intros o Ho. cbn [fmap list_fmap] in Ho. apply not_elem_of_cons in Ho as [Ho1 Ho2]. rewrite lookup_debit, decide_False by (intros Hc%created_txid; done).
    rewrite (Hout o Ho2). apply lookup_credit_notin. intros Hc%created_txid. done.
  - intros Hn. rewrite Hnew by exact (new_txids_tail m cb rest [] h true Hn). rewrite uncreate; [done|]. intros o. by apply (new_txids_outputs m cb rest).
Qed.

Lemma undos_count verify h m txs m' undos fees :
  txs_apply verify h m txs m' undos fees -> length undos = length (filter (fun tx => is_coinbase tx = false) txs).
Proof.
  induction 1 as [|m tx txs m' undos fees Hcb Ha IH|m tx txs m' undos coins fee fees Hcb Hsp Ha IH]; [done| |].
  - by rewrite filter_cons_False by congruence.
  - rewrite filter_cons_True by done. cbn. by rewrite IH.
Qed.

(** the undo record of a block can be loaded; a block without spends has none *)
Definition undo_loads cs (hash : Hash256) (undos : list TxUndo) : Prop :=
  undos <> [] -> load_undo (undo_store cs) (undo_index cs) hash = Ok (mkBlockUndo undos).

(** a state in which a block was applied last is taken back, however it came about *)
Lemma disconnect_applied cs' verify m m' b h hash undos fees :
  chain_ok cs' m' -> txs_apply verify h m (transactions b) m' undos fees -> wf m -> block_ok b -> block_rules b ->
  U 32 h -> U 32 (h - 1) -> tip cs' = (hash, h) -> undo_loads cs' hash undos ->
  exists cs'' m0, disconnect_block cs' b h hash = Ok cs'' /\ chain_ok cs'' m0 /\ restored m0 m (transactions b) /\ tip cs'' = (prev_hash (header b), h - 1) /\
    undo_index cs'' = undo_index cs' /\ undo_store cs'' = undo_store cs' /\ script_verify_height cs'' = script_verify_height cs'.
Proof.
  intros Hok' Ha Hm Hb Hrules Hh Hht Htip' Hload. unfold disconnect_block.
  rewrite (proj2 (Z.eqb_neq h 0)) by (unfold U in *; lia). rewrite Htip'. rewrite bool_decide_true, Z.eqb_refl by done. cbn [negb orb].
  rewrite u32_sub_Ok by done. cbn [mbind res_bind]. pose proof (undos_count _ _ _ _ _ _ _ Ha) as Hcount.
  assert (exists un, (if zlen (filter (fun tx => is_coinbase tx = false) (transactions b)) >? 0
    then undo ← context "failed to load block undo data" (load_undo (undo_store cs') (undo_index cs') hash);
      (if negb (zlen (tx_undos undo) =? zlen (filter (fun tx => is_coinbase tx = false) (transactions b)))
       then Err "undo data does not match the block" else Ok (Some undo))
    else Ok None) = (Ok un : result (option BlockUndo)) /\ (undos <> [] -> un = Some (mkBlockUndo undos)) /\ (undos = [] -> un = None)) as (un & -> & Hun & Hnun).
  { unfold zlen. rewrite <- Hcount. destruct undos as [|u undos]; [by exists None|].
    exists (Some (mkBlockUndo (u :: undos))). rewrite Z.gtb_ltb, (proj2 (Z.ltb_lt _ _)) by (cbn [length]; lia).
    rewrite (Hload ltac:(done)). cbn [context mbind res_bind tx_undos]. rewrite Z.eqb_refl. done. }
  cbn [mbind res_bind].
  destruct (disconnect_txs_ok _ _ _ b _ _ _ (utxos cs') un Ha Hm Hb Hrules Hh (co_utxos cs' m' Hok') Hun Hnun) as (t & m0 & -> & Hr & Hres).
  cbn [mbind res_bind]. eexists _, m0. split; [done|]. cbn. split; [|done]. destruct Hok' as [_ Hst Hix _ _].
  split; cbn; try done. apply load_stored_tip; [|done]. apply Hb.
Qed.

Lemma disconnect_block_ok cs m b h hash cs' :
  chain_ok cs m -> block_ok b -> block_rules b -> hash_ok hash -> connect_block cs b h hash = Ok cs' ->
  exists cs'' m0, disconnect_block cs' b h hash = Ok cs'' /\ chain_ok cs'' m0 /\ restored m0 m (transactions b) /\ tip cs'' = (prev_hash (header b), h - 1).
Proof.
  intros Hok Hb Hrules Hhash Hc.
  destruct (connect_block_ok cs m b h hash cs' Hok Hb Hrules Hhash Hc) as (m' & undos & fees & Ha & _ & Hok' & Htip' & Hh & Hload).
  assert (U 32 (h - 1)) as Hht by (pose proof (connect_block_height _ _ _ _ _ Hc) as E; pose proof (co_height cs m Hok); unfold u32_sat_add, u32_max in E; unfold U in *; lia).
  destruct (disconnect_applied cs' _ m m' b h hash undos fees Hok' Ha (rp_wf _ _ (co_utxos cs m Hok)) Hb Hrules Hh Hht Htip' Hload)
    as (cs'' & m0 & Hd & Hok'' & Hres & Htip'' & _). by exists cs'', m0.
Qed.
End Connect.

(** ** Properties *)

Section Properties.
Context `{HS : Sha256} `{!Sha256Len HS} `{HD : Digests} `{!DigestsLen HD} `{HK : K256}.
Context {UT MT IT : Type} {HU : Table (list byte) (list byte) UT} `{!TableLaws (list byte) (list byte) UT HU}.
Context {HM : Table string (list byte) MT} `{!TableLaws string (list byte) MT HM}.
Context {HI : Table (list byte) (Z * Z * Z) IT} `{!TableLaws (list byte) (Z * Z * Z) IT HI}.

(** blocks connected one after the other, each at the next height *)
Definition connect_chain (cs : ChainState UT MT IT) (blocks : list (Block * Hash256)) : result (ChainState UT MT IT) :=
  fold_res (fun cs '(b, hash) => connect_block cs b ((tip cs).2 + 1) hash) cs blocks.

Lemma connect_chain_total blocks (cs cs' : ChainState UT MT IT) m n :
  Forall (fun '(b, _) => block_ok b /\ block_rules b) blocks -> (tip cs).2 = Z.of_nat n -> Z.of_nat n + zlen blocks < 2 ^ 32 ->
  represents (utxos cs) m -> nonneg m -> total m <= total_subsidy (S n) -> connect_chain cs blocks = Ok cs' ->
  exists m', represents (utxos cs') m' /\ nonneg m' /\ total m' <= total_subsidy (S (n + length blocks)).
Proof.
  intros Hbs. revert cs m n. induction Hbs as [|[b hash] blocks [Hb Hrules] Hbs IH]; intros cs m n Htip Hlen Hr Hm Ht Hc.
  - cbn in Hc. injection Hc as <-. exists m. by rewrite Nat.add_0_r.
  - unfold connect_chain in Hc. cbn [fold_res] in Hc. destruct (connect_block cs b _ hash) as [cs1| |] eqn:E; [|done|done].
    rewrite zlen_cons in Hlen. pose proof (zlen_nonneg blocks).
    destruct (connect_block_sound cs m b _ hash cs1 Hr ltac:(rewrite Htip; unfold U; lia) Hb Hrules E) as (_ & m1 & undos & t1 & Ha & Hr1 & Hcon).
    destruct Hcon as (<- & Htip1 & _). destruct (block_applies_total _ _ _ _ _ _ Hrules Ha Hm) as [Hm1 Ht1].
    assert ((tip cs).2 + 1 = Z.of_nat (S n)) as Hn1 by lia. rewrite Hn1 in *.
    destruct (IH cs1 m1 (S n)) as (m' & Hr' & Hm' & Ht'); try done.
    + by rewrite Htip1.
    + lia.
    + cbn [total_subsidy] in Ht |- *. lia.
    + exists m'. split; [done|]. split; [done|]. cbn [length]. by replace (n + S (length blocks))%nat with (S n + length blocks)%nat by lia.
Qed.

(** C2: [connect_block] implements the ledger transition.  On a consistent state
    at the height before the block's, with a file number to spare in the undo
    store, it never panics; it succeeds exactly when the ledger rules allow the
    block (every input unspent, mature and its script satisfied, no value
    created, the coinbase within subsidy and fees), and then the new tables
    represent the resulting ledger, the tip is the block's, in memory and on
    disk, and the state is consistent again. *)
Theorem connect_block_refines (cs : ChainState UT MT IT) (m : ledger) (b : Block) (h : Z) (hash : Hash256) :
  chain_ok cs m -> block_ok b -> check_block b = Ok tt -> hash_ok hash -> h = (tip cs).2 + 1 -> U 32 h ->
  file_number (undo_store cs) < 2 ^ 16 - 1 ->
  match connect_block cs b h hash with
  | Ok cs' => exists m' undos, block_applies (script_verify_height cs <? h) h m b m' undos /\ chain_ok cs' m' /\ tip cs' = (hash, h)
  | Err _ => forall m' undos, ~ block_applies (script_verify_height cs <? h) h m b m' undos
  | Panic => False
  end.
Proof.
  intros Hok Hb Hrules%check_block_Ok Hhash Hh Hu Hfn. destruct (connect_block cs b h hash) as [cs'|e|] eqn:E.
  - destruct (connect_block_ok cs m b h hash cs' Hok Hb Hrules Hhash E) as (m' & undos & fees & Ha & Hcb & Hok' & Htip & _).
    exists m', undos. split; [by exists fees|done].
  - intros m' undos Ha. destruct (connect_block_complete cs m b h hash m' undos (co_utxos _ _ Hok) Hh Hu Hb Hrules (co_store _ _ Hok) Hfn Ha) as [cs' E'].
    congruence.
  - by apply (connect_block_no_panic cs b h hash Hb Hrules).
Qed.

(** C4: [disconnect_block] takes back what [connect_block] did.  If a block was connected,
    whatever its parent, disconnecting it succeeds and the state is consistent: its
    tip is the block's parent, one height below, in memory and on disk, and the
    ledger is as before for every output that is not one of the block's own
    transactions.  Where the block's transaction identifiers were new ([connect_block] does not check
    this; an output with the same identifier would be overwritten) the ledger is the one before the
    block, and where it was connected on its parent the tip is the tip before. *)
Theorem disconnect_restores (cs cs' : ChainState UT MT IT) (m : ledger) (b : Block) (h : Z) (hash : Hash256) :
  chain_ok cs m -> block_ok b -> check_block b = Ok tt -> hash_ok hash -> connect_block cs b h hash = Ok cs' ->
  exists cs'' m0, disconnect_block cs' b h hash = Ok cs'' /\ chain_ok cs'' m0 /\
    (forall o, op_txid o ∉ txid <$> transactions b -> m0 !! o = m !! o) /\ (new_txids m (transactions b) -> m0 = m) /\
    tip cs'' = (prev_hash (header b), h - 1) /\ (prev_hash (header b) = (tip cs).1 -> (tip cs).2 < u32_max -> tip cs'' = tip cs).
Proof.
  intros Hok Hb Hrules%check_block_Ok Hhash Hc.
  destruct (disconnect_block_ok cs m b h hash cs' Hok Hb Hrules Hhash Hc) as (cs'' & m0 & Hd & Hok'' & [Hout Hnew] & Htip''). exists cs'', m0. do 5 (split; [done|]).
  intros Hp Hlt. rewrite Htip'', Hp. pose proof (connect_block_height _ _ _ _ _ Hc) as E. unfold u32_sat_add in E. destruct (tip cs) as [p k]. cbn in *. f_equal. lia.
Qed.

(** C5: no money from nothing.  Starting from an empty UTXO table at height 0,
    after any sequence of valid blocks that [connect_block] accepts, the coins in
    the table are worth at most the sum of the subsidies so far, and never more
    than [MAX_MONEY]. *)
Theorem no_inflation (cs cs' : ChainState UT MT IT) (blocks : list (Block * Hash256)) :
  represents (utxos cs) ∅ -> (tip cs).2 = 0 -> Forall (fun '(b, _) => block_ok b /\ check_block b = Ok tt) blocks ->
  zlen blocks < 2 ^ 32 -> connect_chain cs blocks = Ok cs' ->
  exists m, represents (utxos cs') m /\ 0 <= total m <= total_subsidy (S (length blocks)) /\ total m <= MAX_MONEY.
Proof.
  intros Hr Htip Hbs Hlen Hc. destruct (connect_chain_total blocks cs cs' ∅ 0) as (m & Hr' & Hm & Ht); try done.
  - eapply Forall_impl; [exact Hbs|]. intros [b hash] [Hb Hck%check_block_Ok]. done.
  - exists m. split; [done|]. rewrite Nat.add_0_l in Ht. pose proof (total_nonneg m Hm). pose proof (total_subsidy_range (S (length blocks))). lia.
Qed.
End Properties.

(** ** Examples *)

Definition byte_table : Type := gmap (list byte) (list byte).
Definition meta_table : Type := gmap string (list byte).

Definition sample_outpoint : OutPoint := mkOutPoint (mkHash (replicate 32 x07)) 0.
Definition sample_coin : Coin := mkCoin (mkTxOut 500 [x51]) 1 false.

(** a chain state with one coin, at height 199 *)
Definition sample_state : ChainState byte_table meta_table sample_index :=
  mkChainState
    (t_insert (t_empty : byte_table) (outpoint_to_key sample_outpoint) (coin_to_bytes sample_coin))
    (t_insert (t_insert (t_empty : meta_table) TIP_KEY (as_bytes HASH_ZERO)) TIP_HEIGHT_KEY (le_bytes 4 199))
    t_empty (mkUndoStore {[0 := []]} DEFAULT_MAX_FILE_SIZE 0 0) (HASH_ZERO, 199) 0.

(** a state before the first block *)
Definition empty_state : ChainState byte_table meta_table sample_index :=
  mkChainState t_empty t_empty t_empty (mkUndoStore {[0 := []]} DEFAULT_MAX_FILE_SIZE 0 0) (HASH_ZERO, 0) 0.

Lemma represents_empty {UT} {HU : Table (list byte) (list byte) UT} `{!TableLaws (list byte) (list byte) UT HU} :
  represents (t_empty : UT) ∅.
Proof. split; [|done]. intros o _. by rewrite get_empty, lookup_empty. Qed.

(** a block that parses back is well-formed *)
Lemma block_ok_parse b : block_from_cursor (block_to_bytes b) = Ok (b, []) -> block_ok b.
Proof. intros Hp%(encode_decode (c := block_codec)). apply Hp. Qed.

Lemma sample_state_ok : chain_ok sample_state {[sample_outpoint := sample_coin]}.
Proof.
  split.
  - apply represents_insert; [apply represents_empty|]. split; split; try done; by apply inU_spec.
  - split; cbn; try done. intros n Hn. unfold contents. by rewrite lookup_singleton_ne by lia.
  - intros k l Hk. change (t_get (t_empty : sample_index) k = Some l) in Hk. by rewrite get_empty in Hk.
  - vm_compute. reflexivity.
  - by apply inU_spec.
Qed.

Lemma sample_block_new : @new_txids toy_sha256 {[sample_outpoint := sample_coin]} (transactions (bip34_block 200)).
Proof.
  split.
  - apply (bool_decide_unpack _). vm_compute. exact Logic.I.
  - intros o Ho. apply lookup_singleton_ne. intros <-. revert Ho. apply (bool_decide_unpack (_ ∉ _)). vm_compute. exact Logic.I.
Qed.

Lemma connect_block_refines_witness :
  exists cs' m' undos, @connect_block toy_sha256 toy_digests toy_k256 _ _ _ _ _ _ sample_state (bip34_block 200) 200 HASH_ZERO = Ok cs' /\
    @block_applies toy_sha256 toy_digests toy_k256 true 200 {[sample_outpoint := sample_coin]} (bip34_block 200) m' undos.
Proof.
  pose proof (@connect_block_refines toy_sha256 _ toy_digests _ toy_k256 byte_table meta_table sample_index _ _ _ _ _ _
    sample_state {[sample_outpoint := sample_coin]} (bip34_block 200) 200 HASH_ZERO sample_state_ok) as Hc.
  specialize (Hc ltac:(apply block_ok_parse; vm_compute; reflexivity) ltac:(vm_compute; reflexivity) eq_refl eq_refl
    ltac:(by apply inU_spec) eq_refl).
  assert (exists cs', @connect_block toy_sha256 toy_digests toy_k256 _ _ _ _ _ _ sample_state (bip34_block 200) 200 HASH_ZERO = Ok cs') as [cs' E]
    by (apply is_ok_Ok; vm_compute; reflexivity).
  rewrite E in Hc. destruct Hc as (m' & undos & Ha & _). exists cs', m', undos. split; [exact E|exact Ha].
Defined.

Lemma disconnect_restores_witness :
  exists cs' cs'', @connect_block toy_sha256 toy_digests toy_k256 _ _ _ _ _ _ sample_state (bip34_block 200) 200 HASH_ZERO = Ok cs' /\
    @disconnect_block toy_sha256 _ _ _ _ _ _ cs' (bip34_block 200) 200 HASH_ZERO = Ok cs'' /\
    chain_ok cs'' {[sample_outpoint := sample_coin]}.
Proof.
  assert (exists cs', @connect_block toy_sha256 toy_digests toy_k256 _ _ _ _ _ _ sample_state (bip34_block 200) 200 HASH_ZERO = Ok cs') as [cs' E]
    by (apply is_ok_Ok; vm_compute; reflexivity).
  destruct (@disconnect_restores toy_sha256 _ toy_digests _ toy_k256 byte_table meta_table sample_index _ _ _ _ _ _
    sample_state cs' {[sample_outpoint := sample_coin]} (bip34_block 200) 200 HASH_ZERO sample_state_ok) as (cs'' & m0 & Hd & Hok & _ & Hnew & _).
  - apply block_ok_parse. vm_compute. reflexivity.
  - vm_compute. reflexivity.
  - reflexivity.
  - exact E.
  - rewrite (Hnew sample_block_new) in Hok. exists cs', cs''. split; [exact E|]. split; [exact Hd|exact Hok].
Defined.

(** a block with only its coinbase *)
Definition coinbase_block (height : Z) : Block :=
  mkBlock (mkHeader 2 HASH_ZERO HASH_ZERO 1387838302 0x1e0ffff0 0) [bip34_coinbase height].

Lemma no_inflation_witness :
  exists cs' m, @connect_chain toy_sha256 toy_digests toy_k256 _ _ _ _ _ _ empty_state
      [(coinbase_block 1, HASH_ZERO); (coinbase_block 2, HASH_ZERO)] = Ok cs' /\
    represents (utxos cs') m /\ total m <= MAX_MONEY.
Proof.
  assert (exists cs', @connect_chain toy_sha256 toy_digests toy_k256 _ _ _ _ _ _ empty_state
      [(coinbase_block 1, HASH_ZERO); (coinbase_block 2, HASH_ZERO)] = Ok cs') as [cs' E] by (apply is_ok_Ok; vm_compute; reflexivity).
  destruct (@no_inflation toy_sha256 _ toy_digests toy_k256 byte_table meta_table sample_index _ _ _ _ empty_state cs'
    [(coinbase_block 1, HASH_ZERO); (coinbase_block 2, HASH_ZERO)]) as (m & Hr & _ & Ht).
  - apply represents_empty.
  - reflexivity.
  - do 2 (apply Forall_cons; split; [split; [apply block_ok_parse; vm_compute; reflexivity|vm_compute; reflexivity]|]). constructor.
  - reflexivity.
  - exact E.
  - exists cs', m. split; [exact E|]. split; [exact Hr|exact Ht].
Defined.
