(* ===== verification/Pow.v ===== *)
(** * Pow: scrypt and the proof-of-work check

    Models src/src/pow/scrypt_native.rs (scrypt with N = 1024, r = 1, p = 1 on
    arrays of 32-bit words, with a caller-provided scratchpad) and
    [check_proof_of_work] of src/src/pow/mod.rs.  A word is a [Z] below 2^32, an
    array of words a list of the array's length.  A streaming SHA-256 hasher is
    the bytes it has absorbed, so that cloning the hasher after the pad is
    sharing a prefix.

    The second half of the file is the algorithm as RFC 7914 and RFC 2898 state
    it, and the proof that the hand-optimised routine computes it whatever the
    scratchpad held before. *)
From Stdlib Require Import Strings.Byte.
From stdpp Require Import base numbers list strings.
From S2P Require Import Prelude Codec Types Compact.

(** ** Words *)

Definition wadd (a b : Z) : Z := (a + b) mod 2 ^ 32.
Definition rotl (a n : Z) : Z := Z.lor (Z.shiftl a n mod 2 ^ 32) (Z.shiftr a (32 - n)).

(** [x[i]] on an array with a constant index *)
Definition word_at (x : list Z) (i : nat) : Z := nth i x 0.

(** ** Salsa20/8 (scrypt_native.rs) *)

(** [x[a] ^= x[b].wrapping_add(x[c]).rotate_left(k)] *)
Definition mix (x : list Z) (op : nat * nat * nat * Z) : list Z :=
  let '(a, b, c, k) := op in
  <[a := Z.lxor (word_at x a) (rotl (wadd (word_at x b) (word_at x c)) k)]> x.

(** the statements of one double round, in order: the columns, then the rows *)
Definition double_round : list (nat * nat * nat * Z) :=
  [ (4, 0, 12, 7%Z); (8, 4, 0, 9%Z); (12, 8, 4, 13%Z); (0, 12, 8, 18%Z);
    (9, 5, 1, 7%Z); (13, 9, 5, 9%Z); (1, 13, 9, 13%Z); (5, 1, 13, 18%Z);
    (14, 10, 6, 7%Z); (2, 14, 10, 9%Z); (6, 2, 14, 13%Z); (10, 6, 2, 18%Z);
    (3, 15, 11, 7%Z); (7, 3, 15, 9%Z); (11, 7, 3, 13%Z); (15, 11, 7, 18%Z);
    (1, 0, 3, 7%Z); (2, 1, 0, 9%Z); (3, 2, 1, 13%Z); (0, 3, 2, 18%Z);
    (6, 5, 4, 7%Z); (7, 6, 5, 9%Z); (4, 7, 6, 13%Z); (5, 4, 7, 18%Z);
    (11, 10, 9, 7%Z); (8, 11, 10, 9%Z); (9, 8, 11, 13%Z); (10, 9, 8, 18%Z);
    (12, 15, 14, 7%Z); (13, 12, 15, 9%Z); (14, 13, 12, 13%Z); (15, 14, 13, 18%Z) ]%nat.

Definition salsa20_8_core (b : list Z) : list Z :=
  let x := Nat.iter 4 (fun x => foldl mix x double_round) b in
  zip_with wadd b x.

Definition block_mix_salsa8 (x : list Z) : list Z :=
  let t := drop 16 x in
  let t := zip_with Z.lxor t (take 16 x) in
  let t := salsa20_8_core t in
  let x := t ++ drop 16 x in
  let t := zip_with Z.lxor t (drop 16 x) in
  let t := salsa20_8_core t in
  take 16 x ++ t.

(** ** SMix *)

Definition SCRYPT_N : nat := 1024.

(** four bytes of an array as a little-endian word *)
Fixpoint words (b : list byte) : list Z :=
  match b with
  | b0 :: b1 :: b2 :: b3 :: rest => le_val [b0; b1; b2; b3] :: words rest
  | _ => []
  end.

(** [for entry in v.iter_mut() { *entry = x; block_mix_salsa8(&mut x) }] *)
Fixpoint smix_fill (v : list (list Z)) (x : list Z) : list (list Z) * list Z :=
  match v with
  | [] => ([], x)
  | _ :: v =>
    let '(v', x') := smix_fill v (block_mix_salsa8 x) in
    (x :: v', x')
  end.

Definition smix_lookup (v : list (list Z)) (x : list Z) : list Z :=
  let j := Z.to_nat (Z.land (word_at x 16) (Z.of_nat SCRYPT_N - 1)) in
  let x := zip_with Z.lxor x (nth j v []) in
  block_mix_salsa8 x.

Definition smix (b : list byte) (v : list (list Z)) : list byte :=
  let x := words b in
  let '(v, x) := smix_fill v x in
  let x := Nat.iter SCRYPT_N (smix_lookup v) x in
  concat (map (le_bytes 4) x).

(** ** PBKDF2 with one iteration *)

(** [u32::to_be_bytes] *)
Definition be_bytes4 (z : Z) : list byte := reverse (le_bytes 4 z).

Definition xor_byte (a b : byte) : byte := z2b (Z.lxor (b2z a) (b2z b)).

Section Scrypt.
Context `{HS : Sha256}.

(** [for i in 0..key_len { pad[i] ^= key_buf[i] }] on a pad of 64 equal bytes *)
Definition key_pad (fill : byte) (key : list byte) : list byte :=
  zip_with xor_byte (replicate (length key) fill) key ++ replicate (64 - length key) fill.

Definition pbkdf2_block (inner_base outer_base salt : list byte) (block_idx : nat) : list byte :=
  let inner_hash := sha256 (inner_base ++ salt ++ be_bytes4 (Z.of_nat block_idx)) in
  sha256 (outer_base ++ inner_hash).

(** the loop over the blocks writes [output[start..end]], here appended in order *)
Definition pbkdf2_sha256_single (password salt : list byte) (output_len : nat) : list byte :=
  let blocks_needed := ((output_len + 31) / 32)%nat in
  let key := if decide (64 < length password)%nat then sha256 password else password in
  let ipad := key_pad x36 key in
  let opad := key_pad x5c key in
  concat (map (fun block_idx =>
    let start := ((block_idx - 1) * 32)%nat in
    let last := Nat.min output_len (start + 32) in
    take (last - start) (pbkdf2_block ipad opad salt block_idx)) (seq 1 blocks_needed)).

Definition scrypt_1024_1_1_256 (input : list byte) (scratchpad : list (list Z)) : list byte :=
  let b := pbkdf2_sha256_single input input 128 in
  let b := smix b scratchpad in
  pbkdf2_sha256_single input b 32.

(** ** The check (pow/mod.rs) *)

(** the thread-local scratchpad as it is first allocated; the result does not
    depend on what it holds *)
Definition SCRATCHPAD : list (list Z) := replicate SCRYPT_N (replicate 32 0).

Definition pow_hash (header : BlockHeader) : list byte :=
  scrypt_1024_1_1_256 (header_to_bytes header) SCRATCHPAD.

Definition check_proof_of_work (header : BlockHeader) : bool :=
  let '(target, negative, overflow) := compact_to_target (bits header) in
  if negative || overflow || (target =? 0) then false else
  let hash_u256 := le_val (pow_hash header) in
  hash_u256 <=? target.

(** ** The algorithm of RFC 7914 *)

Definition quarterround (y : Z * Z * Z * Z) : Z * Z * Z * Z :=
  let '(y0, y1, y2, y3) := y in
  let z1 := Z.lxor y1 (rotl (wadd y0 y3) 7) in
  let z2 := Z.lxor y2 (rotl (wadd z1 y0) 9) in
  let z3 := Z.lxor y3 (rotl (wadd z2 z1) 13) in
  let z0 := Z.lxor y0 (rotl (wadd z3 z2) 18) in
  (z0, z1, z2, z3).

Definition columnround (y : list Z) : list Z :=
  match y with
  | [y0; y1; y2; y3; y4; y5; y6; y7; y8; y9; y10; y11; y12; y13; y14; y15] =>
    let '(z0, z4, z8, z12) := quarterround (y0, y4, y8, y12) in
    let '(z5, z9, z13, z1) := quarterround (y5, y9, y13, y1) in
    let '(z10, z14, z2, z6) := quarterround (y10, y14, y2, y6) in
    let '(z15, z3, z7, z11) := quarterround (y15, y3, y7, y11) in
    [z0; z1; z2; z3; z4; z5; z6; z7; z8; z9; z10; z11; z12; z13; z14; z15]
  | _ => y
  end.

Definition rowround (y : list Z) : list Z :=
  match y with
  | [y0; y1; y2; y3; y4; y5; y6; y7; y8; y9; y10; y11; y12; y13; y14; y15] =>
    let '(z0, z1, z2, z3) := quarterround (y0, y1, y2, y3) in
    let '(z5, z6, z7, z4) := quarterround (y5, y6, y7, y4) in
    let '(z10, z11, z8, z9) := quarterround (y10, y11, y8, y9) in
    let '(z15, z12, z13, z14) := quarterround (y15, y12, y13, y14) in
    [z0; z1; z2; z3; z4; z5; z6; z7; z8; z9; z10; z11; z12; z13; z14; z15]
  | _ => y
  end.

Definition salsa20_8 (x : list Z) : list Z :=
  zip_with wadd x (Nat.iter 4 (fun x => rowround (columnround x)) x).

(** scryptBlockMix on a list of 64-byte blocks: the outputs with even index, then
    those with odd index *)
Fixpoint blockmix_outputs (x : list Z) (blocks : list (list Z)) : list (list Z) :=
  match blocks with
  | [] => []
  | b :: blocks => let y := salsa20_8 (zip_with Z.lxor x b) in y :: blockmix_outputs y blocks
  end.
Fixpoint evens {A} (l : list A) : list A :=
  match l with
  | x :: _ :: l => x :: evens l
  | l => l
  end.
Definition scrypt_block_mix (blocks : list (list Z)) : list (list Z) :=
  let ys := blockmix_outputs (default [] (last blocks)) blocks in
  evens ys ++ evens (tail ys).

(** scryptROMix with N = 1024 on the two blocks of r = 1 *)
Definition integerify (x : list (list Z)) : Z := word_at (default [] (last x)) 0.
Definition romix_v (x : list (list Z)) (i : nat) : list (list Z) := Nat.iter i scrypt_block_mix x.
Definition romix_step (x0 x : list (list Z)) : list (list Z) :=
  let j := Z.to_nat (integerify x mod Z.of_nat SCRYPT_N) in
  scrypt_block_mix (zip_with (zip_with Z.lxor) x (romix_v x0 j)).
Definition scrypt_romix (x : list (list Z)) : list (list Z) :=
  Nat.iter SCRYPT_N (romix_step x) (romix_v x SCRYPT_N).

(** HMAC-SHA256 and PBKDF2 with one iteration *)
Definition hmac_sha256 (key m : list byte) : list byte :=
  let key := if decide (64 < length key)%nat then sha256 key else key in
  let k0 := key ++ replicate (64 - length key) x00 in
  sha256 (map (xor_byte x5c) k0 ++ sha256 (map (xor_byte x36) k0 ++ m)).
Definition pbkdf2 (password salt : list byte) (dk_len : nat) : list byte :=
  take dk_len (concat (map (fun i => hmac_sha256 password (salt ++ be_bytes4 (Z.of_nat i))) (seq 1 ((dk_len + 31) / 32)))).

(** scrypt (password = salt = input, N = 1024, r = 1, p = 1, dkLen = 32) *)
Definition scrypt_rfc7914 (input : list byte) : list byte :=
  let x := words (pbkdf2 input input 128) in
  let b := concat (map (le_bytes 4) (concat (scrypt_romix [take 16 x; drop 16 x]))) in
  pbkdf2 input b 32.

(** ** The rounds *)

Lemma iter_S {A} (f : A -> A) n x : Nat.iter (S n) f x = f (Nat.iter n f x).
Proof. done. Qed.

Lemma list16 {A} (x : list A) : length x = 16%nat ->
  exists a0 a1 a2 a3 a4 a5 a6 a7 a8 a9 a10 a11 a12 a13 a14 a15,
    x = [a0; a1; a2; a3; a4; a5; a6; a7; a8; a9; a10; a11; a12; a13; a14; a15].
Proof. intros Hx. do 16 (destruct x as [|? x]; [done|]). destruct x; [|done]. by do 16 eexists. Qed.

Lemma double_round_eq x : length x = 16%nat -> foldl mix x double_round = rowround (columnround x).
Proof.
  intros Hx. destruct (list16 x Hx) as (a0 & a1 & a2 & a3 & a4 & a5 & a6 & a7 & a8 & a9 & a10 & a11 & a12 & a13 & a14 & a15 & ->).
  unfold double_round, columnround, rowround, quarterround. cbn [foldl mix word_at nth insert list_insert]. reflexivity.
Qed.

Lemma length_mix l x : length (foldl mix x l) = length x.
Proof. revert x. induction l as [|[[[a b] c] k] l IH]; intros x; [done|]. cbn [foldl]. rewrite IH. unfold mix. apply length_insert. Qed.

Lemma length_rounds n x : length (Nat.iter n (fun x => foldl mix x double_round) x) = length x.
Proof. induction n as [|n IH]; [done|]. rewrite !iter_S. by rewrite length_mix. Qed.

Lemma rounds_eq n x : length x = 16%nat ->
  Nat.iter n (fun x => foldl mix x double_round) x = Nat.iter n (fun x => rowround (columnround x)) x.
Proof. intros Hx. induction n as [|n IH]; [done|]. rewrite !iter_S. rewrite <- IH. apply double_round_eq. by rewrite length_rounds. Qed.

Lemma salsa_eq x : length x = 16%nat -> salsa20_8_core x = salsa20_8 x.
Proof. intros Hx. unfold salsa20_8_core, salsa20_8. by rewrite rounds_eq. Qed.

Lemma length_salsa x : length (salsa20_8_core x) = length x.
Proof. unfold salsa20_8_core. rewrite length_zip_with, length_rounds. lia. Qed.

(** ** BlockMix *)

Lemma block_mix_eq a b : length a = 16%nat -> length b = 16%nat ->
  block_mix_salsa8 (a ++ b) = concat (scrypt_block_mix [a; b]) /\
  exists a' b', scrypt_block_mix [a; b] = [a'; b'] /\ length a' = 16%nat /\ length b' = 16%nat.
Proof.
  intros Ha Hb. unfold block_mix_salsa8, scrypt_block_mix. change (default [] (last [a; b])) with b. cbn [blockmix_outputs evens tail app concat].
  rewrite (take_app_exact a b 16 Ha), (drop_app_exact a b 16 Ha).
  assert (length (zip_with Z.lxor b a) = 16%nat) as H1 by (rewrite length_zip_with; lia).
  set (y0 := salsa20_8_core (zip_with Z.lxor b a)). assert (length y0 = 16%nat) as Hy0 by (unfold y0; by rewrite length_salsa).
  rewrite (drop_app_exact y0 b 16 Hy0), (take_app_exact y0 b 16 Hy0).
  assert (length (zip_with Z.lxor y0 b) = 16%nat) as H2 by (rewrite length_zip_with; lia).
  rewrite <- (salsa_eq _ H1). fold y0. rewrite <- (salsa_eq _ H2). split; [by rewrite app_nil_r|].
  eexists _, _. split; [done|]. split; [done|]. by rewrite length_salsa.
Qed.

(** a 32-word array and the two blocks it stands for *)
Definition halves (x : list Z) (bs : list (list Z)) : Prop :=
  exists a b, bs = [a; b] /\ x = a ++ b /\ length a = 16%nat /\ length b = 16%nat.

Lemma halves_mix x bs : halves x bs -> halves (block_mix_salsa8 x) (scrypt_block_mix bs).
Proof.
  intros (a & b & -> & -> & Ha & Hb). destruct (block_mix_eq a b Ha Hb) as [-> (a' & b' & E & Ha' & Hb')].
  rewrite E. exists a', b'. cbn. by rewrite app_nil_r.
Qed.

Lemma halves_iter n x bs : halves x bs -> halves (Nat.iter n block_mix_salsa8 x) (romix_v bs n).
Proof. intros Hx. unfold romix_v. induction n as [|n IH]; [done|]. rewrite !iter_S. by apply halves_mix. Qed.

Lemma halves_xor x bs y cs : halves x bs -> halves y cs -> halves (zip_with Z.lxor x y) (zip_with (zip_with Z.lxor) bs cs).
Proof.
  intros (a & b & -> & -> & Ha & Hb) (c & d & -> & -> & Hc & Hd). exists (zip_with Z.lxor a c), (zip_with Z.lxor b d).
  split; [done|]. rewrite zip_with_app by lia. rewrite !length_zip_with. split; [done|]. lia.
Qed.

(** ** SMix *)

Lemma iter_shift {A} (f : A -> A) n x : Nat.iter n f (f x) = f (Nat.iter n f x).
Proof. induction n as [|n IH]; [done|]. rewrite !iter_S. by rewrite IH. Qed.

(** the fill overwrites every entry before any is read *)
Lemma smix_fill_eq v x :
  smix_fill v x = (map (fun i => Nat.iter i block_mix_salsa8 x) (seq 0 (length v)), Nat.iter (length v) block_mix_salsa8 x).
Proof.
  revert x. induction v as [|e v IH]; intros x; [done|]. cbn [smix_fill length seq map]. rewrite IH. f_equal.
  - f_equal. rewrite <- seq_shift, map_map. apply map_ext. intros i. rewrite !iter_S. apply iter_shift.
  - rewrite !iter_S. apply iter_shift.
Qed.

Lemma scrypt_n : Z.of_nat SCRYPT_N = 2 ^ 10.
Proof. done. Qed.

#[local] Opaque SCRYPT_N.

Lemma halves_lookup (v : list (list Z)) x0 bs0 x bs :
  (forall j, (j < SCRYPT_N)%nat -> nth j v [] = Nat.iter j block_mix_salsa8 x0) -> halves x0 bs0 -> halves x bs ->
  halves (smix_lookup v x) (romix_step bs0 bs).
Proof.
  intros Hv H0 Hx. unfold smix_lookup, romix_step. apply halves_mix.
  assert (Z.land (word_at x 16) (Z.of_nat SCRYPT_N - 1) = integerify bs mod Z.of_nat SCRYPT_N) as ->.
  { destruct Hx as (a & b & -> & -> & Ha & Hb). unfold integerify, word_at. change (default [] (last [a; b])) with b.
    rewrite app_nth2 by lia. rewrite Ha. by rewrite scrypt_n, <- Z.land_ones by lia. }
  apply halves_xor; [done|]. rewrite Hv; [by apply halves_iter|].
  pose proof (Z.mod_pos_bound (integerify bs) (Z.of_nat SCRYPT_N) ltac:(rewrite scrypt_n; lia)). lia.
Qed.

Lemma halves_iter_lookup n v x0 bs0 x bs :
  (forall j, (j < SCRYPT_N)%nat -> nth j v [] = Nat.iter j block_mix_salsa8 x0) -> halves x0 bs0 -> halves x bs ->
  halves (Nat.iter n (smix_lookup v) x) (Nat.iter n (romix_step bs0) bs).
Proof. intros Hv H0 Hx. induction n as [|n IH]; [done|]. rewrite !iter_S. by eapply halves_lookup. Qed.

Lemma length_words n b : length b = (4 * n)%nat -> length (words b) = n.
Proof.
  revert b. induction n as [|n IH]; intros b Hb; [by destruct b|]. do 4 (destruct b as [|? b]; [cbn in Hb; lia|]).
  cbn [words length]. f_equal. apply IH. cbn in Hb. lia.
Qed.

Lemma smix_eq b v : length b = 128%nat -> length v = SCRYPT_N ->
  smix b v = concat (map (le_bytes 4) (concat (scrypt_romix [take 16 (words b); drop 16 (words b)]))).
Proof.
  intros Hb Hv. unfold smix. rewrite smix_fill_eq, Hv. pose proof (length_words 32 b Hb) as Hw.
  set (x := words b) in *. set (bs := [take 16 x; drop 16 x]).
  assert (halves x bs) as Hx by (exists (take 16 x), (drop 16 x); by rewrite take_drop, length_take, length_drop, Hw).
  set (tab := map (fun i => Nat.iter i block_mix_salsa8 x) (seq 0 SCRYPT_N)).
  assert (forall j, (j < SCRYPT_N)%nat -> nth j tab [] = Nat.iter j block_mix_salsa8 x) as Htab.
  { intros j Hj. unfold tab. rewrite (nth_indep _ [] (Nat.iter 0 block_mix_salsa8 x)) by (rewrite length_map, length_seq; lia).
    by rewrite (map_nth (fun i => Nat.iter i block_mix_salsa8 x)), seq_nth by lia. }
  destruct (halves_iter_lookup SCRYPT_N tab x bs _ _ Htab Hx (halves_iter SCRYPT_N x bs Hx)) as (a & c & E & Ex & _).
  fold (scrypt_romix bs) in E. rewrite Ex, E. cbn [concat]. by rewrite app_nil_r.
Qed.

(** ** PBKDF2 *)

Lemma xor_byte_comm a b : xor_byte a b = xor_byte b a.
Proof. unfold xor_byte. by rewrite Z.lxor_comm. Qed.

Lemma xor_byte_0 a : xor_byte a x00 = a.
Proof. unfold xor_byte. change (b2z x00) with 0. by rewrite Z.lxor_0_r, z2b_b2z. Qed.

Lemma key_pad_eq fill key : key_pad fill key = map (xor_byte fill) (key ++ replicate (64 - length key) x00).
Proof.
  unfold key_pad. rewrite map_app. f_equal.
  - induction key as [|k key IH]; [done|]. cbn. by rewrite IH.
  - change (map (xor_byte fill)) with (fmap (M := list) (xor_byte fill)). by rewrite fmap_replicate, xor_byte_0.
Qed.

Context `{!Sha256Len HS}.

Lemma pbkdf2_block_eq password salt i :
  let key := if decide (64 < length password)%nat then sha256 password else password in
  pbkdf2_block (key_pad x36 key) (key_pad x5c key) salt i = hmac_sha256 password (salt ++ be_bytes4 (Z.of_nat i)).
Proof. cbn zeta. unfold pbkdf2_block, hmac_sha256. by rewrite !key_pad_eq. Qed.

(** blocks cut to the output length one by one, and all at once *)
Lemma cut_blocks (f : nat -> list byte) n m k :
  (forall i, length (f i) = 32%nat) ->
  concat (map (fun i => take (Nat.min n ((i - 1) * 32 + 32) - (i - 1) * 32) (f i)) (seq (S k) m)) =
  take (n - k * 32) (concat (map f (seq (S k) m))).
Proof.
  intros Hf. revert k. induction m as [|m IH]; intros k; cbn [seq map concat]; [by rewrite take_nil|].
  rewrite IH, take_app, Hf. replace (n - k * 32 - 32)%nat with (n - S k * 32)%nat by lia. f_equal.
  replace ((S k - 1) * 32)%nat with (k * 32)%nat by lia. destruct (decide (n < k * 32 + 32)%nat).
  - f_equal. lia.
  - rewrite !take_ge; [done|rewrite Hf; lia..].
Qed.

Lemma pbkdf2_eq password salt n : pbkdf2_sha256_single password salt n = pbkdf2 password salt n.
Proof.
  unfold pbkdf2_sha256_single, pbkdf2.
  set (key := if decide (64 < length password)%nat then sha256 password else password).
  pose proof (cut_blocks (pbkdf2_block (key_pad x36 key) (key_pad x5c key) salt) n ((n + 31) / 32) 0 ltac:(intros; apply sha256_length)) as Hc.
  etransitivity; [exact Hc|]. rewrite Nat.mul_0_l, Nat.sub_0_r. f_equal. f_equal. apply map_ext. intros i. apply pbkdf2_block_eq.
Qed.

Lemma length_pbkdf2_128 password salt : length (pbkdf2 password salt 128) = 128%nat.
Proof. unfold pbkdf2. change ((128 + 31) / 32)%nat with 4%nat. cbn [seq map concat]. rewrite length_take, !length_app. unfold hmac_sha256. rewrite !sha256_length. done. Qed.
End Scrypt.

(** ** Properties *)

(** C20: the hand-optimised scrypt is scrypt.  Whatever the reused scratchpad
    holds, [scrypt_1024_1_1_256] returns what RFC 7914 defines for N = 1024,
    r = 1, p = 1 and a 32-byte output with the input as password and salt: the
    unrolled statements are the column and row rounds of Salsa20/8, the in-place
    block mix is scryptBlockMix, the filled scratchpad is the table of ROMix, and
    the key derivation with shared hasher prefixes is PBKDF2-HMAC-SHA256. *)
Theorem scrypt_reference `{HS : Sha256} `{!Sha256Len HS} (input : list byte) (scratchpad : list (list Z)) :
  length scratchpad = SCRYPT_N -> scrypt_1024_1_1_256 input scratchpad = scrypt_rfc7914 input.
Proof.
  intros Hv. unfold scrypt_1024_1_1_256, scrypt_rfc7914. rewrite !pbkdf2_eq.
  by rewrite (smix_eq _ _ (length_pbkdf2_128 input input) Hv).
Qed.

Lemma scrypt_reference_witness :
  @pow_hash toy_sha256 genesis_header = @scrypt_rfc7914 toy_sha256 (header_to_bytes genesis_header).
Proof. unfold pow_hash. apply scrypt_reference. unfold SCRATCHPAD. apply length_replicate. Defined.
