(* ===== verification/HashOrder.v ===== *)
(** * HashOrder: iteration over the standard hash collections

    [HashMap] and [HashSet] iterate in an unspecified order, which may differ
    between runs.  The sources that iterate over such a collection take the order
    as a parameter here; all that is known of it is that every entry is visited
    once. *)
From stdpp Require Import base numbers list gmap.
From S2P Require Import Prelude Types.

Class HashOrder : Type := {
  map_order : forall {A}, gmap Hash256 A -> list (Hash256 * A);
  set_order : gset Hash256 -> list Hash256;
}.

Class HashOrderLaws (H : HashOrder) : Prop := {
  map_order_perm {A} (m : gmap Hash256 A) : map_order m ≡ₚ map_to_list m;
  set_order_perm (s : gset Hash256) : set_order s ≡ₚ elements s;
}.

(** an order for evaluation *)
Definition plain_order : HashOrder := {|
  map_order A m := map_to_list m;
  set_order s := elements s;
|}.
#[global] Instance plain_order_laws : HashOrderLaws plain_order.
Proof. by split. Qed.

Lemma elem_of_map_order `{H : HashOrder} `{!HashOrderLaws H} {A} (m : gmap Hash256 A) k a : (k, a) ∈ map_order m <-> m !! k = Some a.
Proof. by rewrite map_order_perm, elem_of_map_to_list. Qed.

Lemma elem_of_set_order `{H : HashOrder} `{!HashOrderLaws H} (s : gset Hash256) k : k ∈ set_order s <-> k ∈ s.
Proof. by rewrite set_order_perm, elem_of_elements. Qed.
