(* ===== verification/Mempool.v ===== *)
(** * Mempool: unconfirmed transactions

    Models src/src/mempool/mod.rs and the entries of src/src/mempool/entry.rs.
    The pool asks the chain state only for coins; [CoinView] is that interface,
    and [ChainState] implements it with [get_utxo].  The broadcast channel is the
    list of the identifiers sent on it.  The time an entry was added and the
    statistics are only displayed and are left out. *)
From Stdlib Require Import Strings.Byte Floats.SpecFloat.
From stdpp Require Import base numbers list strings gmap.
From S2P Require Import Prelude Codec Types Float64 Difficulty Validation Vec ScriptNum Signature Engine ScriptVerify Database Coin UndoStore Ledger Chainstate HashOrder.

(** ** The view of the chain state *)

Class CoinView (C : Type) : Type := get_coin : C -> OutPoint -> result (option Coin).

(** the view shows exactly the coins of the ledger [m] *)
Class CoinViewLaws {C} (V : CoinView C) (c : C) (m : ledger) : Prop :=
  get_coin_eq : forall o, outpoint_ok o -> get_coin c o = Ok (m !! o).

#[global] Instance chainstate_view {UT MT IT} {HU : Table (list byte) (list byte) UT} : CoinView (ChainState UT MT IT) := get_utxo.

(** ** Data *)

Definition MAX_MEMPOOL_SIZE : Z := 50 * 1024 * 1024.
Definition POLICY_MAX_TX_SIZE : Z := 100 * 1024.
Definition MIN_RELAY_FEE_RATE : f64 := f64_of_i64 1.

Record MempoolEntry := mkEntry { e_tx : Transaction; e_fee : Z; e_size : Z; e_fee_rate : f64 }.

Record Mempool := mkPool {
  txs : gmap Hash256 MempoolEntry;
  spends : gmap OutPoint Hash256;
  total_size : Z;
  max_size : Z;
  notified : list Hash256;
}.

Definition with_max_size (max : Z) : Mempool := mkPool ∅ ∅ 0 max [].
Definition mempool_new : Mempool := with_max_size MAX_MEMPOOL_SIZE.

Definition contains (mp : Mempool) (id : Hash256) : bool := bool_decide (is_Some (txs mp !! id)).

(** [u64 as f64] on values below 2^63, and [<] *)
Definition f64_ltb (a b : f64) : bool := SFltb a b.

(** ** Removal *)

(** take an entry out of the totals and of the spending index *)
Definition drop_entry (mp : Mempool) (id : Hash256) (entry : MempoolEntry) : Mempool :=
  mkPool (delete id (txs mp))
    (foldl (fun s input => delete (prev_output input) s) (spends mp) (vin (e_tx entry)))
    (sat_sub (total_size mp) (e_size entry)) (max_size mp) (notified mp).

(** the pool transactions that spend an output of [id], as pushed on the stack *)
Definition push_children (mp : Mempool) (id : Hash256) (outputs : list TxOut) (stack : list Hash256) : list Hash256 :=
  foldl (fun stack idx =>
    match spends mp !! mkOutPoint id (Z.of_nat idx mod 2 ^ 32) with
    | Some child => vec_push stack child
    | None => stack
    end) stack (seq 0 (length outputs)).

(** [while let Some(current) = to_remove.pop()]; [None] is out of fuel *)
Fixpoint remove_loop (fuel : nat) (mp : Mempool) (to_remove : list Hash256) : option Mempool :=
  match vec_pop to_remove with
  | None => Some mp
  | Some (current, to_remove) =>
    match fuel with
    | O => None
    | S fuel =>
      match txs mp !! current with
      | Some entry =>
        let mp := drop_entry mp current entry in
        remove_loop fuel mp (push_children mp current (vout (e_tx entry)) to_remove)
      | None => remove_loop fuel mp to_remove
      end
    end
  end.

(** every pop is of the first identifier or of one pushed for an output *)
Definition outputs_count (l : list (Hash256 * MempoolEntry)) : nat :=
  sum_list_with (fun kv => length (vout (e_tx kv.2))) l.
Definition remove_fuel (mp : Mempool) : nat := S (outputs_count (map_to_list (txs mp))).

Definition remove_with_descendants (mp : Mempool) (id : Hash256) : option Mempool :=
  remove_loop (remove_fuel mp) mp [id].

Section Pool.
Context `{HS : Sha256} `{HD : Digests} `{HK : K256} `{HO : HashOrder}.

(** ** Eviction *)

(** [iter().min_by(|a, b| a.fee_rate.partial_cmp(&b.fee_rate).unwrap_or(Equal))] *)
Definition worst (l : list (Hash256 * MempoolEntry)) : option Hash256 :=
  match l with
  | [] => None
  | kv :: l =>
    Some (foldl (fun best kv =>
      match default Eq (SFcompare (e_fee_rate best.2) (e_fee_rate kv.2)) with
      | Gt => kv
      | _ => best
      end) kv l).1
  end.

Fixpoint evict_loop (fuel : nat) (mp : Mempool) : option Mempool :=
  if total_size mp >? max_size mp then
    match worst (map_order (txs mp)) with
    | None => Some mp
    | Some id =>
      match fuel with
      | O => None
      | S fuel => remove_with_descendants mp id ≫= evict_loop fuel
      end
    end
  else Some mp.

Definition evict_if_needed (mp : Mempool) : option Mempool := evict_loop (size (txs mp)) mp.

(** ** Acceptance *)

Context {C : Type} {HV : CoinView C}.

Definition resolve_input_value (mp : Mempool) (outpoint : OutPoint) (chainstate : C) : result Z :=
  coin ← get_coin chainstate outpoint;
  match coin with
  | Some coin => Ok (value (tx_out coin))
  | None =>
    match txs mp !! op_txid outpoint with
    | Some parent =>
      match vout (e_tx parent) !! Z.to_nat (op_index outpoint) with
      | Some output => Ok (value output)
      | None => Err "mempool parent has no such output"
      end
    | None => Err "input not found in UTXO set or mempool"
    end
  end.

Definition resolve_input (mp : Mempool) (chainstate : C) (input_sum : Z) (input : TxIn) : result Z :=
  if bool_decide (is_Some (spends mp !! prev_output input)) then Err "input already spent by mempool transaction" else
  value ← resolve_input_value mp (prev_output input) chainstate;
  ok_or "input value overflow" (i64_checked_add input_sum value).

Definition resolve_script (mp : Mempool) (outpoint : OutPoint) (chainstate : C) : result (list byte) :=
  coin ← get_coin chainstate outpoint;
  match coin with
  | Some coin => Ok (script_pubkey (tx_out coin))
  | None =>
    match txs mp !! op_txid outpoint with
    | Some parent =>
      output ← ok_or "mempool parent has no such output" (vout (e_tx parent) !! Z.to_nat (op_index outpoint));
      Ok (script_pubkey output)
    | None => Err "script_pubkey not found"
    end
  end.

Definition verify_pool_input (mp : Mempool) (chainstate : C) (tx : Transaction) (_ : unit) (entry : nat * TxIn) : result unit :=
  let '(i, input) := entry in
  script_pubkey ← resolve_script mp (prev_output input) chainstate;
  map_err (fun _ => "script verification failed"%string) (verify_script (script_sig input) script_pubkey tx i).

(** [iter().sum()] of [i64] values *)
Definition i64_sum (l : list Z) : result Z := fold_res (fun acc v => i64_op (acc + v)) 0 l.

Definition insert_entry (mp : Mempool) (id : Hash256) (entry : MempoolEntry) : Mempool :=
  mkPool (<[id := entry]> (txs mp))
    (foldl (fun s input => <[prev_output input := id]> s) (spends mp) (vin (e_tx entry)))
    (u64_sat_add (total_size mp) (e_size entry)) (max_size mp) (notified mp).

Definition accept_tx (mp : Mempool) (tx : Transaction) (chainstate : C) : result (Hash256 * Mempool) :=
  _ ← check_transaction tx;
  if is_coinbase tx then Err "coinbase transactions cannot enter the mempool" else
  let size := zlen (tx_to_bytes tx) in
  if size >? POLICY_MAX_TX_SIZE then Err "transaction size exceeds policy limit" else
  let id := txid tx in
  if contains mp id then Err "transaction already in mempool" else
  input_sum ← fold_res (resolve_input mp chainstate) 0 (vin tx);
  output_sum ← i64_sum (value <$> vout tx);
  if input_sum <? output_sum then Err "transaction spends more than its inputs" else
  fee ← i64_op (input_sum - output_sum);
  let fee := as_u64 fee in
  let fee_rate := f64_div (f64_of_i64 fee) (f64_of_i64 size) in
  if f64_ltb fee_rate MIN_RELAY_FEE_RATE then Err "fee rate below minimum relay fee" else
  _ ← fold_res (verify_pool_input mp chainstate tx) tt (imap pair (vin tx));
  let mp := insert_entry mp id (mkEntry tx fee size fee_rate) in
  mp ← or_panic (evict_if_needed mp);
  Ok (id, mkPool (txs mp) (spends mp) (total_size mp) (max_size mp) (notified mp ++ [id])).

(** ** Blocks *)

(** take a confirmed transaction out of the pool *)
Definition drop_confirmed (mp : Mempool) (id : Hash256) : Mempool :=
  match txs mp !! id with
  | Some entry => drop_entry mp id entry
  | None => mp
  end.

(** remember the pool transactions that spend an input of the block's *)
Definition push_conflicts (mp : Mempool) (id : Hash256) (inputs : list TxIn) (conflicting : list Hash256) : list Hash256 :=
  foldl (fun conflicting input =>
    match spends mp !! prev_output input with
    | Some c => if bool_decide (c <> id) then vec_push conflicting c else conflicting
    | None => conflicting
    end) conflicting inputs.

Definition confirm_tx (acc : Mempool * list Hash256) (tx : Transaction) : Mempool * list Hash256 :=
  let '(mp, conflicting) := acc in
  let id := txid tx in
  let mp := drop_confirmed mp id in
  (mp, if is_coinbase tx then conflicting else push_conflicts mp id (vin tx) conflicting).

Definition remove_conflict (mp : option Mempool) (id : Hash256) : option Mempool :=
  mp ← mp; if contains mp id then remove_with_descendants mp id else Some mp.

Definition remove_block_txs (mp : Mempool) (block : Block) : option Mempool :=
  let '(mp, conflicting) := foldl confirm_tx (mp, []) (transactions block) in
  foldl remove_conflict (Some mp) conflicting.

(** ** Disconnected transactions *)

(** one pass over the pending transactions *)
Fixpoint readd_pass (mp : Mempool) (chainstate : C) (pending : list Transaction) : result (Mempool * list Transaction * Z) :=
  match pending with
  | [] => Ok (mp, [], 0)
  | tx :: pending =>
    match accept_tx mp tx chainstate with
    | Ok (_, mp) =>
      '(mp, remaining, added) ← readd_pass mp chainstate pending; Ok (mp, remaining, added + 1)
    | Err _ =>
      '(mp, remaining, added) ← readd_pass mp chainstate pending; Ok (mp, tx :: remaining, added)
    | Panic => Panic
    end
  end.

(** [while made_progress && !pending.is_empty()]: each further pass has fewer
    transactions to try; out of fuel is [Panic] *)
Fixpoint readd_loop (fuel : nat) (mp : Mempool) (chainstate : C) (pending : list Transaction) (total_added : Z) : result (Mempool * Z) :=
  if zlen pending =? 0 then Ok (mp, total_added) else
  match fuel with
  | O => Panic
  | S fuel =>
    '(mp, remaining, added) ← readd_pass mp chainstate pending;
    let total_added := u32_sat_add total_added added in
    if added =? 0 then Ok (mp, total_added) else readd_loop fuel mp chainstate remaining total_added
  end.

Definition readd_disconnected_txs (mp : Mempool) (transactions : list Transaction) (chainstate : C) : result (Mempool * Z) :=
  let pending := filter (fun tx => is_coinbase tx = false) transactions in
  readd_loop (S (length pending)) mp chainstate pending 0.
End Pool.
