(* ===== verification/MempoolCorrect.v ===== *)
(** * MempoolCorrect: the pool is consistent with itself and with the ledger

    [pool_ok] is the pool's own invariant: entries are filed under their
    transaction identifier, the spending index lists exactly the inputs of the
    entries (so no two entries spend the same coin) and the total is the sum of
    the sizes.  [anchored] relates a pool to a ledger: every input is a coin of
    the ledger or an output of another pool transaction.  Removal always takes
    descendants along ([pruned]); the operations of src/src/mempool/mod.rs
    preserve both, also when a block changes the ledger under the pool. *)
From Stdlib Require Import Strings.Byte Floats.SpecFloat.
From stdpp Require Import base numbers list strings gmap relations.
From S2P Require Import Prelude Codec Types Float64 Difficulty Validation Vec ScriptNum Signature Engine EngineSafety ScriptVerify Database Coin UndoStore Ledger Chainstate ChainstateCorrect HashOrder Mempool.

(** ** The invariant *)

Definition pool_bytes (m : gmap Hash256 MempoolEntry) : Z := zsum ((fun kv => e_size kv.2) <$> map_to_list m).

Section Invariant.
Context `{HS : Sha256}.
Implicit Types (mp : Mempool) (m : ledger) (e : MempoolEntry) (id : Hash256) (o : OutPoint).

Record entry_fine id e : Prop := {
  ef_id : id = txid (e_tx e);
  ef_tx : tx_ok (e_tx e);
  ef_rules : tx_rules (e_tx e);
  ef_user : is_coinbase (e_tx e) = false;
  ef_size : e_size e = zlen (tx_to_bytes (e_tx e));
  ef_policy : e_size e <= POLICY_MAX_TX_SIZE;
  ef_fee_rate : f64_ltb (e_fee_rate e) MIN_RELAY_FEE_RATE = false;
}.

Record pool_ok mp : Prop := {
  pk_entry id e : txs mp !! id = Some e -> entry_fine id e;
  pk_spends o id : spends mp !! o = Some id <-> exists e, txs mp !! id = Some e /\ o ∈ inputs_of (e_tx e);
  pk_size : total_size mp = pool_bytes (txs mp);
}.

(** [c] spends an output of [p], both in the pool *)
Definition parent_of mp (p c : Hash256) : Prop :=
  exists e d i, txs mp !! p = Some e /\ txs mp !! c = Some d /\ (i < length (vout (e_tx e)))%nat /\
    mkOutPoint p (Z.of_nat i) ∈ inputs_of (e_tx d).

Definition anchored m mp : Prop :=
  forall id e o, txs mp !! id = Some e -> o ∈ inputs_of (e_tx e) ->
    is_Some (m !! o) \/ exists p, txs mp !! op_txid o = Some p /\ is_Some (vout (e_tx p) !! Z.to_nat (op_index o)).

(** [mp'] is [mp] without some transactions and all that descends from them *)
Record pruned mp mp' : Prop := {
  pr_ok : pool_ok mp';
  pr_sub : txs mp' ⊆ txs mp;
  pr_closed p c : parent_of mp p c -> txs mp' !! p = None -> txs mp' !! c = None;
  pr_max : max_size mp' = max_size mp;
  pr_notified : notified mp' = notified mp;
}.

(** ** Lookups and sums *)

Lemma lookup_release l (s : gmap OutPoint Hash256) o :
  foldl (fun s input => delete (prev_output input) s) s l !! o = if decide (o ∈ prev_output <$> l) then None else s !! o.
Proof.
  revert s. induction l as [|i l IH]; intros s; cbn [foldl fmap list_fmap]; [done|]. rewrite IH.
  destruct (decide (o ∈ prev_output <$> l)); [by rewrite decide_True by set_solver|].
  rewrite lookup_delete. case_decide; [by rewrite decide_True by set_solver|].
  by rewrite decide_False by set_solver.
Qed.

Lemma lookup_claim l (s : gmap OutPoint Hash256) id o :
  foldl (fun s input => <[prev_output input := id]> s) s l !! o = if decide (o ∈ prev_output <$> l) then Some id else s !! o.
Proof.
  revert s. induction l as [|i l IH]; intros s; cbn [foldl fmap list_fmap]; [done|]. rewrite IH.
  destruct (decide (o ∈ prev_output <$> l)); [by rewrite decide_True by set_solver|].
  rewrite lookup_insert. case_decide; [by rewrite decide_True by set_solver|].
  by rewrite decide_False by set_solver.
Qed.

Lemma zsum_Permutation l k : l ≡ₚ k -> zsum l = zsum k.
Proof. intros Hlk. induction Hlk; rewrite ?zsum_cons in *; lia. Qed.

Lemma pool_bytes_insert txs id e : txs !! id = None -> pool_bytes (<[id := e]> txs) = e_size e + pool_bytes txs.
Proof. intros Ho. unfold pool_bytes. by rewrite (zsum_Permutation _ _ (fmap_Permutation _ _ _ (map_to_list_insert _ _ e Ho))). Qed.

Lemma pool_bytes_delete txs id e : txs !! id = Some e -> pool_bytes txs = e_size e + pool_bytes (delete id txs).
Proof. intros Ho. rewrite <- (insert_delete_id txs id e Ho) at 1. apply pool_bytes_insert, lookup_delete_eq. Qed.

Lemma outputs_count_delete (txs : gmap Hash256 MempoolEntry) id e :
  txs !! id = Some e -> outputs_count (map_to_list txs) = (length (vout (e_tx e)) + outputs_count (map_to_list (delete id txs)))%nat.
Proof.
  intros Ho. pose proof (map_to_list_insert (delete id txs) id e (lookup_delete_eq _ _)) as Hp. rewrite insert_delete_id in Hp by done.
  unfold outputs_count. by rewrite Hp.
Qed.

Lemma pool_bytes_nonneg mp : pool_ok mp -> 0 <= pool_bytes (txs mp).
Proof.
  intros Hok. apply zsum_nonneg, Forall_fmap, Forall_forall. intros [id e] Hin%elem_of_map_to_list. cbn.
  rewrite (ef_size _ _ (pk_entry _ Hok _ _ Hin)). apply zlen_nonneg.
Qed.

(** ** The empty pool and single entries *)

Lemma empty_ok max : pool_ok (with_max_size max).
Proof. split; cbn; [by intros ??; rewrite lookup_empty| |done]. intros o id. rewrite lookup_empty. split; [done|]. intros (e & He & _). by rewrite lookup_empty in He. Qed.

(** no coin is spent twice in the pool *)
Lemma pool_no_double_spend mp id id' e e' o :
  pool_ok mp -> txs mp !! id = Some e -> txs mp !! id' = Some e' -> o ∈ inputs_of (e_tx e) -> o ∈ inputs_of (e_tx e') -> id = id'.
Proof.
  intros Hok He He' Ho Ho'. assert (spends mp !! o = Some id) as H1 by (apply (pk_spends _ Hok); eauto).
  assert (spends mp !! o = Some id') as H2 by (apply (pk_spends _ Hok); eauto). congruence.
Qed.

Lemma drop_entry_ok mp id e : pool_ok mp -> txs mp !! id = Some e -> pool_ok (drop_entry mp id e).
Proof.
  intros Hok He. pose proof (pool_bytes_delete _ _ _ He) as Hb. split; cbn [drop_entry txs spends total_size].
  - intros id' e' [_ H]%lookup_delete_Some. by apply Hok.
  - intros o id'. rewrite lookup_release. change (prev_output <$> vin (e_tx e)) with (inputs_of (e_tx e)). case_decide as Ho.
    + split; [done|]. intros (e' & [Hne He']%lookup_delete_Some & Ho'). destruct Hne. eapply pool_no_double_spend; eauto.
    + rewrite (pk_spends _ Hok). split; intros (e' & He' & Ho').
      * exists e'. split; [|done]. apply lookup_delete_Some. split; [|done]. intros <-. congruence.
      * apply lookup_delete_Some in He' as [_ He']. eauto.
  - rewrite (pk_size _ Hok). unfold sat_sub. rewrite Hb.
    assert (0 <= pool_bytes (delete id (txs mp))); [|lia].
    apply zsum_nonneg, Forall_fmap, Forall_forall. intros [id' e'] [_ Hin]%elem_of_map_to_list%lookup_delete_Some. cbn.
    rewrite (ef_size _ _ (pk_entry _ Hok _ _ Hin)). apply zlen_nonneg.
Qed.

Lemma insert_entry_ok mp id e :
  pool_ok mp -> txs mp !! id = None -> entry_fine id e -> (forall o, o ∈ inputs_of (e_tx e) -> spends mp !! o = None) ->
  total_size mp + POLICY_MAX_TX_SIZE <= u64_max -> pool_ok (insert_entry mp id e).
Proof.
  intros Hok Hid He Hfree Hmax. split; cbn [insert_entry txs spends total_size].
  - intros id' e' [[<- <-]|[_ H]]%lookup_insert_Some; [done|]. by apply Hok.
  - intros o id'. rewrite lookup_claim. change (prev_output <$> vin (e_tx e)) with (inputs_of (e_tx e)). case_decide as Ho.
    + split; [intros [= <-]; exists e; by rewrite lookup_insert_eq|]. intros (e' & [[-> _]|[Hne He']]%lookup_insert_Some & Ho'); [done|].
      assert (spends mp !! o = Some id') as Hs by (apply (pk_spends _ Hok); eauto). by rewrite Hfree in Hs.
    + rewrite (pk_spends _ Hok). split; intros (e' & He' & Ho').
      * exists e'. split; [|done]. rewrite lookup_insert_ne; [done|]. congruence.
      * apply lookup_insert_Some in He' as [[-> ->]|[_ He']]; [done|]. eauto.
  - rewrite pool_bytes_insert by done. rewrite <- (pk_size _ Hok). pose proof (ef_policy _ _ He). unfold u64_sat_add. lia.
Qed.
End Invariant.

(** ** Removal with descendants *)

Section Removal.
Context `{HS : Sha256}.
Implicit Types (mp : Mempool) (m : ledger) (e : MempoolEntry) (id : Hash256) (o : OutPoint).

Lemma pruned_refl mp : pool_ok mp -> pruned mp mp.
Proof. intros Hok. split; [done..| |done|done]. intros p c (e & d & i & He & _) H. congruence. Qed.

Lemma pruned_trans mp1 mp2 mp3 : pruned mp1 mp2 -> pruned mp2 mp3 -> pruned mp1 mp3.
Proof.
  intros H12 H23. split; [by apply H23|by transitivity (txs mp2); [apply H23|apply H12]| |
    by rewrite (pr_max _ _ H23), (pr_max _ _ H12)|by rewrite (pr_notified _ _ H23), (pr_notified _ _ H12)].
  intros p c Hpc Hp. destruct (txs mp2 !! c) as [d'|] eqn:Ed; [|by eapply lookup_weaken_None; [exact Ed|apply H23]].
  destruct (txs mp2 !! p) as [e'|] eqn:Ee; [|by rewrite (pr_closed _ _ H12 p c Hpc Ee) in Ed].
  eapply (pr_closed _ _ H23); [|exact Hp]. destruct Hpc as (e & d & i & He & Hd & Hi & Ho).
  pose proof (lookup_weaken _ _ _ _ Ee (pr_sub _ _ H12)). pose proof (lookup_weaken _ _ _ _ Ed (pr_sub _ _ H12)). simplify_eq. by exists e, d, i.
Qed.

Lemma outpoint_of_index o (l : list TxOut) :
  U 32 (op_index o) -> is_Some (l !! Z.to_nat (op_index o)) -> exists i, (i < length l)%nat /\ o = mkOutPoint (op_txid o) (Z.of_nat i).
Proof. intros Hi Hl%lookup_lt_is_Some. exists (Z.to_nat (op_index o)). split; [done|]. destruct o as [h i]. cbn in *. f_equal. range. Qed.

Lemma input_index e o id : entry_fine id e -> o ∈ inputs_of (e_tx e) -> outpoint_ok o.
Proof. intros He (i & -> & Hi)%list_elem_of_fmap. pose proof (inputs_ok _ (ef_tx _ _ He)) as Hf. rewrite Forall_forall in Hf. by apply Hf. Qed.

(** taking descendants along leaves no input behind *)
Lemma pruned_anchored m mp mp' : pool_ok mp -> anchored m mp -> pruned mp mp' -> anchored m mp'.
Proof.
  intros Hok Ha Hp id e o He Ho. pose proof (lookup_weaken _ _ _ _ He (pr_sub _ _ Hp)) as He0.
  destruct (Ha id e o He0 Ho) as [Hm|(p & Hpp & Hi)]; [by left|right].
  destruct (txs mp' !! op_txid o) as [p'|] eqn:Ep.
  - pose proof (lookup_weaken _ _ _ _ Ep (pr_sub _ _ Hp)). simplify_eq. eauto.
  - exfalso. destruct (outpoint_of_index o _ (proj2 (input_index _ _ _ (pk_entry _ Hok _ _ He0) Ho)) Hi) as (i & Hlt & Heq).
    rewrite (pr_closed _ _ Hp (op_txid o) id) in He; [done| |done]. exists p, e, i. rewrite <- Heq. auto.
Qed.

(** *** The loop *)

(** part of the way: [mp0] was the pool, [root] the transaction to remove *)
Record removing (root : Hash256) mp0 mp (stack : list Hash256) : Prop := {
  rm_ok : pool_ok mp;
  rm_sub : txs mp ⊆ txs mp0;
  rm_root : root ∈ stack \/ txs mp !! root = None;
  rm_stack id : id ∈ stack -> rtc (parent_of mp0) root id;
  rm_gone id : is_Some (txs mp0 !! id) -> txs mp !! id = None -> rtc (parent_of mp0) root id;
  rm_children p c : parent_of mp0 p c -> txs mp !! p = None -> c ∈ stack \/ txs mp !! c = None;
  rm_max : max_size mp = max_size mp0;
  rm_notified : notified mp = notified mp0;
}.

Lemma push_children_elem mp id outs stack c :
  c ∈ push_children mp id outs stack <->
  c ∈ stack \/ exists i, (i < length outs)%nat /\ spends mp !! mkOutPoint id (Z.of_nat i mod 2 ^ 32) = Some c.
Proof.
  unfold push_children. assert (forall n, (n < length outs)%nat <-> n ∈ seq 0 (length outs)) as Hn by (intros n; rewrite elem_of_seq; lia).
  setoid_rewrite Hn. generalize (seq 0 (length outs)) as l. clear Hn. intros l. revert stack.
  induction l as [|i l IH]; intros stack; cbn [foldl]; [set_solver|]. rewrite IH.
  destruct (spends mp !! mkOutPoint id (Z.of_nat i mod 2 ^ 32)) as [d|] eqn:E.
  - unfold vec_push. rewrite elem_of_app, list_elem_of_singleton. split.
    + intros [[H| ->]|(j & Hj & H)]; [by left|right; exists i; set_solver|right; exists j; set_solver].
    + intros [H|(j & [->|Hj]%elem_of_cons & H)]; [by left; left|left; right; congruence|right; eauto].
  - split.
    + intros [H|(j & Hj & H)]; [by left|right; exists j; set_solver].
    + intros [H|(j & [->|Hj]%elem_of_cons & H)]; [by left|congruence|right; eauto].
Qed.

Lemma push_children_length mp id outs stack : (length (push_children mp id outs stack) <= length stack + length outs)%nat.
Proof.
  unfold push_children. rewrite <- (length_seq (length outs) 0) at 2. generalize (seq 0 (length outs)) as l. intros l. revert stack.
  induction l as [|i l IH]; intros stack; cbn [foldl length]; [lia|]. etrans; [apply IH|].
  destruct (spends mp !! _); [unfold vec_push; rewrite length_app; cbn; lia|lia].
Qed.

Lemma removing_skip root mp0 mp stack id : removing root mp0 mp (stack ++ [id]) -> txs mp !! id = None -> removing root mp0 mp stack.
Proof.
  intros [Hok Hsub Hroot Hst Hgone Hch Hmx Hnt] Hid. split; [done|done| |intros; apply Hst; set_solver|done| |done|done].
  - destruct Hroot as [[H|H]%elem_of_app|H]; [by left| |by right]. apply list_elem_of_singleton in H as ->. by right.
  - intros p c Hpc Hp. destruct (Hch p c Hpc Hp) as [[H|H]%elem_of_app|H]; [by left| |by right].
    apply list_elem_of_singleton in H as ->. by right.
Qed.

Lemma removing_drop root mp0 mp stack id e :
  pool_ok mp0 -> removing root mp0 mp (stack ++ [id]) -> txs mp !! id = Some e ->
  removing root mp0 (drop_entry mp id e) (push_children (drop_entry mp id e) id (vout (e_tx e)) stack).
Proof.
  intros Hok0 [Hok Hsub Hroot Hst Hgone Hch Hmx Hnt] He. pose proof (drop_entry_ok _ _ _ Hok He) as Hok'.
  pose proof (lookup_weaken _ _ _ _ He Hsub) as He0.
  assert (forall c, txs mp !! c = None -> txs (drop_entry mp id e) !! c = None) as Hmono by (intros c Hc; apply lookup_delete_None; auto).
  assert (forall i, (i < length (vout (e_tx e)))%nat -> Z.of_nat i mod 2 ^ 32 = Z.of_nat i) as Hmod.
  { intros i Hi. destruct (lookup_lt_is_Some_2 _ _ Hi) as [out Hout]. by eapply vout_index; [apply (ef_tx id), Hok|]. }
  split; [done|by etrans; [apply delete_subseteq|]| | | | |done|done].
  - destruct (decide (root = id)) as [->|Hne]; [right; apply lookup_delete_eq|].
    destruct Hroot as [[H|H]%elem_of_app|H]; [left; apply push_children_elem; by left|set_solver|right; by apply Hmono].
  - intros c [Hc|(i & Hi & Hs)]%push_children_elem; [apply Hst; set_solver|].
    rewrite Hmod in Hs by done. apply (pk_spends _ Hok') in Hs as (d & Hd & Ho). cbn [drop_entry txs] in Hd. apply lookup_delete_Some in Hd as [Hne Hd].
    apply (rtc_r root id c); [apply Hst; set_solver|]. exists e, d, i. repeat split; [done|by eapply lookup_weaken|done|done].
  - intros c Hc0 Hc. cbn [drop_entry txs] in Hc. apply lookup_delete_None in Hc as [<-|Hc]; [apply Hst; set_solver|by apply Hgone].
  - intros p c Hpc Hp. destruct (decide (c = id)) as [->|Hci]; [right; apply lookup_delete_eq|].
    destruct (txs mp !! c) as [d|] eqn:Ed; [|right; by apply Hmono]. left. apply push_children_elem.
    cbn [drop_entry txs] in Hp. apply lookup_delete_None in Hp as [<-|Hp].
    + destruct Hpc as (e' & d' & i & He' & Hd' & Hi & Ho). pose proof (lookup_weaken _ _ _ _ Ed Hsub) as Ed0. simplify_eq.
      right. exists i. split; [done|]. rewrite Hmod by done. apply (pk_spends _ Hok'). eexists. split; [|done].
      apply lookup_delete_Some. auto.
    + destruct (Hch p c Hpc Hp) as [[H|H]%elem_of_app|H]; [by left|set_solver|congruence].
Qed.

Lemma remove_loop_ok fuel root mp0 mp stack :
  pool_ok mp0 -> removing root mp0 mp stack -> (length stack + outputs_count (map_to_list (txs mp)) <= fuel)%nat ->
  exists mp', remove_loop fuel mp stack = Some mp' /\ removing root mp0 mp' [].
Proof.
  intros Hok0. revert mp stack. induction fuel as [|fuel IH]; intros mp stack Hrm Hf.
  - destruct stack; [|cbn in Hf; lia]. by exists mp.
  - destruct (vec_pop stack) as [[id rest]|] eqn:Ev; cbn [remove_loop]; rewrite Ev.
    + apply vec_pop_inv in Ev as ->. rewrite length_app in Hf. cbn in Hf. destruct (txs mp !! id) as [e|] eqn:Ee.
      * apply IH; [by apply removing_drop|]. pose proof (push_children_length (drop_entry mp id e) id (vout (e_tx e)) rest).
        pose proof (outputs_count_delete _ _ _ Ee). cbn [txs drop_entry]. lia.
      * apply IH; [by eapply removing_skip|lia].
    + apply vec_pop_None in Ev as ->. by exists mp.
Qed.

(** the transaction and what descends from it are gone, the others are as they were *)
Lemma remove_with_descendants_ok mp id :
  pool_ok mp -> exists mp', remove_with_descendants mp id = Some mp' /\ pruned mp mp' /\
    forall x, txs mp' !! x = None <-> txs mp !! x = None \/ rtc (parent_of mp) id x.
Proof.
  intros Hok. destruct (remove_loop_ok (remove_fuel mp) id mp mp [id]) as (mp' & Hl & Hrm); [done| |unfold remove_fuel; cbn [length]; lia|].
  { split; [done|done|left; set_solver| |intros x [y Hy]; congruence| |done|done].
    - intros x ->%list_elem_of_singleton. constructor.
    - intros p c (e & d & i & He & _) Hp. congruence. }
  exists mp'. split; [exact Hl|]. destruct Hrm as [Hok' Hsub Hroot Hst Hgone Hch Hmx Hnt].
  assert (forall p c, parent_of mp p c -> txs mp' !! p = None -> txs mp' !! c = None) as Hcl.
  { intros p c Hpc Hp. destruct (Hch p c Hpc Hp) as [H|H]; [set_solver|done]. }
  split; [by split|]. intros x. split.
  - intros Hx. destruct (txs mp !! x) eqn:E; [right; by eapply Hgone|by left].
  - intros [Hx|Hx]; [by eapply lookup_weaken_None|]. assert (txs mp' !! id = None) as Hid by (destruct Hroot; [set_solver|done]).
    clear -Hx Hid Hcl. induction Hx as [|a b c Hab Hbc IH]; [done|]. apply IH. by eapply Hcl.
Qed.
End Removal.

(** ** Eviction *)

Section Eviction.
Context `{HS : Sha256} `{HO : HashOrder} `{!HashOrderLaws HO}.
Implicit Types (mp : Mempool) (m : ledger) (e : MempoolEntry) (id : Hash256) (o : OutPoint).

Lemma worst_elem l : match worst l with Some id => exists e, (id, e) ∈ l | None => l = [] end.
Proof.
  destruct l as [|kv l]; cbn [worst]; [done|].
  enough (foldl (fun best kv => match default Eq (SFcompare (e_fee_rate best.2) (e_fee_rate kv.2)) with Gt => kv | _ => best end) kv l ∈ kv :: l) as H
    by (destruct (foldl _ kv l) as [id e]; eauto).
  revert kv. induction l as [|kv' l IH]; intros kv; cbn [foldl]; [set_solver|].
  match goal with |- foldl _ ?b l ∈ _ => specialize (IH b); assert (b = kv \/ b = kv') as [E|E] by (destruct (default Eq _); auto); rewrite E in IH end;
    rewrite E; set_solver.
Qed.

Lemma evict_loop_ok fuel mp :
  pool_ok mp -> 0 <= max_size mp -> (size (txs mp) <= fuel)%nat ->
  exists mp', evict_loop fuel mp = Some mp' /\ pruned mp mp' /\ total_size mp' <= max_size mp'.
Proof.
  revert mp. induction fuel as [|fuel IH]; intros mp Hok Hmax Hf; cbn [evict_loop]; rewrite Z.gtb_ltb.
  - assert (txs mp = ∅) as Hempty by (apply map_size_empty_inv; lia).
    assert (total_size mp = 0) as Ht by (rewrite (pk_size _ Hok), Hempty; done).
    rewrite (proj2 (Z.ltb_ge _ _)) by lia. exists mp. split; [done|]. split; [by apply pruned_refl|lia].
  - destruct (Z.ltb_spec (max_size mp) (total_size mp)) as [Hlt|Hle].
    2: { exists mp. split; [done|]. split; [by apply pruned_refl|lia]. }
    pose proof (worst_elem (map_order (txs mp))) as Hw. destruct (worst _) as [id|].
    + destruct Hw as (e & He%elem_of_map_order). destruct (remove_with_descendants_ok mp id Hok) as (mp1 & -> & Hp & Hx).
      destruct (IH mp1) as (mp2 & Hev & Hp2 & Hs); [apply Hp|by rewrite (pr_max _ _ Hp)| |].
      * assert (txs mp1 ⊂ txs mp) as Hsub; [|apply map_subset_size in Hsub; lia]. split; [apply Hp|]. intros Hsup.
        pose proof (lookup_weaken _ _ _ _ He Hsup) as Hin. rewrite (proj2 (Hx id)) in Hin; [done|]. right. constructor.
      * exists mp2. split; [done|]. split; [by eapply pruned_trans|done].
    + exfalso. assert (map_to_list (txs mp) = []) as Hnil by (symmetry; apply Permutation_nil_l; rewrite <- Hw; apply map_order_perm).
      apply map_to_list_empty_iff in Hnil. assert (total_size mp = 0) by (rewrite (pk_size _ Hok), Hnil; done). lia.
Qed.

Lemma evict_ok mp :
  pool_ok mp -> 0 <= max_size mp -> exists mp', evict_if_needed mp = Some mp' /\ pruned mp mp' /\ total_size mp' <= max_size mp'.
Proof. intros Hok Hm. by apply evict_loop_ok. Qed.
End Eviction.

(** ** Acceptance *)

(** the ledger itself and the chain state show their coins *)
#[global] Instance ledger_view : CoinView ledger := fun m o => Ok (m !! o).
#[global] Instance ledger_view_laws m : CoinViewLaws ledger_view m m.
Proof. done. Qed.

Lemma chainstate_view_laws {UT MT IT} `{!Table (list byte) (list byte) UT} `{!TableLaws (list byte) (list byte) UT _} (cs : ChainState UT MT IT) m :
  represents (utxos cs) m -> CoinViewLaws chainstate_view cs m.
Proof.
  intros Hr o Ho. unfold get_coin, chainstate_view, get_utxo. pose proof (represents_lookup _ _ o Hr Ho) as Hl.
  destruct (m !! o) as [c|]; [destruct Hl as (bytes & -> & Hb); by rewrite Hb|by rewrite Hl].
Qed.

Section Acceptance.
Context `{HS : Sha256} `{!Sha256Len HS} `{HD : Digests} `{!DigestsLen HD} `{HK : K256} `{HO : HashOrder} `{!HashOrderLaws HO}.
Context {C : Type} {HV : CoinView C} (c : C) (m : ledger) `{!CoinViewLaws HV c m}.
Implicit Types (mp : Mempool) (e : MempoolEntry) (id : Hash256) (o : OutPoint) (tx : Transaction).

(** the output an input spends: a coin of the ledger, else an output of the pool *)
Definition prevout mp o : option TxOut :=
  match m !! o with
  | Some coin => Some (tx_out coin)
  | None => p ← txs mp !! op_txid o; vout (e_tx p) !! Z.to_nat (op_index o)
  end.

Definition fee_rate_of tx (fee : Z) : f64 := f64_div (f64_of_i64 fee) (f64_of_i64 (zlen (tx_to_bytes tx))).
Definition entry_of tx (fee : Z) : MempoolEntry := mkEntry tx fee (zlen (tx_to_bytes tx)) (fee_rate_of tx fee).

(** the rules of the pool *)
Record admissible mp tx (fee : Z) : Prop := {
  ad_rules : tx_rules tx;
  ad_user : is_coinbase tx = false;
  ad_size : zlen (tx_to_bytes tx) <= POLICY_MAX_TX_SIZE;
  ad_new : txs mp !! txid tx = None;
  ad_free o : o ∈ inputs_of tx -> spends mp !! o = None;
  ad_coins : exists outs, Forall2 (fun o out => prevout mp o = Some out) (inputs_of tx) outs /\
    try_sum 0 (value <$> outs) = Some (fee + zsum (value <$> vout tx)) /\
    forall i input out, vin tx !! i = Some input -> outs !! i = Some out ->
      verify_script (script_sig input) (script_pubkey out) tx i = Ok tt;
  ad_fee : 0 <= fee;
  ad_rate : f64_ltb (fee_rate_of tx fee) MIN_RELAY_FEE_RATE = false;
}.

Lemma resolve_input_value_eq mp o : outpoint_ok o -> exists msg, resolve_input_value mp o c = ok_or msg (value <$> prevout mp o).
Proof.
  intros Ho. unfold resolve_input_value, prevout. rewrite (get_coin_eq o Ho). cbn [mbind res_bind].
  destruct (m !! o); [by exists EmptyString|]. destruct (txs mp !! op_txid o) as [p|]; cbn [mbind option_bind]; [|by eexists].
  destruct (vout (e_tx p) !! _); first [by exists EmptyString|by eexists].
Qed.

Lemma resolve_script_eq mp o : outpoint_ok o -> exists msg, resolve_script mp o c = ok_or msg (script_pubkey <$> prevout mp o).
Proof.
  intros Ho. unfold resolve_script, prevout. rewrite (get_coin_eq o Ho). cbn [mbind res_bind].
  destruct (m !! o); [by exists EmptyString|]. destruct (txs mp !! op_txid o) as [p|]; cbn [mbind option_bind]; [|by eexists].
  destruct (vout (e_tx p) !! _); first [by exists EmptyString|by eexists].
Qed.

Lemma resolve_input_Ok mp s i s' :
  outpoint_ok (prev_output i) ->
  resolve_input mp c s i = Ok s' <->
  spends mp !! prev_output i = None /\ exists out, prevout mp (prev_output i) = Some out /\ i64_checked_add s (value out) = Some s'.
Proof.
  intros Ho. unfold resolve_input. destruct (resolve_input_value_eq mp _ Ho) as [msg ->].
  destruct (spends mp !! prev_output i) as [x|]; [rewrite bool_decide_true by eauto; naive_solver|].
  rewrite bool_decide_false by (intros [? ?]; done). destruct (prevout mp _) as [out|]; cbn; [|naive_solver].
  rewrite ok_or_Ok. naive_solver.
Qed.

Lemma resolve_inputs_Ok mp ins s s' :
  Forall (fun i => outpoint_ok (prev_output i)) ins ->
  fold_res (resolve_input mp c) s ins = Ok s' <->
  (forall o, o ∈ prev_output <$> ins -> spends mp !! o = None) /\
  exists outs, Forall2 (fun o out => prevout mp o = Some out) (prev_output <$> ins) outs /\ try_sum s (value <$> outs) = Some s'.
Proof.
  intros Hins. revert s. induction Hins as [|i ins Hi Hins IH]; intros s; cbn [fold_res fmap list_fmap].
  - split; [intros [= <-]; split; [set_solver|by exists []]|]. intros (_ & outs & ->%Forall2_nil_inv_l & [= ->]). done.
  - split.
    + intros H. destruct (resolve_input mp c s i) as [s1| |] eqn:E; [|done|done]. apply resolve_input_Ok in E as (Hs & out & Hout & Hadd); [|done].
      apply IH in H as (Hfree & outs & Ho & Hsum). split; [intros o [->|H]%elem_of_cons; auto|].
      exists (out :: outs). split; [by constructor|]. cbn. by rewrite Hadd.
    + intros (Hfree & outs & (out & outs' & Hout & Ho & ->)%Forall2_cons_inv_l & Hsum). cbn in Hsum.
      destruct (i64_checked_add s (value out)) as [s1|] eqn:Hadd; [|done].
      rewrite (proj2 (resolve_input_Ok mp s i s1 Hi)) by (split; [apply Hfree; set_solver|eauto]).
      apply IH. split; [|by eauto]. intros o H. apply Hfree. set_solver.
Qed.

Lemma verify_pool_inputs_Ok mp tx outs :
  tx_ok tx -> Forall2 (fun o out => prevout mp o = Some out) (inputs_of tx) outs ->
  fold_res (verify_pool_input mp c tx) tt (imap pair (vin tx)) = Ok tt <->
  forall i input out, vin tx !! i = Some input -> outs !! i = Some out ->
    verify_script (script_sig input) (script_pubkey out) tx i = Ok tt.
Proof.
  intros Htx Ho. pose proof (inputs_ok _ Htx) as Hin. rewrite fold_res_unit, Forall_forall. split.
  - intros H i input out Hi Hout. specialize (H (i, input) ltac:(apply elem_of_lookup_imap; eauto)). cbn in H.
    destruct (resolve_script_eq mp (prev_output input)) as [msg E]; [by eapply Forall_lookup_1 in Hin|]. rewrite E in H.
    assert (inputs_of tx !! i = Some (prev_output input)) as Hii by (unfold inputs_of; by rewrite list_lookup_fmap, Hi).
    rewrite (Forall2_lookup_lr _ _ _ _ _ _ Ho Hii Hout) in H. cbn in H. by destruct (verify_script _ _ _ _) as [[]| |].
  - intros H x (i & input & -> & Hi)%elem_of_lookup_imap. cbn.
    destruct (resolve_script_eq mp (prev_output input)) as [msg E]; [by eapply Forall_lookup_1 in Hin|]. rewrite E.
    assert (inputs_of tx !! i = Some (prev_output input)) as Hii by (unfold inputs_of; by rewrite list_lookup_fmap, Hi).
    destruct (Forall2_lookup_l _ _ _ _ _ Ho Hii) as (out & Hout & Hp). rewrite Hp. cbn. by rewrite (H i input out Hi Hout).
Qed.

Lemma verify_pool_inputs_no_panic mp tx : tx_ok tx -> fold_res (verify_pool_input mp c tx) tt (imap pair (vin tx)) <> Panic.
Proof.
  intros Htx. pose proof (inputs_ok _ Htx) as Hin.
  assert (forall x, x ∈ imap pair (vin tx) -> verify_pool_input mp c tx tt x <> Panic) as Hv.
  { intros x (i & input & -> & Hi)%elem_of_lookup_imap. cbn.
    destruct (resolve_script_eq mp (prev_output input)) as [msg ->]; [by eapply Forall_lookup_1 in Hin|].
    destruct (script_pubkey <$> prevout mp _) as [spk|]; cbn [ok_or mbind res_bind]; [|done].
    pose proof (verify_script_no_panic (script_sig input) spk tx i (lookup_lt_Some _ _ _ Hi)). by destruct (verify_script _ _ _ _). }
  revert Hv. generalize (imap pair (vin tx)) as l. induction l as [|e l IH]; intros Hv; cbn [fold_res]; [done|].
  pose proof (Hv e ltac:(set_solver)). destruct (verify_pool_input mp c tx () e) as [[]| |]; [|done|done]. apply IH. intros. apply Hv. set_solver.
Qed.

Lemma resolve_inputs_no_panic mp tx s : tx_ok tx -> fold_res (resolve_input mp c) s (vin tx) <> Panic.
Proof.
  intros Htx. pose proof (inputs_ok _ Htx) as Hin. revert s. induction Hin as [|i l Hi Hin IH]; intros s; cbn [fold_res]; [done|].
  unfold resolve_input at 1. case_bool_decide; [done|]. destruct (resolve_input_value_eq mp _ Hi) as [msg ->].
  destruct (value <$> prevout mp (prev_output i)) as [v|]; cbn [ok_or mbind res_bind]; [|done].
  destruct (i64_checked_add s v); cbn [ok_or]; [apply IH|done].
Qed.

Lemma i64_sum_Ok l acc :
  0 <= acc -> Forall (fun v => 0 <= v) l -> acc + zsum l <= i64_max -> fold_res (fun acc v => @i64_op string (acc + v)) acc l = Ok (acc + zsum l).
Proof.
  intros Hacc Hl. revert acc Hacc. induction Hl as [|v l Hv Hl IH]; intros acc Hacc Hs; cbn [fold_res].
  - f_equal. cbn. lia.
  - rewrite zsum_cons in *. pose proof (zsum_nonneg l Hl). rewrite i64_op_Ok by range.
    rewrite IH by lia. f_equal. lia.
Qed.

Lemma outputs_total tx : tx_rules tx -> i64_sum (value <$> vout tx) = Ok (zsum (value <$> vout tx)) /\ 0 <= zsum (value <$> vout tx) <= MAX_MONEY.
Proof.
  intros Hr. assert (Forall (fun v => 0 <= v) (value <$> vout tx)) as Hnn
    by (apply Forall_fmap; eapply Forall_impl; [apply (tr_values _ Hr)|]; by intros o [? _]).
  pose proof (zsum_nonneg _ Hnn). pose proof (tr_total _ Hr). split; [|lia]. unfold i64_sum.
  rewrite i64_sum_Ok by (try done; unfold MAX_MONEY, COIN in *; range). f_equal.
Qed.


(** the pool with one more identifier announced *)
Definition announce mp id : Mempool := mkPool (txs mp) (spends mp) (total_size mp) (max_size mp) (notified mp ++ [id]).

Lemma accept_tx_complete mp tx fee :
  tx_ok tx -> admissible mp tx fee ->
  accept_tx mp tx c = mp' ← or_panic (evict_if_needed (insert_entry mp (txid tx) (entry_of tx fee))); Ok (txid tx, announce mp' (txid tx)).
Proof.
  intros Htx [Hr Hu Hsz Hnew Hfree (outs & Ho & Hsum & Hv) Hfee Hrate]. unfold accept_tx.
  rewrite (proj2 (check_transaction_Ok tx) Hr), Hu, Z.gtb_ltb, (proj2 (Z.ltb_ge _ _) Hsz). cbn [mbind res_bind].
  unfold contains. rewrite bool_decide_false by (rewrite Hnew; by intros [? ?]).
  rewrite (proj2 (resolve_inputs_Ok mp (vin tx) 0 _ (inputs_ok _ Htx))) by (split; eauto). cbn [mbind res_bind].
  destruct (outputs_total tx Hr) as [-> Hos]. cbn [mbind res_bind]. rewrite (proj2 (Z.ltb_ge _ _)) by lia.
  apply try_sum_range in Hsum; [|range]. rewrite Z.add_simpl_r, i64_op_Ok by range. cbn [mbind res_bind].
  unfold as_u64. rewrite Z.mod_small by range. fold (fee_rate_of tx fee). rewrite Hrate.
  rewrite (proj2 (verify_pool_inputs_Ok mp tx outs Htx Ho) Hv). done.
Qed.

(** a transaction that is not admissible is refused with an error *)
Lemma accept_tx_cases mp tx : tx_ok tx -> (exists fee, admissible mp tx fee) \/ exists msg, accept_tx mp tx c = Err msg.
Proof.
  intros Htx. unfold accept_tx. pose proof (check_transaction_no_panic tx). destruct (check_transaction tx) as [[]| |] eqn:Hr; [|by eauto|done].
  apply check_transaction_Ok in Hr. cbn [mbind res_bind]. destruct (is_coinbase tx) eqn:Hu; [by eauto|].
  rewrite Z.gtb_ltb. destruct (Z.ltb_spec POLICY_MAX_TX_SIZE (zlen (tx_to_bytes tx))); [by eauto|]. unfold contains. case_bool_decide as Hc; [by eauto|].
  pose proof (resolve_inputs_no_panic mp tx 0 Htx). destruct (fold_res _ 0 (vin tx)) as [isum| |] eqn:Hin; [|by eauto|done].
  apply resolve_inputs_Ok in Hin as (Hfree & outs & Ho & Hsum); [|by apply inputs_ok]. cbn [mbind res_bind].
  destruct (outputs_total tx Hr) as [-> Hos]. cbn [mbind res_bind].
  destruct (Z.ltb_spec isum (zsum (value <$> vout tx))); [by eauto|]. assert (I 64 isum) by (eapply try_sum_range; [|exact Hsum]; range).
  rewrite i64_op_Ok by range. cbn [mbind res_bind]. unfold as_u64. rewrite Z.mod_small by range.
  fold (fee_rate_of tx (isum - zsum (value <$> vout tx))). destruct (f64_ltb (fee_rate_of _ _) _) eqn:Hrate; [by eauto|].
  pose proof (verify_pool_inputs_no_panic mp tx Htx). destruct (fold_res _ () _) as [[]| |] eqn:Hv; [|by eauto|done]. left.
  rewrite (verify_pool_inputs_Ok mp tx outs Htx Ho) in Hv. exists (isum - zsum (value <$> vout tx)). split; try done; [| |lia].
  - by apply eq_None_not_Some.
  - exists outs. split; [done|]. split; [|done]. rewrite Hsum. f_equal. lia.
Qed.


(** ** The invariant with a ledger, and acceptance *)

Lemma admissible_fine mp tx fee : tx_ok tx -> admissible mp tx fee -> entry_fine (txid tx) (entry_of tx fee).
Proof. intros Htx []. by split. Qed.

Lemma admissible_anchored mp tx fee : anchored m mp -> admissible mp tx fee -> anchored m (insert_entry mp (txid tx) (entry_of tx fee)).
Proof.
  intros Ha Had id e o He Ho. cbn [insert_entry txs] in He |- *.
  assert (forall p i, txs mp !! op_txid o = Some p /\ is_Some (vout (e_tx p) !! i) ->
    exists p, <[txid tx := entry_of tx fee]> (txs mp) !! op_txid o = Some p /\ is_Some (vout (e_tx p) !! i)) as Hmono.
  { intros p i [Hp Hi]. exists p. split; [|done]. rewrite lookup_insert_ne; [done|]. intros E. by rewrite <- E, (ad_new _ _ _ Had) in Hp. }
  apply lookup_insert_Some in He as [[_ <-]|[_ He]].
  - destruct (ad_coins _ _ _ Had) as (outs & Hf & _). destruct (Forall2_zip_in _ _ _ o Hf Ho) as (out & _ & Hp).
    unfold prevout in Hp. destruct (m !! o); [by left|right]. destruct (txs mp !! op_txid o) as [p|] eqn:Ep; [|done]. cbn in Hp.
    eapply Hmono. eauto.
  - destruct (Ha id e o He Ho) as [H|(p & Hp & Hi)]; [by left|right]. eauto.
Qed.

(** what is admissible is added, and the pool pruned to its limit *)
Lemma accept_tx_evicts mp tx fee :
  tx_ok tx -> pool_ok mp -> 0 <= max_size mp -> total_size mp <= max_size mp -> max_size mp + POLICY_MAX_TX_SIZE <= u64_max -> admissible mp tx fee ->
  exists mp', accept_tx mp tx c = Ok (txid tx, announce mp' (txid tx)) /\
    pruned (insert_entry mp (txid tx) (entry_of tx fee)) mp' /\ total_size mp' <= max_size mp'.
Proof.
  intros Htx Hok H0 Ht Hm Had. pose proof (accept_tx_complete _ _ _ Htx Had) as E.
  assert (pool_ok (insert_entry mp (txid tx) (entry_of tx fee))) as Hok'.
  { apply insert_entry_ok; [done|apply Had|by eapply admissible_fine|apply Had|lia]. }
  destruct (evict_ok _ Hok' H0) as (mp' & Hev & Hp & Hs). rewrite Hev in E. by exists mp'.
Qed.

Lemma accept_tx_inv mp tx :
  tx_ok tx -> pool_ok mp -> anchored m mp -> 0 <= max_size mp -> total_size mp <= max_size mp -> max_size mp + POLICY_MAX_TX_SIZE <= u64_max ->
  (exists msg, accept_tx mp tx c = Err msg /\ forall fee, ~ admissible mp tx fee) \/
  exists fee mp', admissible mp tx fee /\ accept_tx mp tx c = Ok (txid tx, announce mp' (txid tx)) /\
    pruned (insert_entry mp (txid tx) (entry_of tx fee)) mp' /\ anchored m mp' /\ total_size mp' <= max_size mp'.
Proof.
  intros Htx Hok Ha H0 Ht Hm. destruct (accept_tx_cases mp tx Htx) as [[fee Had]|[msg Hmsg]].
  - right. destruct (accept_tx_evicts mp tx fee) as (mp' & E & Hp & Hs); try done. exists fee, mp'. split; [done|]. split; [done|].
    split; [done|]. split; [|done]. eapply pruned_anchored; [|by apply admissible_anchored|exact Hp].
    apply insert_entry_ok; [done|apply Had|by eapply admissible_fine|apply Had|lia].
  - left. exists msg. split; [done|]. intros fee Had. rewrite (accept_tx_complete _ _ _ Htx Had) in Hmsg.
    by destruct (evict_if_needed _).
Qed.
End Acceptance.

(** ** Blocks *)

Section Blocks.
Context `{HS : Sha256} `{HD : Digests} `{HK : K256}.
Implicit Types (mp : Mempool) (m : ledger) (e : MempoolEntry) (id : Hash256) (o : OutPoint) (tx : Transaction).

(** a coin present before a block, or created by it, is present after it unless
    the block spends it *)
Lemma ledger_keeps verify h m l m' undos fees o :
  txs_apply verify h m l m' undos fees -> is_Some (m !! o) \/ (exists tx, tx ∈ l /\ o ∈ (created 0 false tx).*1) ->
  is_Some (m' !! o) \/ exists tx, tx ∈ l /\ is_coinbase tx = false /\ o ∈ inputs_of tx.
Proof.
  assert (forall m l, NoDup l.*1 -> o ∈ l.*1 -> is_Some (credit m l !! o)) as Hcr.
  { intros m0 l0 Hnd ([? c] & -> & Hin)%list_elem_of_fmap. eexists. by apply lookup_credit_in. }
  assert (forall m l, is_Some (m !! o) -> NoDup l.*1 -> is_Some (credit m l !! o)) as Hkeep.
  { intros m0 l0 Hs Hnd. destruct (decide (o ∈ l0.*1)); [by apply Hcr|]. by rewrite lookup_credit_notin. }
  intros H Ho. induction H as [m|m tx txs m' undos fees Hcb Happ IH|m tx txs m' undos coins fee fees Hcb Hsp Happ IH].
  - destruct Ho as [H|(tx & Hin & _)]; [by left|set_solver].
  - destruct IH as [H|(tx' & Hin & Hc & Hi)]; [|by left|right; exists tx'; set_solver].
    destruct Ho as [H|(tx' & [->|Hin]%elem_of_cons & Hk)]; [left; apply Hkeep; [done|apply created_NoDup]| |right; eauto].
    left. eapply Hcr; [apply created_NoDup|]. by rewrite created_keys_eq.
  - destruct (decide (o ∈ inputs_of tx)) as [Hi|Hi]; [right; exists tx; set_solver|].
    destruct IH as [H|(tx' & Hin & Hc & Hi')]; [|by left|right; exists tx'; set_solver].
    destruct Ho as [H|(tx' & [->|Hin]%elem_of_cons & Hk)]; [left; apply Hkeep; [by rewrite lookup_debit, decide_False|apply created_NoDup]| |right; eauto].
    left. eapply Hcr; [apply created_NoDup|]. by rewrite created_keys_eq.
Qed.

(** *** Confirmed transactions leave *)

Lemma drop_confirmed_txs mp id : txs (drop_confirmed mp id) = delete id (txs mp).
Proof. unfold drop_confirmed. destruct (txs mp !! id) eqn:E; [done|]. by rewrite delete_id. Qed.

Lemma drop_confirmed_ok mp id : pool_ok mp -> pool_ok (drop_confirmed mp id).
Proof. intros Hok. unfold drop_confirmed. destruct (txs mp !! id) eqn:E; [|done]. by apply drop_entry_ok. Qed.

Lemma drop_confirmed_sizes mp id : max_size (drop_confirmed mp id) = max_size mp /\ notified (drop_confirmed mp id) = notified mp.
Proof. unfold drop_confirmed. by destruct (txs mp !! id). Qed.

Lemma push_conflicts_elem mp id l conf x :
  x ∈ push_conflicts mp id l conf <-> x ∈ conf \/ x <> id /\ exists i, i ∈ l /\ spends mp !! prev_output i = Some x.
Proof.
  unfold push_conflicts. revert conf. induction l as [|i l IH]; intros conf; cbn [foldl]; [set_solver|]. rewrite IH.
  destruct (spends mp !! prev_output i) as [y|] eqn:E; [case_bool_decide as Hy|].
  - unfold vec_push. rewrite elem_of_app, list_elem_of_singleton. split.
    + intros [[H| ->]|(Hx & j & Hj & H)]; [by left|right; split; [done|]; exists i; set_solver|right; split; [done|]; exists j; set_solver].
    + intros [H|(Hx & j & [->|Hj]%elem_of_cons & H)]; [by left; left|left; right; congruence|right; eauto].
  - split; [intros [H|(Hx & j & Hj & H)]; [by left|right; split; [done|]; exists j; set_solver]|].
    intros [H|(Hx & j & [->|Hj]%elem_of_cons & H)]; [by left|destruct Hy; congruence|right; eauto].
  - split; [intros [H|(Hx & j & Hj & H)]; [by left|right; split; [done|]; exists j; set_solver]|].
    intros [H|(Hx & j & [->|Hj]%elem_of_cons & H)]; [by left|congruence|right; eauto].
Qed.

(** after the first loop: the block's transactions are out, and what spends a
    coin the block spends is listed *)
Record confirmed mp (l : list Transaction) mp1 (conf : list Hash256) : Prop := {
  cf_ok : pool_ok mp1;
  cf_txs id : txs mp1 !! id = if decide (id ∈ txid <$> l) then None else txs mp !! id;
  cf_conf tx id e o : tx ∈ l -> is_coinbase tx = false -> o ∈ inputs_of tx -> txs mp1 !! id = Some e -> o ∈ inputs_of (e_tx e) -> id ∈ conf;
  cf_sound id : id ∈ conf -> exists e tx o, txs mp !! id = Some e /\ tx ∈ l /\ is_coinbase tx = false /\ o ∈ inputs_of tx /\ o ∈ inputs_of (e_tx e);
  cf_max : max_size mp1 = max_size mp;
  cf_notified : notified mp1 = notified mp;
}.

Lemma confirm_txs_ok l mp : pool_ok mp -> exists mp1 conf, foldl confirm_tx (mp, []) l = (mp1, conf) /\ confirmed mp l mp1 conf.
Proof.
  intros Hok. induction l as [|tx l IH] using rev_ind.
  - exists mp, []. split; [done|]. split; [done| |set_solver|set_solver|done|done]. intros id. by rewrite decide_False by set_solver.
  - destruct IH as (mp1 & conf & E & [Hok1 Htxs Hconf Hsnd Hmax Hnt]). rewrite foldl_app, E. cbn [foldl confirm_tx].
    destruct (drop_confirmed_sizes mp1 (txid tx)) as [Hmx Hnx]. pose proof (drop_confirmed_ok mp1 (txid tx) Hok1) as Hok2.
    eexists _, _. split; [done|]. split; [done| | | |congruence|congruence].
    + intros id. rewrite drop_confirmed_txs, fmap_app. cbn [fmap list_fmap].
      destruct (decide (id = txid tx)) as [->|Hne]; [by rewrite lookup_delete_eq, decide_True by set_solver|].
      rewrite lookup_delete_ne, Htxs by done. by do 2 case_decide; set_solver.
    + intros tx' id e o Htx' Hcb Ho He Hoe. assert (id <> txid tx /\ txs mp1 !! id = Some e) as [Hne He1].
      { rewrite drop_confirmed_txs in He. apply lookup_delete_Some in He as [? ?]. by split. }
      apply elem_of_app in Htx' as [Htx'|Htx'].
      * assert (id ∈ conf) as Hin by (eapply Hconf; eauto). destruct (is_coinbase tx); [done|]. apply push_conflicts_elem. by left.
      * apply list_elem_of_singleton in Htx' as ->. rewrite Hcb. apply push_conflicts_elem. right. split; [done|].
        apply list_elem_of_fmap in Ho as (i & -> & Hi). exists i. split; [done|]. apply (pk_spends _ Hok2). eauto.
    + intros id Hid. assert (id ∈ conf \/ is_coinbase tx = false /\ exists i, i ∈ vin tx /\ spends (drop_confirmed mp1 (txid tx)) !! prev_output i = Some id) as [H|(Hcb & i & Hi & Hs)]
        by (destruct (is_coinbase tx); [by left|]; apply push_conflicts_elem in Hid as [?|[_ ?]]; eauto).
      * destruct (Hsnd id H) as (e & tx' & o & ? & ? & ? & ? & ?). exists e, tx', o. set_solver.
      * apply (pk_spends _ Hok2) in Hs as (e & He & Ho). rewrite drop_confirmed_txs in He. apply lookup_delete_Some in He as [_ He].
        rewrite Htxs in He. case_decide; [done|]. exists e, tx, (prev_output i). split; [done|]. split; [set_solver|]. split; [done|]. split; [|done]. by apply list_elem_of_fmap_2.
Qed.

Lemma parent_of_mono mp mp' p q : txs mp' ⊆ txs mp -> parent_of mp' p q -> parent_of mp p q.
Proof. intros Hs (e & d & i & He & Hd & Hi & Ho). exists e, d, i. repeat split; [by eapply lookup_weaken|by eapply lookup_weaken|done|done]. Qed.

Lemma remove_conflicts_ok conf mp :
  pool_ok mp -> exists mp', foldl remove_conflict (Some mp) conf = Some mp' /\ pruned mp mp' /\
    (forall id, id ∈ conf -> txs mp' !! id = None) /\
    forall id, is_Some (txs mp !! id) -> txs mp' !! id = None -> exists root, root ∈ conf /\ rtc (parent_of mp) root id.
Proof.
  revert mp. induction conf as [|id conf IH]; intros mp Hok; cbn [foldl].
  - exists mp. split; [done|]. split; [by apply pruned_refl|]. split; [set_solver|]. intros id [e He]. congruence.
  - assert (exists mp1, remove_conflict (Some mp) id = Some mp1 /\ pruned mp mp1 /\ txs mp1 !! id = None /\
      forall x, is_Some (txs mp !! x) -> txs mp1 !! x = None -> rtc (parent_of mp) id x) as (mp1 & -> & Hp1 & Hid & Hgone).
    { unfold remove_conflict, contains. cbn [mbind option_bind]. case_bool_decide as Hc.
      - destruct (remove_with_descendants_ok mp id Hok) as (mp1 & -> & Hp & Hx). exists mp1. split; [done|]. split; [done|].
        split; [apply Hx; right; constructor|]. intros x [e He] [H|H]%Hx; [congruence|done].
      - exists mp. split; [done|]. split; [by apply pruned_refl|]. split; [by apply eq_None_not_Some|]. intros x [e He]. congruence. }
    destruct (IH mp1 (pr_ok _ _ Hp1)) as (mp2 & -> & Hp2 & Hconf & Hgone2). exists mp2. split; [done|]. split; [by eapply pruned_trans|]. split.
    + intros id' [->|Hin]%elem_of_cons; [|by apply Hconf]. eapply lookup_weaken_None; [exact Hid|apply Hp2].
    + intros x Hx Hx2. destruct (txs mp1 !! x) as [e|] eqn:E1; [|exists id; split; [set_solver|by apply Hgone]].
      destruct (Hgone2 x) as (root & Hr & Hrtc); [by rewrite E1|done|]. exists root. split; [set_solver|].
      eapply rtc_subrel; [|exact Hrtc]. intros p q. by apply parent_of_mono, Hp1.
Qed.


(** identifiers do not collide between the block and the pool *)
Definition no_collision mp (b : Block) : Prop :=
  forall tx id e, tx ∈ transactions b -> txs mp !! id = Some e -> txid tx = id -> tx = e_tx e.

(** an entry conflicts with a block when both spend the same coin *)
Definition conflicts mp (b : Block) id : Prop :=
  exists e tx o, txs mp !! id = Some e /\ tx ∈ transactions b /\ is_coinbase tx = false /\ o ∈ inputs_of tx /\ o ∈ inputs_of (e_tx e).

Lemma pool_bytes_sub mp (t : gmap Hash256 MempoolEntry) : pool_ok mp -> t ⊆ txs mp -> pool_bytes t <= pool_bytes (txs mp).
Proof.
  intros Hok [k Hk]%map_to_list_submseteq%submseteq_Permutation. unfold pool_bytes.
  rewrite (zsum_Permutation _ _ (fmap_Permutation _ _ _ Hk)), fmap_app, zsum_app.
  enough (0 <= zsum ((fun kv => e_size kv.2) <$> k)) by lia. apply zsum_nonneg, Forall_fmap, Forall_forall. intros [id e] Hin. cbn.
  assert ((id, e) ∈ map_to_list (txs mp)) as He%elem_of_map_to_list by (rewrite Hk; set_solver).
  rewrite (ef_size _ _ (pk_entry _ Hok _ _ He)). apply zlen_nonneg.
Qed.

Lemma remove_block_txs_ok verify h m b m' undos mp :
  block_applies verify h m b m' undos -> pool_ok mp -> anchored m mp -> no_collision mp b ->
  exists mp', remove_block_txs mp b = Some mp' /\ pool_ok mp' /\ anchored m' mp' /\ txs mp' ⊆ txs mp /\
    max_size mp' = max_size mp /\ notified mp' = notified mp /\
    (forall id, id ∈ txid <$> transactions b \/ conflicts mp b id -> txs mp' !! id = None) /\
    forall id, is_Some (txs mp !! id) -> txs mp' !! id = None ->
      id ∈ txid <$> transactions b \/ exists root, conflicts mp b root /\ rtc (parent_of mp) root id.
Proof.
  intros (fees & Happ & _) Hok Ha Hnc. unfold remove_block_txs.
  destruct (confirm_txs_ok (transactions b) mp Hok) as (mp1 & conf & -> & [Hok1 Htxs Hconf Hsnd Hmx1 Hnt1]).
  destruct (remove_conflicts_ok conf mp1 Hok1) as (mp2 & -> & Hp & Hgone & Hmin).
  assert (txs mp1 ⊆ txs mp) as Hsub1.
  { apply map_subseteq_spec. intros id e. rewrite Htxs. by case_decide. }
  assert (txs mp2 ⊆ txs mp) as Hsub by (etrans; [apply Hp|done]).
  assert (forall id, conflicts mp b id -> txs mp2 !! id = None) as Hcf.
  { intros id (e & tx & o & He & Htx & Hcb & Ho & Hoe). destruct (txs mp1 !! id) as [e'|] eqn:E1; [|by eapply lookup_weaken_None; [|apply Hp]].
    pose proof (lookup_weaken _ _ _ _ E1 Hsub1). simplify_eq. apply Hgone. by eapply Hconf. }
  exists mp2. split; [done|]. split; [apply Hp|]. split; [|split; [done|]].
  - intros id e o He Ho. pose proof (lookup_weaken _ _ _ _ He Hsub) as He0. pose proof (lookup_weaken _ _ _ _ He (pr_sub _ _ Hp)) as He1.
    assert (~ exists tx, tx ∈ transactions b /\ is_coinbase tx = false /\ o ∈ inputs_of tx) as Hunspent.
    { intros (tx & Htx & Hcb & Hin). rewrite (Hcf id) in He; [done|]. by exists e, tx, o. }
    destruct (Ha id e o He0 Ho) as [Hm|(p & Hpp & Hi)].
    { left. by destruct (ledger_keeps _ _ _ _ _ _ _ o Happ (or_introl Hm)). }
    destruct (outpoint_of_index o _ (proj2 (input_index _ _ _ (pk_entry _ Hok _ _ He0) Ho)) Hi) as (i & Hlt & Heq).
    destruct (txs mp1 !! op_txid o) as [p'|] eqn:Ep1.
    + pose proof (lookup_weaken _ _ _ _ Ep1 Hsub1). simplify_eq. destruct (txs mp2 !! op_txid o) as [q|] eqn:Ep2.
      * pose proof (lookup_weaken _ _ _ _ Ep2 (pr_sub _ _ Hp)). simplify_eq. right. eauto.
      * exfalso. rewrite (pr_closed _ _ Hp (op_txid o) id) in He; [done| |done]. exists p, e, i. rewrite <- Heq. auto.
    + rewrite Htxs in Ep1. case_decide as Hin; [|congruence]. apply list_elem_of_fmap in Hin as (tx & Hid & Htx).
      rewrite (Hnc tx (op_txid o) p Htx Hpp (eq_sym Hid)) in Htx. left.
      destruct (ledger_keeps _ _ _ _ _ _ _ o Happ) as [H|H]; [right; exists (e_tx p); split; [done|]|done|done].
      rewrite created_keys. apply list_elem_of_fmap. exists i. rewrite elem_of_seq. split; [|lia].
      rewrite <- (ef_id _ _ (pk_entry _ Hok _ _ Hpp)). done.
  - split; [by rewrite (pr_max _ _ Hp)|]. split; [by rewrite (pr_notified _ _ Hp)|]. split.
    + intros id [Hin|Hc]; [|by apply Hcf]. eapply lookup_weaken_None; [|apply Hp]. rewrite Htxs. by rewrite decide_True.
    + intros id [e He] Hid. destruct (txs mp1 !! id) as [e'|] eqn:E1.
      * right. destruct (Hmin id) as (root & Hr & Hrtc); [by rewrite E1|done|]. exists root. split; [by apply Hsnd|].
        eapply rtc_subrel; [|exact Hrtc]. intros p q. by apply parent_of_mono.
      * left. rewrite Htxs in E1. case_decide; [done|congruence].
Qed.
End Blocks.

(** ** Runs of the pool *)

Section Runs.
Context `{HS : Sha256} `{!Sha256Len HS} `{HD : Digests} `{!DigestsLen HD} `{HK : K256} `{HO : HashOrder} `{!HashOrderLaws HO}.
Context {C : Type} {HV : CoinView C}.
Implicit Types (mp : Mempool) (m : ledger) (c : C) (e : MempoolEntry) (id : Hash256) (o : OutPoint) (tx : Transaction).

Record pool_inv m mp : Prop := {
  pi_ok : pool_ok mp;
  pi_anchored : anchored m mp;
  pi_positive : 0 <= max_size mp;
  pi_bounded : total_size mp <= max_size mp;
  pi_width : max_size mp + POLICY_MAX_TX_SIZE <= u64_max;
}.

Lemma pool_inv_empty m max : 0 <= max -> max + POLICY_MAX_TX_SIZE <= u64_max -> pool_inv m (with_max_size max).
Proof. intros H0 Hw. split; [apply empty_ok|intros ??? He; cbn in He; by rewrite lookup_empty in He|done|done|done]. Qed.

Lemma announce_inv m mp id : pool_inv m mp -> pool_inv m (announce mp id).
Proof. intros [[He Hs Hz] Ha H0 Hb Hw]. by split. Qed.

Lemma pruned_inv m mp mp' : pool_inv m mp -> pruned mp mp' -> pool_inv m mp'.
Proof.
  intros [Hok Ha H0 Hb Hw] Hp. pose proof (pruned_anchored _ _ _ Hok Ha Hp). destruct Hp as [Hok' Hsub _ Hmx _].
  pose proof (pool_bytes_sub mp _ Hok Hsub) as Hs. rewrite <- (pk_size _ Hok), <- (pk_size _ Hok') in Hs. split; [done|done|lia..].
Qed.

Lemma accept_tx_pool_inv c m mp tx :
  CoinViewLaws HV c m -> tx_ok tx -> pool_inv m mp ->
  (exists msg, accept_tx mp tx c = Err msg) \/ exists mp', accept_tx mp tx c = Ok (txid tx, mp') /\ pool_inv m mp'.
Proof.
  intros Hv Htx [Hok Ha H0 Hb Hw]. destruct (accept_tx_inv c m mp tx) as [(msg & Hmsg & _)|(fee & mp' & Had & E & Hp & Ha' & Hs)]; try done; [by eauto|].
  right. exists (announce mp' (txid tx)). split; [done|]. apply announce_inv. pose proof (pr_max _ _ Hp) as Hmx. cbn in Hmx.
  split; [apply Hp|done|by rewrite Hmx|done|by rewrite Hmx].
Qed.

(** a pool that is consistent with itself, whatever the ledger *)
Record pool_safe mp : Prop := {
  ps_ok : pool_ok mp;
  ps_positive : 0 <= max_size mp;
  ps_bounded : total_size mp <= max_size mp;
  ps_width : max_size mp + POLICY_MAX_TX_SIZE <= u64_max;
}.

Lemma pool_inv_safe m mp : pool_inv m mp -> pool_safe mp.
Proof. intros []. by split. Qed.

Lemma accept_tx_pool_safe c m mp tx :
  CoinViewLaws HV c m -> tx_ok tx -> pool_safe mp ->
  (exists msg, accept_tx mp tx c = Err msg) \/ exists mp', accept_tx mp tx c = Ok (txid tx, mp') /\ pool_safe mp'.
Proof.
  intros Hv Htx [Hok H0 Hb Hw]. destruct (accept_tx_cases c m mp tx Htx) as [[fee Had]|?]; [|by left]. right.
  destruct (accept_tx_evicts c m mp tx fee) as (mp' & E & Hp & Hs); try done. pose proof (pr_max _ _ Hp) as Hmx. cbn in Hmx.
  exists (announce mp' (txid tx)). split; [done|]. destruct (pr_ok _ _ Hp) as [He Hsp Hz]. split; cbn; [by split|by rewrite Hmx|done|by rewrite Hmx].
Qed.

Lemma remove_block_txs_safe mp b : pool_safe mp -> exists mp', remove_block_txs mp b = Some mp' /\ pool_safe mp'.
Proof.
  intros [Hok H0 Hb Hw]. unfold remove_block_txs.
  destruct (confirm_txs_ok (transactions b) mp Hok) as (mp1 & conf & -> & [Hok1 Htxs _ _ Hmx1 _]).
  destruct (remove_conflicts_ok conf mp1 Hok1) as (mp2 & -> & Hp & _). exists mp2. split; [done|].
  assert (txs mp2 ⊆ txs mp) as Hsub by (etrans; [apply Hp|]; apply map_subseteq_spec; intros id e; rewrite Htxs; by case_decide).
  pose proof (pool_bytes_sub mp _ Hok Hsub) as Hs. rewrite <- (pk_size _ Hok), <- (pk_size _ (pr_ok _ _ Hp)) in Hs.
  pose proof (pr_max _ _ Hp). split; [apply Hp|lia..].
Qed.

(** *** Disconnected transactions *)

(** any property of pools that acceptance keeps *)
Section Readd.
Context (c : C) (P : Mempool -> Prop).
Context (HP : forall mp tx, tx_ok tx -> P mp ->
  (exists msg, accept_tx mp tx c = Err msg) \/ exists mp', accept_tx mp tx c = Ok (txid tx, mp') /\ P mp').

Lemma readd_pass_ok l mp :
  Forall tx_ok l -> P mp ->
  exists mp' rest added, readd_pass mp c l = Ok (mp', rest, added) /\ P mp' /\ 0 <= added /\ zlen l = zlen rest + added /\
    rest ⊆+ l /\ (added = 0 -> mp' = mp /\ rest = l /\ forall tx, tx ∈ l -> exists msg, accept_tx mp tx c = Err msg).
Proof.
  intros Hl. revert mp. induction Hl as [|tx l Htx Hl IH]; intros mp Hi; cbn [readd_pass].
  - exists mp, [], 0. split_and!; [done..|]. intros _. split_and!; [done|done|set_solver].
  - destruct (HP mp tx Htx Hi) as [[msg E]|(mp1 & E & Hi1)]; rewrite E.
    + destruct (IH mp Hi) as (mp' & rest & added & -> & Hi' & H0 & Hlen & Hsub & Hz). cbn [mbind res_bind].
      exists mp', (tx :: rest), added. rewrite !zlen_cons. split_and!; [done|done|done|lia|by constructor|].
      intros Hz0. destruct (Hz Hz0) as (-> & -> & Hall). split_and!; [done|done|]. intros tx' [->|Hin]%elem_of_cons; [by eauto|]. by apply Hall.
    + destruct (IH mp1 Hi1) as (mp' & rest & added & -> & Hi' & H0 & Hlen & Hsub & Hz). cbn [mbind res_bind].
      exists mp', rest, (added + 1). rewrite zlen_cons. split_and!; [done|done|lia|lia|by constructor|lia].
Qed.

Lemma readd_loop_ok fuel l mp n :
  Forall tx_ok l -> P mp -> (length l < fuel)%nat -> 0 <= n ->
  exists mp' rest n', readd_loop fuel mp c l n = Ok (mp', n') /\ P mp' /\ rest ⊆+ l /\
    (n + zlen l <= u32_max -> n' = n + (zlen l - zlen rest)) /\ forall tx, tx ∈ rest -> exists msg, accept_tx mp' tx c = Err msg.
Proof.
  revert l mp n. induction fuel as [|fuel IH]; intros l mp n Hl Hi Hf Hn; [lia|]. cbn [readd_loop].
  destruct (Z.eqb_spec (zlen l) 0) as [H0|H0].
  - exists mp, [], n. destruct l as [|tx l]; [|rewrite zlen_cons in H0; pose proof (zlen_nonneg l); lia]. split_and!; [done|done|done|cbn; lia|set_solver].
  - destruct (readd_pass_ok l mp Hl Hi) as (mp1 & rest & added & -> & Hi1 & Ha & Hlen & Hsub & Hz). cbn [mbind res_bind].
    pose proof (@zlen_nonneg Transaction rest). assert (n + zlen l <= u32_max -> u32_sat_add n added = n + added) as Hsat by (unfold u32_sat_add; lia).
    assert (0 <= u32_sat_add n added) by (unfold u32_sat_add; range). destruct (Z.eqb_spec added 0) as [->|Hne].
    + destruct (Hz eq_refl) as (-> & -> & Hall). exists mp, l, (u32_sat_add n 0). split_and!; [done|done|done|lia|done].
    + destruct (IH rest mp1 (u32_sat_add n added)) as (mp' & rest' & n' & E & Hi' & Hsub' & Hn' & Hall); [|done|unfold zlen in *; lia|lia|].
      { apply Forall_forall. intros tx Hin. rewrite Forall_forall in Hl. apply Hl. by eapply elem_of_submseteq. }
      exists mp', rest', n'. split_and!; [done|done|by etrans|lia|done].
Qed.

Lemma readd_ok l mp :
  Forall tx_ok l -> P mp ->
  let pending := filter (fun tx => is_coinbase tx = false) l in
  exists mp' rest n, readd_disconnected_txs mp l c = Ok (mp', n) /\ P mp' /\ rest ⊆+ pending /\
    (zlen l <= u32_max -> n = zlen pending - zlen rest) /\ forall tx, tx ∈ rest -> exists msg, accept_tx mp' tx c = Err msg.
Proof.
  intros Hl Hi pending. unfold readd_disconnected_txs. fold pending.
  assert (zlen pending <= zlen l) by (unfold zlen, pending; pose proof (length_filter (fun tx => is_coinbase tx = false) l); lia).
  destruct (readd_loop_ok (S (length pending)) pending mp 0) as (mp' & rest & n & E & Hp & Hsub & Hn & Hall); [|done|lia|lia|].
  - apply Forall_forall. intros tx [_ Hin]%list_elem_of_filter. rewrite Forall_forall in Hl. by apply Hl.
  - exists mp', rest, n. split_and!; [done|done|done|lia|done].
Qed.
End Readd.

(** ** Properties *)

(** what happens to a pool: submissions, removals, blocks that change the ledger
    and the return of transactions from disconnected blocks *)
Inductive pool_step : ledger * Mempool -> ledger * Mempool -> Prop :=
| step_accept c m mp tx id mp' :
  CoinViewLaws HV c m -> tx_ok tx -> accept_tx mp tx c = Ok (id, mp') -> pool_step (m, mp) (m, mp')
| step_remove m mp id mp' : remove_with_descendants mp id = Some mp' -> pool_step (m, mp) (m, mp')
| step_block verify h m b m' undos mp mp' :
  block_applies verify h m b m' undos -> no_collision mp b -> remove_block_txs mp b = Some mp' -> pool_step (m, mp) (m', mp')
| step_readd c m mp l mp' n :
  CoinViewLaws HV c m -> Forall tx_ok l -> zlen l <= u32_max -> readd_disconnected_txs mp l c = Ok (mp', n) -> pool_step (m, mp) (m, mp').

Lemma pool_step_inv s s' : pool_step s s' -> pool_inv s.1 s.2 -> pool_inv s'.1 s'.2.
Proof.
  intros [c m mp tx id mp' Hv Htx E|m mp id mp' E|verify h m b m' undos mp mp' Ha Hnc E|c m mp l mp' n Hv Hl Hn E] Hi; cbn [fst snd] in *.
  - destruct (accept_tx_pool_inv c m mp tx Hv Htx Hi) as [[msg E']|(mp1 & E' & Hi')]; congruence.
  - destruct (remove_with_descendants_ok mp id (pi_ok _ _ Hi)) as (mp1 & E' & Hp & _). simplify_eq. by eapply pruned_inv.
  - destruct Hi as [Hok Hanc H0 Hb Hw]. destruct (remove_block_txs_ok _ _ _ _ _ _ mp Ha Hok Hanc Hnc) as (mp1 & E' & Hok1 & Ha1 & Hsub & Hmx & _).
    simplify_eq. pose proof (pool_bytes_sub mp _ Hok Hsub) as Hs. rewrite <- (pk_size _ Hok), <- (pk_size _ Hok1) in Hs. split; [done|done|lia..].
  - destruct (readd_ok c (pool_inv m) (fun mp tx => accept_tx_pool_inv c m mp tx Hv) l mp Hl Hi) as (mp1 & rest & n' & E' & Hi' & _). congruence.
Qed.

(** C7: the pool stays consistent.  From an empty pool, after any number of
    submissions, removals, connected blocks and returned transactions: the
    spending index lists exactly the inputs of the entries, no two entries spend
    the same coin, the total is the sum of the sizes and within the limit, and
    every input is a coin of the current ledger or an output of another entry.  (Blocks that a
    reorganisation disconnects from the ledger are not among the steps.) *)
Theorem mempool_invariant (m m' : ledger) (max : Z) (mp : Mempool) :
  0 <= max -> max + POLICY_MAX_TX_SIZE <= u64_max -> rtc pool_step (m, with_max_size max) (m', mp) ->
  pool_ok mp /\ anchored m' mp /\ total_size mp = pool_bytes (txs mp) /\ total_size mp <= max_size mp /\
  forall id id' e e' o, txs mp !! id = Some e -> txs mp !! id' = Some e' ->
    o ∈ inputs_of (e_tx e) -> o ∈ inputs_of (e_tx e') -> id = id'.
Proof.
  intros H0 Hw Hrun. assert (pool_inv m' mp) as [Hok Ha _ Hb _].
  { change (pool_inv (m', mp).1 (m', mp).2). eapply (rtc_ind_r (fun s => pool_inv s.1 s.2)); [| |exact Hrun].
    - by apply pool_inv_empty.
    - intros s s' _ Hs. by apply pool_step_inv. }
  split_and!; [done|done|apply Hok|done|]. intros id id' e e' o. by apply pool_no_double_spend.
Qed.

(** C21: [accept_tx] applies the pool's rules and nothing else.  It never panics;
    it succeeds exactly on the admissible transactions (well-formed, new, not a
    coinbase, at most 100 KB, inputs unspent in the pool and found in the ledger
    or the pool, outputs within the inputs, fee rate at least the minimum, every
    script satisfied), and then adds that entry, possibly evicting, and announces
    it. *)
Theorem accept_tx_exact c (m : ledger) (mp : Mempool) tx :
  CoinViewLaws HV c m -> tx_ok tx -> pool_inv m mp ->
  match accept_tx mp tx c with
  | Ok (id, mp') => id = txid tx /\ notified mp' = notified mp ++ [id] /\ total_size mp' <= max_size mp /\
      exists fee, admissible m mp tx fee /\ txs mp' ⊆ <[id := entry_of tx fee]> (txs mp) /\
        (total_size mp + zlen (tx_to_bytes tx) <= max_size mp -> txs mp' = <[id := entry_of tx fee]> (txs mp))
  | Err _ => forall fee, ~ admissible m mp tx fee
  | Panic => False
  end.
Proof.
  intros Hv Htx [Hok Ha H0 Hb Hw]. destruct (accept_tx_inv c m mp tx) as [(msg & -> & Hno)|(fee & mp' & Had & E & Hp & Ha' & Hs)]; try done.
  rewrite E. pose proof (pr_max _ _ Hp) as Hmx. pose proof (pr_notified _ _ Hp) as Hnt. cbn in Hmx, Hnt. cbn [announce notified txs total_size].
  split; [done|]. split; [by rewrite Hnt|]. split; [lia|]. exists fee. split; [done|]. split; [apply Hp|]. intros Hroom.
  rewrite (accept_tx_complete c m mp tx fee Htx Had) in E. unfold evict_if_needed in E. cbn [insert_entry txs] in E.
  rewrite map_size_insert_None in E by apply Had. cbn [evict_loop insert_entry total_size max_size entry_of e_size] in E.
  unfold u64_sat_add in E. unfold POLICY_MAX_TX_SIZE in Hw. rewrite Z.min_r, Z.gtb_ltb in E by lia.
  rewrite (proj2 (Z.ltb_ge _ _)) in E by lia. cbn in E. injection E as <-. done.
Qed.

(** returning transactions to the pool ends, whatever their order, and misses
    none: a transaction that was not taken is one the final pool still refuses. *)
Theorem readd_fixpoint c (m : ledger) (l : list Transaction) (mp : Mempool) :
  CoinViewLaws HV c m -> Forall tx_ok l -> zlen l <= u32_max -> pool_inv m mp ->
  let pending := filter (fun tx => is_coinbase tx = false) l in
  exists mp' rest, readd_disconnected_txs mp l c = Ok (mp', zlen pending - zlen rest) /\ pool_inv m mp' /\ rest ⊆+ pending /\
    forall tx, tx ∈ rest -> exists msg, accept_tx mp' tx c = Err msg.
Proof.
  intros Hv Hl Hn Hi pending.
  destruct (readd_ok c (pool_inv m) (fun mp tx => accept_tx_pool_inv c m mp tx Hv) l mp Hl Hi) as (mp' & rest & n & E & Hi' & Hsub & Hn' & Hall).
  exists mp', rest. by rewrite E, (Hn' Hn).
Qed.
End Runs.

Section Removed.
Context `{HS : Sha256} `{HD : Digests} `{HK : K256}.

(** connecting a block takes out of a consistent pool exactly the block's own
    transactions, the transactions that spend a coin the block spends, and what
    descends from those; what stays finds its inputs in the new ledger or in the
    pool. *)
Theorem block_removal_exact verify h (m : ledger) (b : Block) (m' : ledger) undos (mp : Mempool) :
  block_applies verify h m b m' undos -> pool_ok mp -> anchored m mp -> no_collision mp b ->
  exists mp', remove_block_txs mp b = Some mp' /\ anchored m' mp' /\ txs mp' ⊆ txs mp /\
    (forall id, id ∈ txid <$> transactions b \/ conflicts mp b id -> txs mp' !! id = None) /\
    forall id, is_Some (txs mp !! id) -> txs mp' !! id = None ->
      id ∈ txid <$> transactions b \/ exists root, conflicts mp b root /\ rtc (parent_of mp) root id.
Proof.
  intros Hb Hok Ha Hnc. destruct (remove_block_txs_ok _ _ _ _ _ _ _ Hb Hok Ha Hnc) as (mp' & E & _ & Ha' & Hsub & _ & _ & Hgone & Hmin).
  by exists mp'.
Qed.
End Removed.

(** ** Examples *)

Definition sample_ledger : ledger := {[sample_outpoint := sample_coin]}.

(** a transaction that spends the sample coin, and one that spends its output *)
Definition parent_tx : Transaction := mkTx 1 [mkTxIn sample_outpoint [] 0] [mkTxOut 300 [x51]] 0.
Definition child_tx : Transaction :=
  mkTx 1 [mkTxIn (mkOutPoint (@txid toy_sha256 parent_tx) 0) [] 0] [mkTxOut 100 [x51]] 0.

(** a transaction that parses back is well-formed *)
Lemma tx_ok_parse tx : tx_from_cursor (tx_to_bytes tx) = Ok (tx, []) -> tx_ok tx.
Proof. intros Hp%(encode_decode (c := tx_codec)). apply Hp. Qed.

Lemma parent_tx_ok : tx_ok parent_tx.
Proof. apply tx_ok_parse. vm_compute. reflexivity. Qed.
Lemma child_tx_ok : tx_ok child_tx.
Proof. apply tx_ok_parse. vm_compute. reflexivity. Qed.

#[local] Existing Instance plain_order.

Definition toy_accept (mp : Mempool) (tx : Transaction) : result (Hash256 * Mempool) :=
  @accept_tx toy_sha256 toy_digests toy_k256 plain_order ledger ledger_view mp tx sample_ledger.

Lemma both_accepted : exists id mp id' mp', toy_accept (with_max_size 1000) parent_tx = Ok (id, mp) /\ toy_accept mp child_tx = Ok (id', mp').
Proof.
  assert (exists r, toy_accept (with_max_size 1000) parent_tx = Ok r) as [[id mp] E] by (apply is_ok_Ok; vm_compute; reflexivity).
  assert (exists r, (r1 ← toy_accept (with_max_size 1000) parent_tx; toy_accept r1.2 child_tx) = Ok r) as [[id' mp'] E']
    by (apply is_ok_Ok; vm_compute; reflexivity).
  rewrite E in E'. cbn [mbind res_bind snd] in E'. exists id, mp, id', mp'. split; [exact E|exact E'].
Qed.

Lemma mempool_invariant_witness :
  exists id mp id' mp', toy_accept (with_max_size 1000) parent_tx = Ok (id, mp) /\ toy_accept mp child_tx = Ok (id', mp') /\
    @anchored sample_ledger mp' /\ total_size mp' <= max_size mp'.
Proof.
  destruct both_accepted as (id & mp & id' & mp' & E & E').
  pose proof (@mempool_invariant toy_sha256 _ toy_digests _ toy_k256 plain_order _ ledger ledger_view sample_ledger sample_ledger 1000 mp') as H.
  exists id, mp, id', mp'. destruct H as (_ & Ha & _ & Hb & _); [lia|by vm_compute| |split; [exact E|split; [exact E'|split; [exact Ha|exact Hb]]]].
  unfold toy_accept in E, E'. apply (rtc_l _ _ (sample_ledger, mp)).
  - apply (step_accept sample_ledger _ _ parent_tx id); [apply ledger_view_laws|exact parent_tx_ok|exact E].
  - apply rtc_once, (step_accept sample_ledger _ _ child_tx id'); [apply ledger_view_laws|exact child_tx_ok|exact E'].
Defined.

Lemma accept_tx_exact_witness : exists fee, @admissible toy_sha256 toy_digests toy_k256 sample_ledger (with_max_size 1000) parent_tx fee.
Proof.
  pose proof (@accept_tx_exact toy_sha256 _ toy_digests _ toy_k256 plain_order _ ledger ledger_view sample_ledger sample_ledger
    (with_max_size 1000) parent_tx (ledger_view_laws _) parent_tx_ok ltac:(apply pool_inv_empty; by vm_compute)) as H.
  destruct both_accepted as (id & mp & _ & _ & E & _). fold (toy_accept (with_max_size 1000) parent_tx) in H. rewrite E in H.
  destruct H as (_ & _ & _ & fee & Had & _). by exists fee.
Defined.

(** the child is offered before its parent *)
Lemma readd_fixpoint_witness :
  exists mp' (rest : list Transaction), @readd_disconnected_txs toy_sha256 toy_digests toy_k256 plain_order ledger ledger_view (with_max_size 1000)
    [child_tx; parent_tx] sample_ledger = Ok (mp', 2 - zlen rest).
Proof.
  destruct (@readd_fixpoint toy_sha256 _ toy_digests _ toy_k256 plain_order _ ledger ledger_view sample_ledger sample_ledger
    [child_tx; parent_tx] (with_max_size 1000)) as (mp' & rest & E & _).
  - apply ledger_view_laws.
  - constructor; [apply child_tx_ok|constructor; [apply parent_tx_ok|constructor]].
  - by vm_compute.
  - apply pool_inv_empty; by vm_compute.
  - exists mp', rest. exact E.
Defined.

Lemma sample_block_applies : exists m' undos, @block_applies toy_sha256 toy_digests toy_k256 true 200 sample_ledger (bip34_block 200) m' undos.
Proof.
  assert (exists cs', @connect_block toy_sha256 toy_digests toy_k256 _ _ _ _ _ _ sample_state (bip34_block 200) 200 HASH_ZERO = Ok cs') as [cs' E]
    by (apply is_ok_Ok; vm_compute; reflexivity).
  destruct (@connect_block_ok toy_sha256 _ toy_digests _ toy_k256 byte_table meta_table sample_index _ _ _ _ _ _
    sample_state sample_ledger (bip34_block 200) 200 HASH_ZERO cs' sample_state_ok) as (m' & undos & fees & Ha & Hcb & _).
  - apply block_ok_parse. vm_compute. reflexivity.
  - apply check_block_Ok. vm_compute. reflexivity.
  - done.
  - exact E.
  - exists m', undos, fees. split; [exact Ha|exact Hcb].
Qed.

Lemma parent_pool_ok :
  exists mp, (exists id, toy_accept (with_max_size 1000) parent_tx = Ok (id, mp)) /\
    @pool_inv toy_sha256 sample_ledger mp /\ @no_collision toy_sha256 mp (bip34_block 200).
Proof.
  destruct both_accepted as (id & mp & _ & _ & E & _). exists mp. split; [exists id; exact E|]. unfold toy_accept in E.
  assert (@pool_inv toy_sha256 sample_ledger (with_max_size 1000)) as [Hok Ha H0 Hb Hw] by (apply pool_inv_empty; by vm_compute).
  destruct (@accept_tx_inv toy_sha256 _ toy_digests _ toy_k256 plain_order _ ledger ledger_view sample_ledger sample_ledger _
    (with_max_size 1000) parent_tx parent_tx_ok Hok Ha H0 Hb Hw) as [(msg & E' & _)|(fee & mp' & _ & E' & Hp & Ha' & Hs)];
    rewrite E in E'; [discriminate E'|]. injection E' as -> ->. pose proof (pr_max _ _ Hp) as Hmx. cbn in Hmx. split.
  - apply announce_inv. split; [apply Hp|exact Ha'|rewrite Hmx; lia|exact Hs|rewrite Hmx; by vm_compute].
  - intros tx id e Htx He Hid. exfalso. cbn [announce txs] in He. pose proof (lookup_weaken _ _ _ _ He (pr_sub _ _ Hp)) as He'.
    cbn [insert_entry txs with_max_size] in He'. apply lookup_insert_Some in He' as [[He' _]|[_ He']]; [|by rewrite lookup_empty in He'].
    subst id. unfold bip34_block in Htx. cbn [transactions] in Htx. revert He'.
    apply elem_of_cons in Htx as [->|Htx%list_elem_of_singleton]; [|subst tx]; apply (bool_decide_unpack (_ <> _)); vm_compute; exact Logic.I.
Qed.

Lemma block_removal_exact_witness :
  exists id mp m' mp', toy_accept (with_max_size 1000) parent_tx = Ok (id, mp) /\
    @remove_block_txs toy_sha256 mp (bip34_block 200) = Some mp' /\ anchored m' mp'.
Proof.
  destruct parent_pool_ok as (mp & [id E] & Hi & Hnc). destruct sample_block_applies as (m' & undos & Hb).
  destruct (@block_removal_exact toy_sha256 toy_digests toy_k256 _ _ _ _ _ _ mp Hb (pi_ok _ _ Hi) (pi_anchored _ _ Hi) Hnc) as (mp' & E' & Ha & _).
  exists id, mp, m', mp'. split; [exact E|split; [exact E'|exact Ha]].
Defined.
