(* ===== verification/Headers.v ===== *)
(** * Headers: the header tree and the active chain

    Models src/src/headers.rs.  Headers are kept by hash in [by_hash]; the active
    chain maps heights to hashes; [tips] are the fork tips, [best_known_tip] the
    cached candidate with the most work.  The persistence backend is the trait of
    src/src/storage/header_store_backend.rs, here the class [HeaderBackend]; a
    write that fails leaves the backend as it was.  Iteration over the hash sets
    and maps follows [HashOrder].  The loops that walk parent links have as fuel
    the number of headers: a walk that is longer visits a header twice and never
    ends, which is [Panic] here.  Log output is left out. *)
From Stdlib Require Import Strings.Byte.
From stdpp Require Import base numbers list strings gmap sorting.
From S2P Require Import Prelude Codec Types Compact Difficulty Vec Pow HashOrder.

Definition MAX_LOCATOR_HASHES : Z := 101.
Definition MAX_REORG_DEPTH : Z := 1000.
Definition MAX_FORK_HEADERS : Z := 10000.
Definition MAX_FORK_AGE : Z := 1000.

Record StoredHeader := mkStored { s_header : BlockHeader; s_height : Z; s_chainwork : Z }.

Inductive AcceptResult := Accepted | NeedReorg | AlreadyKnown.

(** a header with its hash, height and chainwork, as persisted *)
Notation header_row := (Hash256 * BlockHeader * Z * Z)%type.

Class HeaderBackend (B : Type) : Type := {
  persist_header : B -> Hash256 -> BlockHeader -> Z -> Z -> result B;
  persist_headers : B -> list header_row -> result B;
  load_all : B -> result (list header_row);
  persist_invalid_tip : B -> Hash256 -> result B;
  load_invalid_tips : B -> result (list Hash256);
  clear : B -> result B;
}.

(** the fields of the store *)
Record HeaderStore (B : Type) := mkStore {
  by_hash : gmap Hash256 StoredHeader;
  active_chain : list Hash256;
  active_set : gset Hash256;
  tips : gset Hash256;
  best_known_tip : Hash256 * Z;
  invalid_tips : gset Hash256;
  backend : option B;
  params : ConsensusParams;
}.
Arguments mkStore {B}.
Arguments by_hash {B}.
Arguments active_chain {B}.
Arguments active_set {B}.
Arguments tips {B}.
Arguments best_known_tip {B}.
Arguments invalid_tips {B}.
Arguments backend {B}.
Arguments params {B}.

Section Lookup.
Context {B : Type}.
Implicit Types (hs : HeaderStore B).

(** the timestamp and the bits of a stored header *)
Definition stamp (s : StoredHeader) : Z * Z := (timestamp (s_header s), bits (s_header s)).

Definition store_header_at hs (height : Z) : option (Z * Z) :=
  hash ← vec_index (active_chain hs) height;
  stored ← by_hash hs !! hash;
  Some (stamp stored).
#[global] Instance store_lookup : ChainLookup (HeaderStore B) := store_header_at.

(** the store with the headers of the current batch on top *)
Record BatchLookup := mkBatch { batch_store : HeaderStore B; pending : list header_row }.

Definition batch_header_at (l : BatchLookup) (height : Z) : option (Z * Z) :=
  let fall_back := store_header_at (batch_store l) height in
  match head (pending l) with
  | Some (_, _, first_height, _) =>
    if height >=? first_height then
      match vec_index (pending l) (height - first_height) with
      | Some (_, header, _, _) => Some (timestamp header, bits header)
      | None => fall_back
      end
    else fall_back
  | None => fall_back
  end.
#[global] Instance batch_lookup : ChainLookup BatchLookup := batch_header_at.

(** the store as seen from a fork *)
Record ForkLookup := mkFork { fork_store : HeaderStore B; fork_headers : gmap Z (Z * Z) }.

Fixpoint build_loop (fuel : nat) hs (fork : gmap Z (Z * Z)) (current : Hash256) : option (gmap Z (Z * Z)) :=
  match fuel with
  | O => None
  | S fuel =>
    match by_hash hs !! current with
    | None => Some fork
    | Some stored =>
      if bool_decide (current ∈ active_set hs) then Some fork else
      let fork := <[s_height stored := stamp stored]> fork in
      if s_height stored =? 0 then Some fork else build_loop fuel hs fork (prev_hash (s_header stored))
    end
  end.

Definition walk_fuel hs : nat := S (size (by_hash hs)).

Definition fork_build hs (start : Hash256) : result ForkLookup :=
  fork ← or_panic (build_loop (walk_fuel hs) hs ∅ start);
  Ok (mkFork hs fork).

Definition fork_header_at (l : ForkLookup) (height : Z) : option (Z * Z) :=
  match fork_headers l !! height with
  | Some p => Some p
  | None => store_header_at (fork_store l) height
  end.
#[global] Instance fork_lookup : ChainLookup ForkLookup := fork_header_at.

(** ** Queries *)

Definition hs_get hs (hash : Hash256) : option StoredHeader := by_hash hs !! hash.
Definition hash_at_height hs (height : Z) : option Hash256 := vec_index (active_chain hs) height.

Definition hs_height hs : result Z :=
  h ← usize_sub (zlen (active_chain hs)) 1; Ok (h mod 2 ^ 32).

Definition hs_tip hs : result (Hash256 * Z) :=
  height ← hs_height hs;
  hash ← or_panic (vec_index (active_chain hs) height);
  Ok (hash, height).

Definition hs_genesis hs : result Hash256 := or_panic (vec_index (active_chain hs) 0).

Definition tip_bits hs : result Z :=
  '(tip_hash, _) ← hs_tip hs;
  stored ← or_panic (by_hash hs !! tip_hash);
  Ok (bits (s_header stored)).

Definition hashes_in_range hs (start end_ : Z) : list (Z * Hash256) :=
  let end_idx := Z.min end_ (zlen (active_chain hs)) in
  if start >=? end_idx then [] else
  imap (fun i hash => (start + Z.of_nat i, hash)) (take (Z.to_nat (end_idx - start)) (drop (Z.to_nat start) (active_chain hs))).

(** the height and the step follow the tip down; [consecutive] counts the steps
    by one *)
Fixpoint locator_loop (fuel : nat) hs (height step consecutive : Z) (locator : list Hash256) : result (list Hash256) :=
  match fuel with
  | O => Panic
  | S fuel =>
    hash ← or_panic (vec_index (active_chain hs) height);
    let locator := vec_push locator hash in
    if zlen locator >=? MAX_LOCATOR_HASHES then Ok locator else
    if height =? 0 then Ok locator else
    if consecutive <? 10 then locator_loop fuel hs (sat_sub height 1) step (consecutive + 1) locator
    else locator_loop fuel hs (sat_sub height step) (Z.min u32_max (step * 2)) consecutive locator
  end.

Definition build_locator hs : result (list Hash256) :=
  tip_height ← hs_height hs;
  locator ← locator_loop (Z.to_nat MAX_LOCATOR_HASHES) hs tip_height 1 0 [];
  genesis ← hs_genesis hs;
  if bool_decide (last locator <> Some genesis) && (zlen locator <? MAX_LOCATOR_HASHES) then Ok (vec_push locator genesis)
  else Ok locator.

Fixpoint headers_after_loop (fuel : nat) hs (tip_height max_count : Z) (stop_hash : Hash256) (h : Z) (headers : list BlockHeader) :
    result (list BlockHeader) :=
  if (h <=? tip_height) && (zlen headers <? max_count) then
    match fuel with
    | O => Panic
    | S fuel =>
      hash ← or_panic (vec_index (active_chain hs) h);
      match by_hash hs !! hash with
      | Some stored =>
        let headers := vec_push headers (s_header stored) in
        if bool_decide (stop_hash <> HASH_ZERO) && bool_decide (hash = stop_hash) then Ok headers
        else h ← u32_add h 1; headers_after_loop fuel hs tip_height max_count stop_hash h headers
      | None => h ← u32_add h 1; headers_after_loop fuel hs tip_height max_count stop_hash h headers
      end
    end
  else Ok headers.

Definition get_headers_after hs (start_height max_count : Z) (stop_hash : Hash256) : result (list BlockHeader) :=
  tip_height ← hs_height hs;
  if start_height >=? tip_height then Ok [] else
  h ← u32_add start_height 1;
  headers_after_loop (length (active_chain hs)) hs tip_height max_count stop_hash h [].

(** ** Walking the tree *)

(** [while height_a > height_b { a = parent; height_a -= 1 }] *)
Fixpoint climb (steps : nat) hs (a : Hash256) : result Hash256 :=
  match steps with
  | O => Ok a
  | S steps =>
    stored ← ok_or "broken chain" (by_hash hs !! a);
    climb steps hs (prev_hash (s_header stored))
  end.

(** [while a != b]; the loop gives up by itself after [height_a + 2] rounds *)
Fixpoint meet_loop (fuel : nat) hs (height_a steps : Z) (a b : Hash256) : result Hash256 :=
  if bool_decide (a = b) then Ok a else
  match fuel with
  | O => Panic
  | S fuel =>
    if steps >? height_a then Err "find_fork_point exceeded depth without convergence" else
    sa ← ok_or "broken chain" (by_hash hs !! a);
    sb ← ok_or "broken chain" (by_hash hs !! b);
    meet_loop fuel hs height_a (u32_sat_add steps 1) (prev_hash (s_header sa)) (prev_hash (s_header sb))
  end.

Definition find_fork_point hs (hash_a hash_b : Hash256) : result Hash256 :=
  sa ← ok_or "hash_a not found" (by_hash hs !! hash_a);
  sb ← ok_or "hash_b not found" (by_hash hs !! hash_b);
  let height_a := s_height sa in
  let height_b := s_height sb in
  a ← climb (Z.to_nat (height_a - height_b)) hs hash_a;
  let height_a := Z.min height_a height_b in
  b ← climb (Z.to_nat (height_b - height_a)) hs hash_b;
  meet_loop (Z.to_nat height_a + 2) hs height_a 0 a b.

(** the path in the order it is pushed *)
Fixpoint path_loop (fuel : nat) hs (from current : Hash256) (path : list (Hash256 * Z)) : result (list (Hash256 * Z)) :=
  if bool_decide (current = from) then Ok path else
  match fuel with
  | O => Panic
  | S fuel =>
    stored ← ok_or "broken chain in get_path" (by_hash hs !! current);
    path_loop fuel hs from (prev_hash (s_header stored)) (vec_push path (current, s_height stored))
  end.

Definition get_path hs (from to : Hash256) : result (list (Hash256 * Z)) :=
  path ← path_loop (walk_fuel hs) hs from to [];
  Ok (reverse path).

(** the hashes down to height 0, as pushed *)
Fixpoint chain_loop (fuel : nat) (tree : gmap Hash256 StoredHeader) (current : Hash256) (chain : list Hash256) : result (list Hash256) :=
  match fuel with
  | O => Panic
  | S fuel =>
    let chain := vec_push chain current in
    stored ← ok_or "broken chain" (tree !! current);
    if s_height stored =? 0 then Ok chain else chain_loop fuel tree (prev_hash (s_header stored)) chain
  end.

Fixpoint descends_loop (fuel : nat) hs (current ancestor : Hash256) : option bool :=
  if bool_decide (current = ancestor) then Some true else
  match fuel with
  | O => None
  | S fuel =>
    match by_hash hs !! current with
    | Some stored => if s_height stored >? 0 then descends_loop fuel hs (prev_hash (s_header stored)) ancestor else Some false
    | None => Some false
    end
  end.

Definition descends_from hs (tip ancestor : Hash256) : option bool := descends_loop (walk_fuel hs) hs tip ancestor.

Definition best_tip hs : Hash256 * Z * Z :=
  let '(hash, chainwork) := best_known_tip hs in
  (hash, match by_hash hs !! hash with Some s => s_height s | None => 0 end, chainwork).

Definition max_reorg_depth : Z := MAX_REORG_DEPTH.
End Lookup.
Arguments BatchLookup : clear implicits.
Arguments ForkLookup : clear implicits.

(** ** Operations *)

Section Operations.
Context {B : Type} {HB : HeaderBackend B} `{HS : Sha256} `{HU : U256Overflow} `{HO : HashOrder}.
Implicit Types (hs : HeaderStore B) (header : BlockHeader) (hash : Hash256).

(** *** Opening *)

Definition make_fresh (genesis_header : BlockHeader) (genesis_hash : Hash256) (params : ConsensusParams) (be : option B) : result (HeaderStore B) :=
  genesis_chainwork ← work_from_bits (bits genesis_header);
  Ok (mkStore {[genesis_hash := mkStored genesis_header 0 genesis_chainwork]} [genesis_hash] {[genesis_hash]} {[genesis_hash]}
    (genesis_hash, genesis_chainwork) ∅ be params).

(** [max_by_key]: the last of the greatest *)
Definition max_work (l : list (Hash256 * Z)) : option (Hash256 * Z) :=
  foldl (fun best t => match best with
                       | Some b => if b.2 <=? t.2 then Some t else best
                       | None => Some t
                       end) None l.

(** what is read from the backend: headers, active chain, tips, best tip, invalid tips *)
Notation loaded := (gmap Hash256 StoredHeader * list Hash256 * gset Hash256 * gset Hash256 * (Hash256 * Z) * gset Hash256)%type.

Definition index_rows (raw : list header_row) : gmap Hash256 StoredHeader :=
  foldl (fun m '(hash, header, height, chainwork) => <[hash := mkStored header height chainwork]> m) ∅ raw.

Definition find_tips (tree : gmap Hash256 StoredHeader) (invalid : gset Hash256) : gset Hash256 :=
  let referenced : gset Hash256 := list_to_set ((fun kv => prev_hash (s_header kv.2)) <$> map_order tree) in
  list_to_set (filter (fun h => h ∉ referenced /\ h ∉ invalid) (fst <$> map_order tree)).

Definition heights_sequential (tree : gmap Hash256 StoredHeader) (chain : list Hash256) : result bool :=
  fold_res (fun (ok : bool) '(i, hash) =>
    if ok then stored ← or_panic (tree !! hash); Ok (s_height stored =? Z.of_nat i mod 2 ^ 32) else Ok false) true (imap pair chain).

(** the second component is the backend after a possible [clear] *)
Definition try_load_from_backend (be : B) (genesis_hash : Hash256) : result (option loaded * B) :=
  invalid ← load_invalid_tips be;
  let invalid_tips : gset Hash256 := list_to_set invalid in
  raw ← load_all be;
  if zlen raw =? 0 then Ok (None, be) else
  let tree := index_rows raw in
  if bool_decide (tree !! genesis_hash = None) then be ← clear be; Ok (None, be) else
  let tips := find_tips tree invalid_tips in
  let best := default (genesis_hash, 0) (max_work (omap (fun t => (fun s => (t, s_chainwork s)) <$> tree !! t) (set_order tips))) in
  chain ← chain_loop (S (size tree)) tree best.1 [];
  let active_chain := reverse chain in
  sequential ← heights_sequential tree active_chain;
  if negb sequential then be ← clear be; Ok (None, be) else
  Ok (Some (tree, active_chain, list_to_set active_chain, tips, best, invalid_tips), be).

Definition with_backend (genesis_header : BlockHeader) (params : ConsensusParams) (be : option B) : result (HeaderStore B) :=
  let genesis_hash := block_hash genesis_header in
  match be with
  | Some b =>
    match try_load_from_backend b genesis_hash with
    | Ok (Some (tree, active_chain, active_set, tips, best, invalid_tips), b) =>
      Ok (mkStore tree active_chain active_set tips best invalid_tips (Some b) params)
    | Ok (None, b) =>
      genesis_chainwork ← work_from_bits (bits genesis_header);
      match persist_header b genesis_hash genesis_header 0 genesis_chainwork with
      | Ok b => make_fresh genesis_header genesis_hash params (Some b)
      | Err _ => make_fresh genesis_header genesis_hash params None
      | Panic => Panic
      end
    | Err _ => make_fresh genesis_header genesis_hash params None
    | Panic => Panic
    end
  | None => make_fresh genesis_header genesis_hash params None
  end.

Definition headers_new (genesis_header : BlockHeader) (params : ConsensusParams) : result (HeaderStore B) :=
  with_backend genesis_header params None.

Definition set_backend hs (be : option B) : HeaderStore B :=
  mkStore (by_hash hs) (active_chain hs) (active_set hs) (tips hs) (best_known_tip hs) (invalid_tips hs) be (params hs).

Definition apply_backend_load hs (loaded : result (option loaded * B)) : result (HeaderStore B) :=
  match loaded with
  | Ok (Some (tree, active_chain, active_set, tips, best, invalid_tips), be) =>
    Ok (mkStore tree active_chain active_set tips best invalid_tips (Some be) (params hs))
  | Ok (None, be) =>
    genesis_hash ← hs_genesis hs;
    stored ← or_panic (by_hash hs !! genesis_hash);
    genesis_chainwork ← work_from_bits (bits (s_header stored));
    match persist_header be genesis_hash (s_header stored) 0 genesis_chainwork with
    | Ok be => Ok (set_backend hs (Some be))
    | Err _ => Ok hs
    | Panic => Panic
    end
  | Err _ => Ok hs
  | Panic => Panic
  end.

(** *** Extending the active chain *)

Definition validate_chains_to_tip hs hash header (tip_hash : Hash256) (tip_height : Z) : result Z :=
  if bool_decide (prev_hash header <> tip_hash) then
    if bool_decide (is_Some (by_hash hs !! prev_hash header)) then Err "header does not chain to the tip"
    else Err "orphan header: unknown prev_hash"
  else
  if tip_height + 1 <=? u32_max then Ok (tip_height + 1) else Err "chain height would overflow u32".

Definition validate_header hs header : result (Hash256 * Z) :=
  let hash := block_hash header in
  if bool_decide (is_Some (by_hash hs !! hash)) then Err "duplicate header" else
  '(tip_hash, tip_height) ← hs_tip hs;
  height ← validate_chains_to_tip hs hash header tip_hash tip_height;
  Ok (hash, height).

(** at a checkpoint the hash must be the checkpoint's *)
Definition check_checkpoint hs hash (height : Z) : result unit :=
  match checkpoint_hash_at (params hs) height with
  | Some expected => if bool_decide (hash <> mkHash expected) then Err "checkpoint mismatch" else Ok tt
  | None => Ok tt
  end.

(** [height > last_cp && !check_proof_of_work(header)]: above the last checkpoint *)
Definition fails_pow hs header (height : Z) : bool :=
  if height >? last_checkpoint_height (params hs) then negb (check_proof_of_work header) else false.

Definition validate_pow_and_checkpoint hs hash header (height : Z) : result unit :=
  _ ← check_checkpoint hs hash height;
  if fails_pow hs header height then Err "header fails proof-of-work check" else Ok tt.

Definition commit_to_memory hs (row : header_row) : HeaderStore B :=
  let '(hash, header, height, chainwork) := row in
  mkStore (<[hash := mkStored header height chainwork]> (by_hash hs))
    (vec_push (active_chain hs) hash) ({[hash]} ∪ active_set hs)
    ({[hash]} ∪ (tips hs ∖ {[prev_hash header]}))
    (if chainwork >? (best_known_tip hs).2 then (hash, chainwork) else best_known_tip hs)
    (invalid_tips hs) (backend hs) (params hs).

Definition add_header hs header : result (Z * HeaderStore B) :=
  '(hash, height) ← validate_header hs header;
  expected_bits ← get_next_work_required height hs (params hs);
  if negb (bits header =? expected_bits) then Err "invalid difficulty" else
  _ ← validate_pow_and_checkpoint hs hash header height;
  let parent_chainwork := default 0 (h ← last (active_chain hs); s ← by_hash hs !! h; Some (s_chainwork s)) in
  work ← work_from_bits (bits header);
  chainwork ← u256_add parent_chainwork work;
  hs ← match backend hs with
       | Some be => be ← context "failed to persist header" (persist_header be hash header height chainwork); Ok (set_backend hs (Some be))
       | None => Ok hs
       end;
  Ok (height, commit_to_memory hs (hash, header, height, chainwork)).

(** each header chains to the one before it *)
Definition check_continuity (headers : list BlockHeader) : result unit :=
  fold_res (fun _ '(before, current) =>
    if bool_decide (prev_hash current <> block_hash before) then Err "header does not chain to previous header in batch" else Ok tt)
    tt (zip headers (tail headers)).

(** the work of the parent, in the store or in the batch *)
Definition batch_parent_work hs (validated : list header_row) (prev : Hash256) : Z :=
  match by_hash hs !! prev with
  | Some stored => s_chainwork stored
  | None =>
    match list_find (fun row : header_row => row.1.1.1 = prev) (reverse validated) with
    | Some (_, row) => row.2
    | None => 0
    end
  end.

(** phase 1 of a batch: the headers validated so far and the shadow tip *)
Definition validate_step hs (acc : list header_row * (Hash256 * Z)) header : result (list header_row * (Hash256 * Z)) :=
  let '(validated, (tip_hash, tip_height)) := acc in
  let hash := block_hash header in
  if bool_decide (is_Some (by_hash hs !! hash)) then Ok acc else
  height ← validate_chains_to_tip hs hash header tip_hash tip_height;
  expected_bits ← get_next_work_required height (mkBatch hs validated) (params hs);
  if negb (bits header =? expected_bits) then Err "invalid difficulty" else
  _ ← check_checkpoint hs hash height;
  work ← work_from_bits (bits header);
  chainwork ← u256_add (batch_parent_work hs validated (prev_hash header)) work;
  Ok (vec_push validated (hash, header, height, chainwork), (hash, height)).

Definition validate_batch hs (headers : list BlockHeader) : result (list header_row) :=
  if zlen headers =? 0 then Ok [] else
  _ ← check_continuity headers;
  tip ← hs_tip hs;
  '(validated, _) ← fold_res (validate_step hs) ([], tip) headers;
  if existsb (fun '(_, header, height, _) => fails_pow hs header height) validated
  then Err "header fails proof-of-work check" else Ok validated.

Definition persist_batch hs (batch : list header_row) : result (HeaderStore B) :=
  match backend hs with
  | Some be => be ← context "failed to persist header batch" (persist_headers be batch); Ok (set_backend hs (Some be))
  | None => Ok hs
  end.

Definition add_headers hs (headers : list BlockHeader) : result (Z * HeaderStore B) :=
  validated ← validate_batch hs headers;
  if zlen validated =? 0 then Ok (0, hs) else
  hs ← persist_batch hs validated;
  Ok (zlen validated mod 2 ^ 32, foldl commit_to_memory hs validated).

Definition validate_and_commit hs (headers : list BlockHeader) : result (list header_row * HeaderStore B) :=
  validated ← validate_batch hs headers;
  Ok (validated, foldl commit_to_memory hs validated).

(** *** Forks *)

Definition accept_header hs header : result (AcceptResult * HeaderStore B) :=
  let hash := block_hash header in
  if bool_decide (is_Some (by_hash hs !! hash)) then Ok (AlreadyKnown, hs) else
  if bool_decide (prev_hash header ∈ invalid_tips hs) then Err "header extends invalid chain" else
  parent ← ok_or "orphan header: unknown prev_hash" (by_hash hs !! prev_hash header);
  height ← (if s_height parent + 1 <=? u32_max then Ok (s_height parent + 1) else Err "chain height overflow"%string);
  work ← work_from_bits (bits header);
  chainwork ← u256_add (s_chainwork parent) work;
  fork_lookup ← fork_build hs (prev_hash header);
  expected_bits ← get_next_work_required height fork_lookup (params hs);
  if negb (bits header =? expected_bits) then Err "invalid difficulty on fork header" else
  if fails_pow hs header height then Err "fork header fails proof-of-work check" else
  be ← match backend hs with
       | Some be => be ← persist_header be hash header height chainwork; Ok (Some be)
       | None => Ok None
       end;
  let tips := {[hash]} ∪ (tips hs ∖ {[prev_hash header]}) in
  let tree := <[hash := mkStored header height chainwork]> (by_hash hs) in
  if chainwork >? (best_known_tip hs).2 then
    if bool_decide (last (active_chain hs) <> Some (prev_hash header)) then
      Ok (NeedReorg, mkStore tree (active_chain hs) (active_set hs) tips (hash, chainwork) (invalid_tips hs) be (params hs))
    else
      Ok (Accepted, mkStore tree (vec_push (active_chain hs) hash) ({[hash]} ∪ active_set hs) tips (hash, chainwork) (invalid_tips hs) be (params hs))
  else Ok (Accepted, mkStore tree (active_chain hs) (active_set hs) tips (best_known_tip hs) (invalid_tips hs) be (params hs)).

Definition recompute_best_tip hs : HeaderStore B :=
  let active_tip := default HASH_ZERO (last (active_chain hs)) in
  let active_work := default 0 (s_chainwork <$> by_hash hs !! active_tip) in
  let best := foldl (fun best tip =>
    match by_hash hs !! tip with
    | Some stored => if s_chainwork stored >? best.2 then (tip, s_chainwork stored) else best
    | None => best
    end) (active_tip, active_work) (set_order (tips hs)) in
  mkStore (by_hash hs) (active_chain hs) (active_set hs) (tips hs) best (invalid_tips hs) (backend hs) (params hs).

Definition switch_active_chain hs (new_tip : Hash256) : result (HeaderStore B) :=
  old_tip ← ok_or "empty active chain" (last (active_chain hs));
  chain ← chain_loop (walk_fuel hs) (by_hash hs) new_tip [];
  let chain := reverse chain in
  Ok (recompute_best_tip (mkStore (by_hash hs) chain (list_to_set chain) (({[old_tip]} ∪ tips hs) ∖ {[new_tip]})
    (best_known_tip hs) (invalid_tips hs) (backend hs) (params hs))).

(** an error of the backend is only logged *)
Definition log_error {A} (old : A) (r : result A) : option A :=
  match r with
  | Ok a => Some a
  | Err _ => Some old
  | Panic => None
  end.

Definition mark_invalid hs hash : option (HeaderStore B) :=
  let tips1 := tips hs ∖ {[hash]} in
  descends ← mapM (fun tip => pair tip <$> descends_from hs tip hash) (set_order tips1);
  let descendants := fst <$> filter (fun p => p.2 = true) descends in
  let tips2 := foldl (fun t desc => t ∖ {[desc]}) tips1 descendants in
  let invalid := foldl (fun s desc => {[desc]} ∪ s) ({[hash]} ∪ invalid_tips hs) descendants in
  be ← match backend hs with
       | Some be =>
         be ← foldl (fun be h => be ← be; log_error be (persist_invalid_tip be h)) (Some be) (hash :: descendants);
         Some (Some be)
       | None => Some None
       end;
  Some (recompute_best_tip (mkStore (by_hash hs) (active_chain hs) (active_set hs) tips2 (best_known_tip hs) invalid be (params hs))).

(** *** Purging *)

(** the headers left and where the walk stands *)
Fixpoint remove_fork_loop (fuel : nat) (active : gset Hash256) (tree : gmap Hash256 StoredHeader) (current : Hash256) : option (gmap Hash256 StoredHeader) :=
  match fuel with
  | O => None
  | S fuel =>
    if bool_decide (current ∈ active) then Some tree else
    match tree !! current with
    | None => Some tree
    | Some s =>
      let prev := prev_hash (s_header s) in
      let tree := delete current tree in
      if existsb (fun kv => bool_decide (prev_hash (s_header kv.2) = prev)) (map_order tree) then Some tree
      else remove_fork_loop fuel active tree prev
    end
  end.

Definition set_tree hs (tree : gmap Hash256 StoredHeader) (tips : gset Hash256) : HeaderStore B :=
  mkStore tree (active_chain hs) (active_set hs) tips (best_known_tip hs) (invalid_tips hs) (backend hs) (params hs).

(** every round but the last removes a header *)
Definition remove_fork hs (tip : Hash256) : option (HeaderStore B) :=
  tree ← remove_fork_loop (walk_fuel hs) (active_set hs) (by_hash hs) tip;
  Some (set_tree hs tree (tips hs ∖ {[tip]})).

(** headers that are not on the active chain *)
Definition non_active_count hs : Z := sat_sub (Z.of_nat (size (by_hash hs))) (zlen (active_chain hs)).

Definition purge_by_count (hs : option (HeaderStore B)) (tip : Hash256) : option (HeaderStore B) :=
  hs ← hs; if non_active_count hs <=? MAX_FORK_HEADERS then Some hs else remove_fork hs tip.

(** a fork is stale when it ends too far below the active tip *)
Definition is_stale hs (active_tip_height : Z) (tip : Hash256) : bool :=
  match by_hash hs !! tip with
  | Some s => sat_sub active_tip_height (s_height s) >? MAX_FORK_AGE
  | None => false
  end.

(** fork tips with their heights, lowest first *)
Definition height_le (a b : Hash256 * Z) : Prop := a.2 <= b.2.
#[global] Instance height_le_dec a b : Decision (height_le a b) := decide (a.2 <= b.2).

Definition fork_tips hs : list (Hash256 * Z) :=
  merge_sort height_le (omap (fun tip => (fun s => (tip, s_height s)) <$> by_hash hs !! tip) (set_order (tips hs))).

Definition purge_stale_forks hs (active_tip_height : Z) : option (HeaderStore B) :=
  let stale := filter (fun tip => is_stale hs active_tip_height tip = true) (set_order (tips hs)) in
  hs ← foldl (fun (acc : option (HeaderStore B)) tip => hs ← acc; remove_fork hs tip) (Some hs) stale;
  hs ← (if non_active_count hs >? MAX_FORK_HEADERS
        then foldl purge_by_count (Some hs) (fst <$> fork_tips hs)
        else Some hs);
  Some (recompute_best_tip hs).
End Operations.
