(* ===== verification/HeadersCorrect.v ===== *)
(** * HeadersCorrect: the header tree is a tree, and walks on it are right

    [tree_ok] says that every stored header but the genesis has its parent
    stored one height below, with the work added up; [store_ok] adds that the
    active chain is the path from the genesis to its tip and that the best tip is
    known and has the most work.  The operations of src/src/headers.rs keep these;
    [find_fork_point] is the lowest common ancestor, [get_path] the path between
    two headers, and a fork's difficulty is computed from its own ancestors. *)
From Stdlib Require Import Strings.Byte Logic.FunctionalExtensionality.
From stdpp Require Import base numbers list strings gmap sorting relations.
From S2P Require Import Prelude Codec Types Compact Difficulty Vec Pow HashOrder Headers.

(** ** Trees *)

Section Tree.
Context `{HU : U256Overflow}.
Implicit Types (tree : gmap Hash256 StoredHeader) (h p g : Hash256) (s : StoredHeader).

(** [s] extends [q] by one block *)
Definition extends (q s : StoredHeader) : Prop :=
  s_height s = s_height q + 1 /\
  exists work, @work_from_bits _ string (bits (s_header s)) = Ok work /\ @u256_add _ string (s_chainwork q) work = Ok (s_chainwork s).

Record tree_ok g tree : Prop := {
  tk_genesis : exists s, tree !! g = Some s /\ s_height s = 0;
  tk_root h s : tree !! h = Some s -> s_height s = 0 -> h = g;
  tk_range h s : tree !! h = Some s -> U 32 (s_height s);
  tk_parent h s : tree !! h = Some s -> s_height s <> 0 -> exists q, tree !! prev_hash (s_header s) = Some q /\ extends q s;
}.

Definition parent tree h p : Prop := exists s, tree !! h = Some s /\ s_height s <> 0 /\ p = prev_hash (s_header s).

(** [ancestor tree h p]: walking up from [h] meets [p] *)
Definition ancestor tree : relation Hash256 := rtc (parent tree).

(** [h] is stored at height [n] *)
Definition at_height tree h (n : Z) : Prop := exists s, tree !! h = Some s /\ s_height s = n.

Lemma at_height_fun tree h n k : at_height tree h n -> at_height tree h k -> n = k.
Proof. intros (s & Hs & <-) (s' & Hs' & <-). congruence. Qed.

Lemma parent_fun tree h p p' : parent tree h p -> parent tree h p' -> p = p'.
Proof. intros (s & Hs & _ & ->) (s' & Hs' & _ & ->). congruence. Qed.

Lemma parent_height g tree h p n : tree_ok g tree -> parent tree h p -> at_height tree h n -> at_height tree p (n - 1) /\ 0 < n.
Proof.
  intros Hok (s & Hs & Hn & ->) (s' & Hs' & <-). simplify_eq. destruct (tk_parent _ _ Hok h s Hs Hn) as (q & Hq & Hh & _).
  pose proof (tk_range _ _ Hok _ _ Hq). split; [exists q; split; [done|lia]|range].
Qed.

Lemma has_parent g tree h n : tree_ok g tree -> at_height tree h n -> n <> 0 -> exists p, parent tree h p /\ at_height tree p (n - 1).
Proof.
  intros Hok Hh Hn. destruct Hh as (s & Hs & <-). exists (prev_hash (s_header s)).
  assert (parent tree h (prev_hash (s_header s))) as Hp by by exists s. split; [done|]. eapply parent_height; [done|done|by exists s].
Qed.

Lemma at_height_range g tree h n : tree_ok g tree -> at_height tree h n -> U 32 n.
Proof. intros Hok (s & Hs & <-). by eapply tk_range. Qed.

Lemma at_height_0 g tree h : tree_ok g tree -> at_height tree h 0 -> h = g.
Proof. intros Hok (s & Hs & Hn). by eapply tk_root. Qed.

Lemma ancestor_height g tree h p n : tree_ok g tree -> ancestor tree h p -> at_height tree h n -> exists k, at_height tree p k /\ k <= n.
Proof.
  intros Hok H. revert n. induction H as [h|h q p Hhq Hqp IH]; intros n Hh; [exists n; split; [done|lia]|].
  destruct (parent_height _ _ _ _ _ Hok Hhq Hh) as [Hq Hpos]. destruct (IH _ Hq) as (k & Hk & Hle). exists k. split; [done|lia].
Qed.

(** a proper ancestor is an ancestor of the parent *)
Lemma ancestor_parent tree h p q : ancestor tree h p -> h <> p -> parent tree h q -> ancestor tree q p.
Proof. intros Hanc Hne Hq. destruct Hanc as [|h q' p Hq' Hanc]; [done|]. by rewrite (parent_fun _ _ _ _ Hq Hq'). Qed.

Lemma ancestor_same_height g tree h p n : tree_ok g tree -> ancestor tree h p -> at_height tree h n -> at_height tree p n -> h = p.
Proof.
  intros Hok Hanc Hh Hp. destruct (decide (h = p)) as [|Hne]; [done|]. destruct Hanc as [|h q p Hq Hanc]; [done|].
  destruct (parent_height _ _ _ _ _ Hok Hq Hh) as [Hqh _]. destruct (ancestor_height _ _ _ _ _ Hok Hanc Hqh) as (k & Hk & Hle).
  pose proof (at_height_fun _ _ _ _ Hk Hp). lia.
Qed.

(** every header descends from the genesis *)
Lemma genesis_ancestor g tree h n : tree_ok g tree -> at_height tree h n -> ancestor tree h g.
Proof.
  intros Hok Hh. pose proof (at_height_range _ _ _ _ Hok Hh) as [Hn _]. revert h Hh. pattern n. apply natlike_ind; [| |done]; clear n Hn.
  - intros h Hh. rewrite (at_height_0 _ _ _ Hok Hh). apply rtc_refl.
  - intros n Hn IH h Hh. destruct (has_parent _ _ _ _ Hok Hh) as (p & Hp & Hph); [lia|]. replace (Z.succ n - 1) with n in Hph by lia.
    eapply rtc_l; [exact Hp|]. by apply IH.
Qed.

(** the ancestors of a header lie at distinct heights: all from 0 up to its own *)
Lemma ancestor_at g tree h n k : tree_ok g tree -> at_height tree h n -> 0 <= k <= n -> exists p, ancestor tree h p /\ at_height tree p k.
Proof.
  intros Hok Hh Hk. assert (0 <= n - k) as Hd by lia. remember (n - k) as d eqn:E. revert h n Hh Hk E. pattern d. apply natlike_ind; [| |done]; clear d Hd.
  - intros h n Hh Hk E. exists h. replace k with n by lia. split; [apply rtc_refl|done].
  - intros d Hd IH h n Hh Hk E. destruct (has_parent _ _ _ _ Hok Hh) as (p & Hp & Hph); [lia|].
    destruct (IH p (n - 1) Hph) as (q & Hq & Hqk); [lia|lia|]. exists q. split; [by eapply rtc_l|done].
Qed.

Lemma ancestor_unique g tree h n p q k : tree_ok g tree -> at_height tree h n -> ancestor tree h p -> ancestor tree h q ->
  at_height tree p k -> at_height tree q k -> p = q.
Proof.
  intros Hok Hh Hp Hq Hpk Hqk. revert n q Hh Hq Hqk. induction Hp as [h|h h' p Hhh' Hp IH]; intros n q Hh Hq Hqk.
  - exact (ancestor_same_height g tree h q k Hok Hq Hpk Hqk).
  - destruct (parent_height _ _ _ _ _ Hok Hhh' Hh) as [Hh' _]. destruct (decide (h = q)) as [->|Hne].
    + symmetry. eapply ancestor_same_height; [done| |exact Hqk|done]. by eapply rtc_l.
    + eapply IH; [done|exact Hh'| |done]. by eapply ancestor_parent.
Qed.

(** a tree has more headers than the height of any *)
Lemma height_lt_size g tree h n : tree_ok g tree -> at_height tree h n -> n < Z.of_nat (size tree).
Proof.
  intros Hok Hh. pose proof (at_height_range _ _ _ _ Hok Hh) as [Hn _].
  assert (Z.of_nat <$> seq 0 (S (Z.to_nat n)) ⊆+ (fun kv => s_height kv.2) <$> map_to_list tree) as Hsub.
  { apply NoDup_submseteq; [apply NoDup_fmap_2; [by intros ???; lia|apply NoDup_seq]|].
    intros k (i & -> & Hi%elem_of_seq)%list_elem_of_fmap. destruct (ancestor_at _ _ _ _ (Z.of_nat i) Hok Hh) as (p & _ & s & Hs & Hsk); [lia|].
    apply list_elem_of_fmap. exists (p, s). by rewrite elem_of_map_to_list. }
  apply submseteq_length in Hsub. rewrite !length_fmap, length_seq, length_map_to_list in Hsub. lia.
Qed.
End Tree.

(** ** Walks *)

Section Walks.
Context {B : Type} `{HU : U256Overflow}.
Implicit Types (hs : HeaderStore B) (tree : gmap Hash256 StoredHeader) (h p g a b : Hash256).

Lemma climb_ok g hs k h n :
  tree_ok g (by_hash hs) -> at_height (by_hash hs) h n -> Z.of_nat k <= n ->
  exists h', climb k hs h = Ok h' /\ ancestor (by_hash hs) h h' /\ at_height (by_hash hs) h' (n - Z.of_nat k).
Proof.
  intros Hok. revert h n. induction k as [|k IH]; intros h n Hh Hk; cbn [climb].
  - exists h. split; [done|]. split; [apply rtc_refl|]. by rewrite Z.sub_0_r.
  - destruct (has_parent _ _ _ _ Hok Hh) as (p & Hp & Hph); [lia|]. destruct (IH p (n - 1) Hph) as (h' & Hc & Ha & Hh'); [lia|].
    pose proof Hp as (s & Hs & Hn & ->). rewrite Hs. cbn [ok_or mbind res_bind]. exists h'. split; [done|].
    split; [by eapply rtc_l|]. replace (n - Z.of_nat (S k)) with (n - 1 - Z.of_nat k) by lia. done.
Qed.

(** [f] is the lowest common ancestor *)
Definition lowest_common tree a b (f : Hash256) : Prop :=
  ancestor tree a f /\ ancestor tree b f /\ forall c, ancestor tree a c -> ancestor tree b c -> ancestor tree f c.

Lemma lowest_common_up g tree a b pa pb f n :
  tree_ok g tree -> a <> b -> at_height tree a n -> at_height tree b n -> parent tree a pa -> parent tree b pb ->
  lowest_common tree pa pb f -> lowest_common tree a b f.
Proof.
  intros Hok Hne Ha Hb Hpa Hpb (Hfa & Hfb & Hlow). split; [by eapply rtc_l|]. split; [by eapply rtc_l|]. intros c Hca Hcb.
  apply Hlow.
  - apply (ancestor_parent tree a c pa Hca); [|done]. intros <-. apply Hne. symmetry. exact (ancestor_same_height g tree b a n Hok Hcb Hb Ha).
  - apply (ancestor_parent tree b c pb Hcb); [|done]. intros <-. apply Hne. exact (ancestor_same_height g tree a b n Hok Hca Ha Hb).
Qed.

Lemma meet_ok g hs fuel height_a steps a b k :
  tree_ok g (by_hash hs) -> at_height (by_hash hs) a k -> at_height (by_hash hs) b k -> 0 <= steps -> steps + k = height_a ->
  height_a <= u32_max -> (Z.to_nat k < fuel)%nat ->
  exists f, meet_loop fuel hs height_a steps a b = Ok f /\ lowest_common (by_hash hs) a b f.
Proof.
  intros Hok. revert steps a b k. induction fuel as [|fuel IH]; intros steps a b k Ha Hb H0 Hs Hm Hf; [lia|]. cbn [meet_loop].
  case_bool_decide as Hab; [subst b; exists a; split; [done|by split; [apply rtc_refl|split; [apply rtc_refl|]]]|].
  pose proof (at_height_range _ _ _ _ Hok Ha) as [Hk _]. destruct (decide (k = 0)) as [->|Hk0].
  { destruct Hab. by rewrite (at_height_0 _ _ _ Hok Ha), (at_height_0 _ _ _ Hok Hb). }
  rewrite Z.gtb_ltb, (proj2 (Z.ltb_ge _ _)) by lia.
  destruct (has_parent _ _ _ _ Hok Ha Hk0) as (pa & Hpa & Hpah), (has_parent _ _ _ _ Hok Hb Hk0) as (pb & Hpb & Hpbh).
  pose proof Hpa as (sa & Hsa & Hna & Epa). pose proof Hpb as (sb & Hsb & Hnb & Epb). rewrite Hsa, Hsb. cbn [ok_or mbind res_bind].
  rewrite <- Epa, <- Epb. unfold u32_sat_add. rewrite Z.min_r by lia.
  destruct (IH (steps + 1) pa pb (k - 1) Hpah Hpbh) as (f & Hf' & Hlow); [lia|lia|lia|lia|]. exists f. split; [done|].
  eapply (lowest_common_up g); [done|done|exact Ha|exact Hb|done|done|done].
Qed.

(** the lowest common ancestor of two headers is that of their ancestors of equal height *)
Lemma lowest_common_climb g tree a b a' b' f n :
  tree_ok g tree -> (exists ka, at_height tree a ka) -> (exists kb, at_height tree b kb) ->
  ancestor tree a a' -> ancestor tree b b' -> at_height tree a' n -> at_height tree b' n ->
  (forall c k, ancestor tree a c -> ancestor tree b c -> at_height tree c k -> k <= n) ->
  lowest_common tree a' b' f -> lowest_common tree a b f.
Proof.
  intros Hok [ka Hka] [kb Hkb] Haa Hbb Ha Hb Hbelow (Hfa & Hfb & Hlow). split; [by etrans|]. split; [by etrans|]. intros c Hca Hcb.
  destruct (ancestor_height _ _ _ _ _ Hok Hca Hka) as (k & Hck & _). pose proof (Hbelow c k Hca Hcb Hck) as Hle.
  pose proof (at_height_range _ _ _ _ Hok Hck) as [Hk0 _].
  assert (forall x x' kx, at_height tree x kx -> ancestor tree x x' -> at_height tree x' n -> ancestor tree x c -> ancestor tree x' c) as Hthrough.
  { intros x x' kx Hx Hxx Hx' Hxc. destruct (ancestor_at _ _ _ _ k Hok Hx') as (c' & Hc' & Hc'k); [lia|].
    enough (c' = c) as -> by done. eapply (ancestor_unique g tree x kx); [done|done|by etrans; [exact Hxx|]|done|done|done]. }
  apply Hlow; [exact (Hthrough a a' ka Hka Haa Ha Hca)|exact (Hthrough b b' kb Hkb Hbb Hb Hcb)].
Qed.

Lemma find_fork_point_ok g hs a b n k :
  tree_ok g (by_hash hs) -> at_height (by_hash hs) a n -> at_height (by_hash hs) b k ->
  exists f, find_fork_point hs a b = Ok f /\ lowest_common (by_hash hs) a b f.
Proof.
  intros Hok Ha Hb. pose proof (at_height_range _ _ _ _ Hok Ha). pose proof (at_height_range _ _ _ _ Hok Hb).
  unfold find_fork_point. pose proof Ha as (sa & Hsa & Hna). pose proof Hb as (sb & Hsb & Hnb).
  rewrite Hsa, Hsb. cbn [ok_or mbind res_bind]. rewrite Hna, Hnb.
  destruct (climb_ok g hs (Z.to_nat (n - k)) a n) as (a' & -> & Haa & Ha'); [done|done|range|]. cbn [mbind res_bind].
  destruct (climb_ok g hs (Z.to_nat (k - Z.min n k)) b k) as (b' & -> & Hbb & Hb'); [done|done|range|]. cbn [mbind res_bind].
  replace (n - Z.of_nat (Z.to_nat (n - k))) with (Z.min n k) in Ha' by lia.
  replace (k - Z.of_nat (Z.to_nat (k - Z.min n k))) with (Z.min n k) in Hb' by lia.
  destruct (meet_ok g hs (Z.to_nat (Z.min n k) + 2) (Z.min n k) 0 a' b' (Z.min n k)) as (f & -> & Hlow); try done; [range|lia|].
  exists f. split; [done|]. eapply (lowest_common_climb g); [done|by exists n|by exists k|done|done|exact Ha'|exact Hb'| |done].
  intros c m Hca Hcb Hc. destruct (ancestor_height g _ _ _ n Hok Hca) as (m1 & Hm1 & Hle1); [by exists sa|].
  destruct (ancestor_height g _ _ _ k Hok Hcb) as (m2 & Hm2 & Hle2); [by exists sb|].
  rewrite (at_height_fun _ _ _ _ Hc Hm1) in *. rewrite (at_height_fun _ _ _ _ Hm2 Hm1) in Hle2. lia.
Qed.


(** *** Paths *)

Lemma path_loop_ok g hs from m fuel current n acc :
  tree_ok g (by_hash hs) -> at_height (by_hash hs) from m -> at_height (by_hash hs) current n -> ancestor (by_hash hs) current from ->
  (Z.to_nat (n - m) < fuel)%nat ->
  exists l, path_loop fuel hs from current acc = Ok (acc ++ l) /\ l.*2 = reverse (seqZ (m + 1) (n - m)) /\
    Forall (fun x => ancestor (by_hash hs) current x.1 /\ at_height (by_hash hs) x.1 x.2) l.
Proof.
  intros Hok Hfrom. revert current n acc. induction fuel as [|fuel IH]; intros current n acc Hc Hanc Hf; [lia|]. cbn [path_loop].
  case_bool_decide as E.
  - subst current. rewrite (at_height_fun _ _ _ _ Hc Hfrom), Z.sub_diag. exists []. by rewrite app_nil_r.
  - pose proof (at_height_range _ _ _ _ Hok Hfrom) as [Hm _]. destruct (ancestor_height _ _ _ _ _ Hok Hanc Hc) as (m' & Hm' & Hle).
    rewrite (at_height_fun _ _ _ _ Hm' Hfrom) in Hle. destruct (decide (n = m)) as [->|Hnm].
    { destruct E. exact (ancestor_same_height g _ _ _ m Hok Hanc Hc Hfrom). }
    destruct (has_parent _ _ _ _ Hok Hc) as (p & Hp & Hph); [lia|]. pose proof Hp as (s & Hs & Hn & Ep). rewrite Hs. cbn [ok_or mbind res_bind].
    rewrite <- Ep. pose proof Hc as (s' & Hs' & Hsn). simplify_eq.
    destruct (IH (prev_hash (s_header s)) (s_height s - 1) (vec_push acc (current, s_height s)) Hph) as (l & -> & Hl2 & Hl); [by eapply ancestor_parent|lia|].
    exists ((current, s_height s) :: l). unfold vec_push. rewrite <- app_assoc. split; [done|]. split.
    + cbn [fmap list_fmap snd]. rewrite Hl2. replace (s_height s - m) with (Z.of_nat (S (Z.to_nat (s_height s - 1 - m)))) by lia.
      rewrite seqZ_S, reverse_snoc. f_equal; [lia|]. do 2 f_equal. lia.
    + constructor; [split; [apply rtc_refl|done]|]. eapply Forall_impl; [exact Hl|]. intros x [Hx Hxh]. split; [by eapply rtc_l|done].
Qed.

(** the path from an ancestor: one header per height, each an ancestor of the end *)
Lemma get_path_ok g hs from to m n :
  tree_ok g (by_hash hs) -> at_height (by_hash hs) from m -> at_height (by_hash hs) to n -> ancestor (by_hash hs) to from ->
  exists path, get_path hs from to = Ok path /\ path.*2 = seqZ (m + 1) (n - m) /\
    Forall (fun x => ancestor (by_hash hs) to x.1 /\ at_height (by_hash hs) x.1 x.2) path.
Proof.
  intros Hok Hfrom Hto Hanc. pose proof (at_height_range _ _ _ _ Hok Hfrom) as [Hm _]. pose proof (height_lt_size _ _ _ _ Hok Hto).
  destruct (path_loop_ok g hs from m (walk_fuel hs) to n [] Hok Hfrom Hto Hanc) as (l & E & Hl2 & Hl); [unfold walk_fuel; lia|].
  exists (reverse l). unfold get_path. rewrite E. split; [done|]. split; [by rewrite fmap_reverse, Hl2, reverse_involutive|by apply Forall_reverse].
Qed.

(** *** Chains down to the genesis *)

(** [chain] is the path from the genesis to [tip] *)
Record chain_to tree (tip : Hash256) (chain : list Hash256) : Prop := {
  ct_last : last chain = Some tip;
  ct_at i h : chain !! i = Some h -> ancestor tree tip h /\ at_height tree h (Z.of_nat i);
}.

Lemma chain_loop_ok g tree fuel current n acc :
  tree_ok g tree -> at_height tree current n -> (Z.to_nat n < fuel)%nat ->
  exists l, chain_loop fuel tree current acc = Ok (acc ++ l) /\ length l = S (Z.to_nat n) /\ head l = Some current /\
    forall i h, reverse l !! i = Some h -> ancestor tree current h /\ at_height tree h (Z.of_nat i).
Proof.
  intros Hok. revert current n acc. induction fuel as [|fuel IH]; intros current n acc Hc Hf; [lia|]. cbn [chain_loop].
  pose proof (at_height_range _ _ _ _ Hok Hc) as [Hn _]. pose proof Hc as (s & Hs & Hsn). rewrite Hs. cbn [ok_or mbind res_bind]. rewrite Hsn.
  destruct (Z.eqb_spec n 0) as [->|Hn0].
  - exists [current]. split; [done|]. split; [done|]. split; [done|]. intros [|i] h Hi; [|by destruct i]. injection Hi as <-. split; [apply rtc_refl|done].
  - destruct (has_parent _ _ _ _ Hok Hc Hn0) as (p & Hp & Hph). pose proof Hp as (s' & Hs' & _ & Ep). simplify_eq.
    destruct (IH (prev_hash (s_header s)) (s_height s - 1) (vec_push acc current) Hph) as (l & -> & Hlen & Hhd & Hl); [lia|].
    exists (current :: l). unfold vec_push. rewrite <- app_assoc. split; [done|]. split; [cbn; lia|]. split; [done|].
    intros i h Hi. rewrite reverse_cons in Hi. apply lookup_app_Some in Hi as [Hi|[Hge Hi]].
    + destruct (Hl i h Hi) as [Ha Hh]. split; [by eapply rtc_l|done].
    + rewrite length_reverse in Hge, Hi. destruct (i - length l)%nat eqn:Ei; [|by rewrite lookup_cons, lookup_nil in Hi].
      injection Hi as <-. split; [apply rtc_refl|]. replace (Z.of_nat i) with (s_height s) by lia. done.
Qed.

Lemma chain_loop_chain g tree tip n :
  tree_ok g tree -> at_height tree tip n ->
  exists l, chain_loop (S (size tree)) tree tip [] = Ok l /\ chain_to tree tip (reverse l) /\ length (reverse l) = S (Z.to_nat n).
Proof.
  intros Hok Ht. pose proof (height_lt_size _ _ _ _ Hok Ht).
  destruct (chain_loop_ok g tree (S (size tree)) tip n [] Hok Ht) as (l & E & Hlen & Hhd & Hl); [lia|].
  exists l. split; [done|]. split; [|by rewrite length_reverse]. split; [|done].
  destruct l as [|x l]; [done|]. injection Hhd as ->. by rewrite reverse_cons, last_snoc.
Qed.

(** the chain to a tip is unique *)
Lemma chain_to_index g tree tip n chain h k :
  tree_ok g tree -> at_height tree tip n -> chain_to tree tip chain -> ancestor tree tip h -> at_height tree h k -> vec_index chain k = Some h.
Proof.
  intros Hok Ht [Hl Hat] Ha Hh. pose proof (at_height_range _ _ _ _ Hok Hh) as [Hk _]. destruct (ancestor_height _ _ _ _ _ Hok Ha Ht) as (k' & Hk' & Hle).
  rewrite (at_height_fun _ _ _ _ Hk' Hh) in Hle. unfold vec_index. rewrite (proj2 (Z.leb_le _ _)) by lia.
  rewrite last_lookup in Hl. destruct (Hat _ _ Hl) as [_ Htn]. pose proof (at_height_fun _ _ _ _ Ht Htn).
  destruct (lookup_lt_is_Some_2 chain (Z.to_nat k)) as [x Hx]; [apply lookup_lt_Some in Hl; lia|]. rewrite Hx. f_equal.
  destruct (Hat _ _ Hx) as [Hax Hxk]. rewrite Z2Nat.id in Hxk by lia. by eapply (ancestor_unique g tree tip n).
Qed.
End Walks.

(** ** The store *)

Section Store.
Context {B : Type} `{HU : U256Overflow}.
Implicit Types (hs : HeaderStore B) (tree : gmap Hash256 StoredHeader) (h p g : Hash256) (s : StoredHeader).

Record store_ok g hs : Prop := {
  so_tree : tree_ok g (by_hash hs);
  so_active : exists tip, chain_to (by_hash hs) tip (active_chain hs);
  so_set : active_set hs = list_to_set (active_chain hs);
  so_best : exists s, by_hash hs !! (best_known_tip hs).1 = Some s /\ s_chainwork s = (best_known_tip hs).2;
  so_most h s : h ∈ tips hs \/ last (active_chain hs) = Some h -> by_hash hs !! h = Some s -> s_chainwork s <= (best_known_tip hs).2;
}.

(** *** Growing trees *)

Lemma ancestor_mono tree tree' h p : tree ⊆ tree' -> ancestor tree h p -> ancestor tree' h p.
Proof. intros Hs. apply rtc_subrel. intros x y (s & Hx & Hn & ->). exists s. split; [by eapply lookup_weaken|done]. Qed.

Lemma at_height_mono tree tree' h n : tree ⊆ tree' -> at_height tree h n -> at_height tree' h n.
Proof. intros Hs (s & Hh & <-). exists s. split; [by eapply lookup_weaken|done]. Qed.

Lemma chain_to_mono tree tree' tip chain : tree ⊆ tree' -> chain_to tree tip chain -> chain_to tree' tip chain.
Proof. intros Hs [Hl Hat]. split; [done|]. intros i h Hi. destruct (Hat i h Hi). split; [by eapply ancestor_mono|by eapply at_height_mono]. Qed.

Lemma chain_to_tip tree tip chain : chain_to tree tip chain -> at_height tree tip (Z.of_nat (length chain) - 1).
Proof.
  intros [Hl Hat]. rewrite last_lookup in Hl. destruct (Hat _ _ Hl) as [_ Hh]. apply lookup_lt_Some in Hl.
  replace (Z.of_nat (length chain) - 1) with (Z.of_nat (Init.Nat.pred (length chain))) by lia. done.
Qed.

(** a new header on top of a stored one *)
Lemma tree_ok_insert g tree h s q :
  tree_ok g tree -> tree !! h = None -> tree !! prev_hash (s_header s) = Some q -> extends q s -> s_height s <= u32_max -> tree_ok g (<[h := s]> tree).
Proof.
  intros Hok Hh Hq Hext Hmax. assert (tree ⊆ <[h := s]> tree) as Hsub by by apply insert_subseteq.
  pose proof (tk_range _ _ Hok _ _ Hq) as Hqr. destruct Hext as [Hsh Hw]. split.
  - destruct (tk_genesis _ _ Hok) as (s0 & Hs0 & H0). exists s0. split; [by eapply lookup_weaken|done].
  - intros x sx [[<- <-]|[_ Hx]]%lookup_insert_Some H0; [range|by eapply tk_root].
  - intros x sx [[<- <-]|[_ Hx]]%lookup_insert_Some; [range|by eapply tk_range].
  - intros x sx [[<- <-]|[_ Hx]]%lookup_insert_Some H0; [exists q; split; [by eapply lookup_weaken|done]|].
    destruct (tk_parent _ _ Hok _ _ Hx H0) as (q' & Hq' & He). exists q'. split; [by eapply lookup_weaken|done].
Qed.

Lemma chain_to_push tree tip chain h s :
  chain_to tree tip chain -> tree !! h = None -> prev_hash (s_header s) = tip -> s_height s = Z.of_nat (length chain) ->
  chain_to (<[h := s]> tree) h (chain ++ [h]).
Proof.
  intros Hc Hh Hp Hn. assert (tree ⊆ <[h := s]> tree) as Hsub by by apply insert_subseteq.
  pose proof (chain_to_mono _ _ _ _ Hsub Hc) as [Hl Hat]. split; [by rewrite last_snoc|].
  assert (length chain <> 0%nat) as Hne by (destruct chain; done).
  intros i x Hi. apply lookup_app_Some in Hi as [Hi|[Hge Hi]].
  - destruct (Hat i x Hi) as [Ha Hx]. split; [|done]. eapply rtc_l; [|exact Ha]. exists s. rewrite lookup_insert_eq. split; [done|]. split; [lia|done].
  - destruct (i - length chain)%nat eqn:E; [|by rewrite lookup_cons, lookup_nil in Hi]. injection Hi as <-.
    split; [apply rtc_refl|]. exists s. rewrite lookup_insert_eq. split; [done|lia].
Qed.

Lemma new_not_active g hs h : store_ok g hs -> by_hash hs !! h = None -> h ∉ active_chain hs.
Proof.
  intros Hok Hh [i Hi]%list_elem_of_lookup. destruct (so_active _ _ Hok) as (tip & Hc). destruct (ct_at _ _ _ Hc i h Hi) as [_ (s & Hs & _)]. congruence.
Qed.

(** *** The tip *)

Lemma store_tip g hs : store_ok g hs -> exists tip s, chain_to (by_hash hs) tip (active_chain hs) /\ hs_tip hs = Ok (tip, s_height s) /\
  by_hash hs !! tip = Some s /\ s_height s = zlen (active_chain hs) - 1 /\ last (active_chain hs) = Some tip.
Proof.
  intros Hok. destruct (so_active _ _ Hok) as (tip & Hc). pose proof (chain_to_tip _ _ _ Hc) as Hh. pose proof Hh as (s & Hs & Hn).
  pose proof (at_height_range _ _ _ _ (so_tree _ _ Hok) Hh) as Hr. exists tip, s. split; [done|]. split; [|split; [done|split; [done|apply Hc]]].
  unfold hs_tip, hs_height, usize_sub, zlen. rewrite (proj2 (Z.ltb_ge _ _)) by range. cbn [mbind res_bind].
  rewrite Z.mod_small by range. unfold vec_index. rewrite (proj2 (Z.leb_le _ _)) by range.
  pose proof (ct_last _ _ _ Hc) as Hl. rewrite last_lookup in Hl. replace (Z.to_nat (Z.of_nat (length (active_chain hs)) - 1)) with (Init.Nat.pred (length (active_chain hs))) by lia.
  rewrite Hl. cbn [or_panic mbind res_bind]. by rewrite Hn.
Qed.

(** *** Adding to memory *)

(** the row extends the active tip *)
Record fits_tip hs (row : header_row) : Prop := {
  ft_new : by_hash hs !! row.1.1.1 = None;
  ft_tip : last (active_chain hs) = Some (prev_hash row.1.1.2);
  ft_ext : exists q, by_hash hs !! prev_hash row.1.1.2 = Some q /\ extends q (mkStored row.1.1.2 row.1.2 row.2);
  ft_max : row.1.2 <= u32_max;
}.

Lemma commit_ok g hs row : store_ok g hs -> fits_tip hs row -> store_ok g (commit_to_memory hs row).
Proof.
  destruct row as [[[hash header] height] work]. intros Hok [Hnew Htip (q & Hq & Hext) Hmax]. cbn [fst snd] in *.
  destruct (store_tip g hs Hok) as (tip & st & Hc & _ & Hst & Hsth & Hlast). assert (prev_hash header = tip) as Hp by congruence.
  assert (q = st) as -> by congruence. split; cbn [commit_to_memory by_hash active_chain active_set tips best_known_tip]; unfold vec_push.
  - apply (tree_ok_insert g _ hash (mkStored header height work) st); [apply Hok|done|by rewrite <- Hq|done|done].
  - exists hash. apply (chain_to_push _ tip); [done|done|done|]. cbn. destruct Hext as [E _]. cbn in E. unfold zlen in Hsth. lia.
  - rewrite (so_set _ _ Hok), list_to_set_app_L. cbn. set_solver.
  - destruct (so_best _ _ Hok) as (sb & Hsb & Hcw). destruct (work >? (best_known_tip hs).2); [eexists; by rewrite lookup_insert_eq|].
    exists sb. split; [|done]. eapply lookup_weaken; [exact Hsb|by apply insert_subseteq].
  - rewrite last_snoc. rewrite Z.gtb_ltb. intros h s Hh Hs.
    assert (s_chainwork s <= Z.max work (best_known_tip hs).2) as Hle.
    { apply lookup_insert_Some in Hs as [[<- <-]|[Hne Hs]]; [cbn; lia|]. destruct Hh as [Hh|[= ->]]; [|done].
      assert (h ∈ tips hs) as Ht by set_solver. pose proof (so_most _ _ Hok h s (or_introl Ht) Hs). lia. }
    destruct (Z.ltb_spec (best_known_tip hs).2 work); cbn; lia.
Qed.

Lemma set_backend_ok g hs be : store_ok g hs -> store_ok g (set_backend hs be).
Proof. by intros []. Qed.


(** *** Forks *)

Lemma active_ancestor g hs h p : store_ok g hs -> h ∈ active_set hs -> ancestor (by_hash hs) h p -> p ∈ active_set hs.
Proof.
  intros Hok. rewrite (so_set _ _ Hok), !elem_of_list_to_set. intros [i Hi]%list_elem_of_lookup Ha. destruct (so_active _ _ Hok) as (tip & Hc).
  destruct (ct_at _ _ _ Hc i h Hi) as [Hti Hh]. destruct (ancestor_height _ _ _ _ _ (so_tree _ _ Hok) Ha Hh) as (k & Hk & _).
  pose proof (chain_to_index g _ tip _ _ p k (so_tree _ _ Hok) (chain_to_tip _ _ _ Hc) Hc) as Hv.
  destruct (vec_index_elem _ _ _ (Hv ltac:(by etrans) Hk)) as [_ Hin]. done.
Qed.

Lemma active_header_at g hs x k s :
  store_ok g hs -> x ∈ active_set hs -> by_hash hs !! x = Some s -> s_height s = k -> store_header_at hs k = Some (stamp s).
Proof.
  intros Hok Hx Hs Hk. destruct (so_active _ _ Hok) as (tip & Hc). rewrite (so_set _ _ Hok), elem_of_list_to_set in Hx.
  apply list_elem_of_lookup in Hx as [i Hi]. destruct (ct_at _ _ _ Hc i x Hi) as [Ha _]. unfold store_header_at.
  rewrite (chain_to_index g _ tip _ _ x k (so_tree _ _ Hok) (chain_to_tip _ _ _ Hc) Hc Ha) by by exists s. cbn. by rewrite Hs.
Qed.

(** what the walk adds for the height [k] *)
Definition fork_entry hs (current : Hash256) (k : Z) (was now : option (Z * Z)) : Prop :=
  forall x s, ancestor (by_hash hs) current x -> by_hash hs !! x = Some s -> s_height s = k ->
    now = if decide (x ∈ active_set hs) then was else Some (stamp s).

Lemma build_loop_ok g hs fuel current n fork :
  store_ok g hs -> at_height (by_hash hs) current n -> (Z.to_nat n < fuel)%nat ->
  exists fork', build_loop fuel hs fork current = Some fork' /\
    (forall k, n < k -> fork' !! k = fork !! k) /\ forall k, fork_entry hs current k (fork !! k) (fork' !! k).
Proof.
  intros Hok. revert current n fork. induction fuel as [|fuel IH]; intros current n fork Hc Hf; [lia|]. cbn [build_loop].
  pose proof (so_tree _ _ Hok) as Ht. pose proof (at_height_range _ _ _ _ Ht Hc) as [Hn _]. pose proof Hc as (s & Hs & Hsn). rewrite Hs.
  case_bool_decide as Hact.
  { exists fork. split; [done|]. split; [done|]. intros k x sx Hx _ _. by rewrite decide_True by by eapply active_ancestor. }
  assert (forall k x sx (fork' : gmap Z (Z * Z)), ancestor (by_hash hs) current x -> by_hash hs !! x = Some sx -> s_height sx = k -> n <= k ->
    fork' !! n = Some (stamp s) -> fork' !! k = if decide (x ∈ active_set hs) then fork !! k else Some (stamp sx)) as Htop.
  { intros k x sx fork' Hx Hsx Hk Hle Hfk. destruct (ancestor_height _ _ _ _ _ Ht Hx Hc) as (k' & Hk' & Hle').
    assert (at_height (by_hash hs) x k) as Hxk by by exists sx. pose proof (at_height_fun _ _ _ _ Hk' Hxk) as ->. assert (k = n) as -> by lia.
    assert (current = x) as <- by exact (ancestor_same_height g _ _ _ n Ht Hx Hc Hxk). rewrite decide_False by done. by rewrite Hfk; simplify_eq. }
  rewrite Hsn. destruct (Z.eqb_spec n 0) as [->|Hn0].
  - exists (<[0 := stamp s]> fork). split; [done|]. split; [intros k Hk; by rewrite lookup_insert_ne by lia|].
    intros k x sx Hx Hsx Hk. pose proof (tk_range _ _ Ht _ _ Hsx) as [? _]. eapply Htop; [done|done|done|lia|]. by rewrite lookup_insert_eq.
  - destruct (has_parent _ _ _ _ Ht Hc Hn0) as (p & Hp & Hph). pose proof Hp as (s' & Hs' & _ & Ep). simplify_eq.
    destruct (IH (prev_hash (s_header s)) (s_height s - 1) (<[s_height s := stamp s]> fork) Hph) as (fork' & -> & Habove & Hbelow); [lia|].
    exists fork'. split; [done|]. split; [intros k Hk; rewrite Habove, lookup_insert_ne by lia; done|].
    intros k x sx Hx Hsx Hk. destruct (decide (current = x)) as [->|Hne].
    + eapply Htop; [apply rtc_refl|done|done|simplify_eq; lia|]. rewrite Habove by lia. by rewrite lookup_insert_eq.
    + assert (ancestor (by_hash hs) (prev_hash (s_header s)) x) as Hpx by by eapply ancestor_parent.
      rewrite (Hbelow k x sx Hpx Hsx Hk). case_decide; [|done]. destruct (ancestor_height _ _ _ _ _ Ht Hpx Hph) as (k' & Hk' & Hle).
      rewrite (at_height_fun _ x k' k Hk' ltac:(by exists sx)) in Hle. by rewrite lookup_insert_ne by lia.
Qed.

(** a fork sees its own ancestors, at every height up to its tip *)
Lemma fork_build_ok g hs start n :
  store_ok g hs -> at_height (by_hash hs) start n ->
  exists fl, fork_build hs start = Ok fl /\
    forall x s, ancestor (by_hash hs) start x -> by_hash hs !! x = Some s -> header_at fl (s_height s) = Some (stamp s).
Proof.
  intros Hok Hst. pose proof (height_lt_size _ _ _ _ (so_tree _ _ Hok) Hst).
  destruct (build_loop_ok g hs (walk_fuel hs) start n ∅ Hok Hst) as (fork & E & _ & Hent); [unfold walk_fuel; lia|].
  exists (mkFork hs fork). unfold fork_build. rewrite E. split; [done|]. intros x s Hx Hs. unfold header_at, fork_lookup, fork_header_at. cbn [fork_headers fork_store].
  rewrite (Hent (s_height s) x s Hx Hs eq_refl). case_decide as Ha; [|done]. rewrite lookup_empty. by eapply active_header_at.
Qed.
End Store.

Section StoreOps.
Context {B : Type} {HB : HeaderBackend B} `{HS : Sha256} `{HU : U256Overflow} `{HO : HashOrder} `{!HashOrderLaws HO}.
Implicit Types (hs : HeaderStore B) (tree : gmap Hash256 StoredHeader) (h p g : Hash256) (s : StoredHeader).

Lemma fails_pow_false hs header height :
  fails_pow hs header height = false <-> (last_checkpoint_height (params hs) < height -> check_proof_of_work header = true).
Proof.
  unfold fails_pow. rewrite Z.gtb_ltb. destruct (Z.ltb_spec (last_checkpoint_height (params hs)) height); [|split; [lia|done]].
  rewrite negb_false_iff. naive_solver.
Qed.

(** *** The best tip *)

Record base_ok g hs : Prop := {
  bo_tree : tree_ok g (by_hash hs);
  bo_active : exists tip, chain_to (by_hash hs) tip (active_chain hs);
  bo_set : active_set hs = list_to_set (active_chain hs);
}.

Lemma store_base g hs : store_ok g hs -> base_ok g hs.
Proof. intros []. by split. Qed.

Definition better (tree : gmap Hash256 StoredHeader) (best : Hash256 * Z) (tip : Hash256) : Hash256 * Z :=
  match tree !! tip with
  | Some stored => if s_chainwork stored >? best.2 then (tip, s_chainwork stored) else best
  | None => best
  end.

Lemma better_fold tree l best :
  (exists s, tree !! best.1 = Some s /\ s_chainwork s = best.2) ->
  let best' := foldl (better tree) best l in
  (exists s, tree !! best'.1 = Some s /\ s_chainwork s = best'.2) /\ best.2 <= best'.2 /\
  forall h s, h ∈ l -> tree !! h = Some s -> s_chainwork s <= best'.2.
Proof.
  revert best. induction l as [|t l IH]; intros best Hb; cbn [foldl]; [split; [done|]; split; [lia|set_solver]|].
  assert ((exists s, tree !! (better tree best t).1 = Some s /\ s_chainwork s = (better tree best t).2) /\ best.2 <= (better tree best t).2 /\
    forall s, tree !! t = Some s -> s_chainwork s <= (better tree best t).2) as (Hb' & Hge & Ht).
  { unfold better. destruct (tree !! t) as [s|] eqn:E; [|split_and!; [done|lia|done]]. rewrite Z.gtb_ltb.
    destruct (Z.ltb_spec best.2 (s_chainwork s)); (split_and!; [cbn; eauto|cbn; lia|intros ? [= <-]; cbn; lia]). }
  destruct (IH _ Hb') as (H1 & H2 & H3). split; [done|]. split; [lia|]. intros h s [->|Hin]%elem_of_cons Hh; [|by eapply H3].
  pose proof (Ht s Hh). lia.
Qed.

Lemma recompute_ok g hs : base_ok g hs -> store_ok g (recompute_best_tip hs).
Proof.
  intros [Ht (tip & Hc) Hset]. pose proof (chain_to_tip _ _ _ Hc) as (s & Hs & _). pose proof (ct_last _ _ _ Hc) as Hl.
  destruct (better_fold (by_hash hs) (set_order (tips hs)) (tip, s_chainwork s)) as (Hb & Hge & Hmost); [by exists s|].
  assert (best_known_tip (recompute_best_tip hs) = foldl (better (by_hash hs)) (tip, s_chainwork s) (set_order (tips hs))) as E.
  { cbn. rewrite Hl. cbn. by rewrite Hs. }
  split; [done|by exists tip|done|by rewrite E|]. rewrite E. cbn [recompute_best_tip by_hash tips active_chain]. rewrite Hl.
  intros h sh [Hh|[= <-]] Hsh; [|cbn [snd] in Hge; simplify_eq; lia]. eapply Hmost; [|done]. by apply elem_of_set_order.
Qed.

Lemma switch_ok g hs new_tip :
  store_ok g hs -> is_Some (by_hash hs !! new_tip) ->
  exists hs', switch_active_chain hs new_tip = Ok hs' /\ store_ok g hs' /\ by_hash hs' = by_hash hs /\ chain_to (by_hash hs) new_tip (active_chain hs').
Proof.
  intros Hok [s Hs]. destruct (store_tip g hs Hok) as (tip & st & _ & _ & _ & _ & Hlast).
  destruct (chain_loop_chain g (by_hash hs) new_tip (s_height s) (so_tree _ _ Hok)) as (l & E & Hc & _); [by exists s|].
  unfold switch_active_chain. rewrite Hlast. cbn [ok_or mbind res_bind]. fold (walk_fuel hs) in E. rewrite E. cbn [mbind res_bind].
  eexists. split; [done|]. split; [|by split]. apply recompute_ok. split; cbn [by_hash active_chain active_set]; [apply Hok|by exists new_tip|done].
Qed.

(** *** Invalid tips *)

Lemma descends_loop_ok g hs fuel current ancestor_ n :
  tree_ok g (by_hash hs) -> at_height (by_hash hs) current n -> (Z.to_nat n < fuel)%nat ->
  exists b, descends_loop fuel hs current ancestor_ = Some b /\ (b = true <-> ancestor (by_hash hs) current ancestor_).
Proof.
  intros Ht. revert current n. induction fuel as [|fuel IH]; intros current n Hc Hf; [lia|]. cbn [descends_loop].
  case_bool_decide as E; [exists true; split; [done|]; subst; split; [intros _; apply rtc_refl|done]|].
  pose proof (at_height_range _ _ _ _ Ht Hc) as [Hn _]. pose proof Hc as (s & Hs & Hsn). rewrite Hs, Z.gtb_ltb, Hsn. destruct (Z.ltb_spec 0 n).
  - destruct (has_parent _ _ _ _ Ht Hc) as (p & Hp & Hph); [lia|]. pose proof Hp as (s' & Hs' & _ & ->). simplify_eq.
    destruct (IH _ _ Hph) as (b & -> & Hb); [lia|]. exists b. split; [done|]. rewrite Hb. split; intros Ha; [by eapply rtc_l|by eapply ancestor_parent].
  - exists false. split; [done|]. split; [done|]. intros Ha. destruct Ha as [|x y z (sx & Hsx & Hnx & _) _]; [done|]. simplify_eq. lia.
Qed.

(** walking from a hash that is not stored stops at once *)
Lemma descends_from_total g hs tip a : tree_ok g (by_hash hs) -> exists b, descends_from hs tip a = Some b /\
  (is_Some (by_hash hs !! tip) -> b = true <-> ancestor (by_hash hs) tip a).
Proof.
  intros Ht. unfold descends_from. destruct (by_hash hs !! tip) as [s|] eqn:E.
  - pose proof (height_lt_size g _ tip (s_height s) Ht ltac:(by exists s)).
    destruct (descends_loop_ok g hs (walk_fuel hs) tip a (s_height s) Ht) as (b & Hb & Hiff); [by exists s|unfold walk_fuel; lia|]. by exists b.
  - unfold walk_fuel. cbn [descends_loop]. case_bool_decide; [exists true; split; [done|by intros [? ?]]|].
    rewrite E. exists false. split; [done|by intros [? ?]].
Qed.

Lemma persist_all_total (be : B) l :
  (forall b h, persist_invalid_tip b h <> Panic) -> exists be', foldl (fun b h => b ← b; log_error b (persist_invalid_tip b h)) (Some be) l = Some be'.
Proof.
  intros Hp. revert be. induction l as [|h l IH]; intros be; cbn [foldl]; [by exists be|]. cbn [mbind option_bind].
  pose proof (Hp be h). destruct (persist_invalid_tip be h) as [b| |]; [apply IH|apply IH|done].
Qed.

Lemma elem_of_removed l (X : gset Hash256) t : t ∈ foldl (fun X d => X ∖ {[d]}) X l <-> t ∈ X /\ t ∉ l.
Proof. revert X. induction l as [|d l IH]; intros X; cbn [foldl]; [set_solver|]. rewrite IH. set_solver. Qed.

Lemma subset_added l (X : gset Hash256) : X ⊆ foldl (fun X d => {[d]} ∪ X) X l.
Proof. revert X. induction l as [|d l IH]; intros X; cbn [foldl]; [done|]. etrans; [|apply IH]. set_solver. Qed.

(** the tips that descend from a hash, as [mark_invalid] collects them *)
Lemma descendants_ok g hs hash order :
  tree_ok g (by_hash hs) -> exists l : list (Hash256 * bool), mapM (fun tip => pair tip <$> descends_from hs tip hash) order = Some l /\
    forall t, t ∈ fst <$> filter (fun x => x.2 = true) l <-> t ∈ order /\ descends_from hs t hash = Some true.
Proof.
  intros Ht. induction order as [|t order (l & E & Hl)]; [exists []; split; [done|set_solver]|]. cbn [mapM]. rewrite E.
  destruct (descends_from_total g hs t hash Ht) as (b & Hb & _). rewrite Hb. cbn [fmap option_fmap option_map mbind option_bind mret option_ret].
  exists ((t, b) :: l). split; [done|]. intros x. rewrite elem_of_cons, filter_cons. cbn [snd].
  case_decide as E'; cbn [fmap list_fmap fst]; rewrite ?elem_of_cons, Hl; [naive_solver|]. split; [naive_solver|].
  intros [[->|H] Hd]; [congruence|done].
Qed.

Lemma mark_invalid_ok g hs hash :
  store_ok g hs -> (forall b h, persist_invalid_tip b h <> Panic) ->
  exists hs', mark_invalid hs hash = Some hs' /\ store_ok g hs' /\ by_hash hs' = by_hash hs /\ active_chain hs' = active_chain hs /\
    hash ∈ invalid_tips hs' /\ hash ∉ tips hs' /\
    forall t, t ∈ tips hs -> is_Some (by_hash hs !! t) -> t ∈ tips hs' <-> ~ ancestor (by_hash hs) t hash.
Proof.
  intros Hok Hp. unfold mark_invalid.
  destruct (descendants_ok g hs hash (set_order (tips hs ∖ {[hash]})) (so_tree _ _ Hok)) as (l & -> & Hdesc). cbn [mbind option_bind].
  destruct (match backend hs with Some be => _ | None => Some None end) as [be|] eqn:Ebe.
  2: { exfalso. destruct (backend hs) as [b|]; [|done].
    destruct (persist_all_total b (hash :: (fst <$> filter (fun x => x.2 = true) l)) Hp) as [b' Hb']. rewrite Hb' in Ebe. done. }
  cbn [mbind option_bind]. eexists. split; [done|]. split; [|split; [done|split; [done|split; [|split]]]].
  - apply recompute_ok. split; cbn [by_hash active_chain active_set]; apply Hok.
  - cbn [recompute_best_tip invalid_tips]. apply subset_added. set_solver.
  - cbn [recompute_best_tip tips]. rewrite elem_of_removed. set_solver.
  - intros t Ht Hst. cbn [recompute_best_tip tips]. rewrite elem_of_removed, Hdesc, elem_of_set_order.
    destruct (descends_from_total g hs t hash (so_tree _ _ Hok)) as (b & Hb & Hiff). rewrite Hb. specialize (Hiff Hst).
    destruct (decide (t = hash)) as [->|Hne]; [split; [set_solver|]; intros Hn; destruct Hn; apply rtc_refl|].
    destruct b; split; [set_solver|naive_solver|naive_solver|set_solver].
Qed.


(** *** Accepting a header anywhere in the tree *)

(** the header was added to the tree, on top of its parent *)
Definition added hs hs' (header : BlockHeader) : Prop :=
  let hash := block_hash header in
  by_hash hs !! hash = None /\ prev_hash header ∉ invalid_tips hs /\
  exists q height work, by_hash hs !! prev_hash header = Some q /\ extends q (mkStored header height work) /\ height <= u32_max /\
    by_hash hs' = <[hash := mkStored header height work]> (by_hash hs) /\
    tips hs' = {[hash]} ∪ (tips hs ∖ {[prev_hash header]}) /\ invalid_tips hs' = invalid_tips hs /\ params hs' = params hs /\
    (exists fl, fork_build hs (prev_hash header) = Ok fl /\ get_next_work_required height fl (params hs) = Ok (bits header)) /\
    (last_checkpoint_height (params hs) < height -> check_proof_of_work header = true) /\
    best_known_tip hs' = (if (best_known_tip hs).2 <? work then (hash, work) else best_known_tip hs) /\
    active_chain hs' = (if ((best_known_tip hs).2 <? work) && bool_decide (last (active_chain hs) = Some (prev_hash header))
                        then active_chain hs ++ [hash] else active_chain hs) /\
    active_set hs' = (if ((best_known_tip hs).2 <? work) && bool_decide (last (active_chain hs) = Some (prev_hash header))
                        then {[hash]} ∪ active_set hs else active_set hs).

Lemma added_ok g hs hs' header : store_ok g hs -> added hs hs' header -> store_ok g hs'.
Proof.
  intros Hok (Hnew & _ & q & height & work & Hq & Hext & Hmax & Et & Etips & _ & _ & _ & _ & Ebest & Eact & Eset).
  destruct (store_tip g hs Hok) as (tip & st & Hc & _ & Hst & Hsth & Hlast).
  assert (by_hash hs ⊆ by_hash hs') as Hsub by (rewrite Et; by apply insert_subseteq). split.
  - rewrite Et. by eapply (tree_ok_insert g); [apply Hok|done|exact Hq|done|].
  - rewrite Eact. destruct (_ && _) eqn:E; [|exists tip; by eapply chain_to_mono]. apply andb_true_iff in E as [_ E%bool_decide_eq_true].
    exists (block_hash header). rewrite Et. assert (prev_hash header = tip) as Hp by congruence. apply (chain_to_push _ tip); [done|done|done|].
    cbn. destruct Hext as [E' _]. cbn in E'. assert (q = st) as -> by congruence. unfold zlen in Hsth. lia.
  - rewrite Eset, Eact, (so_set _ _ Hok). destruct (_ && _); [|done]. rewrite list_to_set_app_L. cbn. set_solver.
  - rewrite Ebest. destruct (Z.ltb_spec (best_known_tip hs).2 work); [rewrite Et; eexists; cbn; by rewrite lookup_insert_eq|].
    destruct (so_best _ _ Hok) as (sb & Hsb & Hcw). exists sb. split; [by eapply lookup_weaken|done].
  - intros h s Hh Hs. rewrite Ebest. assert (s_chainwork s <= Z.max work (best_known_tip hs).2) as Hle.
    { rewrite Et in Hs. apply lookup_insert_Some in Hs as [[<- <-]|[Hne Hs]]; [cbn; lia|].
      assert (h ∈ tips hs \/ last (active_chain hs) = Some h) as Hh'; [|pose proof (so_most _ _ Hok h s Hh' Hs); lia].
      rewrite Etips, Eact in Hh. destruct (_ && _); [rewrite last_snoc in Hh|]; set_solver. }
    destruct (Z.ltb_spec (best_known_tip hs).2 work); cbn; lia.
Qed.

Lemma accept_header_Ok hs header r hs' :
  accept_header hs header = Ok (r, hs') ->
  r = AlreadyKnown /\ hs' = hs /\ is_Some (by_hash hs !! block_hash header) \/
  added hs hs' header /\ (r = NeedReorg <-> best_known_tip hs' <> best_known_tip hs /\ active_chain hs' = active_chain hs).
Proof.
  unfold accept_header. intros H. case_bool_decide as Hk; [injection H as <- <-; left; done|]. right. apply eq_None_not_Some in Hk.
  case_bool_decide as Hinv; [done|]. apply res_bind_Ok in H as (q & Hq%ok_or_Ok & H). apply res_bind_Ok in H as (height & Hh & H).
  destruct (Z.leb_spec (s_height q + 1) u32_max); [|done]. injection Hh as <-. apply res_bind_Ok in H as (work & Hw & H). apply res_bind_Ok in H as (cw & Hcw & H).
  apply res_bind_Ok in H as (fl & Hfl & H). apply res_bind_Ok in H as (eb & Heb & H). destruct (Z.eqb_spec (bits header) eb) as [<-|]; [|done]. cbn [negb] in H.
  destruct (fails_pow hs header _) eqn:Hpow; [done|]. rewrite fails_pow_false in Hpow. apply res_bind_Ok in H as (be & _ & H). rewrite Z.gtb_ltb in H.
  assert (forall hs', by_hash hs' = <[block_hash header := mkStored header (s_height q + 1) cw]> (by_hash hs) ->
    tips hs' = {[block_hash header]} ∪ (tips hs ∖ {[prev_hash header]}) -> invalid_tips hs' = invalid_tips hs -> params hs' = params hs ->
    best_known_tip hs' = (if (best_known_tip hs).2 <? cw then (block_hash header, cw) else best_known_tip hs) ->
    active_chain hs' = (if ((best_known_tip hs).2 <? cw) && bool_decide (last (active_chain hs) = Some (prev_hash header)) then active_chain hs ++ [block_hash header] else active_chain hs) ->
    active_set hs' = (if ((best_known_tip hs).2 <? cw) && bool_decide (last (active_chain hs) = Some (prev_hash header)) then {[block_hash header]} ∪ active_set hs else active_set hs) ->
    added hs hs' header) as Hadd.
  { intros hs0 E1 E2 E3 E4 E5 E6 E7. split; [done|]. split; [done|]. exists q, (s_height q + 1), cw. split_and!; [done|split; [done|by eauto]|done|done|done|done|done|by eauto|done|done|done|done]. }
  assert (cw > (best_known_tip hs).2 -> (block_hash header, cw) <> best_known_tip hs) as Hne by (intros Hgt E; rewrite <- E in Hgt; cbn in Hgt; lia).
  assert (active_chain hs ++ [block_hash header] <> active_chain hs) as Hlen by (intros E%(f_equal length); rewrite length_app in E; cbn in E; lia).
  destruct (Z.ltb_spec (best_known_tip hs).2 cw) as [Hlt|Hge]; cbn [andb] in Hadd;
    [destruct (decide (last (active_chain hs) = Some (prev_hash header))) as [Ht|Ht]|].
  - rewrite bool_decide_false in H by (intros ?; done). injection H as <- <-. rewrite bool_decide_true in Hadd by done.
    split; [by apply Hadd|]. cbn. split; [done|]. by intros [_ ?].
  - rewrite bool_decide_true in H by done. injection H as <- <-. rewrite bool_decide_false in Hadd by done.
    split; [by apply Hadd|]. cbn. split; [|done]. intros _. split; [apply Hne; lia|done].
  - injection H as <- <-. split; [by apply Hadd|]. cbn. split; [done|]. by intros [? _].
Qed.


(** *** Extending the active chain *)

Lemma chains_to_tip_Ok hs hash header tip n k :
  validate_chains_to_tip hs hash header tip n = Ok k <-> prev_hash header = tip /\ k = n + 1 /\ n + 1 <= u32_max.
Proof.
  unfold validate_chains_to_tip. case_bool_decide as E; [case_bool_decide; naive_solver|].
  destruct (Z.leb_spec (n + 1) u32_max); split; [intros [= <-]; done|naive_solver|done|lia].
Qed.

(** the work of the active tip *)
Lemma tip_work g hs : store_ok g hs -> exists tip s, last (active_chain hs) = Some tip /\ by_hash hs !! tip = Some s /\
  hs_tip hs = Ok (tip, s_height s) /\ s_height s = zlen (active_chain hs) - 1 /\
  default 0 (h ← last (active_chain hs); s ← by_hash hs !! h; Some (s_chainwork s)) = s_chainwork s.
Proof.
  intros Hok. destruct (store_tip g hs Hok) as (tip & s & _ & Ht & Hs & Hn & Hl). exists tip, s. split_and!; [done..|].
  rewrite Hl. cbn. by rewrite Hs.
Qed.

Lemma add_header_ok g hs header height hs' :
  store_ok g hs -> add_header hs header = Ok (height, hs') ->
  store_ok g hs' /\ by_hash hs !! block_hash header = None /\ last (active_chain hs) = Some (prev_hash header) /\
  get_next_work_required height hs (params hs) = Ok (bits header) /\ active_chain hs' = active_chain hs ++ [block_hash header].
Proof.
  intros Hok H. destruct (tip_work g hs Hok) as (tip & s & Hl & Hs & Ht & Hn & Hw). unfold add_header, validate_header in H.
  apply res_bind_Ok in H as ([hash h] & Hv & H). case_bool_decide as Hk; [done|]. apply eq_None_not_Some in Hk. rewrite Ht in Hv. cbn [mbind res_bind] in Hv.
  apply res_bind_Ok in Hv as (h' & (Hp & -> & Hmax)%chains_to_tip_Ok & [= <- <-]). apply res_bind_Ok in H as (eb & Heb & H).
  destruct (Z.eqb_spec (bits header) eb) as [<-|]; [|done]. cbn [negb] in H. apply res_bind_Ok in H as ([] & _ & H). rewrite Hw in H.
  apply res_bind_Ok in H as (work & Hwork & H). apply res_bind_Ok in H as (cw & Hcw & H). apply res_bind_Ok in H as (hs1 & Hbe & H). injection H as <- <-.
  assert (exists be, hs1 = set_backend hs be) as [be ->].
  { destruct (backend hs); [apply res_bind_Ok in Hbe as (b' & _ & [= <-]); by eexists|]. injection Hbe as <-. exists (backend hs). by destruct hs. }
  split; [|split; [done|split; [by rewrite Hl, Hp|split; done]]]. apply (commit_ok g (set_backend hs be) (block_hash header, header, s_height s + 1, cw)); [by apply set_backend_ok|]. split; cbn; [done|by rewrite Hl, Hp| |done].
  exists s. rewrite Hp. split; [done|]. split; [done|]. by exists work.
Qed.

(** **** Batches *)

Definition row_hash (row : header_row) : Hash256 := row.1.1.1.
Definition row_header (row : header_row) : BlockHeader := row.1.1.2.
Definition row_stored (row : header_row) : StoredHeader := mkStored row.1.1.2 row.1.2 row.2.
Definition commit_all hs (v : list header_row) : HeaderStore B := foldl commit_to_memory hs v.

Lemma commit_all_snoc hs v row : commit_all hs (v ++ [row]) = commit_to_memory (commit_all hs v) row.
Proof. unfold commit_all. by rewrite foldl_app. Qed.

Lemma commit_all_chain hs v : active_chain (commit_all hs v) = active_chain hs ++ (row_hash <$> v).
Proof.
  induction v as [|[[[hash header] height] work] v IH] using rev_ind; [by rewrite app_nil_r|].
  rewrite commit_all_snoc. cbn [commit_to_memory active_chain]. rewrite IH. unfold vec_push. by rewrite fmap_app, app_assoc.
Qed.

Lemma commit_all_params hs v : params (commit_all hs v) = params hs /\ backend (commit_all hs v) = backend hs.
Proof. induction v as [|[[[hash header] height] work] v IH] using rev_ind; [done|]. rewrite commit_all_snoc. done. Qed.

(** the validated part of a batch can be committed *)
Record batch_inv g hs (v : list header_row) (tip : Hash256 * Z) : Prop := {
  bi_store : store_ok g (commit_all hs v);
  bi_tip : last (active_chain (commit_all hs v)) = Some tip.1;
  bi_height : tip.2 = zlen (active_chain (commit_all hs v)) - 1;
  bi_keys row : row ∈ v -> by_hash hs !! row_hash row = None /\ row_hash row = block_hash (row_header row);
  bi_old : by_hash hs ⊆ by_hash (commit_all hs v);
  bi_rows row : row ∈ v -> by_hash (commit_all hs v) !! row_hash row = Some (row_stored row);
  bi_new x s : by_hash (commit_all hs v) !! x = Some s -> by_hash hs !! x = Some s \/ x ∈ row_hash <$> v;
  bi_link i row row' : v !! i = Some row -> v !! S i = Some row' -> prev_hash (row_header row') = row_hash row;
  bi_first row : head v = Some row -> is_Some (by_hash hs !! prev_hash (row_header row)) /\ row.1.2 = zlen (active_chain hs);
  bi_nodup : NoDup (row_hash <$> v);
  bi_last row : last v = Some row -> tip.1 = row_hash row;
}.

Lemma batch_inv_nil g hs tip n : store_ok g hs -> hs_tip hs = Ok (tip, n) -> batch_inv g hs [] (tip, n).
Proof.
  intros Hok Ht. destruct (store_tip g hs Hok) as (tip' & s & _ & Ht' & _ & Hn & Hl). rewrite Ht in Ht'. injection Ht' as -> ->.
  split; try done; [set_solver|set_solver|intros; by left|constructor].
Qed.

(** a header that was not known is not in the batch either *)
Lemma batch_fresh g hs v tip header :
  batch_inv g hs v tip -> (forall row, row ∈ v -> block_hash (row_header row) = block_hash header -> row_header row = header) ->
  by_hash hs !! block_hash header = None -> prev_hash header = tip.1 -> block_hash header ∉ row_hash <$> v.
Proof.
  intros Hb Hinj Hnew Hp (row & Hrow & Hin)%list_elem_of_fmap. pose proof (bi_keys _ _ _ _ Hb row Hin) as [_ Hk].
  pose proof (Hinj row Hin ltac:(congruence)) as Hh. apply list_elem_of_lookup in Hin as [i Hi].
  assert (exists row', last v = Some row') as [row' Hl].
  { destruct v as [|x v]; [done|]. destruct (last (x :: v)) as [y|] eqn:E; [by exists y|]. by apply last_None in E. }
  pose proof (bi_last _ _ _ _ Hb row' Hl) as Htip. rewrite last_lookup in Hl. apply lookup_lt_Some in Hi as Hlt.
  destruct i as [|i].
  - destruct (bi_first _ _ _ _ Hb row) as [Hs _]; [by destruct v|]. rewrite Hh, Hp, Htip in Hs.
    destruct (bi_keys _ _ _ _ Hb row') as [Hnone _]; [by eapply list_elem_of_lookup_2|]. rewrite Hnone in Hs. by destruct Hs.
  - destruct (lookup_lt_is_Some_2 v i) as [before Hbef]; [lia|]. pose proof (bi_link _ _ _ _ Hb i before row Hbef Hi) as Hprev.
    rewrite Hh, Hp, Htip in Hprev. pose proof (bi_nodup _ _ _ _ Hb) as Hnd.
    pose proof (NoDup_lookup _ (pred (length v)) i (row_hash before) Hnd) as Hij.
    rewrite !list_lookup_fmap, Hl, Hbef in Hij. cbn in Hij. rewrite Hprev in Hij. specialize (Hij eq_refl eq_refl). lia.
Qed.


(** the difficulty depends on the lookup only *)
Lemma next_work_ext {C1 C2 : Type} {L1 : ChainLookup C1} {L2 : ChainLookup C2} (c1 : C1) (c2 : C2) height (ps : ConsensusParams) :
  (forall k, header_at c1 k = header_at c2 k) -> get_next_work_required height c1 ps = get_next_work_required height c2 ps.
Proof.
  intros Hk. pose (by_function := (fun f => f) : ChainLookup (Z -> option (Z * Z))).
  change (@get_next_work_required HU _ by_function height (L1 c1) ps = @get_next_work_required HU _ by_function height (L2 c2) ps).
  f_equal. apply functional_extensionality. exact Hk.
Qed.

(** the overlay shows what the committed store would *)
Lemma batch_lookup_ok g hs v tip k :
  store_ok g hs -> batch_inv g hs v tip -> header_at (mkBatch hs v) k = header_at (commit_all hs v) k.
Proof.
  intros Hok Hb. unfold header_at, batch_lookup, store_lookup, batch_header_at. cbn [batch_store pending].
  assert (forall h, vec_index (active_chain hs) k = Some h -> by_hash (commit_all hs v) !! h = by_hash hs !! h) as Hact.
  { intros h [_ Hin]%vec_index_elem. destruct (by_hash hs !! h) as [s|] eqn:E; [by eapply lookup_weaken; [|apply Hb]|].
    by destruct (new_not_active g hs h Hok E). }
  destruct v as [|row v]; [done|]. cbn [head]. destruct (bi_first _ _ _ _ Hb row eq_refl) as [_ Hf].
  destruct row as [[[hash header] fh] work]. cbn [fst snd] in Hf. subst fh. unfold store_header_at. rewrite commit_all_chain. rewrite Z.geb_leb.
  destruct (Z.leb_spec (zlen (active_chain hs)) k) as [Hge|Hlt].
  - pose proof (zlen_nonneg (active_chain hs)). unfold vec_index. rewrite !(proj2 (Z.leb_le _ _)) by lia.
    rewrite (lookup_ge_None_2 (active_chain hs)) by (unfold zlen in *; lia). rewrite lookup_app_r, list_lookup_fmap by (unfold zlen in *; lia).
    replace (Z.to_nat (k - zlen (active_chain hs))) with (Z.to_nat k - length (active_chain hs))%nat by (unfold zlen; lia).
    destruct (((hash, header, zlen (active_chain hs), work) :: v) !! (Z.to_nat k - length (active_chain hs))%nat) as [row|] eqn:Er; [|done].
    cbn [fmap option_fmap option_map mbind option_bind]. rewrite (bi_rows _ _ _ _ Hb row) by by eapply list_elem_of_lookup_2. by destruct row as [[[] ?] ?].
  - revert Hact. unfold vec_index. destruct (Z.leb_spec 0 k); [|done]. rewrite lookup_app_l by (unfold zlen in *; lia).
    intros Hact. destruct (active_chain hs !! Z.to_nat k) as [h|]; [|done]. cbn [mbind option_bind]. by rewrite Hact.
Qed.

Lemma batch_parent_work_ok g hs v tip :
  batch_inv g hs v tip -> exists s, by_hash (commit_all hs v) !! tip.1 = Some s /\ batch_parent_work hs v tip.1 = s_chainwork s /\ s_height s = tip.2.
Proof.
  intros Hb. destruct (store_tip g _ (bi_store _ _ _ _ Hb)) as (t & s & _ & _ & Hs & Hn & Hl). rewrite (bi_tip _ _ _ _ Hb) in Hl. injection Hl as <-.
  exists s. split; [done|]. split; [|by rewrite (bi_height _ _ _ _ Hb)]. unfold batch_parent_work. destruct (by_hash hs !! tip.1) as [s'|] eqn:E.
  - pose proof (lookup_weaken _ _ _ _ E (bi_old _ _ _ _ Hb)). congruence.
  - destruct (list_find _ (reverse v)) as [[i row]|] eqn:Ef.
    + apply list_find_Some in Ef as (Hi & Hrow & _). assert (row ∈ v) as Hin by (apply elem_of_reverse; by eapply list_elem_of_lookup_2).
      pose proof (bi_rows _ _ _ _ Hb row Hin) as Hr. unfold row_hash in Hr. rewrite Hrow, Hs in Hr. by injection Hr as ->.
    + exfalso. apply list_find_None in Ef. destruct (bi_new _ _ _ _ Hb _ _ Hs) as [H|(row & Hr & Hin)%list_elem_of_fmap]; [congruence|].
      rewrite Forall_forall in Ef. eapply Ef; [by apply elem_of_reverse|]. by unfold row_hash in Hr.
Qed.

Lemma batch_inv_snoc g hs v tip row :
  batch_inv g hs v tip -> fits_tip (commit_all hs v) row -> row_hash row = block_hash (row_header row) -> by_hash hs !! row_hash row = None ->
  row_hash row ∉ row_hash <$> v -> prev_hash (row_header row) = tip.1 -> row.1.2 = tip.2 + 1 -> batch_inv g hs (v ++ [row]) (row_hash row, row.1.2).
Proof.
  intros Hb Hfit Hkey Hnew Hfresh Hp Hh. destruct row as [[[hash header] height] work]. pose proof (ft_new _ _ Hfit) as Hnone.
  unfold row_hash, row_header in *. cbn [fst snd] in *.
  assert (by_hash (commit_all hs v) ⊆ <[hash := mkStored header height work]> (by_hash (commit_all hs v))) as Hsub by by apply insert_subseteq.
  split; rewrite ?commit_all_snoc; cbn [commit_to_memory by_hash active_chain fst snd].
  - apply (commit_ok g _ (hash, header, height, work)); [apply Hb|done].
  - unfold vec_push. by rewrite last_snoc.
  - rewrite zlen_push, Hh, (bi_height _ _ _ _ Hb). lia.
  - intros row [Hin| ->%list_elem_of_singleton]%elem_of_app; [by apply Hb|done].
  - etrans; [apply Hb|done].
  - intros row [Hin| ->%list_elem_of_singleton]%elem_of_app; [|cbn; by rewrite lookup_insert_eq]. eapply lookup_weaken; [by apply Hb|done].
  - intros x s [[<- <-]|[_ Hx]]%lookup_insert_Some; rewrite fmap_app; [right; set_solver|]. destruct (bi_new _ _ _ _ Hb _ _ Hx); [by left|right; set_solver].
  - intros i row row' Hi Hi'. apply lookup_lt_Some in Hi' as Hlt. rewrite length_app in Hlt. cbn in Hlt. rewrite lookup_app_l in Hi by lia.
    apply lookup_app_Some in Hi' as [Hi'|[Hge Hi']]; [by eapply (bi_link _ _ _ _ Hb)|].
    assert (i = pred (length v)) as -> by lia. rewrite <- last_lookup in Hi. replace (S (pred (length v)) - length v)%nat with 0%nat in Hi' by lia.
    injection Hi' as <-. unfold row_header. cbn. by rewrite Hp, (bi_last _ _ _ _ Hb row Hi).
  - intros row Hhd. destruct v as [|x v]; [|by apply (bi_first _ _ _ _ Hb); rewrite head_app_cons in Hhd || cbn in *]. injection Hhd as <-.
    destruct (ft_ext _ _ Hfit) as (q & Hq & _). split; [by exists q|]. cbn. rewrite Hh, (bi_height _ _ _ _ Hb). cbn. lia.
  - rewrite fmap_app. apply NoDup_app. split; [apply Hb|]. split; [|apply NoDup_singleton]. set_solver.
  - intros row. rewrite last_snoc. by intros [= <-].
Qed.

(** what [add_header] needs, and does *)
Lemma add_header_complete g hs header tip s height work cw :
  store_ok g hs -> backend hs = None -> by_hash hs !! block_hash header = None -> last (active_chain hs) = Some tip -> by_hash hs !! tip = Some s ->
  prev_hash header = tip -> height = s_height s + 1 -> height <= u32_max -> get_next_work_required height hs (params hs) = Ok (bits header) ->
  check_checkpoint hs (block_hash header) height = Ok tt -> (last_checkpoint_height (params hs) < height -> check_proof_of_work header = true) ->
  @work_from_bits _ string (bits header) = Ok work -> @u256_add _ string (s_chainwork s) work = Ok cw ->
  add_header hs header = Ok (height, commit_to_memory hs (block_hash header, header, height, cw)).
Proof.
  intros Hok Hbe Hnew Hl Hs Hp -> Hmax Hbits Hcp Hpow Hw Hcw. destruct (tip_work g hs Hok) as (tip' & s' & Hl' & Hs' & Ht & _ & Hpw).
  rewrite Hl in Hl'. injection Hl' as <-. rewrite Hs in Hs'. injection Hs' as <-. unfold add_header, validate_header.
  rewrite bool_decide_false by (rewrite Hnew; by intros [? ?]). rewrite Ht. cbn [mbind res_bind].
  rewrite (proj2 (chains_to_tip_Ok hs (block_hash header) header tip (s_height s) _)) by done. cbn [mbind res_bind]. rewrite Hbits. cbn [mbind res_bind].
  rewrite Z.eqb_refl. cbn [negb]. unfold validate_pow_and_checkpoint. rewrite Hcp. cbn [mbind res_bind]. rewrite (proj2 (fails_pow_false _ _ _) Hpow). cbn [mbind res_bind]. rewrite Hpw, Hw. cbn [mbind res_bind]. rewrite Hcw. cbn [mbind res_bind]. by rewrite Hbe.
Qed.

(** the header that is validated next would be added next *)
Lemma validate_step_ok g hs v tip header v' tip' :
  store_ok g hs -> batch_inv g hs v tip -> (forall row, row ∈ v -> block_hash (row_header row) = block_hash header -> row_header row = header) ->
  by_hash hs !! block_hash header = None -> validate_step hs (v, tip) header = Ok (v', tip') ->
  exists row, v' = v ++ [row] /\ row_header row = header /\ tip' = (row_hash row, row.1.2) /\ fits_tip (commit_all hs v) row /\ batch_inv g hs v' tip' /\
    by_hash (commit_all hs v) !! block_hash header = None /\
    ((last_checkpoint_height (params hs) < row.1.2 -> check_proof_of_work header = true) -> backend hs = None ->
      add_header (commit_all hs v) header = Ok (row.1.2, commit_all hs v')).
Proof.
  intros Hok Hb Hinj Hnew H. destruct tip as [th tn]. cbn [validate_step] in H. rewrite bool_decide_false in H by (rewrite Hnew; by intros [? ?]).
  apply res_bind_Ok in H as (height & (Hp & -> & Hmax)%chains_to_tip_Ok & H). apply res_bind_Ok in H as (eb & Heb & H).
  destruct (Z.eqb_spec (bits header) eb) as [<-|]; [|done]. cbn [negb] in H. apply res_bind_Ok in H as ([] & Hcp & H).
  apply res_bind_Ok in H as (work & Hw & H). apply res_bind_Ok in H as (cw & Hcw & H). injection H as <- <-.
  destruct (batch_parent_work_ok g hs v _ Hb) as (s & Hs & Hpw & Hsh). cbn [fst snd] in *. rewrite Hp, Hpw in Hcw.
  pose proof (batch_fresh g hs v _ header Hb Hinj Hnew Hp) as Hfresh.
  assert (by_hash (commit_all hs v) !! block_hash header = None) as Hnone.
  { destruct (by_hash (commit_all hs v) !! block_hash header) as [x|] eqn:E; [|done]. destruct (bi_new _ _ _ _ Hb _ _ E); [congruence|done]. }
  set (row := (block_hash header, header, tn + 1, cw) : header_row).
  assert (fits_tip (commit_all hs v) row) as Hfit.
  { split; cbn; [done|by rewrite (bi_tip _ _ _ _ Hb), Hp| |done]. exists s. rewrite Hp. split; [done|]. split; [cbn; lia|by exists work]. }
  exists row. unfold vec_push. fold row. split; [done|]. split; [done|]. split; [done|]. split; [done|]. split; [|split; [done|]].
  - by apply (batch_inv_snoc g hs v (th, tn) row).
  - intros Hpow Hbe. rewrite commit_all_snoc. destruct (commit_all_params hs v) as [Epar Eb]. cbn [fst snd row] in *.
    eapply (add_header_complete g); [apply Hb|by rewrite Eb|done|by apply Hb|exact Hs|done|lia|done| | |by rewrite Epar|exact Hw|exact Hcw].
    + rewrite Epar, <- Heb. apply next_work_ext. intros k. symmetry. by eapply batch_lookup_ok.
    + unfold check_checkpoint in *. by rewrite Epar.
Qed.


(** one header at a time: those already known are skipped *)
Definition add_new hs (header : BlockHeader) : result (HeaderStore B) :=
  if bool_decide (is_Some (by_hash hs !! block_hash header)) then Ok hs else
  '(_, hs) ← add_header hs header; Ok hs.

(** no two headers of the list have the same hash *)
Definition collision_free (l : list BlockHeader) : Prop :=
  forall x y, x ∈ l -> y ∈ l -> block_hash x = block_hash y -> x = y.

(** the proof of work a row needs *)
Definition row_pow hs (row : header_row) : Prop :=
  last_checkpoint_height (params hs) < row.1.2 -> check_proof_of_work (row_header row) = true.

Lemma validate_fold_ok g hs all l v tip v' tip' :
  store_ok g hs -> collision_free all -> l ⊆ all -> (row_header <$> v) ⊆ all -> batch_inv g hs v tip ->
  fold_res (validate_step hs) (v, tip) l = Ok (v', tip') ->
  batch_inv g hs v' tip' /\ v `prefix_of` v' /\
  (Forall (row_pow hs) v' -> backend hs = None -> fold_res add_new (commit_all hs v) l = Ok (commit_all hs v')).
Proof.
  intros Hok Hcf. revert v tip. induction l as [|header l IH]; intros v tip Hl Hv Hb H; cbn [fold_res] in H |- *; [injection H as <- <-; done|].
  destruct (validate_step hs (v, tip) header) as [[v1 tip1]| |] eqn:E; [|done|done].
  assert (header ∈ all) as Hin by (apply Hl, list_elem_of_here). assert (l ⊆ all) as Hl' by (intros x Hx; by apply Hl, list_elem_of_further).
  destruct (decide (is_Some (by_hash hs !! block_hash header))) as [Hk|Hk].
  - assert (v1 = v /\ tip1 = tip) as [-> ->].
    { destruct tip. cbn in E. rewrite bool_decide_true in E by done. by injection E as <- <-. }
    destruct (IH v tip Hl' Hv Hb H) as (Hb' & Hpre & Hseq). split; [done|]. split; [done|]. intros Hpow Hbe.
    unfold add_new at 1. rewrite bool_decide_true; [by apply Hseq|]. destruct Hk as [s Hs]. exists s. by eapply lookup_weaken; [|apply Hb].
  - apply eq_None_not_Some in Hk. destruct (validate_step_ok g hs v tip header v1 tip1 Hok Hb) as (row & -> & Hrow & -> & Hfit & Hb1 & Hnone & Hadd); [|done|done|].
    { intros row Hrow Hh. apply Hcf; [|exact Hin|done]. apply Hv. by apply list_elem_of_fmap_2. }
    assert ((row_header <$> (v ++ [row])) ⊆ all) as Hv'.
    { rewrite fmap_app. intros x [Hx|Hx]%elem_of_app; [by apply Hv|]. apply list_elem_of_singleton in Hx as ->. by rewrite Hrow. }
    destruct (IH _ _ Hl' Hv' Hb1 H) as (Hb' & Hpre & Hseq). split; [done|].
    split; [by etrans; [apply prefix_app_r|]|]. intros Hpow Hbe. unfold add_new at 1. rewrite bool_decide_false by (rewrite Hnone; by intros [? ?]).
    rewrite Hadd; [|rewrite <- Hrow; rewrite Forall_forall in Hpow; apply Hpow; eapply elem_of_prefix; [|exact Hpre]; apply elem_of_app; right; apply list_elem_of_here|done].
    cbn [mbind res_bind]. by apply Hseq.
Qed.

Lemma validate_batch_ok g hs l v :
  store_ok g hs -> collision_free l -> validate_batch hs l = Ok v ->
  store_ok g (commit_all hs v) /\ (backend hs = None -> fold_res add_new hs l = Ok (commit_all hs v)).
Proof.
  intros Hok Hcf H. unfold validate_batch in H. destruct (Z.eqb_spec (zlen l) 0) as [H0|_].
  { injection H as <-. destruct l; [done|]. rewrite zlen_cons in H0. pose proof (zlen_nonneg l). lia. }
  apply res_bind_Ok in H as ([] & _ & H). apply res_bind_Ok in H as ([tip n] & Ht & H). apply res_bind_Ok in H as ([v0 tip'] & Hf & H).
  destruct (existsb _ v0) eqn:Epow; [done|]. injection H as <-.
  destruct (validate_fold_ok g hs l l [] (tip, n) v0 tip' Hok Hcf) as (Hb & _ & Hseq); [reflexivity|intros x Hx; by apply not_elem_of_nil in Hx|by apply batch_inv_nil|exact Hf|].
  split; [apply Hb|]. intros Hbe. apply Hseq; [|done]. apply Forall_forall. intros [[[hash header] height] work] Hin. refine (proj1 (fails_pow_false hs header height) _).
  destruct (fails_pow hs header height) eqn:E; [|done]. exfalso. rewrite <- Bool.not_true_iff_false in Epow. apply Epow, existsb_exists.
  eexists. split; [by apply list_elem_of_In|done].
Qed.

Lemma commit_all_backend hs be v : commit_all (set_backend hs be) v = set_backend (commit_all hs v) be.
Proof. induction v as [|[[[hash header] height] work] v IH] using rev_ind; [done|]. rewrite !commit_all_snoc, IH. done. Qed.

Lemma add_headers_ok g hs l n hs' : store_ok g hs -> collision_free l -> add_headers hs l = Ok (n, hs') -> store_ok g hs'.
Proof.
  intros Hok Hcf H. unfold add_headers in H. apply res_bind_Ok in H as (v & Hv & H). destruct (zlen v =? 0); [by injection H as <- <-|].
  apply res_bind_Ok in H as (hs1 & Hp & H). injection H as <- <-. destruct (validate_batch_ok g hs l v Hok Hcf Hv) as [Hok' _].
  unfold persist_batch in Hp. destruct (backend hs) as [be|]; [|by injection Hp as <-].
  apply res_bind_Ok in Hp as (be' & _ & Hp). injection Hp as <-. fold (commit_all (set_backend hs (Some be')) v). rewrite commit_all_backend. by apply set_backend_ok.
Qed.


(** *** Purging forks *)

Definition childless tree h : Prop := forall x s, tree !! x = Some s -> s_height s <> 0 -> prev_hash (s_header s) <> h.

(** the header may be removed, or the walk stops at it *)
Definition removable hs h : Prop := h ∈ active_set hs \/ childless (by_hash hs) h.

Lemma childless_sub tree tree' h : tree' ⊆ tree -> childless tree h -> childless tree' h.
Proof. intros Hs Hc x s Hx. eapply Hc. by eapply lookup_weaken. Qed.

Lemma chain_to_delete g tree tip chain x :
  tree_ok g tree -> chain_to tree tip chain -> x ∉ chain -> chain_to (delete x tree) tip chain.
Proof.
  intros Hok Hc Hx. pose proof (chain_to_tip _ _ _ Hc) as Htip.
  assert (forall h k, ancestor tree tip h -> at_height tree h k -> h <> x) as Hne.
  { intros h k Ha Hh ->. pose proof (chain_to_index g tree tip _ chain x k Hok Htip Hc Ha Hh) as [_ Hin]%vec_index_elem. done. }
  assert (forall h, ancestor tree tip h -> ancestor (delete x tree) tip h) as Hanc.
  { intros h Ha. eapply (rtc_ind_r (fun h => ancestor (delete x tree) tip h)); [apply rtc_refl| |exact Ha].
    intros y z Hty (s & Hs & Hn & ->) IH. eapply rtc_r; [exact IH|].
    exists s. split; [|done]. apply lookup_delete_Some. split; [|done]. intros <-. by eapply (Hne x (s_height s)); [|exists s|]. }
  destruct Hc as [Hl Hat]. split; [done|]. intros i h Hi. destruct (Hat i h Hi) as [Ha (s & Hs & Hn)]. split; [by apply Hanc|].
  exists s. split; [|done]. apply lookup_delete_Some. split; [|done]. intros <-. by eapply (Hne x); [|exists s|].
Qed.

Lemma tree_ok_delete g tree x : tree_ok g tree -> x <> g -> childless tree x -> tree_ok g (delete x tree).
Proof.
  intros Hok Hg Hc. split.
  - destruct (tk_genesis _ _ Hok) as (s & Hs & H0). exists s. split; [|done]. by apply lookup_delete_Some.
  - intros h s [_ Hs]%lookup_delete_Some. by eapply tk_root.
  - intros h s [_ Hs]%lookup_delete_Some. by eapply tk_range.
  - intros h s [_ Hs]%lookup_delete_Some H0. destruct (tk_parent _ _ Hok h s Hs H0) as (q & Hq & He). exists q. split; [|done].
    apply lookup_delete_Some. split; [|done]. intros E. by apply (Hc h s Hs H0).
Qed.

Lemma genesis_active g tree tip chain : tree_ok g tree -> chain_to tree tip chain -> g ∈ chain.
Proof.
  intros Hok Hc. pose proof (chain_to_tip _ _ _ Hc) as Htip.
  pose proof (chain_to_index g tree tip _ chain g 0 Hok Htip Hc (genesis_ancestor _ _ _ _ Hok Htip) (tk_genesis _ _ Hok)) as [_ Hin]%vec_index_elem. done.
Qed.

Lemma remove_fork_loop_ok g tip chain fuel tree current :
  tree_ok g tree -> chain_to tree tip chain -> current ∈ (list_to_set chain : gset Hash256) \/ childless tree current -> (size tree < fuel)%nat ->
  exists tree', remove_fork_loop fuel (list_to_set chain) tree current = Some tree' /\ tree_ok g tree' /\ chain_to tree' tip chain /\ tree' ⊆ tree.
Proof.
  revert tree current. induction fuel as [|fuel IH]; intros tree current Hok Hc Hcur Hf; [lia|]. cbn [remove_fork_loop].
  case_bool_decide as Hact; [by exists tree|]. destruct Hcur as [?|Hcl]; [done|]. rewrite elem_of_list_to_set in Hact.
  destruct (tree !! current) as [s|] eqn:Es; [|by exists tree].
  assert (tree_ok g (delete current tree)) as Hok'.
  { apply tree_ok_delete; [done| |done]. intros ->. by apply Hact, (genesis_active g tree tip). }
  pose proof (chain_to_delete g tree tip chain current Hok Hc Hact) as Hc'. pose proof (delete_subseteq tree current) as Hsub.
  destruct (existsb _ _) eqn:Ex; [by exists (delete current tree)|].
  destruct (IH (delete current tree) (prev_hash (s_header s)) Hok' Hc') as (tree' & Hl & H1 & H2 & H3).
  - right. intros x sx Hx _ Hp. rewrite <- Bool.not_true_iff_false in Ex. apply Ex, existsb_exists. exists (x, sx).
    split; [by apply list_elem_of_In, elem_of_map_order|]. by apply bool_decide_eq_true.
  - rewrite map_size_delete, Es. cbn. assert (size tree <> 0%nat) by (intros E%map_size_empty_inv; by rewrite E, lookup_empty in Es). lia.
  - exists tree'. split_and!; [done|done|done|by etrans].
Qed.

(** only the tree and the tips change, and the tree only loses headers *)
Record pruned_to g hs hs' : Prop := {
  pt_base : base_ok g hs';
  pt_tree : by_hash hs' ⊆ by_hash hs;
  pt_tips : tips hs' ⊆ tips hs;
  pt_chain : active_chain hs' = active_chain hs;
  pt_set : active_set hs' = active_set hs;
}.

Lemma pruned_to_removable g hs hs' h : pruned_to g hs hs' -> removable hs h -> removable hs' h.
Proof. intros Hp [Ha|Hc]; [left; by rewrite (pt_set _ _ _ Hp)|right]. eapply childless_sub; [apply Hp|done]. Qed.

Lemma pruned_to_trans g hs1 hs2 hs3 : pruned_to g hs1 hs2 -> pruned_to g hs2 hs3 -> pruned_to g hs1 hs3.
Proof.
  intros [_ Ht Hti Hch Hse] [Hb' Ht' Hti' Hch' Hse']. split; [done|by etrans|by etrans|congruence|congruence].
Qed.

Lemma remove_fork_ok g hs t : base_ok g hs -> removable hs t -> exists hs', remove_fork hs t = Some hs' /\ pruned_to g hs hs'.
Proof.
  intros [Ht (tip & Hc) Hs] Hr. unfold removable in Hr. rewrite Hs in Hr. unfold remove_fork. rewrite Hs.
  destruct (remove_fork_loop_ok g tip (active_chain hs) (walk_fuel hs) (by_hash hs) t Ht Hc Hr) as (tree' & -> & Ht' & Hc' & Hsub); [unfold walk_fuel; lia|].
  cbn [mbind option_bind]. eexists. split; [done|]. split; cbn; [|done|set_solver|done|done]. split; cbn; [done|by exists tip|done].
Qed.

(** a loop of removals *)
Lemma remove_forks_ok g (step : option (HeaderStore B) -> Hash256 -> option (HeaderStore B)) l hs :
  (forall hs t, step (Some hs) t = Some hs \/ step (Some hs) t = remove_fork hs t) ->
  base_ok g hs -> Forall (removable hs) l -> exists hs', foldl step (Some hs) l = Some hs' /\ pruned_to g hs hs'.
Proof.
  intros Hstep. revert hs. induction l as [|t l IH]; intros hs Hb Hl; cbn [foldl]; [by exists hs|]. apply Forall_cons in Hl as [Ht Hl].
  assert (exists hs1, step (Some hs) t = Some hs1 /\ pruned_to g hs hs1) as (hs1 & -> & Hp).
  { destruct (Hstep hs t) as [->| ->]; [by exists hs|by apply remove_fork_ok]. }
  destruct (IH hs1 (pt_base _ _ _ Hp)) as (hs2 & -> & Hp2); [|exists hs2; split; [done|by eapply pruned_to_trans]].
  eapply Forall_impl; [exact Hl|]. intros x. by apply (pruned_to_removable g).
Qed.

(** every tip is a leaf of the tree, or on the active chain *)
Definition tips_leaves hs : Prop := forall t, t ∈ tips hs -> removable hs t.

Lemma purge_ok g hs n :
  store_ok g hs -> tips_leaves hs -> exists hs', purge_stale_forks hs n = Some hs' /\ store_ok g hs' /\
    by_hash hs' ⊆ by_hash hs /\ active_chain hs' = active_chain hs.
Proof.
  intros Hok Hl. unfold purge_stale_forks.
  destruct (remove_forks_ok g (fun acc tip => hs ← acc; remove_fork hs tip) (filter (fun tip => is_stale hs n tip = true) (set_order (tips hs))) hs)
    as (hs1 & -> & Hp1); [by right|by apply store_base| |].
  { apply Forall_forall. intros t [_ Ht%elem_of_set_order]%list_elem_of_filter. by apply Hl. }
  cbn [mbind option_bind].
  assert (exists hs2, (if non_active_count hs1 >? MAX_FORK_HEADERS then foldl purge_by_count (Some hs1) (fst <$> fork_tips hs1) else Some hs1) = Some hs2 /\
    pruned_to g hs1 hs2) as (hs2 & -> & Hp2).
  { destruct (_ >? _); [|exists hs1; split; [done|by split; [apply Hp1|..]]].
    apply remove_forks_ok; [|apply Hp1|].
    - intros hs0 t. unfold purge_by_count. cbn [mbind option_bind]. destruct (_ <=? _); auto.
    - apply Forall_forall. intros t ([t' k] & -> & Hin)%list_elem_of_fmap. unfold fork_tips in Hin. rewrite merge_sort_Permutation in Hin.
      apply list_elem_of_omap in Hin as (t & Ht%elem_of_set_order & Hk). destruct (by_hash hs1 !! t); [|done]. cbn in Hk. injection Hk as <- _.
      eapply pruned_to_removable; [exact Hp1|]. apply Hl. by apply (pt_tips _ _ _ Hp1). }
  cbn [mbind option_bind]. pose proof (pruned_to_trans _ _ _ _ Hp1 Hp2) as Hp. eexists. split; [done|]. split; [apply recompute_ok, Hp|].
  split; [apply Hp|apply Hp].
Qed.

(** *** Purging in general *)

(** a stored header has lost its parent *)
Definition orphaned tree : Prop := exists x s, tree !! x = Some s /\ s_height s <> 0 /\ tree !! prev_hash (s_header s) = None.

(** headers are only removed, and none of the active chain *)
Record thinned hs hs' : Prop := {
  th_tree : by_hash hs' ⊆ by_hash hs;
  th_kept x : x ∈ active_set hs -> by_hash hs' !! x = by_hash hs !! x;
  th_chain : active_chain hs' = active_chain hs;
  th_set : active_set hs' = active_set hs;
}.

Lemma thinned_refl hs : thinned hs hs.
Proof. by split. Qed.

Lemma thinned_trans hs1 hs2 hs3 : thinned hs1 hs2 -> thinned hs2 hs3 -> thinned hs1 hs3.
Proof. intros [T1 K1 C1 S1] [T2 K2 C2 S2]. split; [by etrans|intros x Hx; rewrite K2 by (by rewrite S1); by apply K1|congruence|congruence]. Qed.

Lemma remove_fork_loop_thins fuel (active : gset Hash256) tree current : (size tree < fuel)%nat ->
  exists tree', remove_fork_loop fuel active tree current = Some tree' /\ tree' ⊆ tree /\ forall x, x ∈ active -> tree' !! x = tree !! x.
Proof.
  revert tree current. induction fuel as [|fuel IH]; intros tree current Hf; [lia|]. cbn [remove_fork_loop].
  case_bool_decide as Hact; [by exists tree|]. destruct (tree !! current) as [s|] eqn:Es; [|by exists tree].
  assert (delete current tree ⊆ tree /\ forall x, x ∈ active -> delete current tree !! x = tree !! x) as [Hsub Hk]
    by (split; [apply delete_subseteq|intros x Hx; apply lookup_delete_ne; by intros ->]).
  destruct (existsb _ _); [by exists (delete current tree)|]. destruct (IH (delete current tree) (prev_hash (s_header s))) as (tree' & -> & H1 & H2).
  - rewrite map_size_delete, Es. cbn. assert (size tree <> 0%nat) by (intros E%map_size_empty_inv; by rewrite E, lookup_empty in Es). lia.
  - exists tree'. split; [done|]. split; [by etrans|]. intros x Hx. rewrite H2 by done. by apply Hk.
Qed.

Lemma remove_fork_thins hs t : exists hs', remove_fork hs t = Some hs' /\ thinned hs hs'.
Proof.
  unfold remove_fork. destruct (remove_fork_loop_thins (walk_fuel hs) (active_set hs) (by_hash hs) t) as (tree' & -> & H1 & H2); [unfold walk_fuel; lia|].
  cbn [mbind option_bind]. eexists. split; [done|by split].
Qed.

Lemma remove_forks_thin (step : option (HeaderStore B) -> Hash256 -> option (HeaderStore B)) l hs :
  (forall hs t, step (Some hs) t = Some hs \/ step (Some hs) t = remove_fork hs t) -> exists hs', foldl step (Some hs) l = Some hs' /\ thinned hs hs'.
Proof.
  intros Hstep. revert hs. induction l as [|t l IH]; intros hs; cbn [foldl]; [exists hs; split; [done|apply thinned_refl]|].
  assert (exists hs1, step (Some hs) t = Some hs1 /\ thinned hs hs1) as (hs1 & -> & Hp) by (destruct (Hstep hs t) as [->| ->]; [exists hs; split; [done|apply thinned_refl]|apply remove_fork_thins]).
  destruct (IH hs1) as (hs2 & -> & Hp2). exists hs2. split; [done|by eapply thinned_trans].
Qed.

(** without the removed headers the rest is a tree again, unless one of them lost its parent *)
Lemma thinned_ok g hs hs' : base_ok g hs -> thinned hs hs' -> ~ orphaned (by_hash hs') -> base_ok g hs'.
Proof.
  intros [Ht (tip & Hc) Hs] [Hsub Hk Ec Es] Ho. rewrite Hs in Hk.
  assert (forall x, ancestor (by_hash hs) tip x -> by_hash hs' !! x = by_hash hs !! x) as Hanc.
  { intros x Hx. apply Hk, elem_of_list_to_set. pose proof (chain_to_tip _ _ _ Hc) as Htip. destruct (ancestor_height g _ _ _ _ Ht Hx Htip) as (k & Hxk & _).
    by destruct (vec_index_elem _ _ _ (chain_to_index g _ _ _ _ _ _ Ht Htip Hc Hx Hxk)). }
  split; [| |by rewrite Es, Ec].
  - split.
    + destruct (tk_genesis _ _ Ht) as (s & Hg & H0). exists s. split; [|done]. rewrite Hanc; [done|]. eapply genesis_ancestor; [done|by eapply chain_to_tip].
    + intros h s Hh. eapply tk_root; [done|by eapply lookup_weaken].
    + intros h s Hh. eapply tk_range; [done|by eapply lookup_weaken].
    + intros h s Hh H0. destruct (tk_parent _ _ Ht h s) as (q & Hq & He); [by eapply lookup_weaken|done|]. exists q. split; [|done].
      destruct (by_hash hs' !! prev_hash (s_header s)) as [q'|] eqn:E; [|destruct Ho; by exists h, s]. by rewrite <- Hq, (lookup_weaken _ _ _ _ E Hsub).
  - exists tip. rewrite Ec. destruct Hc as [Hl Hat]. split; [done|]. intros i h Hi. destruct (Hat i h Hi) as [Ha (s & Hh & Hn)]. split; [|exists s; by rewrite Hanc].
    eapply (rtc_ind_r (fun z => ancestor (by_hash hs') tip z)); [apply rtc_refl| |exact Ha]. intros y z Hty (sy & Hy & Hn0 & ->) IH. eapply rtc_r; [exact IH|]. exists sy. split; [by rewrite Hanc|done].
Qed.

Lemma purge_thins hs n : exists hs1, purge_stale_forks hs n = Some (recompute_best_tip hs1) /\ thinned hs hs1.
Proof.
  unfold purge_stale_forks. destruct (remove_forks_thin (fun acc tip => hs ← acc; remove_fork hs tip) (filter (fun tip => is_stale hs n tip = true) (set_order (tips hs))) hs) as (hs1 & -> & Hp1); [by right|].
  cbn [mbind option_bind]. destruct (_ >? _); [|by exists hs1].
  destruct (remove_forks_thin purge_by_count (fork_tips hs1).*1 hs1) as (hs2 & -> & Hp2); [intros hs0 t; unfold purge_by_count; cbn [mbind option_bind]; destruct (_ <=? _); auto|].
  exists hs2. split; [done|by eapply thinned_trans].
Qed.

Lemma purge_intact g hs n hs' : store_ok g hs -> purge_stale_forks hs n = Some hs' -> ~ orphaned (by_hash hs') ->
  store_ok g hs' /\ by_hash hs' ⊆ by_hash hs /\ active_chain hs' = active_chain hs.
Proof.
  intros Hok Hp Ho. destruct (purge_thins hs n) as (hs1 & E & Hth). rewrite Hp in E. injection E as ->. split; [|split; apply Hth].
  apply recompute_ok. eapply thinned_ok; [by apply store_base|done|done].
Qed.

Lemma tree_not_orphaned g tree : tree_ok g tree -> ~ orphaned tree.
Proof. intros Hok (x & s & Hx & Hn & Hp). destruct (tk_parent _ _ Hok x s Hx Hn) as (q & Hq & _). congruence. Qed.
End StoreOps.

(** ** Properties *)

Section Properties.
Context {B : Type} {HB : HeaderBackend B} `{HS : Sha256} `{HU : U256Overflow} `{HO : HashOrder} `{!HashOrderLaws HO}.
Implicit Types (hs : HeaderStore B).

(** the operations that keep every header *)
Inductive kept_step : HeaderStore B -> HeaderStore B -> Prop :=
| step_add_header hs header n hs' : add_header hs header = Ok (n, hs') -> kept_step hs hs'
| step_add_headers hs l n hs' : collision_free l -> add_headers hs l = Ok (n, hs') -> kept_step hs hs'
| step_commit hs l v hs' : collision_free l -> validate_and_commit hs l = Ok (v, hs') -> kept_step hs hs'
| step_accept_header hs header r hs' : accept_header hs header = Ok (r, hs') -> kept_step hs hs'
| step_switch hs new_tip hs' : switch_active_chain hs new_tip = Ok hs' -> kept_step hs hs'
| step_mark_invalid hs hash hs' : mark_invalid hs hash = Some hs' -> kept_step hs hs'.

(** all operations *)
Inductive store_step : HeaderStore B -> HeaderStore B -> Prop :=
| step_kept hs hs' : kept_step hs hs' -> store_step hs hs'
| step_purge hs n hs' : purge_stale_forks hs n = Some hs' -> store_step hs hs'.

Lemma make_fresh_ok header params be hs : make_fresh header (block_hash header) params be = Ok hs -> store_ok (block_hash header) hs.
Proof.
  intros H. apply res_bind_Ok in H as (w & _ & [= <-]). set (s := mkStored header 0 w).
  assert (forall x sx, ({[block_hash header := s]} : gmap Hash256 StoredHeader) !! x = Some sx -> x = block_hash header /\ sx = s) as Hx
    by (intros x sx [<- <-]%lookup_singleton_Some; done).
  split; cbn [by_hash active_chain active_set tips best_known_tip fst snd].
  - split; [exists s; by rewrite lookup_singleton_eq| | |]; intros x sx [-> ->]%Hx; cbn; [done|by apply inU_spec|done].
  - exists (block_hash header). split; [done|]. intros [|i] x Hi; [injection Hi as <-|by destruct i]. split; [apply rtc_refl|exists s; by rewrite lookup_singleton_eq].
  - cbn. by rewrite (right_id_L ∅ (∪)).
  - exists s. by rewrite lookup_singleton_eq.
  - intros x sx _ [-> ->]%Hx. cbn. lia.
Qed.

Lemma mark_invalid_store_ok g hs hash hs' : store_ok g hs -> mark_invalid hs hash = Some hs' -> store_ok g hs'.
Proof.
  intros Hok H. unfold mark_invalid in H. apply bind_Some in H as (l & _ & H). apply bind_Some in H as (be & _ & [= <-]).
  apply recompute_ok. split; apply Hok.
Qed.

Lemma kept_step_ok g hs hs' : kept_step hs hs' -> store_ok g hs -> store_ok g hs'.
Proof.
  destruct 1 as [hs header n hs' H|hs l n hs' Hc H|hs l v hs' Hc H|hs header r hs' H|hs t hs' H|hs hash hs' H]; intros Hok.
  - by apply (add_header_ok g) in H as [? _].
  - by eapply add_headers_ok.
  - apply res_bind_Ok in H as (v' & Hv & [= <- <-]). by apply (validate_batch_ok g) in Hv as [? _].
  - apply accept_header_Ok in H as [(_ & -> & _)|[Ha _]]; [done|by eapply added_ok].
  - assert (is_Some (by_hash hs !! t)) as Ht.
    { unfold switch_active_chain in H. apply res_bind_Ok in H as (? & _ & H). apply res_bind_Ok in H as (? & H & _). unfold walk_fuel in H. cbn [chain_loop] in H.
      apply res_bind_Ok in H as (s & Hs%ok_or_Ok & _). by exists s. }
    destruct (switch_ok g hs t Hok Ht) as (hs1 & E & Hok' & _). congruence.
  - by eapply mark_invalid_store_ok.
Qed.

(** a purge that left a header without its parent; it had a fork tip that was not a leaf *)
Definition bad_purge g (hs hs' : HeaderStore B) : Prop :=
  store_ok g hs /\ ~ tips_leaves hs /\ (exists n, purge_stale_forks hs n = Some hs') /\ orphaned (by_hash hs').

Lemma store_step_ok g hs hs' : store_step hs hs' -> store_ok g hs -> store_ok g hs' \/ bad_purge g hs hs'.
Proof.
  destruct 1 as [hs hs' H|hs n hs' H]; intros Hok; [left; by eapply kept_step_ok|].
  destruct (decide (map_Forall (fun _ s => s_height s = 0 \/ is_Some (by_hash hs' !! prev_hash (s_header s))) (by_hash hs'))) as [Hall|Hno].
  - left. eapply (purge_intact g); [done|done|]. intros (x & s & Hx & Hn & Hp). destruct (Hall x s Hx) as [|[q Hq]]; [done|congruence].
  - right. apply map_not_Forall in Hno as (x & s & Hx & [Hn Hp]%Decidable.not_or); [|apply _]. assert (orphaned (by_hash hs')) as Ho by (exists x, s; split_and!; [done|done|by apply eq_None_not_Some]).
    split; [done|]. split; [|split; [by exists n|done]]. intros Hl. destruct (purge_ok g hs n Hok Hl) as (hs1 & E & Hok' & _). rewrite H in E. injection E as <-. by apply (tree_not_orphaned _ _ (so_tree _ _ Hok')).
Qed.

Lemma store_run_ok g hs0 hs : store_ok g hs0 -> rtc store_step hs0 hs ->
  store_ok g hs \/ exists a b, rtc store_step hs0 a /\ bad_purge g a b /\ rtc store_step b hs.
Proof.
  intros H0. refine (rtc_ind_r (fun hs => store_ok g hs \/ exists a b, rtc store_step hs0 a /\ bad_purge g a b /\ rtc store_step b hs) _ _ _ hs); [by left|].
  intros x y Hx Hxy [Hok|(a & b & Ha & Hb & Hbx)]; [|right; exists a, b; split_and!; [done|done|by eapply rtc_r]].
  destruct (store_step_ok g x y Hxy Hok) as [|Hbad]; [by left|right; exists x, y; split_and!; [done|done|apply rtc_refl]].
Qed.

(** C6: the header store stays a tree with a well-defined active chain.  From a
    fresh store, after any sequence of additions, accepted forks, chain switches,
    invalidations and purges, one of two things holds.  Either every header but the genesis has its
    parent stored one height below and its work added up; the active chain lists,
    height by height, exactly the ancestors of its tip down to the genesis; and the
    cached best tip is stored with its work, which no tip exceeds.  Or some purge on the way
    started from such a store with a fork tip that was not a leaf, and left a header
    without its parent.  (Two headers of one batch with the same hash are taken to be
    equal.) *)
Theorem header_store_invariant (genesis : BlockHeader) (params : ConsensusParams) (be : option B) (hs0 hs : HeaderStore B) :
  make_fresh genesis (block_hash genesis) params be = Ok hs0 -> rtc store_step hs0 hs ->
  store_ok (block_hash genesis) hs /\
    (exists tip s, hs_tip hs = Ok (tip, s_height s) /\ by_hash hs !! tip = Some s /\
      forall k h, 0 <= k -> vec_index (active_chain hs) k = Some h <-> ancestor (by_hash hs) tip h /\ at_height (by_hash hs) h k) \/
  exists a b, rtc store_step hs0 a /\ bad_purge (block_hash genesis) a b /\ rtc store_step b hs.
Proof.
  intros H0 Hrun. destruct (store_run_ok (block_hash genesis) hs0 hs (make_fresh_ok _ _ _ _ H0) Hrun) as [Hok|]; [left|by right].
  split; [done|]. destruct (store_tip _ hs Hok) as (tip & s & Hc & Ht & Hs & Hn & _). exists tip, s. split; [done|]. split; [done|].
  intros k h Hk. split.
  - unfold vec_index. rewrite (proj2 (Z.leb_le _ _)) by done. intros Hi. rewrite <- (Z2Nat.id k) by done. by apply (ct_at _ _ _ Hc).
  - intros [Ha Hh]. eapply chain_to_index; [apply Hok|by eapply chain_to_tip|done|done|done].
Qed.

(** on such a store [find_fork_point] always answers, with the lowest common
    ancestor of the two headers, and the paths from there to both, which a
    reorganisation follows, exist: one header per height, each an ancestor of the
    end. *)
Theorem fork_point_lowest (g a b : Hash256) (hs : HeaderStore B) :
  store_ok g hs -> is_Some (by_hash hs !! a) -> is_Some (by_hash hs !! b) ->
  exists f n, find_fork_point hs a b = Ok f /\ lowest_common (by_hash hs) a b f /\ at_height (by_hash hs) f n /\
    forall to k, to = a \/ to = b -> at_height (by_hash hs) to k ->
      exists path, get_path hs f to = Ok path /\ path.*2 = seqZ (n + 1) (k - n) /\
        Forall (fun x => ancestor (by_hash hs) to x.1 /\ at_height (by_hash hs) x.1 x.2) path.
Proof.
  intros Hok [sa Ha] [sb Hb]. pose proof (so_tree _ _ Hok) as Ht.
  destruct (find_fork_point_ok g hs a b (s_height sa) (s_height sb) Ht) as (f & E & Hlow); [by exists sa|by exists sb|].
  destruct (ancestor_height g _ a f (s_height sa) Ht (proj1 Hlow)) as (n & Hn & _); [by exists sa|].
  exists f, n. split; [done|]. split; [done|]. split; [done|]. intros to k Hto Hk. destruct Hlow as (Hfa & Hfb & _).
  eapply get_path_ok; [done|done|done|]. by destruct Hto as [->| ->].
Qed.

(** the difficulty of a fork header is computed from the fork's own ancestors:
    whatever the active chain holds at those heights, the lookup built for a header
    that extends [start] shows at each height the ancestor of [start] there. *)
Theorem fork_difficulty_lookup (g start : Hash256) (hs : HeaderStore B) :
  store_ok g hs -> is_Some (by_hash hs !! start) ->
  exists fl, fork_build hs start = Ok fl /\
    forall x s, ancestor (by_hash hs) start x -> by_hash hs !! x = Some s -> header_at fl (s_height s) = Some (timestamp (s_header s), bits (s_header s)).
Proof. intros Hok [s Hs]. eapply fork_build_ok; [done|]. by exists s. Qed.

(** a batch of headers is added exactly as the headers would be one by one.
    Whenever [add_headers] accepts a batch of a store without backend, adding
    its headers in order with [add_header], the known ones skipped, succeeds and
    ends in the same store, although the batch validates all of them before it
    commits any. *)
Theorem batch_is_sequence (g : Hash256) (hs hs' : HeaderStore B) (l : list BlockHeader) (n : Z) :
  store_ok g hs -> backend hs = None -> collision_free l -> add_headers hs l = Ok (n, hs') -> fold_res add_new hs l = Ok hs'.
Proof.
  intros Hok Hbe Hcf H. unfold add_headers in H. apply res_bind_Ok in H as (v & Hv & H). destruct (validate_batch_ok g hs l v Hok Hcf Hv) as [_ Hseq].
  rewrite (Hseq Hbe). destruct (Z.eqb_spec (zlen v) 0) as [H0|_]; [injection H as <- <-; f_equal; destruct v; [done|]|].
  { rewrite zlen_cons in H0. pose proof (zlen_nonneg v). lia. }
  unfold persist_batch in H. rewrite Hbe in H. cbn [mbind res_bind] in H. by injection H as <- <-.
Qed.
End Properties.

(** ** Examples *)

#[local] Instance trap : U256Overflow := fun _ => None.
#[local] Existing Instance plain_order.
#[local] Existing Instance toy_sha256.
#[local] Instance no_backend : HeaderBackend Empty_set := {|
  persist_header b _ _ _ _ := Ok b; persist_headers b _ := Ok b; load_all _ := Ok []; persist_invalid_tip b _ := Ok b;
  load_invalid_tips _ := Ok []; clear b := Ok b |}.

Definition root_header : BlockHeader := mkHeader 1 HASH_ZERO HASH_ZERO 1000 0x1e0ffff0 0.
Definition child_of (p : BlockHeader) (n : Z) : BlockHeader := mkHeader 1 (block_hash p) HASH_ZERO (timestamp p + 600) 0x1e0ffff0 n.

(** two branches from the genesis *)
Definition branch_a1 : BlockHeader := child_of root_header 1.
Definition branch_a2 : BlockHeader := child_of branch_a1 1.
Definition branch_a3 : BlockHeader := child_of branch_a2 1.
Definition branch_b1 : BlockHeader := child_of root_header 2.
Definition branch_b2 : BlockHeader := child_of branch_b1 2.
Definition branch_b3 : BlockHeader := child_of branch_b2 2.
Definition branch_b4 : BlockHeader := child_of branch_b3 2.

Definition fresh_store : result (HeaderStore Empty_set) := make_fresh root_header (block_hash root_header) testing None.
Definition accept_all (hs : HeaderStore Empty_set) (l : list BlockHeader) : result (HeaderStore Empty_set) :=
  fold_res (fun hs header => '(_, hs) ← accept_header hs header; Ok hs) hs l.

Lemma fresh_store_ok hs : fresh_store = Ok hs -> store_ok (block_hash root_header) hs /\ backend hs = None.
Proof.
  intros E. split; [exact (make_fresh_ok _ _ _ _ E)|]. apply res_bind_Ok in E as (w & _ & E). injection E as <-. reflexivity.
Qed.

Lemma accept_all_steps l hs hs' : accept_all hs l = Ok hs' -> rtc kept_step hs hs'.
Proof.
  revert hs. induction l as [|header l IH]; intros hs; unfold accept_all; cbn [fold_res]; [intros [= <-]; apply rtc_refl|].
  destruct (accept_header hs header) as [[r hs1]| |] eqn:E; [|done|done]. cbn [mbind res_bind]. intros H. eapply rtc_l; [by eapply step_accept_header|].
  by apply IH.
Qed.

(** a store with both branches *)
Lemma forked_store : exists hs, (hs ← fresh_store; accept_all hs [branch_a1; branch_b1; branch_b2]) = Ok hs /\
  store_ok (block_hash root_header) hs /\ is_Some (by_hash hs !! block_hash branch_a1) /\ is_Some (by_hash hs !! block_hash branch_b2).
Proof.
  assert (exists hs, (hs ← fresh_store; hs ← accept_all hs [branch_a1; branch_b1; branch_b2];
    if bool_decide (is_Some (by_hash hs !! block_hash branch_a1)) && bool_decide (is_Some (by_hash hs !! block_hash branch_b2)) then Ok hs else Err EmptyString) = Ok hs)
    as [hs H] by (apply is_ok_Ok; vm_compute; reflexivity).
  apply res_bind_Ok in H as (hs0 & E0 & H). destruct (fresh_store_ok hs0 E0) as [Hok0 _]. apply res_bind_Ok in H as (hs1 & E1 & H).
  destruct (bool_decide (is_Some (by_hash hs1 !! block_hash branch_a1))) eqn:Ea; [|discriminate H].
  destruct (bool_decide (is_Some (by_hash hs1 !! block_hash branch_b2))) eqn:Eb; [|discriminate H].
  exists hs1. apply bool_decide_eq_true in Ea, Eb. split; [apply res_bind_Ok; exists hs0; split; [exact E0|exact E1]|]. split; [|split; [exact Ea|exact Eb]].
  apply accept_all_steps in E1. eapply (rtc_ind_r (store_ok (block_hash root_header))); [exact Hok0| |exact E1].
  intros x y _ Hxy. exact (kept_step_ok _ _ _ Hxy).
Qed.

(** additions, then a purge *)
Lemma purged_store : exists hs0 hs hs', fresh_store = Ok hs0 /\ accept_all hs0 [branch_a1; branch_b1; branch_b2] = Ok hs /\ purge_stale_forks hs 0 = Some hs' /\ rtc store_step hs0 hs'.
Proof.
  destruct forked_store as (hs & E & _). apply res_bind_Ok in E as (hs0 & E0 & E). destruct (purge_thins hs 0) as (hs1 & Ep & _). exists hs0, hs, (recompute_best_tip hs1).
  split; [exact E0|]. split; [exact E|]. split; [exact Ep|]. eapply rtc_r; [|exact (step_purge _ _ _ Ep)]. eapply rtc_subrel; [|exact (accept_all_steps _ _ _ E)]. intros x y. exact (step_kept x y).
Qed.

Lemma header_store_invariant_witness :
  exists hs0 hs hs', fresh_store = Ok hs0 /\ accept_all hs0 [branch_a1; branch_b1; branch_b2] = Ok hs /\ purge_stale_forks hs 0 = Some hs' /\
    (store_ok (block_hash root_header) hs' \/ exists a b : HeaderStore Empty_set, bad_purge (block_hash root_header) a b).
Proof.
  destruct purged_store as (hs0 & hs & hs' & E0 & E & Ep & Hr). exists hs0, hs, hs'. split; [exact E0|]. split; [exact E|]. split; [exact Ep|].
  destruct (@header_store_invariant Empty_set no_backend toy_sha256 trap plain_order _ root_header testing None hs0 hs' E0 Hr) as [[Hok _]|(a & b & _ & Hb & _)]; [left; exact Hok|right; exists a, b; exact Hb].
Defined.

Lemma fork_point_lowest_witness :
  exists hs f, (hs ← fresh_store; accept_all hs [branch_a1; branch_b1; branch_b2]) = Ok hs /\
    find_fork_point hs (block_hash branch_a1) (block_hash branch_b2) = Ok f.
Proof.
  destruct forked_store as (hs & E & Hok & Ha & Hb).
  destruct (@fork_point_lowest Empty_set trap _ _ _ hs Hok Ha Hb) as (f & n & Ef & _).
  exists hs, f. split; [exact E|exact Ef].
Defined.

Lemma fork_difficulty_lookup_witness :
  exists hs fl, (hs ← fresh_store; accept_all hs [branch_a1; branch_b1; branch_b2]) = Ok hs /\ fork_build hs (block_hash branch_b2) = Ok fl.
Proof.
  destruct forked_store as (hs & E & Hok & _ & Hb).
  destruct (@fork_difficulty_lookup Empty_set trap _ _ hs Hok Hb) as (fl & Ef & _). exists hs, fl. split; [exact E|exact Ef].
Defined.

Lemma branch_collision_free : collision_free [branch_a1; branch_a2; branch_a3].
Proof.
  assert (NoDup (block_hash <$> [branch_a1; branch_a2; branch_a3])) as Hnd by (apply (bool_decide_unpack _); vm_compute; exact Logic.I).
  intros x y Hx Hy E. apply list_elem_of_lookup in Hx as [i Hi], Hy as [j Hj].
  assert (i = j) as -> by (eapply NoDup_lookup; [exact Hnd|by rewrite list_lookup_fmap, Hi|by rewrite list_lookup_fmap, Hj, E]). congruence.
Qed.

Lemma branch_batch : exists hs n hs', fresh_store = Ok hs /\ store_ok (block_hash root_header) hs /\ backend hs = None /\
  add_headers hs [branch_a1; branch_a2; branch_a3] = Ok (n, hs').
Proof.
  assert (exists r, (hs ← fresh_store; add_headers hs [branch_a1; branch_a2; branch_a3]) = Ok r) as [[n hs'] H] by (apply is_ok_Ok; vm_compute; reflexivity).
  apply res_bind_Ok in H as (hs & E & H). destruct (fresh_store_ok hs E) as [Hok Hbe].
  exists hs, n, hs'. split; [exact E|split; [exact Hok|split; [exact Hbe|exact H]]].
Qed.

Lemma batch_is_sequence_witness :
  exists hs n hs', fresh_store = Ok hs /\ add_headers hs [branch_a1; branch_a2; branch_a3] = Ok (n, hs') /\
    fold_res add_new hs [branch_a1; branch_a2; branch_a3] = Ok hs'.
Proof.
  destruct branch_batch as (hs & n & hs' & E & Hok & Hbe & H). exists hs, n, hs'. split; [exact E|]. split; [exact H|].
  exact (@batch_is_sequence Empty_set no_backend toy_sha256 trap plain_order _ _ hs hs' [branch_a1; branch_a2; branch_a3] n Hok Hbe branch_collision_free H).
Defined.

(** *** A fork tip that is not a leaf *)

(** branch a gets ahead, b overtakes it, a overtakes b while its tip is not the
    active one, and b overtakes again *)
Definition overtaking : result (HeaderStore Empty_set) :=
  hs ← fresh_store;
  hs ← accept_all hs [branch_a1; branch_b1; branch_b2; branch_a2; branch_a3];
  hs ← switch_active_chain hs (block_hash branch_a3);
  hs ← accept_all hs [branch_b3; branch_b4];
  switch_active_chain hs (block_hash branch_b4).

(** purging can cut a branch in the middle.  [switch_active_chain] makes the
    old active tip a fork tip even when the new tip descends from it; once another
    branch is active, [purge_stale_forks] removes that inner header by age and
    leaves its descendants behind, a header without its parent, for which
    [find_fork_point] fails. *)
Theorem purge_orphans_branch :
  exists hs hs' s, overtaking = Ok hs /\ block_hash branch_a1 ∈ tips hs /\ purge_stale_forks hs 1002 = Some hs' /\
    by_hash hs' !! block_hash branch_a2 = Some s /\ s_height s = 2 /\ by_hash hs' !! prev_hash (s_header s) = None /\
    find_fork_point hs' (block_hash branch_b4) (block_hash branch_a3) = Err "broken chain"%string.
Proof.
  assert (exists r, (hs ← overtaking; hs' ← or_panic (purge_stale_forks hs 1002); s ← or_panic (by_hash hs' !! block_hash branch_a2);
    if bool_decide (block_hash branch_a1 ∈ tips hs) && (s_height s =? 2) && bool_decide (by_hash hs' !! prev_hash (s_header s) = None)
      && match find_fork_point hs' (block_hash branch_b4) (block_hash branch_a3) with Err e => String.eqb e "broken chain" | _ => false end
    then Ok (hs, hs', s) else Err EmptyString) = Ok r) as [r H] by (apply is_ok_Ok; vm_compute; reflexivity).
  apply res_bind_Ok in H as (hs & E & H). apply res_bind_Ok in H as (hs' & E'%or_panic_Ok & H). apply res_bind_Ok in H as (s & Es%or_panic_Ok & H).
  destruct (_ && _) eqn:Hb; [|discriminate H]. apply andb_true_iff in Hb as [Hb Hf]. apply andb_true_iff in Hb as [Hb Hn]. apply andb_true_iff in Hb as [Ht Hh].
  apply bool_decide_eq_true in Ht, Hn. apply Z.eqb_eq in Hh. exists hs, hs', s. split_and!; [exact E|exact Ht|exact E'|exact Es|exact Hh|exact Hn|].
  destruct (find_fork_point _ _ _) as [|e|]; [discriminate Hf| |discriminate Hf]. apply String.eqb_eq in Hf. by subst e.
Qed.
