(* ===== verification/BlockStore.v ===== *)
(** * BlockStore: raw blocks in append-only files

    Models src/src/storage/block_store.rs.  As for the undo records the directory
    is a finite map from file numbers to contents and the index a table of the
    database; index entries of written blocks wait in [pending] until [flush]
    commits them.  The store is shown to implement a map from block hashes to
    bytes with a queue of uncommitted writes.  Fsync and input/output errors are
    outside the model. *)
From Stdlib Require Import Strings.Byte.
From stdpp Require Import base numbers list strings gmap.
From S2P Require Import Prelude Codec Types Database Coin UndoStore.

Definition BLOCK_MAGIC : list byte := [xfc; xc1; xb7; xdc].

Record PendingEntry := mkPending { pe_hash : list byte; pe_file : Z; pe_offset : Z; pe_size : Z }.

Record BlockStore (IT : Type) := mkBlockStore {
  bs_index : IT;
  bs_files : gmap Z (list byte);
  bs_max_file_size : Z;
  bs_file_number : Z;
  bs_offset : Z;
  pending : list PendingEntry;
}.
Arguments mkBlockStore {IT}.
Arguments bs_index {IT}.
Arguments bs_files {IT}.
Arguments bs_max_file_size {IT}.
Arguments bs_file_number {IT}.
Arguments bs_offset {IT}.
Arguments pending {IT}.

Section BlockStore.
Context {IT : Type} {HI : Table (list byte) (Z * Z * Z) IT}.
Implicit Types (bs : BlockStore IT) (hash : Hash256).

Definition get_location bs hash : option (Z * Z * Z) := t_get (bs_index bs) (as_bytes hash).
Definition has_block bs hash : bool := bool_decide (is_Some (get_location bs hash)).
Definition pending_count bs : Z := zlen (pending bs).

(** ** Writing *)

Definition next_file bs : result (BlockStore IT) :=
  next ← ok_or "block file number overflow" (if inU 16 (bs_file_number bs + 1) then Some (bs_file_number bs + 1) else None);
  Ok (mkBlockStore (bs_index bs) (open_append (bs_files bs) next) (bs_max_file_size bs) next 0 (pending bs)).

Definition store_block_unchecked bs hash (raw_bytes : list byte) : result (BlockStore IT) :=
  let entry_size := u64_sat_add ENTRY_PREFIX_SIZE (zlen raw_bytes) in
  bs ← (if (bs_offset bs >? 0) && (u64_sat_add (bs_offset bs) entry_size >? bs_max_file_size bs) then next_file bs else Ok bs);
  let block_offset := bs_offset bs mod 2 ^ 32 in
  let block_size := zlen raw_bytes mod 2 ^ 32 in
  let fs := append (bs_files bs) (bs_file_number bs) BLOCK_MAGIC in
  let fs := append fs (bs_file_number bs) (le_bytes 4 block_size) in
  let fs := append fs (bs_file_number bs) raw_bytes in
  Ok (mkBlockStore (bs_index bs) fs (bs_max_file_size bs) (bs_file_number bs) (u64_sat_add (bs_offset bs) entry_size)
    (pending bs ++ [mkPending (as_bytes hash) (bs_file_number bs) block_offset block_size])).

Definition store_block bs hash (raw_bytes : list byte) : result (BlockStore IT) :=
  if has_block bs hash then Ok bs else store_block_unchecked bs hash raw_bytes.

Definition flush bs : BlockStore IT :=
  if zlen (pending bs) =? 0 then bs else
  mkBlockStore (foldl (fun table e => t_insert table (pe_hash e) (pe_file e, pe_offset e, pe_size e)) (bs_index bs) (pending bs))
    (bs_files bs) (bs_max_file_size bs) (bs_file_number bs) (bs_offset bs) [].

(** ** Reading *)

Definition load_block bs hash : result (list byte) :=
  '(file_number, offset, size) ← ok_or "block not found in index" (get_location bs hash);
  file ← ok_or "failed to open block file" (bs_files bs !! file_number);
  let data_offset := offset + ENTRY_PREFIX_SIZE in
  '(buf, _) ← context "failed to read block data from flat file" (read_exact (Z.to_nat size) (drop (Z.to_nat data_offset) file));
  Ok buf.

Definition load_and_deserialize bs hash : result Block :=
  raw ← load_block bs hash;
  context "failed to deserialize block" (block_from_bytes raw).

Definition all_indexed_hashes bs : gset Hash256 := list_to_set ((fun e => mkHash e.1) <$> t_entries (bs_index bs)).

(** ** Opening: [verify_or_clear_index] is the same code as for the undo files *)

Definition verify_or_clear_block_index (fs : gmap Z (list byte)) (index : IT) : IT * Z :=
  let sizes := map_to_list (expected_sizes (t_entries index)) in
  if zlen sizes =? 0 then (index, 0) else
  if existsb (fun '(fnum, expected) => zlen (contents fs fnum) <? expected) sizes then (t_empty, 0) else
  (index, foldr Z.max 0 sizes.*1).

Definition open_block_store (fs : gmap Z (list byte)) (index : IT) (max_size : Z) : result (BlockStore IT) :=
  if max_size >? u32_max then Err "max_file_size exceeds u32::MAX" else
  let '(index, file_number) := verify_or_clear_block_index fs index in
  let fs := open_append fs file_number in
  Ok (mkBlockStore index fs max_size file_number (zlen (contents fs file_number)) []).

Definition block_store_open (fs : gmap Z (list byte)) (index : IT) : result (BlockStore IT) :=
  open_block_store fs index DEFAULT_MAX_FILE_SIZE.

(** ** What the store holds *)

(** the files of the store, as those of an undo store *)
Definition flat bs : UndoStore := mkUndoStore (bs_files bs) (bs_max_file_size bs) (bs_file_number bs) (bs_offset bs).

(** the bytes [raw] lie at a location *)
Definition raw_at (fs : gmap Z (list byte)) (loc : Z * Z * Z) (raw : list byte) : Prop :=
  let '(f, o, n) := loc in
  exists pre post, fs !! f = Some (pre ++ raw ++ post) /\ zlen pre = o + ENTRY_PREFIX_SIZE /\ 0 <= o /\ n = zlen raw.

Definition pe_loc (e : PendingEntry) : Z * Z * Z := (pe_file e, pe_offset e, pe_size e).

(** the store holds the committed blocks [m] and the queue [q] *)
Record holds bs (m : gmap Hash256 (list byte)) (q : list (Hash256 * list byte)) : Prop := {
  hd_files : store_ok (flat bs);
  hd_some h raw : m !! h = Some raw -> exists loc, get_location bs h = Some loc /\ raw_at (bs_files bs) loc raw;
  hd_none h : m !! h = None -> get_location bs h = None;
  hd_queue : Forall2 (fun e x => pe_hash e = as_bytes x.1 /\ raw_at (bs_files bs) (pe_loc e) x.2) (pending bs) q;
}.

Lemma raw_at_append fs n l loc raw : raw_at fs loc raw -> raw_at (append fs n l) loc raw.
Proof.
  destruct loc as [[f o] k]. intros (pre & post & Hf & Hrest). unfold raw_at, append. destruct (decide (n = f)) as [<-|Hne].
  - exists pre, (post ++ l). split; [|done]. unfold contents. rewrite lookup_insert_eq, Hf. cbn [from_option id]. by rewrite <- !app_assoc.
  - exists pre, post. by rewrite lookup_insert_ne.
Qed.

Lemma raw_at_open fs n loc raw : raw_at fs loc raw -> raw_at (open_append fs n) loc raw.
Proof.
  destruct loc as [[f o] k]. intros (pre & post & Hf & Hrest). exists pre, post. split; [|done].
  unfold open_append. destruct (decide (n = f)) as [<-|Hne]; [|by rewrite lookup_insert_ne]. unfold contents. by rewrite lookup_insert_eq, Hf.
Qed.

(** growing files keep what the store holds *)
Lemma holds_files bs bs' m q :
  holds bs m q -> store_ok (flat bs') -> bs_index bs' = bs_index bs -> pending bs' = pending bs ->
  (forall loc raw, raw_at (bs_files bs) loc raw -> raw_at (bs_files bs') loc raw) -> holds bs' m q.
Proof.
  intros [_ Hs Hn Hq] Hok Ei Ep Hk. unfold get_location in *. split; [done| | |].
  - intros h raw Hh. unfold get_location. rewrite Ei. destruct (Hs h raw Hh) as (loc & Hl & Hr). exists loc. auto.
  - intros h Hh. unfold get_location. rewrite Ei. by apply Hn.
  - rewrite Ep. eapply Forall2_impl; [exact Hq|]. intros e x [He Hr]. auto.
Qed.

Lemma next_file_ok bs m q :
  holds bs m q -> bs_file_number bs < 2 ^ 16 - 1 ->
  exists bs1, next_file bs = Ok bs1 /\ holds bs1 m q /\ bs_offset bs1 = 0 /\ bs_file_number bs1 = bs_file_number bs + 1.
Proof.
  intros Hh Hlt. pose proof (hd_files _ _ _ Hh) as Hok. pose proof (rotate_cases (flat bs) Hok) as Hr.
  unfold rotate in Hr. cbn [flat file_number files max_file_size] in Hr. unfold next_file. destruct (inU 16 (bs_file_number bs + 1)); cbn in Hr; [|lia]. destruct Hr as (Hok1 & _).
  cbn [ok_or mbind res_bind]. eexists. split; [done|]. split; [|done].
  eapply holds_files; [exact Hh|exact Hok1|done|done|]. intros loc raw. apply raw_at_open.
Qed.

(** a write goes to the queue *)
Lemma store_block_unchecked_ok bs m q hash raw :
  holds bs m q -> bs_file_number bs < 2 ^ 16 - 1 -> U 32 (zlen raw) ->
  exists bs', store_block_unchecked bs hash raw = Ok bs' /\ holds bs' m (q ++ [(hash, raw)]) /\ bs_file_number bs' <= bs_file_number bs + 1.
Proof.
  intros Hh Hlt Hraw. unfold store_block_unchecked. set (entry := u64_sat_add ENTRY_PREFIX_SIZE (zlen raw)).
  assert (entry = 8 + zlen raw) as Hentry by (unfold entry, u64_sat_add, ENTRY_PREFIX_SIZE; range).
  assert (exists bs1, (if (bs_offset bs >? 0) && (u64_sat_add (bs_offset bs) entry >? bs_max_file_size bs) then next_file bs else Ok bs) = Ok bs1 /\
    holds bs1 m q /\ bs_offset bs1 < 2 ^ 32 /\ bs_file_number bs1 <= bs_file_number bs + 1) as (bs1 & -> & Hh1 & Hoff & Hfn).
  { destruct (_ && _) eqn:E.
    - destruct (next_file_ok bs m q Hh Hlt) as (bs1 & -> & Hh1 & H0 & Hn). exists bs1. rewrite H0, Hn. split_and!; [done|done|lia|lia].
    - exists bs. split_and!; [done|done| |lia]. destruct (hd_files _ _ _ Hh) as [_ Hm Ho _ _ Hs]. cbn in Hm, Ho, Hs.
      pose proof (zlen_nonneg (contents (bs_files bs) (bs_file_number bs))).
      apply andb_false_iff in E. unfold u64_sat_add, u64_max in E. bool_prop. destruct E as [E|E]; bool_prop; range. }
  cbn [mbind res_bind]. rewrite append_3. destruct (hd_files _ _ _ Hh1) as [Hn Hm Ho Hc Hl Hs]. cbn [flat files max_file_size file_number offset] in *.
  pose proof (zlen_nonneg (contents (bs_files bs1) (bs_file_number bs1))) as Hnn. rewrite !(Z.mod_small _ (2 ^ 32)) by (unfold U in *; lia).
  eexists. split; [done|]. split; [|done].
  set (bytes := BLOCK_MAGIC ++ le_bytes 4 (zlen raw) ++ raw).
  assert (zlen bytes = entry) as Hz by (unfold bytes; rewrite !zlen_app; change (zlen BLOCK_MAGIC) with 4; unfold zlen at 1; rewrite length_le_bytes; lia).
  assert (u64_sat_add (bs_offset bs1) entry = bs_offset bs1 + entry) as Hsat by (unfold u64_sat_add; range).
  destruct Hh1 as [_ Hsome Hnone Hq]. unfold get_location in *. split; cbn [bs_index bs_files pending].
  - split; cbn [flat files max_file_size file_number offset bs_files bs_max_file_size bs_file_number bs_offset]; try done.
    + rewrite contents_append, decide_True, zlen_app, Ho, Hz by done. by rewrite Hsat.
    + unfold append. rewrite lookup_insert_eq. by eexists.
    + intros k Hk. rewrite contents_append, decide_False by lia. by apply Hl.
    + rewrite Hsat. range.
  - intros h r Hr. destruct (Hsome h r Hr) as (loc & Hloc & Hat). exists loc. split; [done|by apply raw_at_append].
  - done.
  - apply Forall2_app; [eapply Forall2_impl; [exact Hq|]; intros e x [He Hr]; split; [done|by apply raw_at_append]|]. constructor; [|constructor].
    split; [done|]. cbn [pe_loc pe_file pe_offset pe_size snd fst]. exists (contents (bs_files bs1) (bs_file_number bs1) ++ BLOCK_MAGIC ++ le_bytes 4 (zlen raw)), [].
    unfold append. rewrite lookup_insert_eq, app_nil_r. unfold bytes. rewrite <- !app_assoc. split; [done|].
    rewrite !zlen_app, Ho. change (zlen BLOCK_MAGIC) with 4. unfold ENTRY_PREFIX_SIZE. unfold zlen at 1. rewrite length_le_bytes. cbn [pe_offset pe_size]. split_and!; [lia|lia|done].
Qed.
End BlockStore.

Section Refinement.
Context {IT : Type} {HI : Table (list byte) (Z * Z * Z) IT} `{!TableLaws (list byte) (Z * Z * Z) IT HI}.
Implicit Types (bs : BlockStore IT) (hash : Hash256) (m : gmap Hash256 (list byte)).

Lemma as_bytes_inj (h h' : Hash256) : as_bytes h = as_bytes h' -> h = h'.
Proof. destruct h, h'. cbn. congruence. Qed.

(** the queue, once committed *)
Definition commit_queue m (q : list (Hash256 * list byte)) : gmap Hash256 (list byte) := foldl (fun m x => <[x.1 := x.2]> m) m q.

Lemma flush_ok bs m q : holds bs m q -> holds (flush bs) (commit_queue m q) [].
Proof.
  intros [Hf Hs Hn Hq]. unfold flush. destruct (Z.eqb_spec (zlen (pending bs)) 0) as [H0|_].
  { destruct (pending bs) as [|e l] eqn:E; [|rewrite zlen_cons in H0; pose proof (zlen_nonneg l); lia].
    apply Forall2_nil_inv_l in Hq as ->. split; [done|done|done|]. by rewrite E. }
  assert (forall t h, (forall raw, m !! h = Some raw -> exists loc, t_get t (as_bytes h) = Some loc /\ raw_at (bs_files bs) loc raw) ->
    (m !! h = None -> t_get t (as_bytes h) = None) ->
    let t' := foldl (fun table e => t_insert table (pe_hash e) (pe_file e, pe_offset e, pe_size e)) t (pending bs) in
    (forall raw, commit_queue m q !! h = Some raw -> exists loc, t_get t' (as_bytes h) = Some loc /\ raw_at (bs_files bs) loc raw) /\
    (commit_queue m q !! h = None -> t_get t' (as_bytes h) = None)) as Hall.
  { clear Hs Hn. unfold commit_queue. revert m. induction Hq as [|e [h0 raw0] l q [He Hr] Hq IH]; intros m t h Hs Hn; cbn [foldl]; [done|].
    cbn [fst snd] in *. apply IH; rewrite He, get_insert.
    - intros raw Hraw. destruct (decide (h0 = h)) as [->|Hne].
      + rewrite lookup_insert_eq in Hraw. injection Hraw as <-. rewrite decide_True by done. by exists (pe_loc e).
      + rewrite lookup_insert_ne in Hraw by done. rewrite decide_False by (intros E%as_bytes_inj; done). by apply Hs.
    - destruct (decide (h0 = h)) as [->|Hne]; [by rewrite lookup_insert_eq|]. rewrite lookup_insert_ne by done. intros Hnone.
      rewrite decide_False by (intros E%as_bytes_inj; done). by apply Hn. }
  split; [done| | |constructor]; intros h; apply (Hall (bs_index bs) h); intros; by (apply Hs || apply Hn).
Qed.

Lemma load_block_ok bs m q hash :
  holds bs m q -> match m !! hash with Some raw => load_block bs hash = Ok raw | None => load_block bs hash = Err "block not found in index"%string end.
Proof.
  intros [_ Hs Hn _]. unfold load_block. destruct (m !! hash) as [raw|] eqn:E; [|by rewrite (Hn _ E)].
  destruct (Hs _ _ E) as ([[f o] n] & -> & pre & post & Hf & Hpre & Ho & ->). cbn [ok_or mbind res_bind]. rewrite Hf. cbn [ok_or mbind res_bind].
  rewrite (drop_app_exact pre) by (unfold zlen in Hpre; lia). by rewrite read_exact_app by apply to_nat_zlen.
Qed.

Lemma has_block_ok bs m q hash : holds bs m q -> has_block bs hash = bool_decide (is_Some (m !! hash)).
Proof.
  intros [_ Hs Hn _]. unfold has_block. destruct (m !! hash) as [raw|] eqn:E.
  - destruct (Hs _ _ E) as (loc & -> & _). by rewrite !bool_decide_true by eauto.
  - rewrite (Hn _ E). by rewrite !bool_decide_false by (intros [? ?]; done).
Qed.

(** ** Property *)

(** C19: the block store is a map from hashes to bytes with a queue of writes.  A
    store that holds the blocks [m] and the queue [q], below its last file
    number: writing a block puts it at the end of the queue unless it is committed
    already, flushing commits the queue in order, and reading gives the committed
    bytes of a block, unchanged by any later write or rotation, and an error for
    every other hash.  (A store opened beside files left over from an older index may not be in this
    relation.) *)
Theorem block_store_refines bs m (q : list (Hash256 * list byte)) hash (raw : list byte) :
  holds bs m q -> bs_file_number bs < 2 ^ 16 - 1 -> U 32 (zlen raw) ->
  (exists bs', store_block bs hash raw = Ok bs' /\ holds bs' m (if decide (is_Some (m !! hash)) then q else q ++ [(hash, raw)])) /\
  holds (flush bs) (commit_queue m q) [] /\
  (forall h, has_block bs h = bool_decide (is_Some (m !! h))) /\
  forall h, load_block bs h = match m !! h with Some r => Ok r | None => Err "block not found in index"%string end.
Proof.
  intros Hh Hn Hraw. split; [|split; [by apply flush_ok|split; [intros h; by eapply has_block_ok|]]].
  - unfold store_block. rewrite (has_block_ok bs m q hash Hh). case_bool_decide as E; [exists bs; by rewrite decide_True|rewrite decide_False by done].
    destruct (store_block_unchecked_ok bs m q hash raw Hh Hn Hraw) as (bs' & E' & Hh' & _). by exists bs'.
  - intros h. pose proof (load_block_ok bs m q h Hh) as Hl. by destruct (m !! h).
Qed.
End Refinement.

Definition empty_block_store : BlockStore (gmap (list byte) (Z * Z * Z)) := mkBlockStore t_empty {[0 := []]} DEFAULT_MAX_FILE_SIZE 0 0 [].

Lemma empty_block_store_holds : holds empty_block_store ∅ [].
Proof.
  split; [|by intros h raw; rewrite lookup_empty|intros h _; apply get_empty|constructor].
  split; cbn; try done. intros n Hn. unfold contents. by rewrite lookup_singleton_ne by lia.
Qed.

Lemma block_store_refines_witness :
  exists bs', store_block empty_block_store HASH_ZERO [x01; x02] = Ok bs' /\ holds bs' ∅ [(HASH_ZERO, [x01; x02])].
Proof.
  destruct (block_store_refines empty_block_store ∅ [] HASH_ZERO [x01; x02] empty_block_store_holds) as [(bs' & E & Hh) _].
  - reflexivity.
  - by apply inU_spec.
  - exists bs'. split; [exact E|]. rewrite decide_False in Hh; [exact Hh|]. rewrite lookup_empty. by intros [? ?].
Defined.
