(* ===== verification/Reorg.v ===== *)
(** * Reorg: switching to the branch with the most work

    Models src/src/reorg.rs, which drives the header store, the chain state, the
    block store and the pool.  These are changed in place and an error returns
    with whatever was changed so far; the computation is therefore a state monad
    whose outcomes all but the trap carry the state: [Done], [Failed] (an error
    is returned), [Exited] (the process exits) and [Trapped] (a panic).  Blocks come
    from the interface [BlockSource], which the block store implements. *)
From Stdlib Require Import Strings.Byte.
From stdpp Require Import base numbers list strings gmap.
From S2P Require Import Prelude Codec Types Compact Float64 Difficulty Validation Vec ScriptNum Signature Engine ScriptVerify Database Coin UndoStore Ledger Chainstate Pow HashOrder Mempool Headers BlockStore.

(** ** Outcomes *)

Inductive outcome (S A : Type) : Type :=
| Done (a : A) (s : S)
| Failed (msg : string) (s : S)
| Exited (s : S)
| Trapped.
Arguments Done {S A}.
Arguments Failed {S A}.
Arguments Exited {S A}.
Arguments Trapped {S A}.

Definition stm (S A : Type) : Type := S -> outcome S A.

#[global] Instance stm_ret S : MRet (stm S) := fun A a s => Done a s.
#[global] Instance stm_bind S : MBind (stm S) := fun A B f m s =>
  match m s with
  | Done a s => f a s
  | Failed msg s => Failed msg s
  | Exited s => Exited s
  | Trapped => Trapped
  end.

Section Monad.
Context {S : Type}.

(** [?] on a value of the current state *)
Definition try_ {A} (f : S -> result A) : stm S A := fun s =>
  match f s with
  | Ok a => Done a s
  | Err msg => Failed msg s
  | Panic => Trapped
  end.

Definition get_state : stm S S := fun s => Done s s.
Definition put_state (s : S) : stm S unit := fun _ => Done tt s.
Definition fail {A} (msg : string) : stm S A := fun s => Failed msg s.
Definition exit {A} : stm S A := fun s => Exited s.
Definition or_trap {A} (o : option A) : stm S A := fun s => match o with Some a => Done a s | None => Trapped end.

(** a [for] loop *)
Fixpoint fold_stm {A X} (f : A -> X -> stm S A) (a : A) (l : list X) : stm S A :=
  match l with
  | [] => mret a
  | x :: l => a ← f a x; fold_stm f a l
  end.
End Monad.

(** ** Blocks *)

Class BlockSource (S : Type) : Type := {
  src_has : S -> Hash256 -> bool;
  src_load : S -> Hash256 -> result Block;
}.

#[global] Instance block_store_source {IT} {HI : Table (list byte) (Z * Z * Z) IT} : BlockSource (BlockStore IT) :=
  {| src_has := has_block; src_load := load_and_deserialize |}.

(** ** Reorganisation *)

Definition MAX_REORG_DEPTH : Z := 1000.

Inductive ActivateResult :=
| AlreadyBest
| Reorganized (old_tip new_tip : Hash256) (disconnected connected : Z)
| NeedBlocks (missing : list Hash256).

Record Node (B UT MT IT : Type) := mkNode { n_headers : HeaderStore B; n_chain : ChainState UT MT IT; n_pool : Mempool }.
Arguments mkNode {B UT MT IT}.
Arguments n_headers {B UT MT IT}.
Arguments n_chain {B UT MT IT}.
Arguments n_pool {B UT MT IT}.

Section Reorg.
Context `{HS : Sha256} `{HD : Digests} `{HK : K256} `{HU256 : U256Overflow} `{HO : HashOrder}.
Context {B UT MT IT : Type} {HB : HeaderBackend B} {HU : Table (list byte) (list byte) UT} {HM : Table string (list byte) MT} {HI : Table (list byte) (Z * Z * Z) IT}.
Context {BS : Type} {HBS : BlockSource BS}.
Notation node := (Node B UT MT IT).
Notation step := (stm node).

Definition set_chain (cs : ChainState UT MT IT) : step unit := fun n => Done tt (mkNode (n_headers n) cs (n_pool n)).
Definition set_pool (mp : Mempool) : step unit := fun n => Done tt (mkNode (n_headers n) (n_chain n) mp).
Definition set_headers (hs : HeaderStore B) : step unit := fun n => Done tt (mkNode hs (n_chain n) (n_pool n)).

(** the transactions of a block but its coinbase *)
Definition user_txs (block : Block) : list Transaction := filter (fun tx => is_coinbase tx = false) (transactions block).

(** one round of the disconnect phase *)
Definition disconnect_one (src : BS) (acc : list Transaction * list (Hash256 * Z)) (x : Hash256 * Z) : step (list Transaction * list (Hash256 * Z)) :=
  let '(disconnected_txs, disconnected_blocks) := acc in
  let '(hash, height) := x in
  block ← try_ (fun _ => src_load src hash);
  cs ← try_ (fun n => disconnect_block (n_chain n) block height hash);
  _ ← set_chain cs;
  mret (disconnected_txs ++ user_txs block, disconnected_blocks ++ [x]).

(** [disconnect_block] and [connect_block] during a rollback: an error ends the process *)
Definition rollback_disconnect (src : BS) (_ : unit) (x : Hash256 * Z) : step unit :=
  let '(hash, height) := x in
  block ← try_ (fun _ => src_load src hash);
  n ← get_state;
  match disconnect_block (n_chain n) block height hash with
  | Ok cs => set_chain cs
  | Err _ => exit
  | Panic => fun _ => Trapped
  end.

Definition rollback_connect (src : BS) (_ : unit) (x : Hash256 * Z) : step unit :=
  let '(hash, height) := x in
  block ← try_ (fun _ => src_load src hash);
  n ← get_state;
  match connect_block (n_chain n) block height hash with
  | Ok cs => set_chain cs
  | Err _ => exit
  | Panic => fun _ => Trapped
  end.

Definition rollback (src : BS) (connected_new disconnected_old : list (Hash256 * Z)) : step unit :=
  _ ← fold_stm (rollback_disconnect src) tt (reverse connected_new);
  fold_stm (rollback_connect src) tt (reverse disconnected_old).

(** return transactions to the pool *)
Definition readd (txs : list Transaction) : step Z :=
  '(mp, count) ← try_ (fun n => readd_disconnected_txs (n_pool n) txs (n_chain n));
  _ ← set_pool mp;
  mret count.

(** one round of the connect phase; the accumulator is the transactions taken out
    of the pool so far and the number of blocks connected *)
Definition connect_one (src : BS) (best_hash : Hash256) (connect_path disconnected_blocks : list (Hash256 * Z))
    (acc : list Transaction * Z) (x : Hash256 * Z) : step (list Transaction * Z) :=
  let '(mempool_removed_txs, connected_count) := acc in
  let '(hash, height) := x in
  block ← try_ (fun _ => src_load src hash);
  n ← get_state;
  match connect_block (n_chain n) block height hash with
  | Ok cs =>
    let removed := filter (fun tx => contains (n_pool n) (txid tx) = true) (user_txs block) in
    _ ← set_chain cs;
    mp ← or_trap (remove_block_txs (n_pool n) block);
    _ ← set_pool mp;
    mret (mempool_removed_txs ++ removed, u32_sat_add connected_count 1)
  | Err _ =>
    _ ← rollback src (take (Z.to_nat connected_count) connect_path) disconnected_blocks;
    _ ← readd mempool_removed_txs;
    n ← get_state;
    hs ← or_trap (mark_invalid (n_headers n) best_hash);
    _ ← set_headers hs;
    fail "reorg failed"
  | Panic => fun _ => Trapped
  end.

(** phases 1 to 4: disconnect, connect, switch the active chain, return transactions *)
Definition reorganize (src : BS) (active_hash best_hash : Hash256) (disconnect_path connect_path : list (Hash256 * Z)) : step ActivateResult :=
  '(disconnected_txs, disconnected_blocks) ← fold_stm (disconnect_one src) ([], []) (reverse disconnect_path);
  '(_, connected_count) ← fold_stm (connect_one src best_hash connect_path disconnected_blocks) ([], 0) connect_path;
  hs ← try_ (fun n => switch_active_chain (n_headers n) best_hash);
  _ ← set_headers hs;
  _ ← readd disconnected_txs;
  mret (Reorganized active_hash best_hash (zlen disconnect_path mod 2 ^ 32) connected_count).

Definition activate_best_chain (src : BS) : step ActivateResult :=
  n ← get_state;
  let '(best_hash, _, _) := best_tip (n_headers n) in
  let '(active_hash, active_height) := tip (n_chain n) in
  if bool_decide (best_hash = active_hash) then mret AlreadyBest else
  fork_point ← try_ (fun n => find_fork_point (n_headers n) active_hash best_hash);
  fork ← try_ (fun n => ok_or "fork point not in header store" (hs_get (n_headers n) fork_point));
  let disconnect_count := sat_sub active_height (s_height fork) in
  if disconnect_count >? MAX_REORG_DEPTH then fail "reorg depth exceeds maximum" else
  disconnect_path ← try_ (fun n => get_path (n_headers n) fork_point active_hash);
  connect_path ← try_ (fun n => get_path (n_headers n) fork_point best_hash);
  let connect_count := zlen connect_path mod 2 ^ 32 in
  if connect_count >? MAX_REORG_DEPTH then fail "reorg connect depth exceeds maximum" else
  let missing := filter (fun hash => src_has src hash = false) (fst <$> connect_path) in
  if negb (zlen missing =? 0) then mret (NeedBlocks missing) else
  reorganize src active_hash best_hash disconnect_path connect_path.
End Reorg.
