(* ===== verification/ReorgCorrect.v ===== *)
(** * ReorgCorrect: a reorganisation succeeds or leaves the ledger as it was

    A [segment] is a run of blocks that lead from one ledger to another.  Blocks
    whose undo records are stored can be disconnected along their segment, and
    connected again along it; a reorganisation disconnects the segment of the old
    branch and connects the new one block by block.  When a block of the new
    branch is refused, the rollback restores the ledger and the tip exactly. *)
From Stdlib Require Import Strings.Byte.
From stdpp Require Import base numbers list strings gmap relations.
From S2P Require Import Prelude Codec Types Compact Float64 Difficulty Validation Vec ScriptNum Signature Engine EngineSafety ScriptVerify Database Coin UndoStore Ledger Chainstate ChainstateCorrect Pow HashOrder Mempool MempoolCorrect Headers HeadersCorrect BlockStore Reorg.

(** ** Loops *)

Lemma fold_stm_app {S A X} (f : A -> X -> stm S A) a l k s :
  fold_stm f a (l ++ k) s = (a ← fold_stm f a l; fold_stm f a k) s.
Proof.
  revert a s. induction l as [|x l IH]; intros a s; cbn [fold_stm app]; [done|]. unfold mbind, stm_bind.
  destruct (f a x s); [apply IH|done..].
Qed.

Lemma bind_Done {S A C} (x : stm S A) (f : A -> stm S C) s a s' : x s = Done a s' -> (x ≫= f) s = f a s'.
Proof. unfold mbind, stm_bind. by intros ->. Qed.

Lemma bind_Failed {S A C} (x : stm S A) (f : A -> stm S C) s msg s' : x s = Failed msg s' -> (x ≫= f) s = Failed msg s'.
Proof. unfold mbind, stm_bind. by intros ->. Qed.

Lemma try_Ok {S A} (f : S -> result A) a s : f s = Ok a -> try_ f s = Done a s.
Proof. unfold try_. by intros ->. Qed.

(** ** The ledger *)

Section Determined.
Context `{HS : Sha256} `{HD : Digests} `{HK : K256}.

Lemma coins_det (m : ledger) l (c1 c2 : list Coin) :
  Forall2 (fun o c => m !! o = Some c) l c1 -> Forall2 (fun o c => m !! o = Some c) l c2 -> c1 = c2.
Proof. intros H1. revert c2. induction H1 as [|o c l c1 Hc H1 IH]; intros c2 H2; inversion H2; subst; [done|]. f_equal; [congruence|by apply IH]. Qed.

Lemma txs_apply_det verify h (m : ledger) txs m1 u1 f1 m2 u2 f2 :
  txs_apply verify h m txs m1 u1 f1 -> txs_apply verify h m txs m2 u2 f2 -> m1 = m2 /\ u1 = u2.
Proof.
  intros H1. revert m2 u2 f2. induction H1 as [m|m tx txs m1 u1 f1 Hcb H1 IH|m tx txs m1 u1 c1 fee1 f1 Hcb Hs1 H1 IH]; intros m2 u2 f2 H2; inversion H2; subst; try congruence.
  - done.
  - by eapply IH.
  - assert (c1 = coins) as -> by (eapply coins_det; [apply Hs1|match goal with H : tx_spends _ _ _ _ coins _ |- _ => apply H end]).
    edestruct IH as [-> ->]; [eassumption|]. done.
Qed.
End Determined.

(** ** Chain states *)

Section Chain.
Context `{HS : Sha256} `{!Sha256Len HS} `{HD : Digests} `{!DigestsLen HD} `{HK : K256}.
Context {UT MT IT : Type} {HU : Table (list byte) (list byte) UT} `{!TableLaws (list byte) (list byte) UT HU}
  {HM : Table string (list byte) MT} `{!TableLaws string (list byte) MT HM}
  {HI : Table (list byte) (Z * Z * Z) IT} `{!TableLaws (list byte) (Z * Z * Z) IT HI}.
Implicit Types (cs : ChainState UT MT IT) (m : ledger) (b : Block) (h : Z) (hash t : Hash256).

(** the undo record of a block is stored *)
Definition undo_at cs hash (undos : list TxUndo) : Prop :=
  undos <> [] -> exists loc, t_get (undo_index cs) (as_bytes hash) = Some loc /\ recorded (files (undo_store cs)) loc (mkBlockUndo undos).

Lemma undo_at_loads cs hash undos : undo_at cs hash undos -> undo_loads cs hash undos.
Proof. intros Hu Hne. destruct (Hu Hne) as (loc & Hl & Hr). by eapply load_recorded. Qed.

Lemma connect_step cs m b h hash cs' :
  chain_ok cs m -> block_ok b -> block_rules b -> hash_ok hash -> connect_block cs b h hash = Ok cs' ->
  exists m' undos, block_applies (script_verify_height cs <? h) h m b m' undos /\ chain_ok cs' m' /\ tip cs' = (hash, h) /\ U 32 h /\
    script_verify_height cs' = script_verify_height cs /\ file_number (undo_store cs') <= file_number (undo_store cs) + 1 /\
    undo_at cs' hash undos /\ forall hash2 undos2, hash2 <> hash -> undo_at cs hash2 undos2 -> undo_at cs' hash2 undos2.
Proof.
  intros Hok Hb Hrules Hhash Hc.
  destruct (connect_block_ok cs m b h hash cs' Hok Hb Hrules Hhash Hc) as (m' & undos & fees & Ha & Hcb & Hok' & Htip & Hh & _).
  destruct (connect_block_sound cs m b h hash cs' (co_utxos _ _ Hok) (co_height _ _ Hok) Hb Hrules Hc) as (_ & m2 & undos2 & t' & (fees2 & Ha2 & _) & _ & Hcon).
  destruct (txs_apply_det _ _ _ _ _ _ _ _ _ _ Ha Ha2) as [<- <-]. destruct Hcon as (_ & _ & Hsvh & Hun & _).
  exists m', undos. split; [by exists fees|]. do 4 (split; [done|]). unfold undo_stored in Hun. case_decide as Hn.
  - destruct Hun as [Es Ei]. rewrite Es. split; [lia|]. split; [by intros ?|]. intros hash2 u2 _. unfold undo_at. by rewrite Es, Ei.
  - destruct Hun as (loc & Hst & Ei). assert (block_undo_ok (mkBlockUndo undos)) as Hu by (eapply block_undo_fits; [exact Ha|apply Hok|done..]).
    pose proof (store_undo_cases _ hash _ (co_store _ _ Hok) Hu) as Hst'. rewrite Hst in Hst'. destruct Hst' as (_ & Hlh & Hrec & Hnum & Hkeep). split; [lia|]. unfold undo_at. rewrite Ei, Hlh. split.
    + intros _. eexists. rewrite get_insert_eq. done.
    + intros hash2 u2 Hne Hu2 Hne2. destruct (Hu2 Hne2) as (l2 & Hl2 & Hr2). exists l2. split; [|by apply Hkeep].
      rewrite get_insert_ne; [done|]. intros E. by apply Hne, as_bytes_inj.
Qed.

(** ** Segments *)

Context {BS : Type} {HBS : BlockSource BS} (src : BS) (svh : Z).

(** the source has the block, as it was validated *)
Record block_at hash b : Prop := {
  ba_load : src_load src hash = Ok b;
  ba_ok : block_ok b;
  ba_rules : block_rules b;
  ba_hash : hash_ok hash;
}.

(** [segment t0 h0 m0 path t h m undos]: from the tip [t0] at height [h0] with the
    ledger [m0], the blocks of [path] lead to the tip [t] at [h] with [m] *)
Inductive segment t0 h0 m0 : list (Hash256 * Z) -> Hash256 -> Z -> ledger -> list (list TxUndo) -> Prop :=
| seg_nil : segment t0 h0 m0 [] t0 h0 m0 []
| seg_snoc path t h m us hash b m' undos :
  segment t0 h0 m0 path t h m us -> block_at hash b -> prev_hash (header b) = t -> new_txids m (transactions b) -> U 32 (h + 1) ->
  block_applies (svh <? h + 1) (h + 1) m b m' undos ->
  segment t0 h0 m0 (path ++ [(hash, h + 1)]) hash (h + 1) m' (us ++ [undos]).

Lemma segment_height t0 h0 m0 path t h m us : segment t0 h0 m0 path t h m us -> h = h0 + zlen path /\ length us = length path.
Proof. induction 1 as [|path t h m us hash b m' undos Hs [IH IHl]]; [split; [unfold zlen; cbn; lia|done]|].
  rewrite zlen_app, !length_app. unfold zlen in *. cbn [length]. lia.
Qed.

Lemma segment_wf t0 h0 m0 path t h m us : segment t0 h0 m0 path t h m us -> wf m0 -> wf m.
Proof.
  induction 1 as [|path t h m us hash b m' undos Hs IH Hb _ _ Hu (fees & Ha & _)]; [done|]. intros Hw.
  eapply (txs_apply_wf _ _ _ _ _ _ _ Ha); [by apply IH|apply (ba_ok _ _ Hb)|done].
Qed.

Context (kept : list (Hash256 * list TxUndo)).

(** the state is at the end of a segment whose undo records are stored, and so are
    those of the blocks [kept] below it *)
Record at_end cs t h m (path : list (Hash256 * Z)) (us : list (list TxUndo)) : Prop := {
  ae_ok : chain_ok cs m;
  ae_tip : tip cs = (t, h);
  ae_svh : script_verify_height cs = svh;
  ae_undo : Forall2 (fun x u => undo_at cs x.1 u) path us;
  ae_kept : Forall (fun x => undo_at cs x.1 x.2) kept;
}.

(** the last block of a segment is taken back *)
Lemma disconnect_last cs t0 h0 m0 path t h m us hash b m' undos :
  segment t0 h0 m0 path t h m us -> wf m0 -> 0 <= h0 -> block_at hash b -> prev_hash (header b) = t -> new_txids m (transactions b) -> U 32 (h + 1) ->
  block_applies (svh <? h + 1) (h + 1) m b m' undos -> at_end cs hash (h + 1) m' (path ++ [(hash, h + 1)]) (us ++ [undos]) ->
  exists cs', disconnect_block cs b (h + 1) hash = Ok cs' /\ at_end cs' t h m path us /\ undo_store cs' = undo_store cs /\ undo_index cs' = undo_index cs.
Proof.
  intros Hs Hw H0 Hb Hp Hnew Hu (fees & Ha & _) [Hok Htip Hsvh Hun Hk]. destruct (segment_height _ _ _ _ _ _ _ _ Hs) as [Hh Hl].
  apply Forall2_app_inv in Hun as [Hun Hlast]; [|done]. apply Forall2_cons_1 in Hlast as [Hlast _]. cbn in Hlast.
  pose proof (zlen_nonneg path). destruct (disconnect_applied cs _ m m' b (h + 1) hash undos fees Hok Ha) as (cs' & mb & Hd & Hok' & [_ Hback] & Htip' & Ei & Es & Esv).
  - by eapply segment_wf.
  - apply Hb.
  - apply Hb.
  - done.
  - unfold U in *. lia.
  - done.
  - by apply undo_at_loads.
  - rewrite (Hback Hnew) in Hok'. exists cs'. split; [done|]. split; [|done]. assert (forall x u, undo_at cs x u -> undo_at cs' x u) as Hsame by (intros x u; unfold undo_at; by rewrite Ei, Es).
    split; [done|rewrite Htip', Hp; f_equal; lia|congruence|eapply Forall2_impl; [exact Hun|]; auto|eapply Forall_impl; [exact Hk|]; auto].
Qed.

(** a connected block extends the segment *)
Lemma connect_extends cs t0 h0 m0 path t h m us hash b cs' :
  segment t0 h0 m0 path t h m us -> block_at hash b -> prev_hash (header b) = t -> new_txids m (transactions b) -> hash ∉ path.*1 -> hash ∉ kept.*1 ->
  at_end cs t h m path us -> connect_block cs b (h + 1) hash = Ok cs' ->
  exists m' undos, segment t0 h0 m0 (path ++ [(hash, h + 1)]) hash (h + 1) m' (us ++ [undos]) /\
    block_applies (svh <? h + 1) (h + 1) m b m' undos /\
    at_end cs' hash (h + 1) m' (path ++ [(hash, h + 1)]) (us ++ [undos]) /\ file_number (undo_store cs') <= file_number (undo_store cs) + 1.
Proof.
  intros Hs Hb Hp Hnew Hfresh Hapart [Hok Htip Hsvh Hun Hk] Hc.
  destruct (connect_step cs m b (h + 1) hash cs' Hok (ba_ok _ _ Hb) (ba_rules _ _ Hb) (ba_hash _ _ Hb) Hc)
    as (m' & undos & Ha & Hok' & Htip' & Hu & Hsvh' & Hfn' & Hat & Hkeep).
  rewrite Hsvh in Ha. exists m', undos. split; [by eapply seg_snoc|]. split; [done|]. split; [|done]. split; [done|done|congruence| |].
  - apply Forall2_app; [|by constructor]. eapply Forall2_impl_in; [exact Hun|]. intros x u Hx. apply Hkeep. intros <-. apply Hfresh. by apply list_elem_of_fmap_2.
  - apply Forall_forall. intros x Hx. rewrite Forall_forall in Hk. apply Hkeep; [|by apply Hk]. intros <-. apply Hapart. by apply list_elem_of_fmap_2.
Qed.

Lemma connect_total cs m b h hash t :
  chain_ok cs m -> tip cs = (t, h) -> script_verify_height cs = svh -> block_at hash b -> U 32 (h + 1) -> file_number (undo_store cs) < 2 ^ 16 - 1 ->
  (exists m' undos, block_applies (svh <? h + 1) (h + 1) m b m' undos) -> exists cs', connect_block cs b (h + 1) hash = Ok cs'.
Proof.
  intros Hok Htip Hsvh Hb Hu Hfn (m' & undos & Ha). eapply connect_block_complete; [apply Hok|by rewrite Htip|done|apply Hb|apply Hb|apply Hok|done|]. by rewrite Hsvh.
Qed.
End Chain.

(** ** The loops of a reorganisation *)

Section Loops.
Context `{HS : Sha256} `{!Sha256Len HS} `{HD : Digests} `{!DigestsLen HD} `{HK : K256} `{HU256 : U256Overflow} `{HO : HashOrder} `{!HashOrderLaws HO}.
Context {B UT MT IT : Type} {HB : HeaderBackend B} {HU : Table (list byte) (list byte) UT} `{!TableLaws (list byte) (list byte) UT HU}
  {HM : Table string (list byte) MT} `{!TableLaws string (list byte) MT HM}
  {HI : Table (list byte) (Z * Z * Z) IT} `{!TableLaws (list byte) (Z * Z * Z) IT HI}.
Context {BS : Type} {HBS : BlockSource BS} (src : BS) {WS : Type} {HWS : BlockSource WS} (world : WS) (svh : Z) (kept : list (Hash256 * list TxUndo)).
Notation node := (Node B UT MT IT).
Implicit Types (n : node) (cs : ChainState UT MT IT) (m : ledger) (path : list (Hash256 * Z)).

Definition with_chain n cs : node := mkNode (n_headers n) cs (n_pool n).

Lemma with_chain_id n : with_chain n (n_chain n) = n.
Proof. by destruct n. Qed.

Lemma user_txs_ok b : block_ok b -> Forall tx_ok (user_txs b).
Proof. intros (_ & _ & Htx). apply Forall_forall. intros tx [_ Hin]%list_elem_of_filter. rewrite Forall_forall in Htx. by apply Htx. Qed.

Lemma disconnect_one_Done n atx ab hash h b cs :
  src_load src hash = Ok b -> disconnect_block (n_chain n) b h hash = Ok cs ->
  disconnect_one src (atx, ab) (hash, h) n = Done (atx ++ user_txs b, ab ++ [(hash, h)]) (with_chain n cs).
Proof. intros Hl Hd. unfold disconnect_one, mbind, stm_bind, try_. cbn beta iota. rewrite Hl. cbn beta iota. by rewrite Hd. Qed.

Lemma rollback_disconnect_Done n hash h b cs :
  src_load src hash = Ok b -> disconnect_block (n_chain n) b h hash = Ok cs -> rollback_disconnect src tt (hash, h) n = Done tt (with_chain n cs).
Proof. intros Hl Hd. unfold rollback_disconnect, mbind, stm_bind, try_, get_state. cbn beta iota. rewrite Hl. cbn beta iota. by rewrite Hd. Qed.

Lemma rollback_connect_Done n hash h b cs :
  src_load src hash = Ok b -> connect_block (n_chain n) b h hash = Ok cs -> rollback_connect src tt (hash, h) n = Done tt (with_chain n cs).
Proof. intros Hl Hd. unfold rollback_connect, mbind, stm_bind, try_, get_state. cbn beta iota. rewrite Hl. cbn beta iota. by rewrite Hd. Qed.

(** reading a block gives the block that was validated under that hash, or an error *)
Definition honest hash : Prop :=
  match src_load src hash with Ok b => block_at world hash b | Err _ => True | Panic => False end.
Definition readable hash : Prop := exists b, src_load src hash = Ok b.

Lemma honest_load hash b : honest hash -> block_at world hash b -> src_load src hash = Ok b \/ exists e, src_load src hash = Err e.
Proof.
  unfold honest. intros Hh Hb. destruct (src_load src hash) as [b'|e|]; [left|right; by exists e|done]. f_equal. pose proof (ba_load _ _ _ Hh) as E. rewrite (ba_load _ _ _ Hb) in E. by injection E.
Qed.

Lemma readable_load hash b : honest hash -> block_at world hash b -> readable hash -> src_load src hash = Ok b.
Proof. intros Hh Hb [b' Hr]. destruct (honest_load hash b Hh Hb) as [|[e He]]; [done|congruence]. Qed.

(** the chain state stands at the end of a part of a path *)
Definition part_way t0 h0 m0 path cs (t : Hash256) : Prop :=
  exists p h m us, p `prefix_of` path /\ segment world svh t0 h0 m0 p t h m us /\ at_end svh kept cs t h m p us.

(** taking back a segment; it stops where a block cannot be read *)
Lemma disconnect_loop t0 h0 m0 path t h m us :
  segment world svh t0 h0 m0 path t h m us -> wf m0 -> 0 <= h0 -> Forall (fun x => honest x.1) path -> forall n atx ab, at_end svh kept (n_chain n) t h m path us ->
  (exists cs txs, fold_stm (disconnect_one src) (atx, ab) (reverse path) n = Done (atx ++ txs, ab ++ reverse path) (with_chain n cs) /\
    at_end svh kept cs t0 h0 m0 [] [] /\ undo_store cs = undo_store (n_chain n) /\ Forall tx_ok txs /\ Forall (fun x => readable x.1) path) \/
  (exists cs e t', fold_stm (disconnect_one src) (atx, ab) (reverse path) n = Failed e (with_chain n cs) /\ part_way t0 h0 m0 path cs t' /\ t' ∈ path.*1 /\ src_load src t' = Err e).
Proof.
  intros Hs Hw H0. induction Hs as [|path t h m us hash b m' undos Hs IH Hb Hp Hnew Hu Ha]; intros Hhon n atx ab Hend.
  - left. exists (n_chain n), []. rewrite !app_nil_r, with_chain_id. split_and!; [done|done|done|constructor|constructor].
  - apply Forall_app in Hhon as [Hhon Hlast]. apply Forall_cons in Hlast as [Hlast _]. change (honest hash) in Hlast. rewrite reverse_snoc. cbn [fold_stm].
    destruct (honest_load hash b Hlast Hb) as [Hl|[e He]].
    + destruct (disconnect_last world svh kept (n_chain n) t0 h0 m0 path t h m us hash b m' undos Hs Hw H0 Hb Hp Hnew Hu Ha Hend) as (cs1 & Hd & Hend1 & Es & _).
      rewrite (bind_Done _ _ _ _ _ (disconnect_one_Done n atx ab hash (h + 1) b cs1 Hl Hd)).
      destruct (IH Hhon (with_chain n cs1) (atx ++ user_txs b) (ab ++ [(hash, h + 1)]) Hend1) as [(cs & txs & E & Hend0 & Es' & Htx & Hr)|(cs & e & t' & E & (p & h' & mp & up & Hpre & Hsp) & Ht' & He)].
      * left. exists cs, (user_txs b ++ txs). split; [rewrite E; by rewrite <- !app_assoc|]. split; [done|]. split; [by rewrite Es', <- Es|]. split; [apply Forall_app; split; [apply user_txs_ok, Hb|done]|].
        apply Forall_app. split; [done|]. apply Forall_singleton. by exists b.
      * right. exists cs, e, t'. split; [exact E|]. split; [|split; [rewrite fmap_app; set_solver|done]]. exists p, h', mp, up. split; [|done]. etrans; [done|by eexists].
    + right. exists (n_chain n), e, hash. rewrite with_chain_id. split; [|split; [|split; [rewrite fmap_app; set_solver|done]]].
      * apply bind_Failed. unfold disconnect_one. apply bind_Failed. unfold try_. by rewrite He.
      * exists (path ++ [(hash, h + 1)]), (h + 1), m', (us ++ [undos]). split; [done|]. split; [by eapply seg_snoc|done].
Qed.

Lemma rollback_disconnect_loop t0 h0 m0 path t h m us :
  segment world svh t0 h0 m0 path t h m us -> wf m0 -> 0 <= h0 -> Forall (fun x => honest x.1 /\ readable x.1) path -> forall n, at_end svh kept (n_chain n) t h m path us ->
  exists cs, fold_stm (rollback_disconnect src) tt (reverse path) n = Done tt (with_chain n cs) /\
    at_end svh kept cs t0 h0 m0 [] [] /\ undo_store cs = undo_store (n_chain n).
Proof.
  intros Hs Hw H0. induction Hs as [|path t h m us hash b m' undos Hs IH Hb Hp Hnew Hu Ha]; intros Hhon n Hend.
  - exists (n_chain n). by rewrite with_chain_id.
  - apply Forall_app in Hhon as [Hhon [[Hl1 Hl2] _]%Forall_cons].
    destruct (disconnect_last world svh kept (n_chain n) t0 h0 m0 path t h m us hash b m' undos Hs Hw H0 Hb Hp Hnew Hu Ha Hend) as (cs1 & Hd & Hend1 & Es & _).
    rewrite reverse_snoc. cbn [fold_stm]. destruct (IH Hhon (with_chain n cs1) Hend1) as (cs & E & Hend0 & Es').
    exists cs. split; [|split; [done|by rewrite Es', <- Es]].
    by rewrite (bind_Done _ _ _ _ _ (rollback_disconnect_Done n hash (h + 1) b cs1 (readable_load _ _ Hl1 Hb Hl2) Hd)).
Qed.

(** connecting a segment again; the process exits only when file numbers run out *)
Lemma rollback_connect_loop t0 h0 m0 path t h m us :
  segment world svh t0 h0 m0 path t h m us -> NoDup path.*1 -> Forall (fun x => x.1 ∉ kept.*1) path -> Forall (fun x => honest x.1 /\ readable x.1) path ->
  forall n, at_end svh kept (n_chain n) t0 h0 m0 [] [] ->
  (exists cs, fold_stm (rollback_connect src) tt path n = Done tt (with_chain n cs) /\ at_end svh kept cs t h m path us /\
    file_number (undo_store cs) <= file_number (undo_store (n_chain n)) + zlen path) \/
  (exists n', fold_stm (rollback_connect src) tt path n = Exited n' /\ 2 ^ 16 - 1 < file_number (undo_store (n_chain n)) + zlen path).
Proof.
  intros Hs. induction Hs as [|path t h m us hash b m' undos Hs IH Hb Hp Hnew Hu Ha]; intros Hnd Hapart Hhon n Hend.
  - left. exists (n_chain n). rewrite with_chain_id. split_and!; [done|done|unfold zlen; cbn; lia].
  - rewrite fmap_app in Hnd. apply NoDup_app in Hnd as (Hnd & Hfresh & _). apply Forall_app in Hapart as [Hapart Hlast]. apply Forall_cons in Hlast as [Hlast _].
    apply Forall_app in Hhon as [Hhon [[Hl1 Hl2] _]%Forall_cons]. pose proof (readable_load _ _ Hl1 Hb Hl2) as Hl. cbn in Hl. rewrite zlen_app. change (zlen [(hash, h + 1)]) with 1 in *.
    rewrite fold_stm_app. destruct (IH Hnd Hapart Hhon n Hend) as [(cs & E & Hend1 & Hfn1)|(n' & E & Hfn)]; [|right; exists n'; split; [unfold mbind, stm_bind; by rewrite E|lia]].
    rewrite (bind_Done _ _ _ _ _ E). cbn [fold_stm]. destruct (connect_block cs b (h + 1) hash) as [cs1|e|] eqn:Hc; [| |by destruct (connect_block_no_panic cs b (h + 1) hash (ba_ok _ _ _ Hb) (ba_rules _ _ _ Hb))].
    + left. destruct (connect_extends world svh kept cs t0 h0 m0 path t h m us hash b cs1 Hs Hb Hp Hnew) as (m2 & u2 & _ & Ha2 & Hend2 & Hfn2); [set_solver|exact Hlast|done|done|].
      destruct Ha as (f1 & Ha & _), Ha2 as (f2 & Ha2 & _). destruct (txs_apply_det _ _ _ _ _ _ _ _ _ _ Ha Ha2) as [<- <-].
      exists cs1. split; [|split; [done|lia]]. by rewrite (bind_Done _ _ _ _ _ (rollback_connect_Done (with_chain n cs) hash (h + 1) b cs1 Hl Hc)).
    + right. exists (with_chain n cs). split.
      * unfold rollback_connect, mbind, stm_bind, try_, get_state. cbn beta iota. rewrite Hl. cbn beta iota. cbn [with_chain n_chain]. by rewrite Hc.
      * destruct (decide (file_number (undo_store cs) < 2 ^ 16 - 1)) as [Hlt|]; [|lia]. destruct (connect_total world svh cs m b h hash t) as (cs1 & Hc1); [apply Hend1|apply Hend1|apply Hend1|done|done|done|by eauto|congruence].
Qed.

(** disconnecting the new blocks and connecting the old ones again *)
Lemma rollback_ok t0 h0 m0 new t h m us old ta ha ma ua n :
  segment world svh t0 h0 m0 new t h m us -> segment world svh t0 h0 m0 old ta ha ma ua -> wf m0 -> 0 <= h0 -> NoDup old.*1 -> Forall (fun x => x.1 ∉ kept.*1) old ->
  Forall (fun x => honest x.1 /\ readable x.1) new -> Forall (fun x => honest x.1 /\ readable x.1) old -> at_end svh kept (n_chain n) t h m new us ->
  (exists cs, rollback src new (reverse old) n = Done tt (with_chain n cs) /\ at_end svh kept cs ta ha ma old ua) \/
  (exists n', rollback src new (reverse old) n = Exited n' /\ 2 ^ 16 - 1 < file_number (undo_store (n_chain n)) + zlen old).
Proof.
  intros Hnew Hold Hw H0 Hnd Hapart Hrn Hro Hend. destruct (rollback_disconnect_loop _ _ _ _ _ _ _ _ Hnew Hw H0 Hrn n Hend) as (cs0 & E & Hend0 & Es).
  unfold rollback. rewrite (bind_Done _ _ _ _ _ E), reverse_involutive.
  destruct (rollback_connect_loop _ _ _ _ _ _ _ _ Hold Hnd Hapart Hro (with_chain n cs0) Hend0) as [(cs & E' & Hend' & _)|(n' & E' & Hfn)]; [left; by exists cs|right; exists n'; split; [done|]]. cbn in Hfn. by rewrite Es in Hfn.
Qed.


(** *** The connect phase *)

Lemma connect_one_Done n best path old removed count hash h b cs mp :
  src_load src hash = Ok b -> connect_block (n_chain n) b h hash = Ok cs -> remove_block_txs (n_pool n) b = Some mp ->
  connect_one src best path old (removed, count) (hash, h) n =
    Done (removed ++ filter (fun tx => contains (n_pool n) (txid tx) = true) (user_txs b), u32_sat_add count 1) (mkNode (n_headers n) cs mp).
Proof.
  intros Hl Hc Hp. unfold connect_one, mbind, stm_bind, try_, get_state. cbn beta iota. rewrite Hl. cbn beta iota. rewrite Hc.
  unfold set_chain, or_trap. cbn beta iota. by rewrite Hp.
Qed.

Lemma connect_one_Failed n best path old removed count hash h b e cs mp k hs :
  src_load src hash = Ok b -> connect_block (n_chain n) b h hash = Err e ->
  rollback src (take (Z.to_nat count) path) old n = Done tt (with_chain n cs) ->
  readd_disconnected_txs (n_pool n) removed cs = Ok (mp, k) -> mark_invalid (n_headers n) best = Some hs ->
  connect_one src best path old (removed, count) (hash, h) n = Failed "reorg failed" (mkNode hs cs mp).
Proof.
  intros Hl Hc Hr Hp Hm. unfold connect_one, mbind, stm_bind at 1, try_. cbn beta iota. rewrite Hl. cbn beta iota. unfold stm_bind at 1, get_state. cbn beta iota.
  rewrite Hc. unfold stm_bind at 1. rewrite Hr. unfold readd, mbind, stm_bind, try_. cbn [with_chain n_pool n_chain n_headers]. rewrite Hp. cbn beta iota.
  unfold set_pool, get_state, or_trap, mret, stm_ret. cbn [with_chain n_headers n_chain n_pool]. by rewrite Hm.
Qed.

Lemma readd_total cs m mp txs :
  represents (utxos cs) m -> pool_safe mp -> Forall tx_ok txs -> exists mp' k, readd_disconnected_txs mp txs cs = Ok (mp', k) /\ pool_safe mp'.
Proof.
  intros Hr Hp Htx. destruct (readd_ok cs pool_safe (fun mp tx => accept_tx_pool_safe cs m mp tx (chainstate_view_laws cs m Hr)) txs mp Htx Hp)
    as (mp' & rest & k & E & Hp' & _). by exists mp', k.
Qed.

Lemma readd_Done n txs mp k : readd_disconnected_txs (n_pool n) txs (n_chain n) = Ok (mp, k) -> readd txs n = Done k (mkNode (n_headers n) (n_chain n) mp).
Proof. intros E. unfold readd. by rewrite (bind_Done _ _ _ _ _ (try_Ok (fun n => readd_disconnected_txs (n_pool n) txs (n_chain n)) _ n E)). Qed.

(** whatever prefix of the new branch is connected, the next block, if it can be read, fits
    on top and has new transaction identifiers *)
Definition connectable t0 h0 m0 path : Prop :=
  forall done x todo t h m us, path = done ++ x :: todo -> segment world svh t0 h0 m0 done t h m us ->
    x.2 = h + 1 /\ honest x.1 /\ forall b, src_load src x.1 = Ok b -> prev_hash (header b) = t /\ new_txids m (transactions b).

Context (t0 : Hash256) (h0 : Z) (m0 : ledger) (path old : list (Hash256 * Z)) (ta : Hash256) (ha : Z) (ma : ledger) (ua : list (list TxUndo)).
Context (Hold : segment world svh t0 h0 m0 old ta ha ma ua) (Hwf : wf m0) (Hh0 : 0 <= h0) (Hnd_old : NoDup old.*1) (Hnd : NoDup path.*1).
Context (Hapart_old : Forall (fun x => x.1 ∉ kept.*1) old) (Hapart : Forall (fun x => x.1 ∉ kept.*1) path) (Hread_old : Forall (fun x => honest x.1 /\ readable x.1) old).
Context (Hcon : connectable t0 h0 m0 path) (Hlen : zlen path < u32_max) (Hmark : forall (b : B) h, persist_invalid_tip b h <> Panic).

(** the outcomes of connecting the rest of the new branch *)
Definition switched n (o : outcome node (list Transaction * Z)) : Prop :=
  exists n' r t h m us, o = Done (r, zlen path) n' /\ segment world svh t0 h0 m0 path t h m us /\ at_end svh kept (n_chain n') t h m path us /\
    pool_safe (n_pool n') /\ n_headers n' = n_headers n.
Definition rolled_back best n (o : outcome node (list Transaction * Z)) : Prop :=
  exists n', o = Failed "reorg failed" n' /\ at_end svh kept (n_chain n') ta ha ma old ua /\ pool_safe (n_pool n') /\
    mark_invalid (n_headers n) best = Some (n_headers n').
Definition broken_off n (o : outcome node (list Transaction * Z)) : Prop :=
  exists n' e t x, o = Failed e n' /\ part_way t0 h0 m0 path (n_chain n') t /\ pool_safe (n_pool n') /\ n_headers n' = n_headers n /\ x ∈ path.*1 /\ src_load src x = Err e.

Lemma connect_loop g best todo : forall done t h m us n removed,
  path = done ++ todo -> segment world svh t0 h0 m0 done t h m us -> at_end svh kept (n_chain n) t h m done us -> Forall (fun x => honest x.1 /\ readable x.1) done ->
  pool_safe (n_pool n) -> Forall tx_ok removed -> HeadersCorrect.store_ok g (n_headers n) ->
  let o := fold_stm (connect_one src best path (reverse old)) (removed, zlen done) todo n in
  switched n o \/ rolled_back best n o \/ broken_off n o \/
  exists n', o = Exited n' /\ 2 ^ 16 - 1 < file_number (undo_store (n_chain n)) + zlen todo + zlen old.
Proof.
  induction todo as [|[hash hx] todo IH]; intros done t h m us n removed Hpath Hseg Hend Hread Hpool Htx Hhs; cbn [fold_stm].
  { left. rewrite app_nil_r in Hpath. subst done. exists n, removed, t, h, m, us. done. }
  destruct (Hcon done (hash, hx) todo t h m us Hpath Hseg) as (Hx & Hhon & Hnext). cbn in Hx, Hhon, Hnext. subst hx. rewrite zlen_cons.
  pose proof (zlen_nonneg todo) as Hnn. pose proof Hhon as Hb. unfold honest in Hb. destruct (src_load src hash) as [b|e|] eqn:Hl; [| |done].
  2: { right; right; left. exists n, e, t, hash. split; [apply bind_Failed; unfold connect_one; apply bind_Failed; unfold try_; by rewrite Hl|].
       split; [exists done, h, m, us; split; [rewrite Hpath; by eexists|done]|]. do 2 (split; [done|]). split; [rewrite Hpath, fmap_app; set_solver|done]. }
  destruct (Hnext b eq_refl) as [Hp Hnew].
  destruct (connect_block (n_chain n) b (h + 1) hash) as [cs|e|] eqn:Ec; [| |by destruct (connect_block_no_panic (n_chain n) b (h + 1) hash (ba_ok _ _ _ Hb) (ba_rules _ _ _ Hb))].
  - destruct (remove_block_txs_safe (n_pool n) b Hpool) as (mp & Emp & Hmp).
    rewrite (bind_Done _ _ _ _ _ (connect_one_Done n best path (reverse old) removed (zlen done) hash (h + 1) b cs mp Hl Ec Emp)).
    destruct (connect_extends world svh kept (n_chain n) t0 h0 m0 done t h m us hash b cs Hseg Hb Hp Hnew) as (m' & u & Hseg' & _ & Hend' & Hfn'); [| |done|done|].
    { rewrite Hpath, fmap_app in Hnd. apply NoDup_app in Hnd as (_ & Hdis & _). intros Hin. apply (Hdis _ Hin). cbn. set_solver. }
    { rewrite Hpath in Hapart. apply Forall_app in Hapart as [_ Hx]. by apply Forall_cons in Hx as [Hx _]. }
    assert (u32_sat_add (zlen done) 1 = zlen (done ++ [(hash, h + 1)])) as ->.
    { rewrite Hpath, zlen_app, zlen_cons in Hlen. rewrite zlen_app. change (zlen [(hash, h + 1)]) with 1. unfold u32_sat_add. pose proof (zlen_nonneg done). lia. }
    destruct (IH (done ++ [(hash, h + 1)]) hash (h + 1) m' (us ++ [u]) (mkNode (n_headers n) cs mp) (removed ++ filter (fun tx => contains (n_pool n) (txid tx) = true) (user_txs b)))
      as [Ho|[Ho|[Ho|(n' & Ho & Hfn)]]]; [by rewrite <- app_assoc|done|done| |done| |done|by left|by right; left|by right; right; left|right; right; right; exists n'; split; [done|cbn in Hfn; lia]].
    + apply Forall_app. split; [done|]. apply Forall_singleton. split; [done|by exists b].
    + apply Forall_app. split; [done|]. apply Forall_forall. intros tx [_ Hin]%list_elem_of_filter.
      pose proof (user_txs_ok b (ba_ok _ _ _ Hb)) as Hu. rewrite Forall_forall in Hu. by apply Hu.
  - assert (take (Z.to_nat (zlen done)) path = done) as Etake by (rewrite Hpath, take_app_exact by (unfold zlen; lia); done).
    destruct (rollback_ok _ _ _ _ _ _ _ _ _ _ _ _ _ n Hseg Hold Hwf Hh0 Hnd_old Hapart_old Hread Hread_old Hend) as [(cs & Er & Hend')|(n' & Er & Hfn)].
    + right; left. destruct (readd_total cs ma (n_pool n) removed) as (mp & k & Emp & Hmp); [apply Hend'|done|done|].
      destruct (mark_invalid_ok g (n_headers n) best Hhs Hmark) as (hs & Ehs & _). exists (mkNode hs cs mp). split; [|by rewrite Ehs].
      apply bind_Failed. apply (connect_one_Failed n best path (reverse old) removed (zlen done) hash (h + 1) b e cs mp k hs Hl Ec); [by rewrite Etake|done|done].
    + right; right; right. exists n'. split; [|lia]. unfold connect_one, mbind, stm_bind, try_, get_state. cbn beta iota. rewrite Hl. cbn beta iota. by rewrite Ec, Etake, Er.
Qed.
End Loops.

(** ** The whole reorganisation *)

Section Atomic.
Context `{HS : Sha256} `{!Sha256Len HS} `{HD : Digests} `{!DigestsLen HD} `{HK : K256} `{HU256 : U256Overflow} `{HO : HashOrder} `{!HashOrderLaws HO}.
Context {B UT MT IT : Type} {HB : HeaderBackend B} {HU : Table (list byte) (list byte) UT} `{!TableLaws (list byte) (list byte) UT HU}
  {HM : Table string (list byte) MT} `{!TableLaws string (list byte) MT HM}
  {HI : Table (list byte) (Z * Z * Z) IT} `{!TableLaws (list byte) (Z * Z * Z) IT HI}.
Context {BS : Type} {HBS : BlockSource BS} (src : BS) {WS : Type} {HWS : BlockSource WS} (world : WS) (kept : list (Hash256 * list TxUndo)).
Notation node := (Node B UT MT IT).
Implicit Types (n : node).

Lemma segment_tip svh t0 h0 m0 path t h m us :
  segment world svh t0 h0 m0 path t h m us -> path = [] /\ t = t0 \/ exists y, last path = Some y /\ y.1 = t.
Proof. destruct 1 as [|path t h m us hash b m' undos]; [by left|right]. exists (hash, h + 1). by rewrite last_snoc. Qed.

(** each header of a path is the child of the one before it *)
Lemma path_parent g (hs : HeaderStore B) f to k path i x hx :
  tree_ok g (by_hash hs) -> at_height (by_hash hs) f k -> ancestor (by_hash hs) to f -> (exists kt, at_height (by_hash hs) to kt) ->
  path.*2 = seqZ (k + 1) (zlen path) -> Forall (fun x => ancestor (by_hash hs) to x.1 /\ at_height (by_hash hs) x.1 x.2) path ->
  path !! i = Some (x, hx) -> hx = k + 1 + Z.of_nat i /\
    parent (by_hash hs) x (match i with O => f | S j => default f (fst <$> path !! j) end).
Proof.
  intros Ht Hf Hanc [n Hn] Hh Hall Hi. pose proof (at_height_range _ _ _ _ Ht Hf) as [Hk _].
  assert (forall j y hy, path !! j = Some (y, hy) -> hy = k + 1 + Z.of_nat j) as Hheight.
  { intros j y hy Hj. assert (path.*2 !! j = Some hy) as E by (by rewrite list_lookup_fmap, Hj). rewrite Hh in E. apply lookup_seqZ in E. lia. }
  pose proof (Hheight i x hx Hi) as Hx. split; [done|]. rewrite Forall_forall in Hall.
  destruct (Hall (x, hx)) as [Hax Hxh]; [by eapply list_elem_of_lookup_2|]. cbn in Hax, Hxh.
  destruct (has_parent g _ x hx Ht Hxh) as (p & Hp & Hph); [lia|]. assert (ancestor (by_hash hs) to p) as Hap by (eapply rtc_r; [exact Hax|exact Hp]).
  destruct i as [|j].
  - replace (hx - 1) with k in Hph by lia. by rewrite <- (ancestor_unique g _ to n p f k Ht Hn Hap Hanc Hph Hf).
  - apply lookup_lt_Some in Hi as Hlt. destruct (lookup_lt_is_Some_2 path j) as [[y hy] Hj]; [lia|]. rewrite Hj. cbn.
    destruct (Hall (y, hy)) as [Hay Hyh]; [by eapply list_elem_of_lookup_2|]. cbn in Hay, Hyh. rewrite (Hheight _ _ _ Hj) in Hyh.
    replace (hx - 1) with (k + 1 + Z.of_nat j) in Hph by lia. by rewrite <- (ancestor_unique g _ to n p y _ Ht Hn Hap Hay Hph Hyh).
Qed.

Lemma path_nodup g (hs : HeaderStore B) to k path :
  tree_ok g (by_hash hs) -> path.*2 = seqZ k (zlen path) -> Forall (fun x => ancestor (by_hash hs) to x.1 /\ at_height (by_hash hs) x.1 x.2) path -> NoDup path.*1.
Proof.
  intros Ht Hh Hall. assert (NoDup path.*2) as Hnd by (rewrite Hh; apply NoDup_seqZ). rewrite Forall_forall in Hall.
  apply NoDup_alt. intros i j x Hi Hj. rewrite list_lookup_fmap in Hi, Hj.
  destruct (path !! i) as [[xi hi]|] eqn:Ei; [|done]. destruct (path !! j) as [[xj hj]|] eqn:Ej; [|done]. cbn in Hi, Hj. injection Hi as ->. injection Hj as ->.
  destruct (Hall (x, hi)) as [_ H1]; [by eapply list_elem_of_lookup_2|]. destruct (Hall (x, hj)) as [_ H2]; [by eapply list_elem_of_lookup_2|]. cbn in H1, H2.
  pose proof (at_height_fun _ _ _ _ H1 H2) as ->. eapply (NoDup_lookup path.*2); [done|by rewrite list_lookup_fmap, Ei|by rewrite list_lookup_fmap, Ej].
Qed.

Lemma seqZ_zlen {A} (p : list (A * Z)) k z : p.*2 = seqZ k z -> p.*2 = seqZ k (zlen p).
Proof.
  intros Hp. rewrite Hp. unfold seqZ. do 2 f_equal. apply (f_equal length) in Hp. rewrite length_fmap, length_seqZ in Hp. unfold zlen. lia.
Qed.

(** a path ends at its end *)
Lemma path_ends g (hs : HeaderStore B) f to k nt path :
  tree_ok g (by_hash hs) -> at_height (by_hash hs) f k -> at_height (by_hash hs) to nt -> ancestor (by_hash hs) to f ->
  path.*2 = seqZ (k + 1) (nt - k) -> Forall (fun x => ancestor (by_hash hs) to x.1 /\ at_height (by_hash hs) x.1 x.2) path ->
  (path = [] -> to = f) /\ forall y, last path = Some y -> y.1 = to.
Proof.
  intros Ht Hf Hto Hanc Hh Hall. destruct (ancestor_height _ _ _ _ _ Ht Hanc Hto) as (k' & Hk' & Hle). rewrite (at_height_fun _ _ _ _ Hk' Hf) in Hle.
  pose proof (f_equal length Hh) as Hlen. rewrite length_fmap, length_seqZ in Hlen. split.
  - intros ->. cbn in Hlen. assert (nt = k) as -> by lia. exact (ancestor_same_height g _ _ _ k Ht Hanc Hto Hf).
  - intros [y hy] Hy. rewrite last_lookup in Hy. assert (path.*2 !! pred (length path) = Some hy) as E by (by rewrite list_lookup_fmap, Hy).
    rewrite Hh in E. apply lookup_seqZ in E as [-> Hlt]. rewrite Forall_forall in Hall. apply list_elem_of_lookup_2 in Hy as Hin. destruct (Hall _ Hin) as [Ha Hat].
    cbn [fst snd] in *. replace (k + 1 + Z.of_nat (pred (length path))) with nt in Hat by lia. symmetry. exact (ancestor_same_height g _ _ _ nt Ht Ha Hto Hat).
Qed.

(** what is read for a stored header is the block that was validated, or an error *)
Definition blocks_ok (hs : HeaderStore B) : Prop :=
  forall hash s, by_hash hs !! hash = Some s -> honest src world hash /\ forall b, src_load src hash = Ok b -> header b = s_header s.

(** connected one after the other from the ledger [m0] of the fork point on, the blocks of
    [path] do not reuse the identifier of a transaction with unspent outputs *)
Definition unique_txids svh f k (m0 : ledger) (path : list (Hash256 * Z)) : Prop :=
  forall done x todo t h m us b, path = done ++ x :: todo -> segment world svh f k m0 done t h m us -> block_at world x.1 b -> prev_hash (header b) = t -> new_txids m (transactions b).

(** the same of all blocks there are *)
Definition no_reuse svh f k (m0 : ledger) : Prop :=
  forall done t h m us hash b, segment world svh f k m0 done t h m us -> block_at world hash b -> prev_hash (header b) = t -> new_txids m (transactions b).

Lemma no_reuse_path svh f k m0 path : no_reuse svh f k m0 -> unique_txids svh f k m0 path.
Proof. intros H done x todo t h m us b _. apply H. Qed.

Lemma path_connectable g svh (hs : HeaderStore B) f to k m0 path :
  tree_ok g (by_hash hs) -> at_height (by_hash hs) f k -> ancestor (by_hash hs) to f -> (exists kt, at_height (by_hash hs) to kt) ->
  path.*2 = seqZ (k + 1) (zlen path) -> Forall (fun x => ancestor (by_hash hs) to x.1 /\ at_height (by_hash hs) x.1 x.2) path ->
  blocks_ok hs -> unique_txids svh f k m0 path -> connectable src world svh f k m0 path.
Proof.
  intros Ht Hf Hanc Hn Hh Hall Hbl Huniq done [x hx] todo t h m us Hpath Hseg.
  assert (path !! length done = Some (x, hx)) as Hi by (rewrite Hpath; by rewrite lookup_app_r, Nat.sub_diag by lia).
  destruct (path_parent g hs f to k path _ x hx Ht Hf Hanc Hn Hh Hall Hi) as [Hx Hp]. destruct (segment_height _ _ _ _ _ _ _ _ _ _ Hseg) as [Hseg_h _].
  cbn [fst snd]. split; [unfold zlen in Hseg_h; lia|]. destruct Hp as (s & Hs & _ & Hprev). destruct (Hbl x s Hs) as [Hhon Hhd]. split; [done|]. intros b Hb.
  assert (prev_hash (header b) = t) as Hpt; [|split; [done|eapply (Huniq done (x, hx)); [done|done|unfold honest in Hhon; by rewrite Hb in Hhon|done]]].
  rewrite (Hhd b Hb), <- Hprev. destruct (segment_tip _ _ _ _ _ _ _ _ _ Hseg) as [[-> ->]|(y & Hy & <-)]; [done|].
  rewrite last_lookup in Hy. destruct (length done) as [|j] eqn:El; [by apply lookup_lt_Some in Hy; lia|]. cbn [pred] in Hy.
  rewrite Hpath, lookup_app_l by lia. cbn [Init.Nat.pred] in Hy. by rewrite Hy.
Qed.

(** what a reorganisation leaves behind when it succeeds *)
Record reorganized g n n' svh f k (m0 : ledger) path best : Prop := {
  ro_chain : exists h m us, segment world svh f k m0 path best h m us /\ at_end svh kept (n_chain n') best h m path us;
  ro_headers : HeadersCorrect.store_ok g (n_headers n');
  ro_tree : by_hash (n_headers n') = by_hash (n_headers n);
  ro_active : chain_to (by_hash (n_headers n)) best (active_chain (n_headers n'));
  ro_pool : pool_safe (n_pool n');
}.

(** and when it fails: the ledger, the tip and the active chain are as before *)
Record unchanged g n n' (m : ledger) old ua : Prop := {
  un_chain : at_end (script_verify_height (n_chain n)) kept (n_chain n') (tip (n_chain n)).1 (tip (n_chain n)).2 m old ua;
  un_tip : tip (n_chain n') = tip (n_chain n);
  un_headers : HeadersCorrect.store_ok g (n_headers n');
  un_tree : by_hash (n_headers n') = by_hash (n_headers n);
  un_active : active_chain (n_headers n') = active_chain (n_headers n);
  un_pool : pool_safe (n_pool n');
}.

(** and when a block could not be read: headers and pool are in order, and the chain state
    stands, consistently, on a block of one of the two branches *)
Record stranded n n' svh f k (m0 : ledger) old path : Prop := {
  sd_headers : n_headers n' = n_headers n;
  sd_chain : exists t, part_way world svh kept f k m0 old (n_chain n') t \/ part_way world svh kept f k m0 path (n_chain n') t;
  sd_cause : exists x e, x ∈ (old ++ path).*1 /\ src_load src x = Err e;
  sd_pool : pool_safe (n_pool n');
}.

Definition reorganize_outcome g n m svh f k m0 old ua path ta best (o : outcome node ActivateResult) : Prop :=
  match o with
  | Done r n' => exists d c, r = Reorganized ta best d c /\ reorganized g n n' svh f k m0 path best
  | Failed _ n' => unchanged g n n' m old ua /\ best ∈ invalid_tips (n_headers n') \/ stranded n n' svh f k m0 old path
  | Exited _ => 2 ^ 16 - 1 < file_number (undo_store (n_chain n)) + zlen path + zlen old
  | Trapped => False
  end.

Lemma reorganize_ok g n m svh f k m0 old ua path ta ha best :
  HeadersCorrect.store_ok g (n_headers n) -> is_Some (by_hash (n_headers n) !! best) -> pool_safe (n_pool n) ->
  segment world svh f k m0 old ta ha m ua -> at_end svh kept (n_chain n) ta ha m old ua -> wf m0 -> 0 <= k -> NoDup old.*1 -> NoDup path.*1 -> Forall (fun x => x.1 ∉ kept.*1) (old ++ path) ->
  Forall (fun x => honest src world x.1) old -> connectable src world svh f k m0 path -> zlen path < u32_max -> (path = [] -> best = f) -> (forall y, last path = Some y -> y.1 = best) ->
  (forall (b : B) h, persist_invalid_tip b h <> Panic) -> reorganize_outcome g n m svh f k m0 old ua path ta best (reorganize src ta best old path n).
Proof.
  intros Hhs Hbest Hpool Hold Hend Hwf Hk Hndo Hnd [Hao Han]%Forall_app Hhon Hcon Hlen Hnil Hlast Hmark. unfold reorganize.
  destruct (disconnect_loop src world svh kept _ _ _ _ _ _ _ _ Hold Hwf Hk Hhon n [] [] Hend) as [(cs0 & txs & E0 & Hend0 & Es & Htx & Hread)|(cs & e & t' & E0 & Hpart & Ht' & He)].
  2: { rewrite (bind_Failed _ _ _ _ _ E0). right. split; cbn; [done|exists t'; by left| |done]. exists t', e. rewrite fmap_app. set_solver. }
  cbn [app] in E0. rewrite (bind_Done _ _ _ _ _ E0). cbn beta iota.
  assert (Forall (fun x => honest src world x.1 /\ readable src x.1) old) as Hro by (apply Forall_and; by split).
  destruct (connect_loop src world svh kept f k m0 path old ta ha m ua Hold Hwf Hk Hndo Hnd Hao Han Hro Hcon Hlen Hmark g best path [] f k m0 [] (with_chain n cs0) [])
    as [(n' & r & t & h & m' & us & E & Hseg & Hend' & Hpool' & Ehs)|[(n' & E & Hend' & Hpool' & Ehs)|[(n' & e & t & x & E & Hpart & Hpool' & Ehs & Hx & He)|(n' & E & Hfn)]]];
    [done|constructor|done|constructor|done|constructor|done| | | |]; cbn [with_chain n_headers n_chain] in *.
  - rewrite (bind_Done _ _ _ _ _ E). cbn beta iota. assert (t = best) as ->.
    { destruct (segment_tip _ _ _ _ _ _ _ _ _ Hseg) as [[Hp ->]|(y & Hy & <-)]; [symmetry; by apply Hnil|by apply Hlast]. }
    destruct (switch_ok g (n_headers n) best Hhs Hbest) as (hs' & Esw & Hhs' & Etree & Hc'). rewrite <- Ehs in Esw.
    destruct (readd_total (n_chain n') m' (n_pool n') txs) as (mp & c & Emp & Hmp); [apply Hend'|done|done|].
    rewrite (bind_Done _ _ _ _ _ (try_Ok (fun n => switch_active_chain (n_headers n) best) hs' n' Esw)).
    rewrite (bind_Done (set_headers hs') _ _ tt (mkNode hs' (n_chain n') (n_pool n'))) by done.
    rewrite (bind_Done _ _ _ c _ (readd_Done (mkNode hs' (n_chain n') (n_pool n')) txs mp c Emp)).
    eexists _, _. split; [done|]. split; cbn; [by exists h, m', us|done|done|done|done].
  - rewrite (bind_Failed _ _ _ _ _ E). left.
    destruct (mark_invalid_ok g (n_headers n) best Hhs Hmark) as (hs' & E' & Hhs' & Et & Ea & Hin & _). rewrite Ehs in E'. injection E' as <-.
    split; [|done]. pose proof (ae_tip _ _ _ _ _ _ _ _ Hend) as Et1. pose proof (ae_svh _ _ _ _ _ _ _ _ Hend) as Ev1.
    split; rewrite ?Et1, ?Ev1; [exact Hend'|by rewrite (ae_tip _ _ _ _ _ _ _ _ Hend')|done|done|done|done].
  - rewrite (bind_Failed _ _ _ _ _ E). right. split; [done|exists t; by right| |done]. exists x, e. rewrite fmap_app. set_solver.
  - unfold mbind, stm_bind. change (@zlen (Hash256 * Z) []) with 0 in E. rewrite E. cbn. rewrite Es in Hfn. lia.
Qed.

Lemma filter_nil_Forall {A} (P : A -> bool) (l : list A) : filter (fun x => P x = false) l = [] -> Forall (fun x => P x = true) l.
Proof.
  intros E. apply Forall_forall. intros x Hx. destruct (P x) eqn:Ex; [done|].
  assert (x ∈ filter (fun x => P x = false) l) as Hin by by apply list_elem_of_filter. rewrite E in Hin. by apply not_elem_of_nil in Hin.
Qed.

(** the node is ready for a reorganisation: its parts are consistent, and from the
    fork point [f] with the ledger [m0] the blocks of [old] led to the present ledger
    [m], with their undo records stored *)
Record ready g n (m m0 : ledger) (f : Hash256) (k : Z) (old path : list (Hash256 * Z)) (ua : list (list TxUndo)) : Prop := {
  rd_headers : HeadersCorrect.store_ok g (n_headers n);
  rd_chain : at_end (script_verify_height (n_chain n)) kept (n_chain n) (tip (n_chain n)).1 (tip (n_chain n)).2 m old ua;
  rd_stored : at_height (by_hash (n_headers n)) (tip (n_chain n)).1 (tip (n_chain n)).2;
  rd_pool : pool_safe (n_pool n);
  rd_fork : find_fork_point (n_headers n) (tip (n_chain n)).1 (best_known_tip (n_headers n)).1 = Ok f /\ at_height (by_hash (n_headers n)) f k;
  rd_old : get_path (n_headers n) f (tip (n_chain n)).1 = Ok old;
  rd_new : get_path (n_headers n) f (best_known_tip (n_headers n)).1 = Ok path;
  rd_apart : Forall (fun x => x.1 ∉ kept.*1) (old ++ path);
  rd_segment : segment world (script_verify_height (n_chain n)) f k m0 old (tip (n_chain n)).1 (tip (n_chain n)).2 m ua;
  rd_wf : wf m0;
  rd_blocks : blocks_ok (n_headers n);
  rd_txids : unique_txids (script_verify_height (n_chain n)) f k m0 path;
  rd_backend : forall (b : B) h, persist_invalid_tip b h <> Panic;
}.

Lemma activate_reorganize g n m m0 f k old path ua :
  ready g n m m0 f k old path ua -> zlen path <= MAX_REORG_DEPTH ->
  let best := (best_known_tip (n_headers n)).1 in
  reorganize_outcome g n m (script_verify_height (n_chain n)) f k m0 old ua path (tip (n_chain n)).1 best (reorganize src (tip (n_chain n)).1 best old path n).
Proof.
  intros [Hhs Hend Htip Hpool [Hfork Hfk] Hold Hnew Hapart Hseg Hwf Hbl Huniq Hmark] Hlp best. pose proof (so_tree _ _ Hhs) as Ht.
  destruct (so_best _ _ Hhs) as (sb & Hsb & _). fold best in Hsb, Hfork, Hnew. assert (at_height (by_hash (n_headers n)) best (s_height sb)) as Hbest by by exists sb.
  destruct (find_fork_point_ok g _ _ best _ _ Ht Htip Hbest) as (f' & E & (Hfa & Hfb & _)). rewrite Hfork in E. injection E as <-.
  destruct (get_path_ok g _ f (tip (n_chain n)).1 k _ Ht Hfk Htip Hfa) as (p & E & Hp2 & Hp). rewrite Hold in E. injection E as <-.
  destruct (get_path_ok g _ f best k _ Ht Hfk Hbest Hfb) as (p & E & Hq2 & Hq). rewrite Hnew in E. injection E as <-.
  pose proof (at_height_range _ _ _ _ Ht Hfk) as [Hk _].
  apply seqZ_zlen in Hp2 as Hp2'. apply seqZ_zlen in Hq2 as Hq2'.
  destruct (path_ends g (n_headers n) f best k (s_height sb) path Ht Hfk Hbest Hfb Hq2 Hq) as [Hnil Hlast].
  apply (reorganize_ok g n m (script_verify_height (n_chain n)) f k m0 old ua path (tip (n_chain n)).1 (tip (n_chain n)).2 best);
    [done|by exists sb|done|done|done|done|done|exact (path_nodup g _ _ _ _ Ht Hp2' Hp)|exact (path_nodup g _ _ _ _ Ht Hq2' Hq)|done| | | |done|done|done].
  - eapply Forall_impl; [exact Hp|]. intros x [_ (s & Hs & _)]. by eapply Hbl.
  - apply (path_connectable g _ (n_headers n) f best k m0 path); [done|done|done|by eexists|done|done|done|done].
  - unfold MAX_REORG_DEPTH, u32_max in *. lia.
Qed.

Lemma unchanged_refl g n m m0 f k old path ua : ready g n m m0 f k old path ua -> unchanged g n n m old ua.
Proof. intros Hr. split; [apply (rd_chain _ _ _ _ _ _ _ _ _ Hr)|done|apply Hr|done|done|apply Hr]. Qed.

(** the lengths of the two branches *)
Lemma ready_lengths g n m m0 f k old path ua : ready g n m m0 f k old path ua ->
  zlen old = (tip (n_chain n)).2 - k /\ zlen path <= u32_max.
Proof.
  intros [Hhs _ Htip _ [Hfork Hfk] Hold Hnew _ _ _ _ _ _]. pose proof (so_tree _ _ Hhs) as Ht. destruct (so_best _ _ Hhs) as (sb & Hsb & _).
  assert (at_height (by_hash (n_headers n)) (best_known_tip (n_headers n)).1 (s_height sb)) as Hbest by by exists sb.
  destruct (find_fork_point_ok g _ _ _ _ _ Ht Htip Hbest) as (f' & E & (Hfa & Hfb & _)). rewrite Hfork in E. injection E as <-.
  destruct (ancestor_height _ _ _ _ _ Ht Hfa Htip) as (k' & Hk' & Hle). rewrite (at_height_fun _ _ _ _ Hk' Hfk) in Hle.
  destruct (get_path_ok g _ f _ k _ Ht Hfk Htip Hfa) as (p & E & Hp2 & _). rewrite Hold in E. injection E as <-.
  destruct (get_path_ok g _ f _ k _ Ht Hfk Hbest Hfb) as (p & E & Hq2 & _). rewrite Hnew in E. injection E as <-.
  apply (f_equal length) in Hp2, Hq2. rewrite length_fmap, length_seqZ in Hp2, Hq2.
  pose proof (at_height_range _ _ _ _ Ht Hfk). pose proof (at_height_range _ _ _ _ Ht Hbest). unfold zlen, U, u32_max in *. lia.
Qed.

(** the outcomes of [activate_best_chain] *)
Lemma activate_outcome g n m m0 f k old path ua :
  ready g n m m0 f k old path ua ->
  let active := (tip (n_chain n)).1 in
  let best := (best_known_tip (n_headers n)).1 in
  match activate_best_chain src n with
  | Done AlreadyBest n' => n' = n /\ best = active
  | Done (NeedBlocks missing) n' => n' = n /\ missing <> [] /\ Forall (fun hash => hash ∈ path.*1 /\ src_has src hash = false) missing
  | Done (Reorganized o w _ _) n' => o = active /\ w = best /\ reorganized g n n' (script_verify_height (n_chain n)) f k m0 path best /\ Forall (fun x => src_has src x.1 = true) path
  | Failed _ n' => unchanged g n n' m old ua \/ stranded n n' (script_verify_height (n_chain n)) f k m0 old path /\ Forall (fun x => src_has src x.1 = true) path
  | Exited _ => 2 ^ 16 - 1 < file_number (undo_store (n_chain n)) + 2 * MAX_REORG_DEPTH
  | Trapped => False
  end.
Proof.
  intros Hr active best. pose proof (unchanged_refl _ _ _ _ _ _ _ _ _ Hr) as Hid. pose proof (activate_reorganize _ _ _ _ _ _ _ _ _ Hr) as Hre.
  destruct (ready_lengths _ _ _ _ _ _ _ _ _ Hr) as [Hlo Hlp]. destruct (rd_fork _ _ _ _ _ _ _ _ _ Hr) as [Hf (sf & Hsf & Hsk)]. pose proof (rd_old _ _ _ _ _ _ _ _ _ Hr) as Ho. pose proof (rd_new _ _ _ _ _ _ _ _ _ Hr) as Hn.
  fold active best in Hre, Hf, Ho, Hn. unfold activate_best_chain. rewrite (bind_Done get_state _ n n n eq_refl). unfold best_tip.
  destruct (best_known_tip (n_headers n)) as [best0 wb] eqn:Eb. cbn [fst snd] in *. subst best. destruct (tip (n_chain n)) as [a ha] eqn:Et. cbn [fst snd] in *. subst active.
  cbv beta iota. case_bool_decide as Hbest; [done|].
  rewrite (bind_Done _ _ _ _ _ (try_Ok (fun n => find_fork_point (n_headers n) a best0) f n Hf)).
  rewrite (bind_Done _ _ _ sf n) by (unfold try_, hs_get; by rewrite Hsf). cbv beta zeta. destruct (Z.gtb_spec (sat_sub ha (s_height sf)) MAX_REORG_DEPTH) as [|Hold]; [by left|]. rewrite Hsk in Hold.
  rewrite (bind_Done _ _ _ _ _ (try_Ok (fun n => get_path (n_headers n) f a) old n Ho)).
  rewrite (bind_Done _ _ _ _ _ (try_Ok (fun n => get_path (n_headers n) f best0) path n Hn)). cbv beta zeta. destruct (Z.gtb_spec (zlen path mod 2 ^ 32) MAX_REORG_DEPTH) as [|Hnew]; [by left|].
  rewrite Z.mod_small in Hnew by (pose proof (zlen_nonneg path); unfold u32_max in Hlp; lia).
  destruct (filter (fun hash => src_has src hash = false) path.*1) as [|x l] eqn:Em; cbn [negb].
  - change (zlen [] =? 0) with true. cbn [negb].
    apply filter_nil_Forall in Em. apply Forall_fmap in Em. specialize (Hre ltac:(lia)). unfold sat_sub in Hold. unfold reorganize_outcome in Hre.
    destruct (reorganize src a best0 old path n) as [r n'|msg n'|n'|]; [|destruct Hre as [[Hre _]|Hre]; [by left|by right]|lia|done]. destruct Hre as (d & c & -> & Hre). by split_and!.
  - destruct (zlen (x :: l) =? 0) eqn:Ez; [rewrite zlen_cons in Ez; pose proof (zlen_nonneg l); lia|]. cbn [negb].
    split; [done|]. split; [done|]. rewrite <- Em. apply Forall_forall. intros y [Hy Hin]%list_elem_of_filter. done.
Qed.

(** C3: [activate_best_chain] is all or nothing, as long as blocks can be read.  On a node
    whose header index, chain state and pool are consistent, and whose block source gives for
    each hash the block that was validated or an error, it never panics.  It answers that
    nothing is to be done, or names the blocks it lacks, with the node untouched; or it
    moves the chain state, block by block along the header path, to the branch
    with the most work and makes that branch the active one; or it fails.  When it fails
    because a block of the new branch was refused, the unspent outputs, the tip, the stored
    headers and the active chain are those from before, whatever number of blocks
    had been connected.  When it fails because a block that the source lists
    could not be read, the headers are untouched but there is no rollback: the chain state
    stands on a block of one of the branches, with the ledger of that block.  The process
    exits in a rollback only if the undo store runs out of its 16-bit file numbers.  The
    blocks of the new branch are assumed not to reuse the identifier of a transaction
    with unspent outputs, which the code does not check. *)
Theorem reorg_atomic g n m m0 f k old path ua :
  ready g n m m0 f k old path ua ->
  let active := (tip (n_chain n)).1 in
  let best := (best_known_tip (n_headers n)).1 in
  match activate_best_chain src n with
  | Done AlreadyBest n' => n' = n /\ best = active
  | Done (NeedBlocks missing) n' => n' = n /\ missing <> [] /\ Forall (fun hash => hash ∈ path.*1 /\ src_has src hash = false) missing
  | Done (Reorganized o w _ _) n' => o = active /\ w = best /\ reorganized g n n' (script_verify_height (n_chain n)) f k m0 path best /\ Forall (fun x => src_has src x.1 = true) path
  | Failed _ n' => unchanged g n n' m old ua \/ stranded n n' (script_verify_height (n_chain n)) f k m0 old path /\ Forall (fun x => src_has src x.1 = true) path
  | Exited _ => 2 ^ 16 - 1 < file_number (undo_store (n_chain n)) + 2 * MAX_REORG_DEPTH
  | Trapped => False
  end.
Proof. apply activate_outcome. Qed.
End Atomic.

(** ** Short segments *)

Section Short.
Context `{HS : Sha256} `{HD : Digests} `{HK : K256} {BS : Type} {HBS : BlockSource BS} (src : BS) (svh : Z) (r : Hash256).
Context (Hroot : forall hash b, block_at src hash b -> hash <> r).

(** the only segment from the root to the root is the empty one *)
Lemma root_segment (m0 : ledger) path h m us : segment src svh r 0 m0 path r h m us -> m = m0.
Proof.
  intros Hs. inversion Hs as [|d t h' m' us' hash b m'' undos _ Hb]; subst; [done|]. by destruct (Hroot r b Hb).
Qed.

(** a block with only a coinbase, on the root *)
Lemma child_segment (m0 : ledger) path t h m us b cb :
  (forall b', block_at src t b' -> b' = b) -> prev_hash (header b) = r -> transactions b = [cb] -> is_coinbase cb = true -> t <> r ->
  segment src svh r 0 m0 path t h m us -> m = credit m0 (created h true cb).
Proof.
  intros Hb Hp Htx Hcb Ht Hs. inversion Hs as [|d t1 h1 m1 us1 hash b1 m2 undos Hs1 Hb1 Hp1 _ _ (fees & Ha & _)]; [congruence|].
  subst hash. apply Hb in Hb1 as ->. rewrite <- Hp1, Hp in Hs1. apply root_segment in Hs1 as ->. rewrite Htx in Ha. inversion Ha as [|m1 tx txs m3 undos3 fees3 _ Ha'|]; subst; [|congruence].
  by inversion Ha'.
Qed.
End Short.

(** ** Example: a branch of two blocks overtakes one of one block *)

#[local] Existing Instance trap.
#[local] Existing Instance no_backend.
#[local] Existing Instance plain_order.
#[local] Existing Instance toy_sha256.
#[local] Existing Instance toy_digests.
#[local] Existing Instance toy_k256.

(** blocks in memory *)
Definition shelf : Type := list (Hash256 * Block).
Fixpoint shelf_get (l : shelf) (hash : Hash256) : option Block :=
  match l with
  | [] => None
  | (x, b) :: l => if bool_decide (x = hash) then Some b else shelf_get l hash
  end.
#[local] Instance shelf_source : BlockSource shelf :=
  {| src_has l hash := bool_decide (is_Some (shelf_get l hash)); src_load l hash := ok_or "missing" (shelf_get l hash) |}.

Definition block_a1 : Block := mkBlock branch_a1 [bip34_coinbase 1].
Definition block_b1 : Block := mkBlock branch_b1 [bip34_coinbase 1].
Definition block_b2 : Block := mkBlock branch_b2 [bip34_coinbase 2].
Definition root_hash : Hash256 := block_hash root_header.
Definition a1_hash : Hash256 := block_hash branch_a1.
Definition b1_hash : Hash256 := block_hash branch_b1.
Definition b2_hash : Hash256 := block_hash branch_b2.
Definition blocks : shelf := [(a1_hash, block_a1); (b1_hash, block_b1); (b2_hash, block_b2)].

Lemma hashes_differ : NoDup [root_hash; a1_hash; b1_hash; b2_hash].
Proof. apply (bool_decide_unpack _). vm_compute. exact Logic.I. Qed.

Lemma coinbases_differ : txid (bip34_coinbase 1) <> txid (bip34_coinbase 2).
Proof. apply (bool_decide_unpack _). vm_compute. exact Logic.I. Qed.

Lemma block_fine b : block_from_cursor (block_to_bytes b) = Ok (b, []) -> check_block b = Ok tt -> block_ok b /\ block_rules b.
Proof. intros Hp Hc. split; [by apply block_ok_parse|by apply check_block_Ok]. Qed.

Lemma block_a1_at : block_at blocks a1_hash block_a1.
Proof. destruct (block_fine block_a1) as [H1 H2]; [vm_compute; reflexivity..|]. split; [vm_compute; reflexivity|exact H1|exact H2|vm_compute; reflexivity]. Qed.
Lemma block_b1_at : block_at blocks b1_hash block_b1.
Proof. destruct (block_fine block_b1) as [H1 H2]; [vm_compute; reflexivity..|]. split; [vm_compute; reflexivity|exact H1|exact H2|vm_compute; reflexivity]. Qed.
Lemma block_b2_at : block_at blocks b2_hash block_b2.
Proof. destruct (block_fine block_b2) as [H1 H2]; [vm_compute; reflexivity..|]. split; [vm_compute; reflexivity|exact H1|exact H2|vm_compute; reflexivity]. Qed.

Lemma shelf_get_cons x b0 l hash b : shelf_get ((x, b0) :: l) hash = Some b -> hash = x /\ b = b0 \/ shelf_get l hash = Some b.
Proof. cbn [shelf_get]. case_bool_decide as Hx; [|by right]. intros [= <-]. by left. Qed.

Lemma blocks_inv hash b : src_load blocks hash = Ok b ->
  hash = a1_hash /\ b = block_a1 \/ hash = b1_hash /\ b = block_b1 \/ hash = b2_hash /\ b = block_b2.
Proof.
  intros Hl. assert (shelf_get blocks hash = Some b) as H.
  { cbn [src_load shelf_source] in Hl. destruct (shelf_get blocks hash) as [b0|]; [injection Hl as ->; reflexivity|discriminate Hl]. }
  apply shelf_get_cons in H as [H|H]; [left; exact H|]. apply shelf_get_cons in H as [H|H]; [right; left; exact H|].
  apply shelf_get_cons in H as [H|H]; [right; right; exact H|discriminate H].
Qed.

Lemma hash_facts : a1_hash <> root_hash /\ b1_hash <> root_hash /\ b2_hash <> root_hash /\ a1_hash <> b1_hash /\ b2_hash <> b1_hash.
Proof.
  pose proof hashes_differ as H. generalize dependent root_hash. generalize dependent a1_hash. generalize dependent b1_hash. generalize dependent b2_hash.
  intros b2 b1 a1 r H. rewrite !NoDup_cons, !not_elem_of_cons in H. naive_solver.
Qed.

Lemma blocks_not_root hash b : block_at blocks hash b -> hash <> root_hash.
Proof.
  intros Hb. destruct hash_facts as (Ha & Hb1 & Hb2 & _). destruct (blocks_inv _ _ (ba_load _ _ _ Hb)) as [[-> _]|[[-> _]|[-> _]]]; [exact Ha|exact Hb1|exact Hb2].
Qed.

Lemma parents : prev_hash (header block_a1) = root_hash /\ prev_hash (header block_b1) = root_hash /\ prev_hash (header block_b2) = b1_hash.
Proof. split; [reflexivity|]. split; reflexivity. Qed.

Lemma new_txids_single m tx : (forall o, op_txid o = txid tx -> m !! o = None) -> new_txids m [tx].
Proof.
  intros H. split; [apply NoDup_singleton|]. intros o Ho. apply H. cbn [fmap list_fmap] in Ho. apply list_elem_of_singleton in Ho. exact Ho.
Qed.

Lemma blocks_unique svh : no_reuse blocks svh root_hash 0 ∅.
Proof.
  intros path t h m us hash b Hs Hb Hp. destruct parents as (Pa & Pb & Pc). destruct hash_facts as (_ & Hr & _).
  destruct (blocks_inv _ _ (ba_load _ _ _ Hb)) as [[_ ->]|[[_ ->]|[_ ->]]].
  1,2: rewrite ?Pa, ?Pb in Hp; subst t; apply (root_segment blocks svh root_hash blocks_not_root) in Hs as ->; apply new_txids_single; intros o _; apply lookup_empty.
  rewrite Pc in Hp. subst t.
  apply (child_segment blocks svh root_hash blocks_not_root ∅ path b1_hash h m us block_b1 (bip34_coinbase 1)) in Hs as ->; [|intros b' Hb'|exact Pb|reflexivity|vm_compute; reflexivity|exact Hr].
  - apply new_txids_single. intros o Ho. rewrite lookup_credit_notin; [apply lookup_empty|]. intros Hc%created_txid. apply coinbases_differ. congruence.
  - pose proof (ba_load _ _ _ Hb') as E. rewrite (ba_load _ _ _ block_b1_at) in E. injection E as <-. reflexivity.
Qed.

(** the chain state at the root *)
Definition root_state : ChainState byte_table meta_table sample_index :=
  mkChainState t_empty (t_insert (t_insert (t_empty : meta_table) TIP_KEY (as_bytes root_hash)) TIP_HEIGHT_KEY (le_bytes 4 0))
    t_empty (mkUndoStore {[0 := []]} DEFAULT_MAX_FILE_SIZE 0 0) (root_hash, 0) 0.

Lemma root_state_ok : chain_ok root_state ∅.
Proof.
  split.
  - apply represents_empty.
  - split; cbn; try done. intros n Hn. unfold contents. by rewrite lookup_singleton_ne by lia.
  - intros k l Hk. change (t_get (t_empty : sample_index) k = Some l) in Hk. by rewrite get_empty in Hk.
  - vm_compute. reflexivity.
  - by apply inU_spec.
Qed.

(** the state with the block of the first branch *)
Lemma a1_state : exists cs m us, connect_block root_state block_a1 1 a1_hash = Ok cs /\
  segment blocks 0 root_hash 0 ∅ [(a1_hash, 1)] a1_hash 1 m us /\ at_end 0 [] cs a1_hash 1 m [(a1_hash, 1)] us /\ file_number (undo_store cs) <= 1.
Proof.
  assert (exists cs, connect_block root_state block_a1 (0 + 1) a1_hash = Ok cs) as [cs E] by (apply is_ok_Ok; vm_compute; reflexivity).
  assert (at_end 0 [] root_state root_hash 0 ∅ [] []) as Hend by (split; [exact root_state_ok|reflexivity|reflexivity|constructor|constructor]).
  destruct (connect_extends blocks 0 [] root_state root_hash 0 ∅ [] root_hash 0 ∅ [] a1_hash block_a1 cs) as (m & undos & Hseg & _ & Hend' & Hfn);
    [constructor|exact block_a1_at|apply parents| |apply not_elem_of_nil|apply not_elem_of_nil|exact Hend|exact E|].
  - apply new_txids_single. intros o _. apply lookup_empty.
  - exists cs, m, [undos]. split; [exact E|]. split; [exact Hseg|]. split; [exact Hend'|exact Hfn].
Qed.

(** the header store knows both branches and finds the longer one the better *)
Definition fork_check (hs : HeaderStore Empty_set) (r a1 b1 b2 : Hash256) (ha1 hb1 hb2 : BlockHeader) : bool :=
  bool_decide ((best_known_tip hs).1 = b2) &&
  bool_decide (s_height <$> by_hash hs !! a1 = Some 1) && bool_decide (s_height <$> by_hash hs !! r = Some 0) &&
  bool_decide (s_header <$> by_hash hs !! a1 = Some ha1) && bool_decide (s_header <$> by_hash hs !! b1 = Some hb1) &&
  bool_decide (s_header <$> by_hash hs !! b2 = Some hb2) &&
  match find_fork_point hs a1 b2 with Ok f => bool_decide (f = r) | _ => false end &&
  match get_path hs r a1 with Ok p => bool_decide (p = [(a1, 1)]) | _ => false end &&
  match get_path hs r b2 with Ok p => bool_decide (p = [(b1, 1); (b2, 2)]) | _ => false end.

Lemma fmap_Some_inv {A C} (f : A -> C) (o : option A) y : f <$> o = Some y -> exists x, o = Some x /\ f x = y.
Proof. destruct o as [x|]; [intros [= <-]; by exists x|done]. Qed.

Lemma fork_check_headers hs r a1 b1 b2 ha1 hb1 hb2 : fork_check hs r a1 b1 b2 ha1 hb1 hb2 = true ->
  s_header <$> by_hash hs !! a1 = Some ha1 /\ s_header <$> by_hash hs !! b1 = Some hb1 /\ s_header <$> by_hash hs !! b2 = Some hb2.
Proof. unfold fork_check. rewrite !andb_true_iff, !bool_decide_eq_true. tauto. Qed.

Lemma fork_check_paths hs r a1 b1 b2 ha1 hb1 hb2 : fork_check hs r a1 b1 b2 ha1 hb1 hb2 = true ->
  (best_known_tip hs).1 = b2 /\ at_height (by_hash hs) a1 1 /\ at_height (by_hash hs) r 0 /\ find_fork_point hs a1 b2 = Ok r /\
  get_path hs r a1 = Ok [(a1, 1)] /\ get_path hs r b2 = Ok [(b1, 1); (b2, 2)].
Proof.
  unfold fork_check. rewrite !andb_true_iff. intros [[[[[[[[Hb Ha] Hr] _] _] _] Hf] Hp] Hq].
  destruct (find_fork_point hs a1 b2) as [f| |]; [|discriminate Hf..]. destruct (get_path hs r a1) as [p| |]; [|discriminate Hp..].
  destruct (get_path hs r b2) as [q| |]; [|discriminate Hq..]. rewrite !bool_decide_eq_true in *. subst f p q.
  apply fmap_Some_inv in Ha as (s & Hs & Hh). apply fmap_Some_inv in Hr as (s' & Hs' & Hh'). split_and!; try done; by eexists.
Qed.

Lemma forked_headers : exists hs, HeadersCorrect.store_ok root_hash hs /\ fork_check hs root_hash a1_hash b1_hash b2_hash branch_a1 branch_b1 branch_b2 = true.
Proof.
  assert (exists hs, (hs ← fresh_store; hs ← accept_all hs [branch_a1; branch_b1; branch_b2];
    if fork_check hs root_hash a1_hash b1_hash b2_hash branch_a1 branch_b1 branch_b2 then Ok hs else Err EmptyString) = Ok hs)
    as [hs H] by (apply is_ok_Ok; vm_compute; reflexivity).
  apply res_bind_Ok in H as (hs0 & E0 & H). destruct (fresh_store_ok hs0 E0) as [Hok0 _]. apply res_bind_Ok in H as (hs1 & E1 & H).
  exists hs1. split; [|destruct (fork_check hs1 _ _ _ _ _ _ _); [reflexivity|discriminate H]].
  eapply (rtc_ind_r (HeadersCorrect.store_ok root_hash)); [exact Hok0| |exact (accept_all_steps _ _ _ E1)]. intros x y _ Hxy. exact (kept_step_ok _ _ _ Hxy).
Qed.

Lemma forked_blocks hs : fork_check hs root_hash a1_hash b1_hash b2_hash branch_a1 branch_b1 branch_b2 = true -> blocks_ok blocks blocks hs.
Proof.
  intros (Ha & Hb & Hc)%fork_check_headers hash s Hs. unfold honest. destruct (src_load blocks hash) as [b|e|] eqn:Hl.
  - assert (block_at blocks hash b /\ header b = s_header s) as [H1 H2]; [|split; [exact H1|intros b' Hb'; injection Hb' as <-; exact H2]].
    destruct (blocks_inv _ _ Hl) as [[-> ->]|[[-> ->]|[-> ->]]]; [split; [exact block_a1_at|]|split; [exact block_b1_at|]|split; [exact block_b2_at|]].
    + rewrite Hs in Ha. injection Ha as Ha. symmetry. exact Ha.
    + rewrite Hs in Hb. injection Hb as Hb. symmetry. exact Hb.
    + rewrite Hs in Hc. injection Hc as Hc. symmetry. exact Hc.
  - split; [exact Logic.I|intros b Hb'; discriminate Hb'].
  - cbn [src_load shelf_source] in Hl. destruct (shelf_get blocks hash); discriminate Hl.
Qed.

Lemma forked_ready : exists n m us, ready (HB := no_backend) (UT := byte_table) (MT := meta_table) (IT := sample_index) blocks blocks [] root_hash n m ∅ root_hash 0 [(a1_hash, 1)] [(b1_hash, 1); (b2_hash, 2)] us /\ best_known_tip (n_headers n) = (b2_hash, (best_known_tip (n_headers n)).2) /\ file_number (undo_store (n_chain n)) <= 1.
Proof.
  destruct forked_headers as (hs & Hok & Hc). destruct a1_state as (cs & m & us & _ & Hseg & Hend & Hfn).
  destruct (fork_check_paths hs _ _ _ _ _ _ _ Hc) as (Hb & Ha & Hr & Hf & Hp & Hq). exists (mkNode hs cs (with_max_size 1000)), m, us.
  pose proof (ae_tip _ _ _ _ _ _ _ _ Hend) as Ht. pose proof (ae_svh _ _ _ _ _ _ _ _ Hend) as Hv.
  split; [|split; [cbn [n_headers]; rewrite <- Hb; destruct (best_known_tip hs); reflexivity|exact Hfn]].
  split; cbn [n_headers n_chain n_pool]; rewrite ?Ht, ?Hv, ?Hb; cbn [fst snd].
  - exact Hok.
  - exact Hend.
  - exact Ha.
  - apply (pool_inv_safe ∅), pool_inv_empty; vm_compute; discriminate.
  - split; [exact Hf|exact Hr].
  - exact Hp.
  - exact Hq.
  - apply Forall_forall. intros x _. apply not_elem_of_nil.
  - exact Hseg.
  - exact (rp_wf _ _ (co_utxos _ _ root_state_ok)).
  - exact (forked_blocks hs Hc).
  - apply no_reuse_path, blocks_unique.
  - intros [].
Qed.

(** both branches can be read: the switch succeeds or nothing changes *)
Lemma blocks_read x : x ∈ [a1_hash; b1_hash; b2_hash] -> exists b, src_load blocks x = Ok b.
Proof.
  rewrite !elem_of_cons. intros [->|[->|[->|H%not_elem_of_nil]]]; [exists block_a1; apply block_a1_at|exists block_b1; apply block_b1_at|exists block_b2; apply block_b2_at|done].
Qed.

Lemma reorg_atomic_witness :
  exists (n : Node Empty_set byte_table meta_table sample_index) m,
    match activate_best_chain blocks n with
    | Done (Reorganized o w _ _) n' => o = a1_hash /\ w = b2_hash /\ last (active_chain (n_headers n')) = Some b2_hash
    | Done _ n' => n' = n
    | Failed _ n' => chain_ok (n_chain n') m
    | Exited _ | Trapped => False
    end.
Proof.
  destruct forked_ready as (n & m & us & Hr & Hb & Hfn). exists n, m. pose proof (reorg_atomic blocks blocks [] root_hash n m ∅ root_hash 0 _ _ us Hr) as H.
  rewrite Hb in H. cbv zeta in H.
  assert ((tip (n_chain n)).1 = a1_hash) as Ht.
  { destruct (segment_tip _ _ _ _ _ _ _ _ _ _ (rd_segment _ _ _ _ _ _ _ _ _ _ _ _ Hr)) as [[E _]|(y & Hy & <-)]; [discriminate E|]. injection Hy as <-. reflexivity. }
  rewrite Ht in H. cbn [fst] in H. destruct (activate_best_chain blocks n) as [[|o w d c|l] n'|msg n'|n'|].
  - exact (proj1 H).
  - destruct H as (Ho & Hw & H & _). split; [exact Ho|]. split; [exact Hw|exact (ct_last _ _ _ (ro_active _ _ _ _ _ _ _ _ _ _ _ H))].
  - exact (proj1 H).
  - destruct H as [H|[H _]]; [exact (ae_ok _ _ _ _ _ _ _ _ (un_chain _ _ _ _ _ _ _ H))|]. destruct (sd_cause _ _ _ _ _ _ _ _ _ _ _ H) as (x & e & Hx & He). destruct (blocks_read x Hx) as [b Hl]. congruence.
  - exfalso. unfold MAX_REORG_DEPTH in H. lia.
  - exact H.
Defined.
