(* ===== verification/Network.v ===== *)
(** * Network: message framing

    Models the framing layer of src/src/network.rs: the 24-byte message header
    with its checksum, the command names and the queue that cuts the byte stream
    of a connection into messages.  A Rust [&str] is the list of its UTF-8 bytes.
    The main results are that the parser inverts the writer and that the queue
    delivers the messages of a stream whatever the pieces it arrives in. *)
From Stdlib Require Import Strings.Byte.
From stdpp Require Import base numbers list strings gmap.
From S2P Require Import Prelude Codec Types.

(** ** Messages *)

Definition MAX_MESSAGE_SIZE : Z := 2000000.
Definition COMMAND_LENGTH : nat := 12.
Definition NET_MAGIC : list byte := [xfc; xc1; xb7; xdc].

Inductive MessageParseError := Incomplete | Corrupt (reason : string).

Record Message := mkMessage { m_magic : list byte; m_command : list byte; m_length : Z; m_checksum : Z; m_payload : list byte }.

Definition is_ascii (s : list byte) : bool := forallb (fun c => b2z c <? 128) s.

(** the command field: the name padded with zeros *)
Definition set_command (command : list byte) : result (list byte) :=
  ensure is_ascii command else "Command contains non-ASCII characters" ;;
  ensure (negb (Z.of_nat COMMAND_LENGTH <=? zlen command)) else "Command is too long" ;;
  ensure (negb (zlen command =? 0)) else "Command is too short" ;;
  Ok (command ++ replicate (COMMAND_LENGTH - length command) x00).

Definition HEADER_LEN : nat := 4 + COMMAND_LENGTH + 4 + 4.

Section Framing.
Context `{HS : Sha256}.

Definition calculate_checksum (payload : list byte) : Z := le_val (take 4 (as_bytes (double_sha256 payload))).

Definition message_new (command payload : list byte) : result Message :=
  ensure (negb (zlen payload >? MAX_MESSAGE_SIZE)) else "payload size exceeds maximum" ;;
  command ← set_command command;
  Ok (mkMessage NET_MAGIC command (zlen payload mod 2 ^ 32) (calculate_checksum payload) payload).

Definition message_to_bytes (m : Message) : list byte :=
  m_magic m ++ m_command m ++ le_bytes 4 (m_length m) ++ le_bytes 4 (m_checksum m) ++ m_payload m.

(** the reads that follow the length test; their errors are [Corrupt] *)
Definition message_from_cursor (bytes : list byte) : res MessageParseError (Message * Z) :=
  '(magic, s) ← map_err Corrupt (read_exact 4 bytes);
  ensure bool_decide (magic = NET_MAGIC) else Corrupt "invalid network magic" ;;
  '(command, s) ← map_err Corrupt (read_exact COMMAND_LENGTH s);
  '(length, s) ← map_err Corrupt (read_u32 s);
  ensure (negb (length >? MAX_MESSAGE_SIZE)) else Corrupt "declared length exceeds maximum" ;;
  '(checksum, s) ← map_err Corrupt (read_u32 s);
  let total_size := Z.of_nat HEADER_LEN + length in
  ensure (negb (zlen bytes <? total_size)) else Incomplete ;;
  '(payload, _) ← map_err Corrupt (read_exact (Z.to_nat length) s);
  ensure (calculate_checksum payload =? checksum) else Corrupt "checksum mismatch" ;;
  Ok (mkMessage magic command length checksum payload, total_size).

Definition message_from_bytes (bytes : list byte) : res MessageParseError (Message * Z) :=
  ensure (negb (zlen bytes <? Z.of_nat HEADER_LEN)) else Incomplete ;;
  message_from_cursor bytes.

(** ** The queue of a connection *)

Record NetworkQueue := mkQueue { buffer : list byte; messages : list Message }.

Definition queue_new : NetworkQueue := mkQueue [] [].

(** cut messages off the buffer; the result is the bytes consumed, the messages
    and whether the rest is corrupt *)
Fixpoint extract (fuel : nat) (buf : list byte) (consumed : Z) (messages : list Message) : option (Z * list Message * option string) :=
  match fuel with
  | O => None
  | S fuel =>
    match message_from_bytes (drop (Z.to_nat consumed) buf) with
    | Ok (message, len) => extract fuel buf (consumed + len) (messages ++ [message])
    | Err Incomplete => Some (consumed, messages, None)
    | Err (Corrupt reason) => Some (consumed, messages, Some reason)
    | Panic => None
    end
  end.

(** the queue after the call, also when it returns an error *)
Definition process_incoming_data (q : NetworkQueue) (data : list byte) : option (NetworkQueue * result unit) :=
  if zlen (buffer q) + zlen data >? MAX_MESSAGE_SIZE * 2 then Some (q, Err "Buffer would exceed safety limit"%string) else
  let buf := buffer q ++ data in
  match extract (S (length buf)) buf 0 (messages q) with
  | None => None
  | Some (_, msgs, Some _) => Some (mkQueue buf msgs, Err "Corrupt message data"%string)
  | Some (consumed, msgs, None) =>
    let rest := if consumed >? 0 then drop (Z.to_nat consumed) buf else buf in
    Some (mkQueue rest msgs, if zlen rest >? MAX_MESSAGE_SIZE then Err "Buffer exceeds maximum message size"%string else Ok tt)
  end.

Definition get_next_message (q : NetworkQueue) : option Message * NetworkQueue :=
  match messages q with
  | [] => (None, q)
  | m :: ms => (Some m, mkQueue (buffer q) ms)
  end.

(** a connection reads pieces until one is refused *)
Fixpoint feed (q : NetworkQueue) (chunks : list (list byte)) : option (NetworkQueue * result unit) :=
  match chunks with
  | [] => Some (q, Ok tt)
  | c :: chunks =>
    match process_incoming_data q c with
    | Some (q, Ok _) => feed q chunks
    | r => r
    end
  end.

(** ** Well-formed messages *)

Record message_ok (m : Message) : Prop := {
  mo_magic : m_magic m = NET_MAGIC;
  mo_command : length (m_command m) = COMMAND_LENGTH;
  mo_length : m_length m = zlen (m_payload m);
  mo_size : zlen (m_payload m) <= MAX_MESSAGE_SIZE;
  mo_checksum : m_checksum m = calculate_checksum (m_payload m);
}.

Lemma message_new_ok command payload m : message_new command payload = Ok m -> message_ok m /\ m_payload m = payload.
Proof.
  unfold message_new. destruct (zlen payload >? MAX_MESSAGE_SIZE) eqn:E; [done|]. cbn [negb]. intros H. apply res_bind_Ok in H as (c & Hc & [= <-]).
  assert (zlen payload <= MAX_MESSAGE_SIZE) as Hs by lia. split; [|done]. split; cbn; [done| |rewrite Z.mod_small; [done|pose proof (zlen_nonneg payload); unfold MAX_MESSAGE_SIZE in *; lia]|done|done].
  unfold set_command in Hc. destruct (is_ascii command); [|done]. destruct (_ <=? zlen command) eqn:El; [done|]. destruct (zlen command =? 0); [done|]. injection Hc as <-.
  apply Z.leb_gt in El. rewrite length_app, length_replicate. unfold zlen in El. lia.
Qed.

(** ** The parser as a decision on the header fields *)

(** the fields of a header and the bytes that follow it *)
Record frame := mkFrame { f_magic : list byte; f_command : list byte; f_length : Z; f_checksum : Z; f_rest : list byte }.
Definition frame_ok (f : frame) : Prop :=
  length (f_magic f) = 4%nat /\ length (f_command f) = COMMAND_LENGTH /\ U 32 (f_length f) /\ U 32 (f_checksum f).
Definition frame_bytes (f : frame) : list byte := f_magic f ++ f_command f ++ le_bytes 4 (f_length f) ++ le_bytes 4 (f_checksum f) ++ f_rest f.

Definition decide_frame (f : frame) : res MessageParseError (Message * Z) :=
  if bool_decide (f_magic f = NET_MAGIC) then
    if f_length f >? MAX_MESSAGE_SIZE then Err (Corrupt "declared length exceeds maximum")
    else if zlen (f_rest f) <? f_length f then Err Incomplete
    else let payload := take (Z.to_nat (f_length f)) (f_rest f) in
      if calculate_checksum payload =? f_checksum f then Ok (mkMessage (f_magic f) (f_command f) (f_length f) (f_checksum f) payload, 24 + f_length f)
      else Err (Corrupt "checksum mismatch")
  else Err (Corrupt "invalid network magic").

#[local] Arguments le_bytes : simpl never.

Lemma zlen_frame f : frame_ok f -> zlen (frame_bytes f) = 24 + zlen (f_rest f).
Proof.
  intros (Hm & Hc & _). unfold frame_bytes. rewrite !zlen_app. unfold zlen. rewrite Hm, Hc, !length_le_bytes. unfold COMMAND_LENGTH. lia.
Qed.

Lemma read_exact_full n (a s : list byte) : length a = n -> read_exact n (a ++ s) = Ok (a, s).
Proof. exact (decode_encode (c := raw_codec n) a s). Qed.
Lemma read_u32_app z s : U 32 z -> read_u32 (le_bytes 4 z ++ s) = Ok (z, s).
Proof. exact (decode_encode (c := le_codec 4) z s). Qed.

Lemma parse_frame f : frame_ok f -> message_from_bytes (frame_bytes f) = decide_frame f.
Proof.
  intros Hf. pose proof (zlen_frame f Hf) as Hz. destruct Hf as (Hm & Hc & Hl & Hk). pose proof (zlen_nonneg (f_rest f)) as Hn. unfold message_from_bytes.
  rewrite (proj2 (Z.ltb_ge _ _)) by (cbn; lia). cbn [negb]. unfold message_from_cursor. rewrite Hz. unfold frame_bytes at 1.
  rewrite read_exact_full by exact Hm. cbn [map_err mbind res_bind]. unfold decide_frame.
  case_bool_decide; [|done]. rewrite read_exact_full by exact Hc. cbn [map_err mbind res_bind].
  rewrite read_u32_app by exact Hl. cbn [map_err mbind res_bind]. destruct (f_length f >? MAX_MESSAGE_SIZE); [done|]. cbn [negb].
  rewrite read_u32_app by exact Hk. cbn [map_err mbind res_bind]. change (Z.of_nat HEADER_LEN) with 24.
  destruct (Z.ltb_spec (zlen (f_rest f)) (f_length f)) as [Hlt|Hge]; [by rewrite (proj2 (Z.ltb_lt _ _)) by lia|].
  rewrite (proj2 (Z.ltb_ge _ _)) by lia. cbn [negb]. unfold read_exact. rewrite decide_False by (unfold zlen in Hge; lia). cbn [map_err mbind res_bind].
  by destruct (_ =? _).
Qed.

(** every input of at least a header's length is a frame *)
Lemma frame_of s : (24 <= length s)%nat -> exists f, frame_ok f /\ s = frame_bytes f.
Proof.
  intros Hs. assert (forall l : list byte, length l = 4%nat -> U 32 (le_val l) /\ le_bytes 4 (le_val l) = l) as Hle.
  { intros l Hl. split; [|by rewrite <- Hl, le_bytes_le_val]. pose proof (le_val_range l) as H. rewrite Hl in H. unfold U. lia. }
  exists (mkFrame (take 4 s) (take 12 (drop 4 s)) (le_val (take 4 (drop 16 s))) (le_val (take 4 (drop 20 s))) (drop 24 s)).
  destruct (Hle (take 4 (drop 16 s))) as [H1 E1]; [rewrite length_take, length_drop; lia|]. destruct (Hle (take 4 (drop 20 s))) as [H2 E2]; [rewrite length_take, length_drop; lia|].
  split; [split_and!; cbn [f_magic f_command f_length f_checksum]; [rewrite length_take; lia|rewrite length_take, length_drop; unfold COMMAND_LENGTH; lia|done|done]|].
  unfold frame_bytes. cbn [f_magic f_command f_length f_checksum f_rest]. rewrite E1, E2.
  replace (drop 24 s) with (drop 4 (drop 20 s)) by by rewrite drop_drop. rewrite take_drop.
  replace (drop 20 s) with (drop 4 (drop 16 s)) by by rewrite drop_drop. rewrite take_drop.
  replace (drop 16 s) with (drop 12 (drop 4 s)) by by rewrite drop_drop. by rewrite !take_drop.
Qed.

Lemma short_incomplete s : (length s < 24)%nat -> message_from_bytes s = Err Incomplete.
Proof. intros Hs. unfold message_from_bytes. by rewrite (proj2 (Z.ltb_lt _ _)) by (unfold zlen; cbn; lia). Qed.

(** ** Exactness *)

Lemma checksum_range payload : U 32 (calculate_checksum payload).
Proof.
  unfold calculate_checksum. pose proof (le_val_range (take 4 (as_bytes (double_sha256 payload)))) as H.
  assert (length (take 4 (as_bytes (double_sha256 payload))) <= 4)%nat as Hl by (rewrite length_take; lia).
  assert (256 ^ Z.of_nat (length (take 4 (as_bytes (double_sha256 payload)))) <= 256 ^ 4) by (apply Z.pow_le_mono_r; lia). unfold U. lia.
Qed.

Definition message_frame (m : Message) (s : list byte) : frame := mkFrame (m_magic m) (m_command m) (m_length m) (m_checksum m) (m_payload m ++ s).

Lemma message_frame_bytes m s : frame_bytes (message_frame m s) = message_to_bytes m ++ s.
Proof. unfold frame_bytes, message_to_bytes. cbn. by rewrite <- !app_assoc. Qed.

Lemma message_frame_ok m s : message_ok m -> frame_ok (message_frame m s).
Proof.
  intros [Hm Hc Hl Hs Hk]. split_and!; cbn [message_frame f_magic f_command f_length f_checksum]; [by rewrite Hm|done| |].
  - rewrite Hl. pose proof (zlen_nonneg (m_payload m)). unfold U, MAX_MESSAGE_SIZE in *. lia.
  - rewrite Hk. apply checksum_range.
Qed.

Lemma zlen_message m : message_ok m -> zlen (message_to_bytes m) = 24 + zlen (m_payload m).
Proof.
  intros Hm. pose proof (zlen_frame _ (message_frame_ok m [] Hm)) as H. rewrite message_frame_bytes, app_nil_r in H. cbn in H. by rewrite app_nil_r in H.
Qed.

Lemma parse_message m s : message_ok m -> message_from_bytes (message_to_bytes m ++ s) = Ok (m, 24 + zlen (m_payload m)).
Proof.
  intros Hm. rewrite <- message_frame_bytes, parse_frame by by apply message_frame_ok. destruct Hm as [Hm Hc Hl Hs Hk].
  unfold decide_frame, message_frame. cbn [f_magic f_command f_length f_checksum f_rest]. rewrite bool_decide_true by done.
  rewrite Hl, Z.gtb_ltb, (proj2 (Z.ltb_ge _ _)) by lia. rewrite (proj2 (Z.ltb_ge _ _)) by (rewrite zlen_app; pose proof (zlen_nonneg s); lia).
  rewrite to_nat_zlen, take_app_exact by done. rewrite Hk, Z.eqb_refl, <- Hk. rewrite <- Hl. by destruct m.
Qed.

Lemma parsed_message s m n :
  message_from_bytes s = Ok (m, n) -> message_ok m /\ n = 24 + zlen (m_payload m) /\ exists rest, s = message_to_bytes m ++ rest.
Proof.
  intros H. destruct (decide (length s < 24)%nat) as [Hs|Hs]; [by rewrite short_incomplete in H|].
  destruct (frame_of s) as (f & Hf & ->); [lia|]. rewrite parse_frame in H by done. unfold decide_frame in H.
  case_bool_decide as Hm; [|done]. destruct (f_length f >? MAX_MESSAGE_SIZE) eqn:El; [done|]. destruct (Z.ltb_spec (zlen (f_rest f)) (f_length f)) as [|Hge]; [done|].
  destruct (Z.eqb_spec (calculate_checksum (take (Z.to_nat (f_length f)) (f_rest f))) (f_checksum f)) as [Hk|]; [|done]. injection H as <- <-.
  destruct Hf as (Hf1 & Hf2 & Hf3 & Hf4). assert (zlen (take (Z.to_nat (f_length f)) (f_rest f)) = f_length f) as Hz by (unfold zlen, U in *; rewrite length_take; lia).
  split; [split; cbn; try done; lia|]. split; [cbn; lia|]. exists (drop (Z.to_nat (f_length f)) (f_rest f)). unfold message_to_bytes, frame_bytes. cbn. by rewrite <- !app_assoc, take_drop.
Qed.

Lemma parse_no_panic s : message_from_bytes s <> Panic.
Proof.
  destruct (decide (length s < 24)%nat) as [Hs|Hs]; [by rewrite short_incomplete|]. destruct (frame_of s) as (f & Hf & ->); [lia|].
  rewrite parse_frame by done. unfold decide_frame. by repeat case_match.
Qed.

(** a prefix of undecided input is undecided *)
Lemma incomplete_prefix s t : message_from_bytes (s ++ t) = Err Incomplete -> message_from_bytes s = Err Incomplete.
Proof.
  intros H. destruct (decide (length s < 24)%nat) as [Hs|Hs]; [by apply short_incomplete|]. destruct (frame_of s) as ([m c l k r] & Hf & ->); [lia|].
  replace (frame_bytes (mkFrame m c l k r) ++ t) with (frame_bytes (mkFrame m c l k (r ++ t))) in H by (unfold frame_bytes; cbn; by rewrite <- !app_assoc).
  rewrite parse_frame in H |- * by done. unfold decide_frame in *. cbn [f_magic f_command f_length f_checksum f_rest] in *.
  case_bool_decide; [|done]. destruct (l >? MAX_MESSAGE_SIZE); [done|]. destruct (zlen (r ++ t) <? l) eqn:E; [|by destruct (_ =? _)].
  rewrite zlen_app in E. pose proof (zlen_nonneg t). by rewrite (proj2 (Z.ltb_lt _ _)) by lia.
Qed.

(** a part of a message is undecided *)
Lemma partial_incomplete m s t : message_ok m -> s ++ t = message_to_bytes m -> t <> [] -> message_from_bytes s = Err Incomplete.
Proof.
  intros Hm Hst Ht. destruct (decide (length s < 24)%nat) as [Hs|Hs]; [by apply short_incomplete|]. destruct (frame_of s) as ([g c l k r] & Hf & ->); [lia|].
  assert (frame_bytes (mkFrame g c l k (r ++ t)) = frame_bytes (message_frame m [])) as E.
  { rewrite message_frame_bytes, app_nil_r, <- Hst. unfold frame_bytes. cbn. by rewrite <- !app_assoc. }
  pose proof (zlen_frame _ (message_frame_ok m [] Hm)) as Hz. rewrite <- E in Hz.
  assert (frame_ok (mkFrame g c l k (r ++ t))) as Hf' by exact Hf. rewrite (zlen_frame _ Hf') in Hz. cbn [message_frame f_rest] in Hz.
  pose proof (parse_message m [] Hm) as Hp. rewrite <- message_frame_bytes, <- E, parse_frame in Hp by exact Hf'. rewrite parse_frame by done.
  unfold decide_frame in *. cbn [f_magic f_command f_length f_checksum f_rest] in *. case_bool_decide; [|done]. destruct (l >? MAX_MESSAGE_SIZE); [done|].
  destruct (zlen (r ++ t) <? l); [done|]. destruct (_ =? _) in Hp; [|done]. injection Hp as <- Hp. cbn [m_payload] in Hp, Hz. rewrite !zlen_app in Hz.
  assert (0 < zlen t) by (destruct t; [done|]; rewrite zlen_cons; pose proof (zlen_nonneg t); lia). change (zlen (@nil byte)) with 0 in Hz. by rewrite (proj2 (Z.ltb_lt _ _)) by lia.
Qed.

(** ** The queue *)

(** what a message leaves for the next within the limit of the buffer *)
Definition message_fits (m : Message) : Prop := message_ok m /\ 24 + zlen (m_payload m) <= MAX_MESSAGE_SIZE.

Definition stream (ms : list Message) : list byte := concat (map message_to_bytes ms).

(** a cut of [a ++ b] lies behind [a] or inside it *)
Lemma split_at {A} (s t a b : list A) : s ++ t = a ++ b ->
  (exists k, s = a ++ k /\ k ++ t = b) \/ exists x k, a = s ++ x :: k /\ t = (x :: k) ++ b.
Proof.
  intros H. apply app_eq_app in H as (k & [[-> ->]|[-> ->]]); [left; by exists k|]. destruct k as [|x k]; [left; exists []; by rewrite !app_nil_r|right; by exists x, k].
Qed.

(** the messages that are complete in a part of a stream are cut off, and the rest is
    a part of the next message *)
Lemma extract_stream fuel ms tail s t : forall buf consumed out,
  drop (Z.to_nat consumed) buf = s -> 0 <= consumed -> (length s < fuel)%nat -> Forall message_fits ms -> message_from_bytes tail = Err Incomplete -> zlen tail <= MAX_MESSAGE_SIZE ->
  s ++ t = stream ms ++ tail ->
  exists done todo rest consumed', ms = done ++ todo /\ extract fuel buf consumed out = Some (consumed', out ++ done, None) /\ consumed <= consumed' /\
    drop (Z.to_nat consumed') buf = rest /\ rest ++ t = stream todo ++ tail /\ zlen rest <= MAX_MESSAGE_SIZE /\ message_from_bytes rest = Err Incomplete.
Proof.
  revert ms s. induction fuel as [|fuel IH]; intros ms s buf consumed out Hb Hc Hfuel Hms Htail Hsize Hst; [lia|].
  destruct ms as [|m ms]; cbn [stream map concat] in Hst.
  - assert (message_from_bytes s = Err Incomplete) as Hs by (apply (incomplete_prefix s t); by rewrite Hst).
    exists [], [], s, consumed. cbn [extract app]. rewrite Hb, app_nil_r, Hs. cbn [stream map concat app] in Hst. split_and!; try done.
    rewrite <- Hst, zlen_app in Hsize. pose proof (zlen_nonneg t). lia.
  - apply Forall_cons in Hms as [[Hm Hfit] Hms]. rewrite <- app_assoc in Hst. cbn [extract]. rewrite Hb.
    apply split_at in Hst as [(k & -> & Hk)|(x & k & Hk & ->)].
    + rewrite (parse_message m k Hm). pose proof (zlen_message m Hm) as Hz. rewrite length_app in Hfuel. pose proof (zlen_nonneg (m_payload m)).
      assert (drop (Z.to_nat (consumed + (24 + zlen (m_payload m)))) buf = k) as Hb'.
      { rewrite Z2Nat.inj_add by lia. rewrite <- drop_drop, Hb, <- Hz, to_nat_zlen. by apply drop_app_exact. }
      destruct (IH ms k buf (consumed + (24 + zlen (m_payload m))) (out ++ [m]) Hb') as (d & todo & rest & c' & -> & E & Hle & Hr & Hst & Hsz & Hi);
        [lia|unfold zlen in Hz; lia|done..|]. exists (m :: d), todo, rest, c'. split_and!; try done; [by rewrite E, <- app_assoc|lia].
    + assert (message_from_bytes s = Err Incomplete) as Hs by by apply (partial_incomplete m s (x :: k)).
      rewrite Hs. exists [], (m :: ms), s, consumed. rewrite app_nil_r. split_and!; try done.
      * unfold stream. cbn [map concat]. rewrite Hk, <- !app_assoc. done.
      * pose proof (zlen_message m Hm) as Hz. rewrite Hk, zlen_app in Hz. pose proof (zlen_nonneg (x :: k)). lia.
Qed.

Lemma process_stream q c ms tail t :
  zlen (buffer q) <= MAX_MESSAGE_SIZE -> zlen c <= MAX_MESSAGE_SIZE -> Forall message_fits ms -> message_from_bytes tail = Err Incomplete -> zlen tail <= MAX_MESSAGE_SIZE ->
  buffer q ++ c ++ t = stream ms ++ tail ->
  exists done todo rest, ms = done ++ todo /\ process_incoming_data q c = Some (mkQueue rest (messages q ++ done), Ok tt) /\
    rest ++ t = stream todo ++ tail /\ zlen rest <= MAX_MESSAGE_SIZE /\ message_from_bytes rest = Err Incomplete.
Proof.
  intros Hq Hc Hms Htail Hsize Hst. unfold process_incoming_data. rewrite Z.gtb_ltb, (proj2 (Z.ltb_ge _ _)) by lia. cbv zeta.
  destruct (extract_stream (S (length (buffer q ++ c))) ms tail (buffer q ++ c) t (buffer q ++ c) 0 (messages q)) as (d & todo & rest & c' & -> & E & Hle & Hr & Hst' & Hsz & Hi);
    try done; [lia|by rewrite <- app_assoc|]. rewrite E. exists d, todo, rest. split; [done|].
  assert ((if c' >? 0 then drop (Z.to_nat c') (buffer q ++ c) else buffer q ++ c) = rest) as ->.
  { destruct (Z.gtb_spec c' 0); [done|]. rewrite <- Hr. replace c' with 0 by lia. done. }
  rewrite Z.gtb_ltb, (proj2 (Z.ltb_ge _ _)) by lia. done.
Qed.

Lemma feed_stream chunks : forall q ms tail,
  zlen (buffer q) <= MAX_MESSAGE_SIZE -> Forall (fun c => zlen c <= MAX_MESSAGE_SIZE) chunks -> Forall message_fits ms -> message_from_bytes tail = Err Incomplete -> zlen tail <= MAX_MESSAGE_SIZE ->
  buffer q ++ concat chunks = stream ms ++ tail -> message_from_bytes (buffer q) = Err Incomplete ->
  feed q chunks = Some (mkQueue tail (messages q ++ ms), Ok tt).
Proof.
  induction chunks as [|c chunks IH]; intros q ms tail Hq Hcs Hms Htail Hsize Hst Hi; cbn [concat] in Hst.
  - rewrite app_nil_r in Hst. destruct ms as [|m ms]; [cbn in Hst; rewrite app_nil_r; cbn; by rewrite <- Hst; destruct q|].
    apply Forall_cons in Hms as [[Hm _] _]. unfold stream in Hst. cbn [map concat] in Hst. by rewrite Hst, <- app_assoc, parse_message in Hi.
  - apply Forall_cons in Hcs as [Hc Hcs]. destruct (process_stream q c ms tail (concat chunks)) as (d & todo & rest & -> & E & Hst' & Hsz & Hi'); try done.
    cbn [feed]. rewrite E. apply Forall_app in Hms as [_ Hms]. rewrite (IH (mkQueue rest (messages q ++ d)) todo tail); try done. cbn. by rewrite <- app_assoc.
Qed.

(** ** Properties *)

(** the message format is exact.  [Message::from_bytes] returns a message and a
    size exactly when the input starts with the serialization of a well-formed
    message (the network magic, a 12-byte command, the length of the payload, at
    most MAX_MESSAGE_SIZE, and the checksum of the payload) and the size is that of
    the serialization; it never panics; and everything [Message::new] builds is such
    a message, with the given payload. *)
Theorem framing_exact s m n command payload :
  (message_from_bytes s = Ok (m, n) <-> message_ok m /\ n = zlen (message_to_bytes m) /\ exists rest, s = message_to_bytes m ++ rest) /\
  message_from_bytes s <> Panic /\
  forall m', message_new command payload = Ok m' -> message_from_bytes (message_to_bytes m') = Ok (m', zlen (message_to_bytes m')) /\ m_payload m' = payload.
Proof.
  split; [|split; [apply parse_no_panic|]].
  - split.
    + intros H. apply parsed_message in H as (Hm & -> & Hr). by rewrite zlen_message.
    + intros (Hm & -> & rest & ->). by rewrite zlen_message, parse_message.
  - intros m' Hm'. apply message_new_ok in Hm' as [Hm' Hp]. split; [|done]. rewrite zlen_message by done. rewrite <- (parse_message m' []) by done. by rewrite app_nil_r.
Qed.

(** the pieces a stream arrives in do not matter.  When a connection carries the
    serializations of messages that fit the buffer, followed by at most a part of
    another, then after any division into reads of at most MAX_MESSAGE_SIZE bytes the
    queue has accepted every read and holds exactly those messages, in order, and the
    unfinished part. *)
Theorem stream_chunking chunks ms tail :
  Forall message_fits ms -> message_from_bytes tail = Err Incomplete -> zlen tail <= MAX_MESSAGE_SIZE ->
  Forall (fun c => zlen c <= MAX_MESSAGE_SIZE) chunks -> concat chunks = stream ms ++ tail ->
  feed queue_new chunks = Some (mkQueue tail ms, Ok tt).
Proof. intros Hms Ht Hz Hcs Hst. by apply (feed_stream chunks queue_new ms tail). Qed.

(** A message whose serialization is longer than the buffer allows is refused when a
    read leaves more than MAX_MESSAGE_SIZE bytes of it waiting, although
    [Message::new] builds it and [Message::from_bytes] accepts it: the limit counts
    the header, the message limit does not. *)
Theorem large_message_refused m k :
  message_ok m -> MAX_MESSAGE_SIZE < Z.of_nat k < 24 + zlen (m_payload m) ->
  feed queue_new [take k (message_to_bytes m); drop k (message_to_bytes m)] =
    Some (mkQueue (take k (message_to_bytes m)) [], Err "Buffer exceeds maximum message size"%string).
Proof.
  intros Hm Hk. pose proof (zlen_message m Hm) as Hz. pose proof (mo_size _ Hm) as Hs. cbn [feed]. unfold process_incoming_data, queue_new. cbn [buffer messages app].
  assert (zlen (take k (message_to_bytes m)) = Z.of_nat k) as Hl by (unfold zlen in *; rewrite length_take; lia).
  change (zlen (@nil byte)) with 0. rewrite Hl, Z.gtb_ltb, (proj2 (Z.ltb_ge (MAX_MESSAGE_SIZE * 2) (0 + Z.of_nat k))) by (unfold MAX_MESSAGE_SIZE in *; lia). cbn [extract]. rewrite drop_0.
  rewrite (partial_incomplete m _ (drop k (message_to_bytes m))); [|done|apply take_drop|].
  - cbn. by rewrite Hl, Z.gtb_ltb, (proj2 (Z.ltb_lt _ _)) by lia.
  - intros E. apply (f_equal length) in E. rewrite length_drop in E. unfold zlen in Hz, Hk. change (length (@nil byte)) with 0%nat in E. lia.
Qed.
End Framing.

(** ** Examples *)

Definition sample_message : Message :=
  @mkMessage NET_MAGIC (replicate 12 x61) 3 (@calculate_checksum toy_sha256 [x01; x02; x03]) [x01; x02; x03].

Lemma sample_message_fits : @message_fits toy_sha256 sample_message.
Proof. split; [split; reflexivity || (vm_compute; discriminate)|vm_compute; discriminate]. Qed.

Lemma stream_chunking_witness :
  @feed toy_sha256 queue_new [take 20 (message_to_bytes sample_message); drop 20 (message_to_bytes sample_message) ++ [xfc]] = Some (mkQueue [xfc] [sample_message], Ok tt).
Proof.
  apply (@stream_chunking toy_sha256 _ [sample_message] [xfc]).
  - apply Forall_cons. split; [exact sample_message_fits|constructor].
  - vm_compute. reflexivity.
  - vm_compute. discriminate.
  - repeat (apply Forall_cons; split; [vm_compute; discriminate|]). constructor.
  - vm_compute. reflexivity.
Defined.
