(* ===== verification/Messages.v ===== *)
(** * Messages: the payloads of the protocol

    Models src/src/network/message_addr.rs, message_getheaders.rs,
    message_headers.rs, message_inv.rs and message_version.rs, and from
    src/src/network.rs the network addresses, service flags, command names and
    variable-length strings.  A Rust [String] is the list of its bytes, which
    [utf8_valid] holds of; an IP address is the list of its octets. *)
From Stdlib Require Import Strings.Byte.
From stdpp Require Import base numbers list strings gmap.
From S2P Require Import Prelude Codec Types Network.

(** ** Addresses (network.rs, utils.rs) *)

Inductive IpAddr := V4 (octets : list byte) | V6 (octets : list byte).

Definition v4_prefix : list byte := replicate 10 x00 ++ [xff; xff].

Definition ipv4_to_mapped_ipv6 (octets : list byte) : list byte := v4_prefix ++ octets.

(** [IpAddr::from(octets).to_canonical()] *)
Definition canonical_ip (octets : list byte) : IpAddr :=
  if bool_decide (take 12 octets = v4_prefix) then V4 (drop 12 octets) else V6 octets.

(** the flags of [ServiceMask], and [from_bits_truncate] *)
Definition NODE_NETWORK : Z := 1.
Definition SERVICE_BITS : Z := 1 + 2 + 4 + 8 + 16 + 64 + 1024.
Definition from_bits_truncate (bits : Z) : Z := Z.land bits SERVICE_BITS.

Record NetworkAddress := mkAddress { a_services : Z; a_address : IpAddr; a_port : Z }.

Definition network_address_new (address : IpAddr) (port : Z) : NetworkAddress := mkAddress NODE_NETWORK address port.

Definition address_to_network_bytes (a : NetworkAddress) : list byte :=
  match a_address a with
  | V4 octets => ipv4_to_mapped_ipv6 octets
  | V6 octets => octets
  end.

Definition address_to_bytes (a : NetworkAddress) : list byte :=
  le_bytes 8 (a_services a) ++ address_to_network_bytes a ++ reverse (le_bytes 2 (a_port a)).

Definition address_from_bytes (bytes : list byte) : result NetworkAddress :=
  ensure (zlen bytes =? 26) else "Invalid byte length for Address" ;;
  Ok (mkAddress (from_bits_truncate (le_val (take 8 bytes))) (canonical_ip (take 16 (drop 8 bytes))) (le_val (reverse (drop 24 bytes)))).

(** ** Strings *)

Definition MAX_VARSTR_LENGTH : Z := 4096.

Definition in_bytes (lo hi : Z) (c : byte) : bool := (lo <=? b2z c) && (b2z c <=? hi).
Definition continuation : byte -> bool := in_bytes 0x80 0xbf.

(** well-formed UTF-8: no overlong form, no surrogate, nothing above U+10FFFF *)
Fixpoint utf8_valid (s : list byte) : bool :=
  match s with
  | [] => true
  | a :: s1 =>
    if b2z a <? 0x80 then utf8_valid s1 else
    match s1 with
    | [] => false
    | b :: s2 =>
      if in_bytes 0xc2 0xdf a then continuation b && utf8_valid s2 else
      match s2 with
      | [] => false
      | c :: s3 =>
        if in_bytes 0xe0 0xef a then
          in_bytes (if b2z a =? 0xe0 then 0xa0 else 0x80) (if b2z a =? 0xed then 0x9f else 0xbf) b && continuation c && utf8_valid s3
        else
        match s3 with
        | [] => false
        | d :: s4 =>
          in_bytes 0xf0 0xf4 a && in_bytes (if b2z a =? 0xf0 then 0x90 else 0x80) (if b2z a =? 0xf4 then 0x8f else 0xbf) b &&
          continuation c && continuation d && utf8_valid s4
        end
      end
    end
  end.

Definition write_varstr (s : list byte) : list byte := write_varint (zlen s) ++ s.

Definition decode_varstr : reader (list byte) :=
  length ← decode_varint;
  if length >? MAX_VARSTR_LENGTH then rfail "varstr length exceeds maximum" else
  str_bytes ← read_exact (Z.to_nat length);
  if utf8_valid str_bytes then mret str_bytes else rfail "varstr contains invalid UTF-8".

(** ** Commands *)

Inductive NetworkCommand :=
| Version | Verack | Ping | Pong | Alert | GetAddr | Addr | Inv | GetData | NotFound | GetHeaders | Headers | SendHeaders
| BlockCmd | Tx | MempoolCmd | GetBlocks | Unknown (s : string).

Definition from_command_str (s : string) : NetworkCommand :=
  if String.eqb s "version" then Version
  else if String.eqb s "verack" then Verack
  else if String.eqb s "ping" then Ping
  else if String.eqb s "pong" then Pong
  else if String.eqb s "alert" then Alert
  else if String.eqb s "getaddr" then GetAddr
  else if String.eqb s "addr" then Addr
  else if String.eqb s "inv" then Inv
  else if String.eqb s "getdata" then GetData
  else if String.eqb s "notfound" then NotFound
  else if String.eqb s "getheaders" then GetHeaders
  else if String.eqb s "headers" then Headers
  else if String.eqb s "sendheaders" then SendHeaders
  else if String.eqb s "block" then BlockCmd
  else if String.eqb s "tx" then Tx
  else if String.eqb s "mempool" then MempoolCmd
  else if String.eqb s "getblocks" then GetBlocks
  else Unknown s.

(** ** addr *)

Record AddrEntry := mkAddr { ae_timestamp : Z; ae_address : NetworkAddress }.

Definition addr_entry_to_bytes (e : AddrEntry) : list byte := le_bytes 4 (ae_timestamp e) ++ address_to_bytes (ae_address e).
Definition message_addr_to_bytes (l : list AddrEntry) : list byte := write_varint (zlen l) ++ concat (map addr_entry_to_bytes l).

(** [MessageAddr::new] with the clock's time *)
Definition message_addr_new (unix_now : Z) (nodes_list : list NetworkAddress) : list AddrEntry := mkAddr (unix_now mod 2 ^ 32) <$> nodes_list.

Definition lift_result {A} (r : result A) : reader A := fun s => a ← r; Ok (a, s).

Definition addr_entry_from_cursor : reader AddrEntry :=
  timestamp ← rcontext "failed to read addr timestamp" read_u32;
  buffer ← rcontext "failed to read addr network address bytes" (read_exact 26);
  address ← rcontext "failed to parse addr network address" (lift_result (address_from_bytes buffer));
  mret (mkAddr timestamp address).

Definition message_addr_from_bytes (bytes : list byte) : result (list AddrEntry) :=
  run_reader (count ← rcontext "failed to decode addr count" decode_varint;
    if count >? 1000 then rfail "addr message claims too many entries" else read_many (Z.to_nat count) addr_entry_from_cursor) bytes.

(** ** getheaders *)

Definition GETHEADERS_VERSION : Z := 70012.
Definition MAX_LOCATOR_COUNT : Z := 101.

Record MessageGetHeaders := mkGetHeaders { locator_hashes : list Hash256; hash_stop : Hash256 }.

Definition getheaders_to_bytes (m : MessageGetHeaders) : list byte :=
  le_bytes 4 GETHEADERS_VERSION ++ write_varint (zlen (locator_hashes m)) ++ concat (map as_bytes (locator_hashes m)) ++ as_bytes (hash_stop m).

Definition hash_from_cursor (msg : string) : reader Hash256 := h ← rcontext msg (read_exact HASH_LEN); mret (mkHash h).

Definition getheaders_from_bytes (bytes : list byte) : result MessageGetHeaders :=
  run_reader (_ ← rcontext "failed to read getheaders version" read_u32;
    count ← rcontext "failed to decode getheaders hash count" decode_varint;
    if count >? MAX_LOCATOR_COUNT then rfail "getheaders hash_count exceeds maximum" else
    locator_hashes ← read_many (Z.to_nat count) (hash_from_cursor "failed to read locator hash");
    hash_stop ← hash_from_cursor "failed to read hash_stop";
    mret (mkGetHeaders locator_hashes hash_stop)) bytes.

(** ** headers *)

Definition MAX_HEADERS_PER_MSG : Z := 2000.

Definition headers_entry_to_bytes (h : BlockHeader) : list byte := header_to_bytes h ++ write_varint 0.
Definition message_headers_to_bytes (l : list BlockHeader) : list byte := write_varint (zlen l) ++ concat (map headers_entry_to_bytes l).

Definition headers_entry_from_cursor : reader BlockHeader :=
  header ← rcontext "failed to read header" header_from_cursor;
  tx_count ← rcontext "failed to read tx_count for header" decode_varint;
  if negb (tx_count =? 0) then rfail "header has non-zero tx_count" else mret header.

Definition message_headers_from_cursor : reader (list BlockHeader) :=
  count ← rcontext "failed to decode headers count" decode_varint;
  if count >? MAX_HEADERS_PER_MSG then rfail "headers message claims too many headers" else read_many (Z.to_nat count) headers_entry_from_cursor.

Definition message_headers_from_bytes (bytes : list byte) : result (list BlockHeader) := run_reader message_headers_from_cursor bytes.

(** ** inv, getdata and notfound *)

Definition MAX_INV_SIZE : Z := 50000.
Definition MSG_WITNESS_FLAG : Z := Z.shiftl 1 30.
Definition MSG_MWEB_FLAG : Z := Z.shiftl 1 29.

Inductive InvType := InvTx | InvBlock | InvFilteredBlock | InvCompactBlock.

Definition inv_type_code (t : InvType) : Z :=
  match t with InvTx => 1 | InvBlock => 2 | InvFilteredBlock => 3 | InvCompactBlock => 4 end.

Definition inv_type_from_u32 (n : Z) : option InvType :=
  let stripped := Z.land n (Z.lxor (2 ^ 32 - 1) (Z.lor MSG_WITNESS_FLAG MSG_MWEB_FLAG)) in
  if stripped =? 1 then Some InvTx
  else if stripped =? 2 then Some InvBlock
  else if stripped =? 3 then Some InvFilteredBlock
  else if stripped =? 4 then Some InvCompactBlock
  else None.

Record InvItem := mkInv { inv_type : InvType; inv_hash : Hash256 }.

Definition inv_item_to_bytes (i : InvItem) : list byte := le_bytes 4 (inv_type_code (inv_type i)) ++ as_bytes (inv_hash i).

Definition inv_item_from_cursor : reader (option InvItem) :=
  raw_type ← rcontext "failed to read inv type" read_u32;
  hash_bytes ← rcontext "failed to read inv hash" (read_exact HASH_LEN);
  mret ((fun t => mkInv t (mkHash hash_bytes)) <$> inv_type_from_u32 raw_type).

Definition message_inv_to_bytes (l : list InvItem) : list byte := write_varint (zlen l) ++ concat (map inv_item_to_bytes l).

Definition message_inv_from_bytes (bytes : list byte) : result (list InvItem) :=
  run_reader (count ← rcontext "failed to decode inv count" decode_varint;
    if count >? MAX_INV_SIZE then rfail "inv message claims too many items" else
    items ← read_many (Z.to_nat count) inv_item_from_cursor;
    mret (omap id items)) bytes.

(** ** version *)

Definition PROTOCOL_VERSION : Z := 70012.

Record MessageVersion := mkVersion {
  v_version : Z; v_services : Z; v_timestamp : Z; v_addr_recv : NetworkAddress; v_nonce : Z; v_user_agent : list byte;
  v_start_height : Z; v_relay : bool }.

(** [MessageVersion::new] with the clock's time and the crate's version *)
Definition message_version_new (unix_now : Z) (user_agent : list byte) (addr_recv : NetworkAddress) (nonce start_height : Z) : MessageVersion :=
  mkVersion PROTOCOL_VERSION NODE_NETWORK (to_signed 64 unix_now) addr_recv nonce user_agent (to_signed 32 start_height) true.

Definition message_version_to_bytes (m : MessageVersion) : list byte :=
  le_bytes 4 (v_version m) ++ le_bytes 8 (v_services m) ++ le_bytes 8 (v_timestamp m) ++ address_to_bytes (v_addr_recv m) ++ replicate 26 x00 ++
  le_bytes 8 (v_nonce m) ++ write_varstr (v_user_agent m) ++ le_bytes 4 (v_start_height m) ++ [if v_relay m then x01 else x00].

(** [read_u8().map_or(true, |b| b != 0)] *)
Definition read_relay : reader bool := fun s =>
  match read_u8 s with
  | Ok (b, s) => Ok (negb (b =? 0), s)
  | Err _ => Ok (true, s)
  | Panic => Panic
  end.

Definition message_version_from_cursor : reader MessageVersion :=
  version ← rcontext "failed to read version field" read_u32;
  services ← rcontext "failed to read services field" read_u64;
  timestamp ← rcontext "failed to read timestamp field" read_i64;
  address ← rcontext "failed to read addr_recv" (read_exact 26);
  addr_recv ← rcontext "failed to parse addr_recv" (lift_result (address_from_bytes address));
  _ ← rcontext "failed to read addr_from" (read_exact 26);
  nonce ← rcontext "failed to read nonce" read_u64;
  user_agent ← rcontext "failed to read user_agent" decode_varstr;
  start_height ← rcontext "failed to read start_height" read_i32;
  relay ← read_relay;
  mret (mkVersion version (from_bits_truncate services) timestamp addr_recv nonce user_agent start_height relay).

Definition message_version_from_bytes (bytes : list byte) : result MessageVersion :=
  ensure (negb (zlen bytes <? 85)) else "Insufficient bytes for MessageVersion" ;;
  run_reader message_version_from_cursor bytes.

(** ** Codecs *)

#[local] Arguments le_bytes : simpl never.
#[local] Arguments write_varint : simpl never.
#[local] Arguments header_to_bytes : simpl never.
#[local] Arguments address_to_bytes : simpl never.

Definition ip_ok (a : IpAddr) : Prop :=
  match a with
  | V4 octets => length octets = 4%nat
  | V6 octets => length octets = 16%nat /\ take 12 octets <> v4_prefix
  end.

Record address_ok (a : NetworkAddress) : Prop := {
  ao_services : U 64 (a_services a) /\ from_bits_truncate (a_services a) = a_services a;
  ao_ip : ip_ok (a_address a);
  ao_port : U 16 (a_port a);
}.

Lemma length_network_bytes a : ip_ok (a_address a) -> length (address_to_network_bytes a) = 16%nat.
Proof. unfold address_to_network_bytes. destruct (a_address a) as [o|o]; cbn [ip_ok]; [|tauto]. intros Ho. unfold ipv4_to_mapped_ipv6. rewrite length_app, Ho. done. Qed.

Lemma length_address a : ip_ok (a_address a) -> length (address_to_bytes a) = 26%nat.
Proof. intros Ha. unfold address_to_bytes. rewrite !length_app, length_reverse, !length_le_bytes, length_network_bytes; done. Qed.

Lemma canonical_network_bytes a : ip_ok (a_address a) -> canonical_ip (address_to_network_bytes a) = a_address a.
Proof.
  unfold address_to_network_bytes, canonical_ip. destruct (a_address a) as [o|o]; cbn [ip_ok]; intros Ho.
  - unfold ipv4_to_mapped_ipv6. rewrite (take_app_exact v4_prefix) by done. rewrite bool_decide_true by done. by rewrite (drop_app_exact v4_prefix).
  - by rewrite bool_decide_false by apply Ho.
Qed.

Lemma address_roundtrip a : address_ok a -> address_from_bytes (address_to_bytes a) = Ok a.
Proof.
  intros [[Hs Ht] Hi Hp]. unfold address_from_bytes. assert (zlen (address_to_bytes a) = 26) as -> by (unfold zlen; by rewrite length_address).
  cbn [Z.eqb]. unfold address_to_bytes. assert (length (le_bytes 8 (a_services a)) = 8%nat) as H8 by apply length_le_bytes.
  rewrite take_app_exact by done. rewrite (drop_app_exact (le_bytes 8 (a_services a))) by done. rewrite take_app_exact by by rewrite length_network_bytes.
  rewrite app_assoc, drop_app_exact by (by rewrite length_app, H8, length_network_bytes). rewrite reverse_involutive, canonical_network_bytes by done.
  rewrite !le_val_le_bytes, !Z.mod_small, Ht by (unfold U in *; lia). by destruct a.
Qed.

Lemma lift_Ok {A} (r : result A) a s : r = Ok a -> lift_result r s = Ok (a, s).
Proof. by intros ->. Qed.

(** the address in a message: 26 bytes that are then parsed *)
Lemma read_address {A} msg1 msg2 (k : NetworkAddress -> reader A) a s : address_ok a ->
  (b ← rcontext msg1 (read_exact 26); a ← rcontext msg2 (lift_result (address_from_bytes b)); k a) (address_to_bytes a ++ s) = k a s.
Proof.
  intros Ha. field_step (raw_codec 26); [apply length_address, Ha|]. rewrite (reader_bind_eq _ _ s a s); [done|]. apply rcontext_Ok, lift_Ok. by apply address_roundtrip.
Qed.

(** a list preceded by its length *)
Definition counted {A} (limit : Z) (msg1 msg2 : string) (r : reader A) : reader (list A) :=
  count ← rcontext msg1 decode_varint; if count >? limit then rfail msg2 else read_many (Z.to_nat count) r.

Lemma counted_decodes {A} (c : codec A) `{!Decodes c} limit msg1 msg2 l s :
  zlen l <= limit -> limit < 2 ^ 64 -> Forall (valid c) l ->
  counted limit msg1 msg2 (decode c) (write_varint (zlen l) ++ concat (map (encode c) l) ++ s) = Ok (l, s).
Proof.
  intros Hl Hlim Hv. unfold counted. field_step varint; [eapply zlen_U64; done|]. limit_step. rewrite to_nat_zlen.
  exact (decode_encode (c := many_codec (length l) c) l s (conj eq_refl Hv)).
Qed.

Lemma counted_canonical {A} (c : codec A) `{!Canonical c} limit msg1 msg2 s l s' :
  counted limit msg1 msg2 (decode c) s = Ok (l, s') ->
  zlen l <= limit /\ Forall (valid c) l /\ s = write_varint (zlen l) ++ concat (map (encode c) l) ++ s'.
Proof.
  unfold counted. intros H. field_inv varint H n Hn. limit_inv H. apply (encode_decode (c := many_codec (Z.to_nat n) c)) in H as [[Hl Hv] ->]. cbn [encode many_codec].
  apply zlen_to_nat in Hl; [|done]. subst n. done.
Qed.

Definition entry_codec : codec AddrEntry := Codec_ addr_entry_to_bytes addr_entry_from_cursor (fun e => U 32 (ae_timestamp e) /\ address_ok (ae_address e)).
Definition hash_codec msg : codec Hash256 := Codec_ as_bytes (hash_from_cursor msg) hash_ok.
Definition headers_codec : codec BlockHeader := Codec_ headers_entry_to_bytes headers_entry_from_cursor header_ok.

#[global] Instance entry_decodes : Decodes entry_codec.
Proof.
  intros [t a] s [Ht Ha]. cbn in *. unfold addr_entry_to_bytes, addr_entry_from_cursor. cbn [ae_timestamp ae_address]. rewrite <- app_assoc.
  field_step (le_codec 4); [exact Ht|]. by rewrite read_address.
Qed.

#[global] Instance hash_decodes msg : Decodes (hash_codec msg).
Proof. intros [h] s Hh. cbn in *. unfold hash_from_cursor. field_step (raw_codec HASH_LEN); [exact Hh|]. done. Qed.

#[global] Instance headers_decodes : Decodes headers_codec.
Proof.
  intros h s Hh. cbn in *. unfold headers_entry_to_bytes, headers_entry_from_cursor. rewrite <- app_assoc. field_step header_codec; [exact Hh|].
  field_step varint; [cbn; range|]. done.
Qed.

#[global] Instance headers_canonical : Canonical headers_codec.
Proof.
  intros s h s' H. cbn in *. unfold headers_entry_from_cursor in H. field_inv header_codec H h' Hh. field_inv varint H n Hn.
  destruct (Z.eqb_spec n 0) as [->|]; [|done]. apply reader_ret_Ok in H as [<- <-]. split; [done|]. unfold headers_entry_to_bytes. cbn. by rewrite <- app_assoc.
Qed.

(** ** Inventory items *)

(** an item as it is on the wire: a type code and a hash *)
Definition raw_item : codec (Z * list byte) :=
  Codec_ (fun x => le_bytes 4 x.1 ++ x.2)
    (t ← rcontext "failed to read inv type" read_u32; h ← rcontext "failed to read inv hash" (read_exact HASH_LEN); mret (t, h))
    (fun x => U 32 x.1 /\ length x.2 = HASH_LEN).
Definition known (x : Z * list byte) : option InvItem := (fun t => mkInv t (mkHash x.2)) <$> inv_type_from_u32 x.1.

#[global] Instance raw_item_decodes : Decodes raw_item.
Proof. intros [t h] s [Ht Hh]. cbn in *. rewrite <- app_assoc. field_step (le_codec 4); [exact Ht|]. field_step (raw_codec HASH_LEN); [exact Hh|]. done. Qed.
#[global] Instance raw_item_canonical : Canonical raw_item.
Proof.
  intros s [t h] s' H. cbn in *. field_inv (le_codec 4) H t' Ht. field_inv (raw_codec HASH_LEN) H h' Hh. apply reader_ret_Ok in H as [[= <- <-] <-].
  split; [done|]. cbn. by rewrite <- app_assoc.
Qed.

Lemma read_many_map {A C} (f : A -> C) (r : reader A) (r' : reader C) n :
  (forall s, r' s = '(a, s') ← r s; Ok (f a, s')) -> forall s, read_many n r' s = '(l, s') ← read_many n r s; Ok (map f l, s').
Proof.
  intros Hr. induction n as [|n IH]; intros s; cbn [read_many]; [done|]. unfold mbind, reader_bind, res_bind in *. rewrite Hr.
  destruct (r s) as [[a s1]| |]; [|done..]. rewrite IH. by destruct (read_many n r s1) as [[l s2]| |].
Qed.

Lemma inv_item_known s : inv_item_from_cursor s = '(x, s') ← decode raw_item s; Ok (known x, s').
Proof.
  unfold inv_item_from_cursor, raw_item, known. cbn [decode]. unfold mbind, reader_bind, res_bind. destruct (rcontext _ read_u32 s) as [[t s1]| |]; [|done..].
  by destruct (rcontext _ (read_exact HASH_LEN) s1) as [[h s2]| |].
Qed.

Lemma inv_from_bytes bytes :
  message_inv_from_bytes bytes =
    match counted MAX_INV_SIZE "failed to decode inv count" "inv message claims too many items" (decode raw_item) bytes with
    | Ok (l, _) => Ok (omap known l)
    | Err e => Err e
    | Panic => Panic
    end.
Proof.
  unfold message_inv_from_bytes, run_reader, counted. unfold mbind, reader_bind, res_bind. destruct (rcontext _ decode_varint bytes) as [[n s]| |]; [|done..].
  destruct (n >? MAX_INV_SIZE); [done|]. rewrite (read_many_map known (decode raw_item) _ _ inv_item_known). destruct (read_many _ _ s) as [[l s']| |]; [|done..].
  cbn. f_equal. clear. induction l as [|x l IH]; cbn; [done|]. destruct (known x) as [i|]; cbn; by rewrite IH.
Qed.

Lemma inv_type_roundtrip t : inv_type_from_u32 (inv_type_code t) = Some t.
Proof. by destruct t. Qed.

Lemma known_item i : hash_ok (inv_hash i) -> known (inv_type_code (inv_type i), as_bytes (inv_hash i)) = Some i.
Proof. intros _. unfold known. cbn [fst snd]. rewrite inv_type_roundtrip. by destruct i as [t [h]]. Qed.

(** ** Versions *)

Record version_ok (m : MessageVersion) : Prop := {
  vo_version : U 32 (v_version m);
  vo_services : U 64 (v_services m) /\ from_bits_truncate (v_services m) = v_services m;
  vo_timestamp : I 64 (v_timestamp m);
  vo_addr : address_ok (v_addr_recv m);
  vo_nonce : U 64 (v_nonce m);
  vo_agent : utf8_valid (v_user_agent m) = true /\ zlen (v_user_agent m) <= MAX_VARSTR_LENGTH;
  vo_height : I 32 (v_start_height m);
}.

Definition varstr_codec : codec (list byte) := Codec_ write_varstr decode_varstr (fun s => utf8_valid s = true /\ zlen s <= MAX_VARSTR_LENGTH).
#[global] Instance varstr_decodes : Decodes varstr_codec.
Proof.
  intros a s [Ha Hl]. cbn in *. unfold write_varstr, decode_varstr. rewrite <- app_assoc. read_step varint; [eapply zlen_U64; [exact Hl|done]|]. limit_step.
  rewrite to_nat_zlen. read_step (raw_codec (length a)); [done|]. by rewrite Ha.
Qed.
#[global] Instance varstr_canonical : Canonical varstr_codec.
Proof.
  intros s a s' H. cbn in *. unfold decode_varstr in H. read_inv varint H n Hn. limit_inv H. read_inv (raw_codec (Z.to_nat n)) H b Hb.
  destruct (utf8_valid b) eqn:E; [|done]. apply reader_ret_Ok in H as [<- <-]. cbn in Hb. apply zlen_to_nat in Hb; [|done]. subst n. split; [done|].
  unfold write_varstr. cbn. by rewrite <- app_assoc.
Qed.

Definition version_codec : codec MessageVersion := Codec_ message_version_to_bytes message_version_from_cursor version_ok.
#[global] Instance version_decodes : Decodes version_codec.
Proof.
  intros [v sv t a nn ua h r] s [Hv [Hs1 Hs2] Ht Ha Hn Hu Hh]. cbn in *. unfold message_version_to_bytes, message_version_from_cursor.
  cbn [v_version v_services v_timestamp v_addr_recv v_nonce v_user_agent v_start_height v_relay]. rewrite <- !app_assoc.
  field_step (le_codec 4); [exact Hv|]. field_step (le_codec 8); [exact Hs1|]. field_step (le_signed_codec 8); [split; [lia|exact Ht]|].
  rewrite read_address by done. field_step (raw_codec 26); [done|]. field_step (le_codec 8); [exact Hn|]. field_step varstr_codec; [exact Hu|].
  field_step (le_signed_codec 4); [split; [lia|exact Hh]|]. rewrite Hs2. by destruct r.
Qed.

Lemma version_size m s : address_ok (v_addr_recv m) -> 85 <= zlen (message_version_to_bytes m ++ s).
Proof.
  intros Ha. unfold message_version_to_bytes, write_varstr. rewrite !zlen_app. pose proof (length_write_varint (zlen (v_user_agent m))).
  pose proof (zlen_nonneg s). pose proof (zlen_nonneg (v_user_agent m)). unfold zlen in *. rewrite length_address, length_replicate, !length_le_bytes by apply Ha. cbn [length]. lia.
Qed.

(** ** Properties *)

Lemma run_reader_run {A} (r : reader A) s a s' : r s = Ok (a, s') -> run_reader r s = Ok a.
Proof. unfold run_reader. by intros ->. Qed.

(** C30: every payload is read back as it was written.  For each kind of message the
    parser, applied to the serialization of a well-formed value followed by any
    bytes, returns that value: addresses (IPv4 in its mapped form, IPv6), locators,
    headers, inventories and versions, up to the largest counts the parsers allow. *)
Theorem payload_roundtrip junk :
  (forall l, zlen l <= 1000 -> Forall (valid entry_codec) l -> message_addr_from_bytes (message_addr_to_bytes l ++ junk) = Ok l) /\
  (forall m, zlen (locator_hashes m) <= MAX_LOCATOR_COUNT -> Forall hash_ok (locator_hashes m) -> hash_ok (hash_stop m) -> getheaders_from_bytes (getheaders_to_bytes m ++ junk) = Ok m) /\
  (forall l, zlen l <= MAX_HEADERS_PER_MSG -> Forall header_ok l -> message_headers_from_bytes (message_headers_to_bytes l ++ junk) = Ok l) /\
  (forall l, zlen l <= MAX_INV_SIZE -> Forall (fun i => hash_ok (inv_hash i)) l -> message_inv_from_bytes (message_inv_to_bytes l ++ junk) = Ok l) /\
  (forall m, version_ok m -> message_version_from_bytes (message_version_to_bytes m ++ junk) = Ok m).
Proof.
  split_and!.
  - intros l Hl Hv. unfold message_addr_to_bytes. rewrite <- app_assoc. eapply run_reader_run. by apply (counted_decodes entry_codec 1000).
  - intros [l h] Hl Hv Hh. cbn in *. unfold getheaders_to_bytes. cbn [locator_hashes hash_stop]. rewrite <- !app_assoc. eapply run_reader_run. field_step (le_codec 4); [cbn; by apply inU_spec|].
    field_step varint; [eapply zlen_U64; [exact Hl|done]|]. limit_step. rewrite to_nat_zlen. read_step (many_codec (length l) (hash_codec "failed to read locator hash")); [done|].
    by rewrite (reader_bind_eq _ _ _ _ _ (decode_encode (c := hash_codec "failed to read hash_stop") h junk Hh)).
  - intros l Hl Hv. unfold message_headers_to_bytes. rewrite <- app_assoc. eapply run_reader_run. by apply (counted_decodes headers_codec MAX_HEADERS_PER_MSG).
  - intros l Hl Hv. rewrite inv_from_bytes. set (raw := (fun i => (inv_type_code (inv_type i), as_bytes (inv_hash i))) <$> l).
    assert (message_inv_to_bytes l = write_varint (zlen raw) ++ concat (map (encode raw_item) raw)) as ->.
    { unfold message_inv_to_bytes, raw, zlen. rewrite length_fmap. f_equal. f_equal. clear. induction l as [|i l IH]; cbn; [done|by f_equal]. }
    rewrite <- app_assoc, (counted_decodes raw_item MAX_INV_SIZE); [|unfold raw, zlen; by rewrite length_fmap|done|].
    + f_equal. unfold raw. clear Hl raw. induction Hv as [|i l Hi Hv IH]; cbn [fmap list_fmap omap list_omap]; [done|]. by rewrite known_item, IH.
    + apply Forall_fmap. eapply Forall_impl; [exact Hv|]. intros i Hi. split; [by destruct (inv_type i); apply inU_spec|exact Hi].
  - intros m Hm. unfold message_version_from_bytes. rewrite (proj2 (Z.ltb_ge _ _)) by (by apply version_size, Hm). cbn [negb]. eapply run_reader_run. by apply (decode_encode (c := version_codec)).
Qed.

Lemma payload_roundtrip_witness :
  message_version_from_bytes (message_version_to_bytes (message_version_new 1700000000 [x2f; x49; x2f] (network_address_new (V4 [x7f; x00; x00; x01]) 9933) 7 100) ++ [xaa]) =
    Ok (message_version_new 1700000000 [x2f; x49; x2f] (network_address_new (V4 [x7f; x00; x00; x01]) 9933) 7 100).
Proof.
  apply (payload_roundtrip [xaa]). split; [by apply inU_spec|split; [by apply inU_spec|reflexivity]|by apply inI_spec| |by apply inU_spec|split; [reflexivity|vm_compute; discriminate]|by apply inI_spec].
  split; [split; [by apply inU_spec|reflexivity]|reflexivity|by apply inU_spec].
Defined.

(** what an inventory means.  [MessageInv::from_bytes] accepts exactly the byte
    strings that start with a count of at most MAX_INV_SIZE and that many items of a
    32-bit type code and a hash, and returns, in order, the items whose code is a
    known type once the witness and MWEB flags are taken off; items of other types
    are skipped.  It never panics. *)
Theorem inventory_exact bytes items :
  (message_inv_from_bytes bytes = Ok items <->
   exists raw rest, zlen raw <= MAX_INV_SIZE /\ Forall (valid raw_item) raw /\
     bytes = write_varint (zlen raw) ++ concat (map (encode raw_item) raw) ++ rest /\ items = omap known raw) /\
  message_inv_from_bytes bytes <> Panic.
Proof.
  rewrite inv_from_bytes. split.
  - split.
    + destruct (counted _ _ _ _ bytes) as [[l rest]| |] eqn:E; [|done..]. intros [= <-].
      apply (counted_canonical raw_item) in E as (Hl & Hv & ->). by exists l, rest.
    + intros (raw & rest & Hl & Hv & -> & ->). by rewrite (counted_decodes raw_item).
  - assert (Safe (counted MAX_INV_SIZE "failed to decode inv count" "inv message claims too many items" (decode raw_item))) as Hs.
    { unfold counted, raw_item, read_u32. cbn [decode]. apply _. }
    pose proof (no_panic (Safe := Hs) bytes). by destruct (counted _ _ _ _ bytes) as [[l rest]| |].
Qed.

(** the headers message is exact *)
Lemma headers_message_exact bytes l :
  message_headers_from_bytes bytes = Ok l <-> zlen l <= MAX_HEADERS_PER_MSG /\ Forall header_ok l /\ exists rest, bytes = message_headers_to_bytes l ++ rest.
Proof.
  unfold message_headers_from_bytes, run_reader. split.
  - destruct (message_headers_from_cursor bytes) as [[k rest]| |] eqn:E; [|done..]. intros [= <-]. apply (counted_canonical headers_codec) in E as (Hl & Hv & ->).
    split; [done|]. split; [done|]. exists rest. unfold message_headers_to_bytes. by rewrite <- app_assoc.
  - intros (Hl & Hv & rest & ->). unfold message_headers_to_bytes. rewrite <- app_assoc.
    eapply (run_reader_run message_headers_from_cursor). by apply (counted_decodes headers_codec MAX_HEADERS_PER_MSG).
Qed.
