(* ===== verification/BlockDownload.v ===== *)
(** * BlockDownload: the block download manager

    Models src/src/nodes/block_download.rs: the sliding window of requested blocks,
    the buffer of blocks that arrived ahead of their turn, their validation and
    connection, timeouts, disconnected peers and reorganisations; and the timeout
    strikes of src/src/nodes/mod.rs, which the timeout scan counts.

    The components the manager shares with the rest of the node (headers, chain
    state, block store, pool, peers) are in [Shared], what it keeps for itself in
    [Window].  The clock, the outcome of sending a message and of trying to lock the
    pool are arguments; connected peers come as the list the peer map yields.
    Left out are the counters that only feed the log and the display.  [None] is a
    trap (a panic, or a loop without fuel). *)
From Stdlib Require Import Strings.Byte.
From stdpp Require Import base numbers list strings gmap.
From S2P Require Import Prelude Codec Types Merkle Compact Float64 Difficulty Validation Vec ScriptNum Signature Engine ScriptVerify Database Coin UndoStore Ledger Chainstate Pow HashOrder Mempool Headers BlockStore Network Messages.

#[global] Instance IpAddr_eq_dec : EqDecision IpAddr.
Proof. solve_decision. Defined.
#[global] Program Instance IpAddr_countable : Countable IpAddr :=
  inj_countable' (fun a => match a with V4 o => inl o | V6 o => inr o end) (fun x => match x with inl o => V4 o | inr o => V6 o end) _.
Next Obligation. by intros []. Qed.

(** instants and durations count nanoseconds *)
Definition SECOND : Z := 1000000000.

(** ** Timeout strikes (nodes/mod.rs) *)

Definition MAX_TIMEOUT_STRIKES : Z := 5.
Definition STRIKE_DECAY_INTERVAL : Z := 300 * SECOND.

Record Strikes := mkStrikes { timeout_strikes : Z; last_strike : option Z; strike_excluded : bool }.

Definition strike (now : Z) (n : Strikes) : Strikes :=
  if timeout_strikes n >=? MAX_TIMEOUT_STRIKES then n else
  let strikes := Z.min 255 (timeout_strikes n + 1) in
  mkStrikes strikes (Some now) (if strikes >=? MAX_TIMEOUT_STRIKES then true else strike_excluded n).

(** [increment_strike]: the peers and the new count *)
Definition increment_strike (nodes : gmap IpAddr Strikes) (now : Z) (peer : IpAddr) : gmap IpAddr Strikes * Z :=
  match nodes !! peer with
  | None => (nodes, 0)
  | Some n => let n := strike now n in (<[peer := n]> nodes, timeout_strikes n)
  end.

Definition decay_strike (now : Z) (n : Strikes) : Strikes :=
  if timeout_strikes n =? 0 then n else
  match last_strike n with
  | None => n
  | Some last =>
    if sat_sub now last <? STRIKE_DECAY_INTERVAL then n else
    let strikes := sat_sub (timeout_strikes n) 1 in
    if strikes =? 0 then mkStrikes strikes None false else mkStrikes strikes (Some now) (strike_excluded n)
  end.
Definition decay_strikes (nodes : gmap IpAddr Strikes) (now : Z) : gmap IpAddr Strikes := decay_strike now <$> nodes.

Definition is_excluded (nodes : gmap IpAddr Strikes) (peer : IpAddr) : bool :=
  match nodes !! peer with Some n => strike_excluded n | None => false end.

(** ** State *)

Definition WINDOW_SIZE : Z := 512.
Definition PER_PEER_LIMIT : Z := 48.
Definition REQUEST_TIMEOUT : Z := 10 * SECOND.
Definition FLUSH_INTERVAL : Z := 500.
Definition SCAN_BATCH_SIZE : Z := 4096.
Definition REFILL_THRESHOLD : Z := WINDOW_SIZE / 4.
Definition MAX_PENDING_BLOCKS : Z := WINDOW_SIZE * 2.

Record InFlightEntry := mkInFlight { f_peer : IpAddr; f_requested_at : Z; f_height : Z }.

Record Window := mkWindow {
  in_flight : gmap Hash256 InFlightEntry;
  next_height : Z;
  stored_hashes : gset Hash256;
  pending_blocks : gmap Z (Hash256 * Block * list byte);
  next_connect_height : Z;
  was_caught_up : bool;
  blocks_since_flush : Z;
}.

Definition set_in_flight (w : Window) f : Window :=
  mkWindow f (next_height w) (stored_hashes w) (pending_blocks w) (next_connect_height w) (was_caught_up w) (blocks_since_flush w).
Definition set_next_height (w : Window) h : Window :=
  mkWindow (in_flight w) h (stored_hashes w) (pending_blocks w) (next_connect_height w) (was_caught_up w) (blocks_since_flush w).
Definition set_stored (w : Window) s : Window :=
  mkWindow (in_flight w) (next_height w) s (pending_blocks w) (next_connect_height w) (was_caught_up w) (blocks_since_flush w).
Definition set_pending (w : Window) p : Window :=
  mkWindow (in_flight w) (next_height w) (stored_hashes w) p (next_connect_height w) (was_caught_up w) (blocks_since_flush w).
Definition set_next_connect (w : Window) h : Window :=
  mkWindow (in_flight w) (next_height w) (stored_hashes w) (pending_blocks w) h (was_caught_up w) (blocks_since_flush w).
Definition set_since_flush (w : Window) n : Window :=
  mkWindow (in_flight w) (next_height w) (stored_hashes w) (pending_blocks w) (next_connect_height w) (was_caught_up w) n.
Definition set_caught_up (w : Window) b : Window :=
  mkWindow (in_flight w) (next_height w) (stored_hashes w) (pending_blocks w) (next_connect_height w) b (blocks_since_flush w).

Record Shared (B UT MT IT KT : Type) := mkShared {
  headers : HeaderStore B;
  chain : ChainState UT MT IT;
  store : BlockStore KT;
  pool : Mempool;
  chain_height : Z;
  nodes : gmap IpAddr Strikes;
}.
Arguments mkShared {B UT MT IT KT}.
Arguments headers {B UT MT IT KT}.
Arguments chain {B UT MT IT KT}.
Arguments store {B UT MT IT KT}.
Arguments pool {B UT MT IT KT}.
Arguments chain_height {B UT MT IT KT}.
Arguments nodes {B UT MT IT KT}.

Section Download.
Context `{HS : Sha256} `{HD : Digests} `{HK : K256} `{HU256 : U256Overflow} `{HO : HashOrder}.
Context {B UT MT IT KT : Type} {HB : HeaderBackend B} {HU : Table (list byte) (list byte) UT} {HM : Table string (list byte) MT}
  {HI : Table (list byte) (Z * Z * Z) IT} {HBI : Table (list byte) (Z * Z * Z) KT}.
Notation shared := (Shared B UT MT IT KT).
Implicit Types (g : shared) (w : Window) (hash : Hash256).

Definition set_chain_state g cs : shared := mkShared (headers g) cs (store g) (pool g) (chain_height g) (nodes g).
Definition set_store g bs : shared := mkShared (headers g) (chain g) bs (pool g) (chain_height g) (nodes g).
Definition set_mempool g mp : shared := mkShared (headers g) (chain g) (store g) mp (chain_height g) (nodes g).
Definition set_nodes g ns : shared := mkShared (headers g) (chain g) (store g) (pool g) (chain_height g) ns.

Definition manager_new g : Window :=
  mkWindow ∅ 1 (all_indexed_hashes (store g)) ∅ (u32_sat_add (tip (chain g)).2 1) false 0.

Definition is_caught_up g w : bool := bool_decide (in_flight w = ∅) && (next_height w >? chain_height g).

Definition schedule_redownload w (height : Z) : Window := set_next_height w (Z.min (next_height w) height).

Definition flush_store g w : shared * Window := (set_store g (flush (store g)), set_since_flush w 0).

(** ** Connecting *)

Definition store_block_data g w hash (raw_bytes : list byte) : option (shared * Window) :=
  if bool_decide (hash ∈ stored_hashes w) then Some (g, w) else
  let w := set_stored w ({[hash]} ∪ stored_hashes w) in
  match store_block_unchecked (store g) hash raw_bytes with
  | Panic => None
  | Err _ => Some (g, w)
  | Ok bs =>
    let g := set_store g bs in
    let w := set_since_flush w (u32_sat_add (blocks_since_flush w) 1) in
    Some (if blocks_since_flush w >=? FLUSH_INTERVAL then flush_store g w else (g, w))
  end.

(** [pool_free]: whether the pool could be locked when the block at a height was connected *)
Definition connect_and_store (pool_free : Z -> bool) g w hash (block : Block) (raw_bytes : list byte) (height : Z) : option (shared * Window * bool) :=
  match connect_block (chain g) block height hash with
  | Panic => None
  | Err _ => Some (g, w, false)
  | Ok cs =>
    let g := set_chain_state g cs in
    mp ← (if pool_free height then remove_block_txs (pool g) block else Some (pool g));
    let g := set_mempool g mp in
    '(g, w) ← store_block_data g w hash raw_bytes;
    Some (g, set_next_connect w (u32_sat_add height 1), true)
  end.

Fixpoint drain_loop (fuel : nat) (pool_free : Z -> bool) g w : option (shared * Window) :=
  match fuel with
  | O => None
  | S fuel =>
    match pending_blocks w !! next_connect_height w with
    | None => Some (g, w)
    | Some (hash, block, raw_bytes) =>
      let w := set_pending w (delete (next_connect_height w) (pending_blocks w)) in
      '(g, w, connected) ← connect_and_store pool_free g w hash block raw_bytes (next_connect_height w);
      if (connected : bool) then drain_loop fuel pool_free g w else Some (g, schedule_redownload w (next_connect_height w))
    end
  end.
Definition drain_pending (pool_free : Z -> bool) g w : option (shared * Window) := drain_loop (S (size (pending_blocks w))) pool_free g w.

(** ** A received block *)

(** the checks before a block may be connected; [None] is a panic of a check, and no
    [adjusted_time] a clock before the epoch *)
Definition validate_received g (height : Z) (adjusted_time : option Z) (raw_bytes : list byte) : option (option Block) :=
  match block_from_bytes_and_validate raw_bytes with
  | Panic => None
  | Err _ => Some None
  | Ok block =>
    match check_block block with
    | Panic => None
    | Err _ => Some None
    | Ok _ =>
      if height >? 0 then
        match compute_median_time_past (headers g) (height - 1) with
        | None => Some None
        | Some mtp =>
          match adjusted_time with
          | None => Some None
          | Some adjusted_time =>
            match check_block_context block height mtp adjusted_time with
            | Panic => None
            | Err _ => Some None
            | Ok _ => Some (Some block)
            end
          end
        end
      else Some (Some block)
    end
  end.

Definition handle_received_block (pool_free : Z -> bool) (adjusted_time : option Z) g w hash (raw_bytes : list byte) : option (shared * Window) :=
  match in_flight w !! hash with
  | None => Some (g, w)
  | Some entry =>
    let w := set_in_flight w (delete hash (in_flight w)) in
    let height := f_height entry in
    valid ← validate_received g height adjusted_time raw_bytes;
    match valid with
    | None => Some (g, schedule_redownload w height)
    | Some block =>
      match height ?= next_connect_height w with
      | Eq =>
        '(g, w, connected) ← connect_and_store pool_free g w hash block raw_bytes height;
        if (connected : bool) then drain_pending pool_free g w else Some (g, schedule_redownload w height)
      | Gt =>
        if Z.of_nat (size (pending_blocks w)) >=? MAX_PENDING_BLOCKS then Some (g, schedule_redownload w height)
        else Some (g, set_pending w (<[height := (hash, block, raw_bytes)]> (pending_blocks w)))
      | Lt => store_block_data g w hash raw_bytes
      end
    end
  end.

(** ** Expiry *)

Definition omin (o : option Z) (h : Z) : option Z := Some (match o with Some m => Z.min m h | None => h end).
Definition min_height (l : list InFlightEntry) : option Z := foldl (fun o e => omin o (f_height e)) None l.

(** the entries of a map, as a list of values *)
Definition entries (m : gmap Hash256 InFlightEntry) : list InFlightEntry := (map_to_list m).*2.

Definition of_peer (peer : IpAddr) (x : Hash256 * InFlightEntry) : Prop := f_peer x.2 = peer.
#[global] Instance of_peer_dec peer x : Decision (of_peer peer x) := decide (f_peer x.2 = peer).

(** take the requests to a peer out; the least height among them *)
Definition drop_peer (m : gmap Hash256 InFlightEntry) (peer : IpAddr) : gmap Hash256 InFlightEntry * option Z :=
  (filter (fun x => ~ of_peer peer x) m, min_height (entries (filter (of_peer peer) m))).

Definition reset_to w (o : option Z) : Window := match o with Some h => schedule_redownload w h | None => w end.

Definition handle_peer_disconnect w (peer : IpAddr) : Window :=
  let '(m, low) := drop_peer (in_flight w) peer in reset_to (set_in_flight w m) low.

Definition is_stale_request (now : Z) (x : Hash256 * InFlightEntry) : Prop := sat_sub now (f_requested_at x.2) > REQUEST_TIMEOUT.
#[global] Instance is_stale_request_dec now x : Decision (is_stale_request now x) := decide (sat_sub now (f_requested_at x.2) > REQUEST_TIMEOUT).

(** one strike per peer; a peer that reaches the limit loses its other requests *)
Definition strike_peer (now : Z) (acc : gmap IpAddr Strikes * gmap Hash256 InFlightEntry * option Z) (peer : IpAddr) :
    gmap IpAddr Strikes * gmap Hash256 InFlightEntry * option Z :=
  let '(ns, m, low) := acc in
  if is_excluded ns peer then acc else
  let '(ns, strikes) := increment_strike ns now peer in
  if strikes >=? MAX_TIMEOUT_STRIKES then
    let '(m, excluded_low) := drop_peer m peer in
    (ns, m, match excluded_low with Some h => omin low h | None => low end)
  else (ns, m, low).

Definition handle_timeout_scan (now : Z) g w : shared * Window :=
  let stale := filter (is_stale_request now) (in_flight w) in
  let stale_peers : gset IpAddr := list_to_set (f_peer <$> entries stale) in
  let '(ns, m, low) := foldl (strike_peer now) (nodes g, filter (fun x => ~ is_stale_request now x) (in_flight w), min_height (entries stale)) (elements stale_peers) in
  (set_nodes g ns, reset_to (set_in_flight w m) low).

Definition handle_reorg w (new_tip_height : Z) : Window :=
  let next := u32_sat_add new_tip_height 1 in
  set_pending (set_in_flight (set_next_height (set_next_connect w next) next) ∅) ∅.

(** ** Filling the window *)

(** the heights of a batch; stops when the free slots are taken *)
Fixpoint scan_batch w (free_slots : Z) (batch : list (Z * Hash256)) (requestable : list (Z * Hash256)) (next : Z) : list (Z * Hash256) * Z :=
  match batch with
  | [] => (requestable, next)
  | (height, hash) :: batch =>
    if zlen requestable >=? free_slots then (requestable, next) else
    let next := Z.max next (u32_sat_add height 1) in
    if bool_decide (hash ∈ stored_hashes w) || bool_decide (is_Some (in_flight w !! hash)) || bool_decide (is_Some (pending_blocks w !! height))
    then scan_batch w free_slots batch requestable next
    else scan_batch w free_slots batch (requestable ++ [(height, hash)]) next
  end.

Fixpoint collect_loop (fuel : nat) g w (free_slots : Z) (requestable : list (Z * Hash256)) (next : Z) : option (list (Z * Hash256) * Z) :=
  match fuel with
  | O => None
  | S fuel =>
    if (zlen requestable <? free_slots) && (next <=? chain_height g) then
      let range_end := Z.min (u32_sat_add next SCAN_BATCH_SIZE) (u32_sat_add (chain_height g) 1) in
      let batch := hashes_in_range (headers g) next range_end in
      if zlen batch =? 0 then Some (requestable, next) else
      let '(requestable, next) := scan_batch w free_slots batch requestable next in
      collect_loop fuel g w free_slots requestable next
    else Some (requestable, next)
  end.

Definition used_by (m : gmap Hash256 InFlightEntry) (peer : IpAddr) : Z := Z.of_nat (size (filter (of_peer peer) m)).

(** the connected peers that may be asked: their index, address and free slots *)
Definition available_peers g w (writers : list IpAddr) : list (nat * IpAddr * Z) :=
  filter (fun x => x.2 > 0) ((fun x : nat * IpAddr => (x.1, x.2, sat_sub PER_PEER_LIMIT (used_by (in_flight w) x.2))) <$>
    filter (fun x => is_excluded (nodes g) x.2 = false) (imap pair writers)).

Fixpoint next_peer (peers : list (nat * IpAddr * Z)) : list (nat * IpAddr * Z) :=
  match peers with
  | (i, ip, free) :: rest => if free =? 0 then next_peer rest else peers
  | [] => []
  end.

Fixpoint assign (now : Z) (requestable : list (Z * Hash256)) (peers : list (nat * IpAddr * Z)) : list (Hash256 * InFlightEntry * nat) :=
  match requestable with
  | [] => []
  | (height, hash) :: requestable =>
    match next_peer peers with
    | [] => []
    | (i, ip, free) :: rest => (hash, mkInFlight ip now height, i) :: assign now requestable ((i, ip, free - 1) :: rest)
    end
  end.

(** [sent i]: whether the message to the peer with index [i] could be sent *)
Definition fill_window (now : Z) (sent : nat -> bool) (writers : list IpAddr) g w : option Window :=
  let total_outstanding := Z.of_nat (size (pending_blocks w)) + Z.of_nat (size (in_flight w)) in
  let pending_headroom := sat_sub MAX_PENDING_BLOCKS total_outstanding in
  let in_flight_headroom := sat_sub WINDOW_SIZE (Z.of_nat (size (in_flight w))) in
  let free_slots := Z.min in_flight_headroom pending_headroom in
  if (free_slots <? REFILL_THRESHOLD) && negb (bool_decide (in_flight w = ∅)) then Some w else
  if (zlen writers =? 0) || (next_height w >? chain_height g) then Some w else
  '(requestable, next) ← collect_loop (S (Z.to_nat (chain_height g - next_height w + 1))) g w free_slots [] (next_height w);
  let w := set_next_height w next in
  if zlen requestable =? 0 then Some w else
  let peers := available_peers g w writers in
  if zlen peers =? 0 then Some w else
  let new_entries := assign now requestable peers in
  let w := match requestable !! length new_entries with Some (h, _) => set_next_height w (Z.min (next_height w) h) | None => w end in
  let ok := filter (fun x => sent x.2 = true) new_entries in
  let failed := filter (fun x => sent x.2 = false) new_entries in
  let w := set_in_flight w (foldl (fun m x => <[x.1.1 := x.1.2]> m) (in_flight w) ok) in
  Some (reset_to w (min_height (failed.*1).*2)).

(** ** Catching up from disk *)

(** the blocks of a batch; the flag tells whether the scan goes on *)
Fixpoint catch_up_batch (batch : list (Z * Hash256)) g w (connected : Z) : option (shared * Window * Z * bool) :=
  match batch with
  | [] => Some (g, w, connected, true)
  | (height, hash) :: batch =>
    if negb (bool_decide (hash ∈ stored_hashes w)) then Some (g, w, connected, false) else
    match (raw ← load_block (store g) hash; block ← block_from_bytes_and_validate raw; connect_block (chain g) block height hash) with
    | Panic => None
    | Err _ => Some (g, w, connected, false)
    | Ok cs =>
      let g := set_chain_state g cs in
      let w := set_next_connect w (u32_sat_add height 1) in
      let connected := u32_sat_add connected 1 in
      let '(g, w) := if connected mod FLUSH_INTERVAL =? 0 then flush_store g w else (g, w) in
      catch_up_batch batch g w connected
    end
  end.

Fixpoint catch_up_loop (fuel : nat) g w (connected : Z) : option (shared * Window * Z) :=
  match fuel with
  | O => None
  | S fuel =>
    if next_connect_height w <=? chain_height g then
      let range_end := Z.min (u32_sat_add (next_connect_height w) SCAN_BATCH_SIZE) (u32_sat_add (chain_height g) 1) in
      let batch := hashes_in_range (headers g) (next_connect_height w) range_end in
      if zlen batch =? 0 then Some (g, w, connected) else
      '(g, w, connected, go) ← catch_up_batch batch g w connected;
      if (go : bool) then catch_up_loop fuel g w connected else Some (g, w, connected)
    else Some (g, w, connected)
  end.

Definition catch_up_chainstate g w : option (shared * Window) :=
  '(g, w, connected) ← catch_up_loop (S (Z.to_nat (chain_height g - next_connect_height w + 1))) g w 0;
  Some (if connected >? 0 then flush_store g w else (g, w)).

(** ** The main loop *)

Inductive Event :=
| Received (blocks : list (Hash256 * list byte))
| PeerDisconnected (peer : IpAddr)
| Reorged (new_tip_height : Z)
| Tick.

(** what an iteration takes from outside: the connected peers, the clock, the
    outcome of sends and of locking the pool *)
Record Env := mkEnv { e_writers : list IpAddr; e_now : Z; e_sent : nat -> bool; e_pool_free : Z -> bool; e_time : option Z }.

Fixpoint handle_blocks (env : Env) g w (blocks : list (Hash256 * list byte)) : option (shared * Window) :=
  match blocks with
  | [] => Some (g, w)
  | (hash, raw_bytes) :: blocks => '(g, w) ← handle_received_block (e_pool_free env) (e_time env) g w hash raw_bytes; handle_blocks env g w blocks
  end.

Definition handle_event (env : Env) g w (ev : Event) : option (shared * Window) :=
  match ev with
  | Received blocks => handle_blocks env g w blocks
  | PeerDisconnected peer => Some (g, handle_peer_disconnect w peer)
  | Reorged new_tip_height => Some (g, handle_reorg w new_tip_height)
  | Tick => Some (if blocks_since_flush w >? 0 then flush_store g w else (g, w))
  end.

Definition run_iteration (env : Env) g w (ev : Event) : option (shared * Window) :=
  w ← fill_window (e_now env) (e_sent env) (e_writers env) g w;
  let caught_up := is_caught_up g w in
  let '(g, w) := if caught_up && negb (was_caught_up w) then flush_store g w else (g, w) in
  let w := set_caught_up w caught_up in
  '(g, w) ← handle_event env g w ev;
  Some (handle_timeout_scan (e_now env) g w).
End Download.
