(* ===== verification/BlockDownloadCorrect.v ===== *)
(** * BlockDownloadCorrect: the download window keeps its limits and loses no height

    The invariant [window_inv] bounds what is outstanding and says that between the
    next height to connect and the next height to request every block of the active
    chain is stored, requested or waiting, but for the heights in a set [missed].  Every
    operation of this file keeps it with the same set; BlockDownloadSafety shows which heights
    [fill_window] adds to it. *)
From Stdlib Require Import Strings.Byte.
From stdpp Require Import base numbers list strings gmap relations sorting.
From S2P Require Import Prelude Codec Types Merkle Compact Float64 Difficulty Validation Vec ScriptNum Signature Engine ScriptVerify Database Coin UndoStore Ledger Chainstate Pow HashOrder Mempool Headers HeadersCorrect BlockStore Network Messages BlockDownload.

(** ** Lists of requests *)

Lemma min_height_acc l o : exists o', foldl (fun o e => omin o (f_height e)) o l = o' /\
  (match o' with Some m => (forall e, e ∈ l -> m <= f_height e) /\ (forall h, o = Some h -> m <= h) | None => l = [] /\ o = None end).
Proof.
  revert o. induction l as [|e l IH]; intros o; cbn [foldl].
  - exists o. split; [done|]. destruct o as [h|]; [|done]. split; [by intros ? ?%not_elem_of_nil|]. by intros ? [= ->].
  - destruct (IH (omin o (f_height e))) as (o' & E & H). exists o'. split; [done|]. unfold omin in H. destruct o' as [m|]; [|destruct H as [_ H]; discriminate H].
    destruct H as [Hl Hm]. specialize (Hm _ eq_refl). destruct o as [h|].
    + split; [|intros h' [= <-]; lia]. intros e' [->|He']%elem_of_cons; [lia|by apply Hl].
    + split; [|done]. intros e' [->|He']%elem_of_cons; [lia|by apply Hl].
Qed.

Lemma min_height_Some l m e : min_height l = Some m -> e ∈ l -> m <= f_height e.
Proof. intros H He. destruct (min_height_acc l None) as (o' & E & Ho). unfold min_height in H. rewrite E in H. subst o'. destruct Ho as [Ho _]. by apply Ho. Qed.

Lemma min_height_None l : min_height l = None -> l = [].
Proof. intros H. destruct (min_height_acc l None) as (o' & E & Ho). unfold min_height in H. rewrite E in H. subst o'. by destruct Ho. Qed.

Lemma elem_of_entries (m : gmap Hash256 InFlightEntry) x e : m !! x = Some e -> e ∈ entries m.
Proof. intros H. apply list_elem_of_fmap. exists (x, e). split; [done|]. by apply elem_of_map_to_list. Qed.

(** ** What covers a height *)

(** the block of a height is stored, requested or waiting *)
Definition covered w (h : Z) (x : Hash256) : Prop :=
  x ∈ stored_hashes w \/ (exists e, in_flight w !! x = Some e /\ f_height e = h) \/ is_Some (pending_blocks w !! h).

Record counts_ok (chain : list Hash256) w : Prop := {
  co_window : Z.of_nat (size (in_flight w)) <= WINDOW_SIZE;
  co_total : Z.of_nat (size (pending_blocks w)) + Z.of_nat (size (in_flight w)) <= MAX_PENDING_BLOCKS;
  co_peer : forall peer, used_by (in_flight w) peer <= PER_PEER_LIMIT;
  co_heights : forall x e, in_flight w !! x = Some e -> 0 <= f_height e /\ chain !! Z.to_nat (f_height e) = Some x;
}.

(** the heights from [lo] up to the next one to request are covered, with the blocks of [chain],
    but for the heights [missed] *)
Definition no_gap (missed : gset Z) w (chain : list Hash256) (lo : Z) : Prop :=
  forall h x, h ∉ missed -> lo <= h < next_height w -> chain !! Z.to_nat h = Some x -> covered w h x.

Section Gap.
Context {missed : gset Z}.

(** fewer requests *)
Lemma counts_shrink chain w m : m ⊆ in_flight w -> counts_ok chain w -> counts_ok chain (set_in_flight w m).
Proof.
  intros Hm [H1 H2 H3 H4]. assert (size m <= size (in_flight w))%nat as Hs by by apply map_subseteq_size. split; cbn; [lia|lia| |intros x e He; apply (H4 x); by eapply lookup_weaken].
  intros peer. specialize (H3 peer). unfold used_by in *. assert (size (filter (of_peer peer) m) <= size (filter (of_peer peer) (in_flight w)))%nat; [|lia].
  apply map_subseteq_size, map_filter_subseteq_mono; done.
Qed.

Lemma counts_next_height chain w h : counts_ok chain w -> counts_ok chain (set_next_height w h).
Proof. by intros [H1 H2 H3 H4]. Qed.

Lemma reset_to_counts chain w o : counts_ok chain w -> counts_ok chain (reset_to w o).
Proof. destruct o as [h|]; [|done]. apply counts_next_height. Qed.

(** requests dropped down to a height that is requested again *)
Lemma no_gap_drop w chain lo m (P : Hash256 * InFlightEntry -> Prop) `{!forall x, Decision (P x)} :
  m = filter (fun x => ~ P x) (in_flight w) -> no_gap missed w chain lo -> no_gap missed (reset_to (set_in_flight w m) (min_height (entries (filter P (in_flight w))))) chain lo.
Proof.
  intros -> Hg h x Hns Hh Hx. set (o := min_height (entries (filter P (in_flight w)))) in *.
  assert (next_height (reset_to (set_in_flight w (filter (fun x => ~ P x) (in_flight w))) o) <= next_height w) as Hle by (destruct o; cbn; lia).
  destruct (Hg h x) as [Hs|[(e & He & Hf)|Hp]]; [done|lia|done|left; by destruct o| |right; right; by destruct o].
  destruct (decide (P (x, e))) as [HP|HP].
  - assert (e ∈ entries (filter P (in_flight w))) as Hin by (apply (elem_of_entries _ x); by apply map_lookup_filter_Some).
    subst o. destruct (min_height (entries (filter P (in_flight w)))) as [low|] eqn:El; [|apply min_height_None in El; rewrite El in Hin; by apply not_elem_of_nil in Hin].
    pose proof (min_height_Some _ _ _ El Hin). cbn in Hh. lia.
  - right; left. exists e. split; [|done]. destruct o; cbn; by apply map_lookup_filter_Some.
Qed.

Lemma min_height_nonneg l h : Forall (fun e => 0 <= f_height e) l -> min_height l = Some h -> 0 <= h.
Proof.
  intros Hl. unfold min_height. assert (forall o, (forall h, o = Some h -> 0 <= h) -> forall h, foldl (fun o e => omin o (f_height e)) o l = Some h -> 0 <= h) as H; [|by apply H].
  induction Hl as [|e l He Hl IH]; intros o Ho h0; cbn [foldl]; [apply Ho|]. apply IH. intros h1 [= <-]. destruct o as [m|]; [specialize (Ho m eq_refl); lia|done].
Qed.

(** the next height after requests were dropped *)
Lemma reset_next chain w m P `{!forall x, Decision (P x)} :
  counts_ok chain w -> 0 <= next_height w -> 0 <= next_height (reset_to (set_in_flight w m) (min_height (entries (filter P (in_flight w))))) <= next_height w.
Proof.
  intros Hc Hw. destruct (min_height _) as [h|] eqn:E; cbn; [|lia]. apply min_height_nonneg in E; [lia|].
  apply Forall_fmap, Forall_forall. intros [x e] Hin. apply elem_of_map_to_list, map_lookup_filter_Some in Hin as [Hin _]. by apply (co_heights chain w Hc x).
Qed.

(** ** Disconnected peers, timeouts, reorganisations *)

Lemma drop_peer_eq w peer : handle_peer_disconnect w peer =
  reset_to (set_in_flight w (filter (fun x => ~ of_peer peer x) (in_flight w))) (min_height (entries (filter (of_peer peer) (in_flight w)))).
Proof. done. Qed.

Lemma disconnect_no_gap w chain lo peer : no_gap missed w chain lo -> no_gap missed (handle_peer_disconnect w peer) chain lo.
Proof. rewrite drop_peer_eq. by apply no_gap_drop. Qed.

Lemma disconnect_counts chain w peer : counts_ok chain w -> counts_ok chain (handle_peer_disconnect w peer).
Proof. intros Hc. rewrite drop_peer_eq. apply reset_to_counts, counts_shrink; [apply map_filter_subseteq|done]. Qed.

Lemma reset_reset w o h : reset_to w (match h with Some h => omin o h | None => o end) = reset_to (reset_to w o) h.
Proof. destruct h as [h|]; [|done]. destruct o as [m|]; [|done]. cbn. unfold schedule_redownload, set_next_height. cbn. f_equal. lia. Qed.

Lemma set_reset w m o : set_in_flight (reset_to w o) m = reset_to (set_in_flight w m) o.
Proof. by destruct o. Qed.

Lemma in_flight_reset w o : in_flight (reset_to w o) = in_flight w.
Proof. by destruct o. Qed.

(** what a timeout scan keeps of the window it started from *)
Record scanned (w : Window) chain lo (w1 : Window) : Prop := {
  sc_gap : no_gap missed w1 chain lo;
  sc_counts : counts_ok chain w1;
  sc_next : 0 <= next_height w1 <= next_height w;
}.

Lemma scanned_drop w chain lo w0 P `{!forall x, Decision (P x)} : scanned w chain lo w0 ->
  scanned w chain lo (reset_to (set_in_flight w0 (filter (fun x => ~ P x) (in_flight w0))) (min_height (entries (filter P (in_flight w0))))).
Proof.
  intros [Hg Hc Hn]. split; [by apply (no_gap_drop w0 chain lo _ P)|apply reset_to_counts, counts_shrink; [apply map_filter_subseteq|done]|].
  pose proof (reset_next chain w0 (filter (fun x => ~ P x) (in_flight w0)) P Hc ltac:(lia)). lia.
Qed.

(** one struck peer *)
Lemma strike_peer_ok now w ns m low peer chain lo : scanned w chain lo (reset_to (set_in_flight w m) low) ->
  let '(ns', m', low') := strike_peer now (ns, m, low) peer in scanned w chain lo (reset_to (set_in_flight w m') low').
Proof.
  intros Hs. unfold strike_peer. destruct (is_excluded ns peer); [done|]. destruct (increment_strike ns now peer) as [ns' strikes]. destruct (strikes >=? MAX_TIMEOUT_STRIKES); [|done].
  cbn [drop_peer]. rewrite reset_reset. apply (scanned_drop w chain lo _ (of_peer peer)) in Hs. rewrite in_flight_reset, set_reset in Hs. exact Hs.
Qed.

Lemma strike_peers_ok now w peers chain lo : forall ns m low, scanned w chain lo (reset_to (set_in_flight w m) low) ->
  let '(ns', m', low') := foldl (strike_peer now) (ns, m, low) peers in scanned w chain lo (reset_to (set_in_flight w m') low').
Proof.
  induction peers as [|peer peers IH]; intros ns m low Hs; cbn [foldl]; [done|].
  pose proof (strike_peer_ok now w ns m low peer chain lo Hs) as H. destruct (strike_peer now (ns, m, low) peer) as [[ns' m'] low']. by apply IH.
Qed.

(** ** Collecting heights *)

Lemma lookup_hashes_in_range {B} (hs : HeaderStore B) start stop i p : 0 <= start -> hashes_in_range hs start stop !! i = Some p ->
  p.1 = start + Z.of_nat i /\ active_chain hs !! Z.to_nat (start + Z.of_nat i) = Some p.2 /\ p.1 < stop.
Proof.
  intros Hs. unfold hashes_in_range. destruct (start >=? _) eqn:E; [done|]. rewrite list_lookup_imap. intros H. apply fmap_Some in H as (x & Hx & ->). cbn [fst snd].
  apply lookup_take_Some in Hx as [Hx Hlt]. rewrite lookup_drop in Hx. replace (Z.to_nat (start + Z.of_nat i)) with (Z.to_nat start + i)%nat by lia. split; [done|]. split; [done|]. lia.
Qed.

(** consecutive heights with their blocks *)
Definition batch_from (chain : list Hash256) (next : Z) (batch : list (Z * Hash256)) : Prop :=
  forall i p, batch !! i = Some p -> p.1 = next + Z.of_nat i /\ chain !! Z.to_nat p.1 = Some p.2 /\ p.1 < u32_max.

(** what the scan has found up to [next]: every height is covered or to be requested *)
Record scan_ok w (chain : list Hash256) (lo free : Z) (req : list (Z * Hash256)) (next : Z) : Prop := {
  sk_count : zlen req <= free;
  sk_all : forall h x, h ∉ missed -> lo <= h < next -> chain !! Z.to_nat h = Some x -> covered w h x \/ (h, x) ∈ req;
  sk_req : Forall (fun p => 0 <= p.1 < next /\ chain !! Z.to_nat p.1 = Some p.2 /\ in_flight w !! p.2 = None) req;
  sk_sorted : StronglySorted (fun p q => p.1 < q.1) req;
}.

Lemma StronglySorted_snoc {A} (R : A -> A -> Prop) l x : StronglySorted R l -> Forall (fun y => R y x) l -> StronglySorted R (l ++ [x]).
Proof.
  intros Hs Hx. induction Hs as [|y l Hs IH Hy]; cbn; [constructor; constructor|]. apply Forall_cons in Hx as [Hyx Hx]. constructor; [by apply IH|].
  apply Forall_app. split; [done|by constructor].
Qed.

Lemma batch_tail chain next p batch : batch_from chain next (p :: batch) -> p.1 = next /\ chain !! Z.to_nat next = Some p.2 /\ next < u32_max /\ batch_from chain (next + 1) batch.
Proof.
  intros Hb. destruct (Hb 0%nat p eq_refl) as (E & Hp & Hm). replace (next + Z.of_nat 0) with next in E by lia. rewrite E in Hp, Hm. split_and!; try done.
  intros i q Hq. destruct (Hb (S i) q Hq) as (Eq & Hq1 & Hq2). split; [lia|done].
Qed.

(** a covered height does not lie in two places *)
Lemma skip_covered w chain next x : NoDup chain -> counts_ok chain w -> 0 <= next -> chain !! Z.to_nat next = Some x ->
  bool_decide (x ∈ stored_hashes w) || bool_decide (is_Some (in_flight w !! x)) || bool_decide (is_Some (pending_blocks w !! next)) = true -> covered w next x.
Proof.
  intros Hn Hc H0 Hx H. apply orb_true_iff in H as [[H|H]%orb_true_iff|H]; apply bool_decide_eq_true in H; [by left| |by right; right].
  destruct H as [e He]. right; left. exists e. split; [done|]. destruct (co_heights _ _ Hc x e He) as [Hp Hl]. pose proof (NoDup_lookup _ _ _ _ Hn Hx Hl). lia.
Qed.

Lemma scan_batch_ok w chain lo free batch : forall req next req' next', NoDup chain -> counts_ok chain w -> 0 <= next -> batch_from chain next batch -> scan_ok w chain lo free req next ->
  scan_batch w free batch req next = (req', next') -> scan_ok w chain lo free req' next' /\ next <= next' /\ (next' = next \/ next' <= zlen chain /\ next' <= u32_max) /\
    (zlen req < free -> batch <> [] -> next < next').
Proof.
  induction batch as [|[h x] batch IH]; intros req next req' next' Hn Hc H0 Hb Hs H; cbn [scan_batch] in H.
  - injection H as <- <-. split; [done|]. split; [lia|]. split; [by left|done].
  - destruct (zlen req >=? free) eqn:Efull; [injection H as <- <-; split; [done|]; split; [lia|]; split; [by left|lia]|].
    apply batch_tail in Hb as (Eh & Hx & Hm & Hb). cbn [fst snd] in Eh, Hx. subst h. replace (Z.max next (u32_sat_add next 1)) with (next + 1) in H by (unfold u32_sat_add; lia).
    assert (next + 1 <= zlen chain) as Hl by (apply lookup_lt_Some in Hx; unfold zlen; lia). destruct Hs as [S1 S2 S3 S4].
    assert (Forall (fun p => 0 <= p.1 < next + 1 /\ chain !! Z.to_nat p.1 = Some p.2 /\ in_flight w !! p.2 = None) req) as S3' by (eapply Forall_impl; [exact S3|]; intros p (Hp & Hp'); split; [lia|done]).
    destruct (_ || _ || _) eqn:Eskip.
    + apply (IH req (next + 1)) in H as (Hs & Hle & Hend & _); [split; [done|]; split; [lia|]; split; [destruct Hend as [->|Hend]; [right; lia|by right]|lia]|done|done|lia|done|].
      split; [done| |done|done]. intros k y Hns Hk Hy. destruct (decide (k = next)) as [->|Hne]; [|apply S2; [done|lia|done]]. left. rewrite Hx in Hy. injection Hy as <-. by eapply skip_covered.
    + apply (IH (req ++ [(next, x)]) (next + 1)) in H as (Hs & Hle & Hend & _); [split; [done|]; split; [lia|]; split; [destruct Hend as [->|Hend]; [right; lia|by right]|lia]|done|done|lia|done|].
      apply orb_false_iff in Eskip as [[_ Ein]%orb_false_iff _]. apply bool_decide_eq_false in Ein.
      split.
      * rewrite zlen_app. change (zlen [(next, x)]) with 1. lia.
      * intros k y Hns Hk Hy. destruct (decide (k = next)) as [->|Hne]; [right; rewrite Hx in Hy; injection Hy as <-; apply elem_of_app; right; by apply list_elem_of_singleton|].
        destruct (S2 k y) as [Hcv|Hin]; [done|lia|done|by left|right; apply elem_of_app; by left].
      * apply Forall_app. split; [done|]. constructor; [|done]. cbn. split; [lia|]. split; [done|]. destruct (in_flight w !! x) as [e|]; [|done]. destruct Ein. by eexists.
      * apply StronglySorted_snoc; [done|]. eapply Forall_impl; [exact S3|]. intros p (Hp & _). cbn. lia.
Qed.

End Gap.

(** ** Assigning requests *)

Lemma next_peer_suffix peers : exists k, next_peer peers = drop k peers.
Proof. induction peers as [|[[i ip] free] peers [k IH]]; cbn [next_peer]; [by exists 0%nat|]. destruct (free =? 0); [by exists (S k)|by exists 0%nat]. Qed.

Lemma assign_lookup now req : forall peers i x e n, assign now req peers !! i = Some (x, e, n) -> req !! i = Some (f_height e, x).
Proof.
  induction req as [|[h y] req IH]; intros peers i x e n; cbn [assign]; [done|]. destruct (next_peer peers) as [|[[j ip] free] rest]; [done|].
  destruct i as [|i]; cbn [lookup list_lookup]; [by intros [= <- <- <-]|apply IH].
Qed.

Lemma assign_length now req peers : (length (assign now req peers) <= length req)%nat.
Proof. revert peers. induction req as [|[h y] req IH]; intros peers; cbn [assign]; [done|]. destruct (next_peer peers) as [|[[j ip] free] rest]; cbn; [lia|]. specialize (IH ((j, ip, free - 1) :: rest)). lia. Qed.

(** the free slots of a peer *)
Definition slots (peers : list (nat * IpAddr * Z)) (ip : IpAddr) : Z := zsum (snd <$> filter (fun p => p.1.2 = ip) peers).
Definition asked (l : list (Hash256 * InFlightEntry * nat)) (ip : IpAddr) : Z := zlen (filter (fun x => f_peer x.1.2 = ip) l).

Lemma slots_cons p peers ip : slots (p :: peers) ip = (if decide (p.1.2 = ip) then p.2 else 0) + slots peers ip.
Proof. unfold slots. rewrite filter_cons. by case_decide. Qed.

Lemma slots_next peers ip : slots (next_peer peers) ip = slots peers ip.
Proof.
  induction peers as [|[[i a] free] peers IH]; cbn [next_peer]; [done|]. destruct (Z.eqb_spec free 0) as [->|]; [|done]. rewrite IH, slots_cons. cbn. by case_decide.
Qed.

Lemma slots_nonneg peers ip : Forall (fun p => 0 <= p.2) peers -> 0 <= slots peers ip.
Proof. induction 1 as [|p peers Hp _ IH]; [done|]. rewrite slots_cons. case_decide; lia. Qed.

Lemma next_peer_free peers : Forall (fun p => 0 <= p.2) peers -> match next_peer peers with [] => True | p :: rest => 0 < p.2 /\ Forall (fun p => 0 <= p.2) rest end.
Proof. induction 1 as [|[[i a] free] peers Hp Hr IH]; cbn [next_peer]; [done|]. cbn in Hp. destruct (Z.eqb_spec free 0); [done|]. split; [cbn; lia|done]. Qed.

Lemma assign_asked now req : forall peers ip, Forall (fun p => 0 <= p.2) peers -> asked (assign now req peers) ip <= slots peers ip.
Proof.
  induction req as [|[h y] req IH]; intros peers ip Hp; cbn [assign]; [by apply slots_nonneg|]. rewrite <- (slots_next peers). pose proof (next_peer_free peers Hp) as Hn.
  destruct (next_peer peers) as [|[[j a] free] rest]; [done|]. destruct Hn as [Hf Hr]. cbn in Hf. specialize (IH ((j, a, free - 1) :: rest) ip). rewrite slots_cons in *. cbn [fst snd] in *.
  unfold asked in *. rewrite filter_cons. cbn [fst snd f_peer]. assert (Forall (fun p : nat * IpAddr * Z => 0 <= p.2) ((j, a, free - 1) :: rest)) as Hr' by (constructor; [cbn; lia|done]).
  specialize (IH Hr'). destruct (decide (a = ip)) as [Ea|Ea].
  - rewrite zlen_cons. lia.
  - lia.
Qed.

(** ** Requests put in flight *)

Definition commit (m : gmap Hash256 InFlightEntry) (l : list (Hash256 * InFlightEntry * nat)) : gmap Hash256 InFlightEntry := foldl (fun m x => <[x.1.1 := x.1.2]> m) m l.

Lemma commit_cons m x e n l : commit m ((x, e, n) :: l) = commit (<[x := e]> m) l.
Proof. done. Qed.

Lemma commit_size m l : (size (commit m l) <= size m + length l)%nat.
Proof.
  revert m. induction l as [|[[x e] n] l IH]; intros m; [cbn; lia|]. rewrite commit_cons. specialize (IH (<[x := e]> m)).
  assert (size (<[x := e]> m) <= S (size m))%nat by (rewrite map_size_insert; destruct (m !! x); cbn; lia). cbn [length]. lia.
Qed.

Lemma commit_used m l ip : used_by (commit m l) ip <= used_by m ip + asked l ip.
Proof.
  revert m. induction l as [|[[x e] n] l IH]; intros m; [change (asked [] ip) with 0; change (commit m []) with m; lia|]. rewrite commit_cons. specialize (IH (<[x := e]> m)).
  unfold asked in *. rewrite filter_cons. cbn [fst snd]. unfold used_by in *. rewrite map_filter_insert in IH. unfold of_peer in *. cbn [snd] in IH. case_decide.
  - rewrite map_size_insert in IH. rewrite zlen_cons. destruct (filter _ m !! x); cbn in IH; lia.
  - assert (size (filter (fun x0 : Hash256 * InFlightEntry => f_peer x0.2 = ip) (delete x m)) <= size (filter (fun x0 : Hash256 * InFlightEntry => f_peer x0.2 = ip) m))%nat; [|lia].
    apply map_subseteq_size, map_filter_subseteq_mono, delete_subseteq.
Qed.

Lemma commit_lookup m l x e : NoDup (l.*1).*1 -> commit m l !! x = Some e <-> (exists n, (x, e, n) ∈ l) \/ x ∉ (l.*1).*1 /\ m !! x = Some e.
Proof.
  revert m. induction l as [|[[y f] n] l IH]; intros m Hnd.
  - split; [right; split; [apply not_elem_of_nil|done]|]. intros [(n & Hn)|[_ H]]; [by apply not_elem_of_nil in Hn|done].
  - rewrite commit_cons. cbn [fmap list_fmap fst] in *. apply NoDup_cons in Hnd as [Hy Hnd]. rewrite IH by done. split.
    + intros [(k & Hk)|[Hx Hl]]; [left; exists k; by right|]. destruct (decide (x = y)) as [->|Hne]; [rewrite lookup_insert_eq in Hl; injection Hl as ->; left; exists n; by left|].
      rewrite lookup_insert_ne in Hl by done. right. split; [|done]. by apply not_elem_of_cons.
    + intros [(k & [[= -> -> ->]|Hk]%elem_of_cons)|[[Hne Hx]%not_elem_of_cons Hl]].
      * right. split; [done|]. apply lookup_insert_eq.
      * left. by exists k.
      * right. split; [done|]. by rewrite lookup_insert_ne.
Qed.

(** ** The invariant *)

Section Invariant.
Context {missed : gset Z} `{HS : Sha256} `{HD : Digests} `{HK : K256} `{HU256 : U256Overflow} `{HO : HashOrder}.
Context {B UT MT IT KT : Type} {HB : HeaderBackend B} {HU : Table (list byte) (list byte) UT} {HM : Table string (list byte) MT}
  {HI : Table (list byte) (Z * Z * Z) IT} {HBI : Table (list byte) (Z * Z * Z) KT}.
Notation shared := (Shared B UT MT IT KT).
Implicit Types (g : shared) (w : Window) (hash : Hash256).

(** heights from [lo] on are covered *)
Record inv_from (lo : Z) g w : Prop := {
  wi_counts : counts_ok (active_chain (headers g)) w;
  wi_gap : no_gap missed w (active_chain (headers g)) lo;
  wi_known : next_height w <= Z.max (next_connect_height w) (zlen (active_chain (headers g)));
  wi_range : 0 <= next_height w <= u32_max /\ 0 <= next_connect_height w;
  wi_tip : next_connect_height w = u32_sat_add (tip (chain g)).2 1;
  wi_nodup : NoDup (active_chain (headers g));
}.
Definition window_inv g w : Prop := inv_from (next_connect_height w) g w.

(** an operation that only stores and connects *)
Record advanced g w g' w' : Prop := {
  ad_headers : headers g' = headers g;
  ad_in_flight : in_flight w' = in_flight w;
  ad_next : next_height w' = next_height w;
  ad_pending : pending_blocks w' = pending_blocks w;
  ad_stored : stored_hashes w ⊆ stored_hashes w';
}.

Lemma flush_advanced g w : let '(g', w') := flush_store g w in advanced g w g' w' /\ chain g' = chain g /\ next_connect_height w' = next_connect_height w /\ stored_hashes w' = stored_hashes w.
Proof. done. Qed.

Lemma store_block_data_ok g w hash raw g' w' :
  store_block_data g w hash raw = Some (g', w') -> advanced g w g' w' /\ chain g' = chain g /\ next_connect_height w' = next_connect_height w /\ hash ∈ stored_hashes w'.
Proof.
  unfold store_block_data. case_bool_decide as Hin; [by intros [= <- <-]|]. destruct (store_block_unchecked (store g) hash raw) as [bs| |]; [| |done].
  - case_match; intros [= <- <-]; (split; [split; cbn; try done; set_solver|]); cbn; set_solver.
  - intros [= <- <-]. split; [split; cbn; try done; set_solver|]. cbn. set_solver.
Qed.

Lemma connect_block_tip (cs cs' : ChainState UT MT IT) b h hash : connect_block cs b h hash = Ok cs' -> tip cs' = (hash, h) /\ h = u32_sat_add (tip cs).2 1.
Proof.
  unfold connect_block. destruct (negb (h =? _)) eqn:Eh; [done|]. destruct (negb (zlen _ =? 0)); [|done]. intros H.
  apply res_bind_Ok in H as ([[t undos] fees] & _ & H). apply res_bind_Ok in H as (? & _ & H). apply res_bind_Ok in H as ([us index] & _ & [= <-]). split; [done|]. by bool_prop.
Qed.

Lemma connect_and_store_ok free g w hash b raw h g' w' ok :
  connect_and_store free g w hash b raw h = Some (g', w', ok) ->
  if ok then advanced g w g' w' /\ tip (chain g') = (hash, h) /\ next_connect_height w' = u32_sat_add h 1 /\ hash ∈ stored_hashes w' /\ h = u32_sat_add (tip (chain g)).2 1
  else g' = g /\ w' = w.
Proof.
  unfold connect_and_store. destruct (connect_block (chain g) b h hash) as [cs| |] eqn:E; [|by intros [= <- <- <-]|done]. apply connect_block_tip in E as [Et Eh].
  intros H. apply bind_Some in H as (mp & _ & H). apply bind_Some in H as ([g1 w1] & Hs & [= <- <- <-]). apply store_block_data_ok in Hs as ([H1 H2 H3 H4 H5] & Hc & _ & Hin).
  split; [by split|]. cbn [chain]. rewrite Hc. done.
Qed.

(** the block at the next height was connected; its own request or buffer entry may be gone *)
Lemma connected_inv g w g' w' hash : inv_from (next_connect_height w + 1) g w -> advanced g w g' w' -> tip (chain g') = (hash, next_connect_height w) ->
  next_connect_height w' = u32_sat_add (next_connect_height w) 1 -> window_inv g' w'.
Proof.
  intros [Hc Hg Hk Hr Ht Hn] [Eh Ei En Ep Es] Etip Enc. assert (next_connect_height w <= u32_max) as Hmax by (rewrite Ht; unfold u32_sat_add; lia). split.
  - destruct Hc as [H1 H2 H3 H4]. split; rewrite ?Ei, ?Ep, ?Eh; done.
  - intros h x Hns Hh Hx. rewrite Eh in Hx. rewrite Enc, En in Hh. unfold u32_sat_add in Hh.
    destruct (Hg h x) as [Hs|[(e & He & Hf)|Hp]]; [done|lia|done|left; set_solver|right; left; exists e; by rewrite Ei|right; right; by rewrite Ep].
  - rewrite En, Eh, Enc. unfold u32_sat_add. lia.
  - rewrite En, Enc. unfold u32_sat_add, u32_max in *. lia.
  - by rewrite Enc, Etip.
  - by rewrite Eh.
Qed.

(** the block at [h] is to be requested again, when only the heights below are known to be covered *)
Lemma redownload_inv g w h : counts_ok (active_chain (headers g)) w -> (forall k x, k ∉ missed -> next_connect_height w <= k < Z.min h (next_height w) -> active_chain (headers g) !! Z.to_nat k = Some x -> covered w k x) ->
  next_height w <= Z.max (next_connect_height w) (zlen (active_chain (headers g))) -> 0 <= next_height w <= u32_max /\ 0 <= next_connect_height w ->
  next_connect_height w = u32_sat_add (tip (chain g)).2 1 -> NoDup (active_chain (headers g)) -> 0 <= h -> window_inv g (schedule_redownload w h).
Proof. intros Hc Hg Hk Hr Ht Hn Hh. split; cbn; [by apply counts_next_height|intros k x Hns Hkr Hx; apply Hg; [done|cbn in Hkr; lia|done]|lia|lia|done|done]. Qed.

(** a waiting block taken out *)
Definition pop_pending w : Window := set_pending w (delete (next_connect_height w) (pending_blocks w)).

Lemma pop_counts chain w : counts_ok chain w -> counts_ok chain (pop_pending w).
Proof.
  intros [H1 H2 H3 H4]. split; cbn; [done| |done|done]. assert (size (delete (next_connect_height w) (pending_blocks w)) <= size (pending_blocks w))%nat; [|lia].
  apply map_subseteq_size, delete_subseteq.
Qed.

Lemma drain_ok fuel free : forall g w g' w', window_inv g w -> drain_loop fuel free g w = Some (g', w') -> window_inv g' w'.
Proof.
  induction fuel as [|fuel IH]; intros g w g' w' Hw H; [done|]. cbn [drain_loop] in H.
  destruct (pending_blocks w !! next_connect_height w) as [[[hash b] raw]|] eqn:Ep; [|by injection H as <- <-].
  apply bind_Some in H as ([[g1 w1] ok] & Hc & H). apply connect_and_store_ok in Hc. fold (pop_pending w) in *. destruct Hw as [Hcount Hg Hk Hr Ht Hn]. apply pop_counts in Hcount.
  change (next_connect_height w) with (next_connect_height (pop_pending w)) in *. destruct ok.
  - destruct Hc as (Had & Et & Enc & _). apply (IH _ _ _ _) in H; [done|]. apply (connected_inv g (pop_pending w) g1 w1 hash); [|done..]. split; try done.
    intros h x Hns Hh Hx. cbn in Hh. destruct (Hg h x) as [Hs|[He|Hp]]; [done|cbn; lia|done|by left|by right; left|]. right; right. cbn. by rewrite lookup_delete_ne by lia.
  - destruct Hc as [-> ->]. injection H as <- <-. apply redownload_inv; try done; [cbn; intros k x _ Hkr; lia|apply Hr].
Qed.

(** ** A received block *)

(** the request for [hash] taken out: the other heights stay covered *)
Lemma take_request g w hash e : window_inv g w -> in_flight w !! hash = Some e ->
  let w1 := set_in_flight w (delete hash (in_flight w)) in counts_ok (active_chain (headers g)) w1 /\ Z.of_nat (size (pending_blocks w1)) + Z.of_nat (size (in_flight w1)) < MAX_PENDING_BLOCKS /\
    forall h x, h ∉ missed -> next_connect_height w1 <= h < next_height w1 -> active_chain (headers g) !! Z.to_nat h = Some x -> h <> f_height e -> covered w1 h x.
Proof.
  intros [Hc Hg _ _ _ _] He w1. split; [apply counts_shrink; [apply delete_subseteq|done]|]. split.
  - destruct Hc as [_ H2 _ _]. unfold w1. cbn. rewrite map_size_delete_Some by by eexists. assert (size (in_flight w) <> 0%nat); [|lia].
    intros E. apply map_size_empty_inv in E. rewrite E, lookup_empty in He. done.
  - intros h x Hns Hh Hx Hne. destruct (Hg h x Hns Hh Hx) as [Hs|[(e' & He' & Hf)|Hp]]; [by left| |by right; right]. right; left. exists e'. split; [|done].
    cbn. rewrite lookup_delete_ne; [done|]. intros <-. rewrite He in He'. injection He' as <-. by destruct Hne.
Qed.

Lemma received_inv free time g w hash raw g' w' :
  window_inv g w -> handle_received_block free time g w hash raw = Some (g', w') -> window_inv g' w'.
Proof.
  intros Hw H. unfold handle_received_block in H. destruct (in_flight w !! hash) as [e|] eqn:He; [|by injection H as <- <-].
  destruct (take_request g w hash e Hw He) as (Hc & Hroom & Hcov). set (w1 := set_in_flight w (delete hash (in_flight w))) in *. pose proof (proj1 (co_heights _ _ (wi_counts _ _ _ Hw) _ _ He)) as Hh0.
  destruct Hw as [_ _ Hk Hr Ht Hn]. change (next_height w) with (next_height w1) in Hk, Hr. change (next_connect_height w) with (next_connect_height w1) in Hk, Hr, Ht.
  assert (window_inv g (schedule_redownload w1 (f_height e))) as Hre by (apply redownload_inv; try done; intros k x Hns Hkr Hx; apply Hcov; [done|lia|done|lia]).
  apply bind_Some in H as (valid & _ & H). destruct valid as [b|]; [|by injection H as <- <-]. destruct (Z.compare_spec (f_height e) (next_connect_height w1)) as [Eh|Hlt|Hgt].
  - apply bind_Some in H as ([[g1 w2] ok] & Hcs & H). apply connect_and_store_ok in Hcs. destruct ok; [|by destruct Hcs as [-> ->]; injection H as <- <-].
    destruct Hcs as (Had & Et & Enc & _). rewrite Eh in Et, Enc. eapply drain_ok; [|exact H]. apply (connected_inv g w1 g1 w2 hash); [|done..]. split; try done.
    intros h x Hns Hh Hx. apply Hcov; [done|lia|done|lia].
  - apply store_block_data_ok in H as ([E1 E2 E3 E4 E5] & Ec & En & _). split; rewrite ?E1, ?E3, ?En, ?Ec; try done.
    + destruct Hc as [C1 C2 C3 C4]. split; rewrite ?E2, ?E4, ?E1; done.
    + intros h x Hns Hh Hx. rewrite E3 in Hh. destruct (Hcov h x) as [Hs|[(e' & He' & Hf)|Hp]]; [done|lia|done|lia|left; set_solver|right; left; exists e'; by rewrite E2|right; right; by rewrite E4].
  - destruct (_ >=? MAX_PENDING_BLOCKS) eqn:Efull; [by injection H as <- <-|]. injection H as <- <-. split; cbn; try done.
    + destruct Hc as [C1 C2 C3 C4]. split; cbn; [done| |done|done]. rewrite map_size_insert. unfold w1 in Hroom. cbn in Hroom. change (pending_blocks w1) with (pending_blocks w). destruct (pending_blocks w !! f_height e); cbn; lia.
    + intros h x Hns Hh Hx. cbn in Hh. destruct (decide (h = f_height e)) as [->|Hne]; [right; right; cbn; by rewrite lookup_insert_eq|].
      destruct (Hcov h x Hns Hh Hx Hne) as [Hs|[Hf|Hp]]; [by left|by right; left|]. right; right. cbn. by rewrite lookup_insert_ne.
Qed.

(** ** Expiry *)

(** requests were dropped and the next height set back *)
Lemma expired_inv g g' w w' : window_inv g w -> counts_ok (active_chain (headers g)) w' -> no_gap missed w' (active_chain (headers g)) (next_connect_height w) -> headers g' = headers g -> chain g' = chain g ->
  next_connect_height w' = next_connect_height w -> 0 <= next_height w' <= next_height w -> window_inv g' w'.
Proof. intros [Hc Hg Hk Hr Ht Hn] Hc' Hg' Eh Ec En Hle. split; rewrite ?Eh, ?Ec, ?En; try done; lia. Qed.

Lemma disconnect_inv g w peer : window_inv g w -> window_inv g (handle_peer_disconnect w peer).
Proof.
  intros Hw. pose proof (wi_counts _ _ _ Hw) as Hc. apply (expired_inv g g w); [done|by apply disconnect_counts|apply disconnect_no_gap, Hw|done|done|by rewrite drop_peer_eq; destruct (min_height _)|].
  rewrite drop_peer_eq. by apply (reset_next (active_chain (headers g))); [|apply Hw].
Qed.

Lemma timeout_scan_inv now g w : window_inv g w -> window_inv (handle_timeout_scan now g w).1 (handle_timeout_scan now g w).2.
Proof.
  intros Hw. unfold handle_timeout_scan. assert (scanned w (active_chain (headers g)) (next_connect_height w) w) as Hs by (split; [apply Hw|apply Hw|destruct (wi_range _ _ _ Hw); lia]).
  apply (scanned_drop _ _ _ _ (is_stale_request now)) in Hs.
  pose proof (strike_peers_ok now w (elements (list_to_set (f_peer <$> entries (filter (is_stale_request now) (in_flight w))) : gset IpAddr)) _ _ (nodes g) _ _ Hs) as H.
  destruct (foldl _ _ _) as [[ns m] low]. cbn [fst snd]. destruct H as [Hg Hc Hn]. apply (expired_inv g _ w); try done. by destruct low.
Qed.

Lemma reorg_inv g w h : (tip (chain g)).2 = h -> 0 <= h -> NoDup (active_chain (headers g)) -> window_inv g (handle_reorg w h).
Proof.
  intros Ht Hh Hn. split; cbn; [|intros k x _ Hk; cbn in Hk; lia|lia|unfold u32_sat_add, u32_max; lia|by rewrite Ht|done].
  split; cbn; [done|done|intros peer; unfold used_by; cbn; by rewrite map_filter_empty, map_size_empty|intros x e He; by rewrite lookup_empty in He].
Qed.
End Invariant.
