(* ===== verification/BlockDownloadSafety.v ===== *)
(** * BlockDownloadSafety: filling the window, catching up, and the whole manager

    [fill_window] always ends, and keeps the invariant of BlockDownloadCorrect but for the
    heights it moves past when no connected peer may be asked.  The loops of the manager end
    by finite derivations.  A step relation then puts the operations of the manager together,
    with the queue of notices that reorganisations leave for it.  The last section
    shows what happens when no peer may be asked. *)
From Stdlib Require Import Strings.Byte.
From stdpp Require Import base numbers list strings gmap relations sorting.
From S2P Require Import Prelude Codec Types Merkle Compact Float64 Difficulty Validation Vec ScriptNum Signature Engine EngineSafety ScriptVerify Database Coin UndoStore Ledger Chainstate Pow HashOrder Mempool Headers HeadersCorrect BlockStore Network Messages BlockDownload BlockDownloadCorrect.

(** ** The heights found and their assignment *)

Lemma sorted_lookup_le {A} (f : A -> Z) (l : list A) i j x y :
  StronglySorted (fun p q => f p < f q) l -> l !! i = Some x -> l !! j = Some y -> (i <= j)%nat -> f x <= f y.
Proof.
  intros Hs. revert i j. induction Hs as [|z l Hs IH Hz]; intros i j Hi Hj Hle; [done|]. destruct i as [|i], j as [|j]; cbn in Hi, Hj; simplify_eq; try lia.
  - rewrite Forall_lookup in Hz. specialize (Hz _ _ Hj). cbn in Hz. lia.
  - apply (IH i j); [done|done|lia].
Qed.

Lemma scan_NoDup {missed : gset Z} w chain lo free req next : NoDup chain -> scan_ok (missed := missed) w chain lo free req next -> NoDup req.*2.
Proof.
  intros Hn [_ _ Hr Hs]. induction Hs as [|[h x] req Hs IH Hx]; [constructor|]. apply Forall_cons in Hr as [(Hh & Hl & _) Hr]. constructor; [|by apply IH].
  intros ([h' x'] & E & Hin)%list_elem_of_fmap. cbn in *. subst x'. rewrite Forall_forall in Hx, Hr. specialize (Hx _ Hin). destruct (Hr _ Hin) as (Hh' & Hl' & _). cbn in *.
  pose proof (NoDup_lookup _ _ _ _ Hn Hl Hl'). lia.
Qed.

Lemma assign_prefix now req peers : (assign now req peers).*1.*1 `prefix_of` req.*2.
Proof.
  revert peers. induction req as [|[h x] req IH]; intros peers; cbn [assign]; [done|]. destruct (next_peer peers) as [|[[j ip] free] rest]; cbn; [apply prefix_nil|].
  apply prefix_cons, IH.
Qed.

(** a peer listed once has the slots computed for it *)
Lemma slots_unique (f : IpAddr -> Z) peers ip : NoDup peers.*1.*2 -> Forall (fun p => p.2 = f p.1.2) peers -> 0 <= f ip -> slots peers ip <= f ip.
Proof.
  intros Hn Hf H0. induction Hf as [|[[i a] free] peers Ep Hf IH]; [done|]. cbn in Hn, Ep. apply NoDup_cons in Hn as [Ha Hn]. rewrite slots_cons. cbn [fst snd]. specialize (IH Hn).
  destruct (decide (a = ip)) as [<-|]; [|lia]. assert (slots peers a = 0) as ->; [|lia]. clear -Ha. induction peers as [|[[j b] free'] peers IH]; [done|].
  cbn in Ha. apply not_elem_of_cons in Ha as [Hab Ha]. rewrite slots_cons, IH by done. cbn. by rewrite decide_False.
Qed.

Lemma asked_filter P `{!forall x, Decision (P x)} l ip : asked (filter P l) ip <= asked l ip.
Proof.
  unfold asked, zlen. rewrite list_filter_filter. apply Nat2Z.inj_le. induction l as [|x l IH]; [done|]. rewrite !filter_cons.
  destruct (decide (f_peer x.1.2 = ip /\ P x)) as [[H1 H2]|Hno]; [rewrite decide_True by done; cbn; lia|]. destruct (decide (f_peer x.1.2 = ip)); cbn; lia.
Qed.

Section Fill.
Context {missed : gset Z} `{HS : Sha256} `{HD : Digests} `{HK : K256} `{HU256 : U256Overflow} `{HO : HashOrder}.
Context {B UT MT IT KT : Type} {HB : HeaderBackend B} {HU : Table (list byte) (list byte) UT} {HM : Table string (list byte) MT}
  {HI : Table (list byte) (Z * Z * Z) IT} {HBI : Table (list byte) (Z * Z * Z) KT}.
Notation shared := (Shared B UT MT IT KT).
Implicit Types (g : shared) (w : Window) (hash : Hash256).

Lemma batch_in_range g start stop : 0 <= start -> stop <= u32_max -> batch_from (active_chain (headers g)) start (hashes_in_range (headers g) start stop).
Proof. intros H0 Hs i p Hp. apply lookup_hashes_in_range in Hp as (E & Hl & Hlt); [|done]. rewrite E in *. split; [done|]. split; [done|lia]. Qed.

Lemma collect_ok fuel g w lo free : forall req next, NoDup (active_chain (headers g)) -> counts_ok (active_chain (headers g)) w -> 0 <= next -> scan_ok (missed := missed) w (active_chain (headers g)) lo free req next ->
  (Z.to_nat (chain_height g - next + 1) < fuel)%nat ->
  exists req' next', collect_loop fuel g w free req next = Some (req', next') /\ scan_ok (missed := missed) w (active_chain (headers g)) lo free req' next' /\ next <= next' /\
    (next' = next \/ next' <= zlen (active_chain (headers g)) /\ next' <= u32_max).
Proof.
  induction fuel as [|fuel IH]; intros req next Hn Hc H0 Hs Hfuel; [lia|]. cbn [collect_loop].
  assert (exists req' next', Some (req, next) = Some (req', next') /\ scan_ok (missed := missed) w (active_chain (headers g)) lo free req' next' /\ next <= next' /\
    (next' = next \/ next' <= zlen (active_chain (headers g)) /\ next' <= u32_max)) as Hstop by (exists req, next; split_and!; [done|done|lia|by left]).
  destruct (Z.ltb_spec (zlen req) free) as [Hroom|]; [|exact Hstop]. destruct (Z.leb_spec next (chain_height g)) as [Hle|]; [|exact Hstop]. cbn [andb].
  set (batch := hashes_in_range _ _ _). destruct (Z.eqb_spec (zlen batch) 0) as [|Hb]; [exact Hstop|].
  destruct (scan_batch w free batch req next) as [req1 next1] eqn:E.
  assert (batch_from (active_chain (headers g)) next batch) as Hfrom by (apply batch_in_range; [done|unfold u32_sat_add; lia]).
  destruct (scan_batch_ok w _ lo free batch req next req1 next1 Hn Hc H0 Hfrom Hs E) as (Hs1 & Hle1 & Hend & Hlt). assert (batch <> []) as Hne by (by intros ->). specialize (Hlt Hroom Hne).
  destruct (IH req1 next1) as (req2 & next2 & -> & Hs2 & Hle2 & Hend2); [done|done|lia|done|lia|]. exists req2, next2. split_and!; [done|done|lia|].
  destruct Hend2 as [->|Hend2]; [|by right]. destruct Hend as [->|Hend]; [by left|by right].
Qed.

(** the peers that may be asked, and how much *)
Lemma available_sub g w writers : (available_peers g w writers).*1.*2 `sublist_of` writers.
Proof.
  assert (forall l : list (nat * IpAddr), ((fun x : nat * IpAddr => (x.1, x.2, sat_sub PER_PEER_LIMIT (used_by (in_flight w) x.2))) <$> l).*1.*2 = l.*2) as E.
  { intros l. rewrite <- !list_fmap_compose. by apply list_fmap_ext. }
  assert ((imap pair writers).*2 = writers) as E2.
  { rewrite fmap_imap. transitivity (imap (fun _ x => x) writers); [done|]. generalize writers. clear. intros l. induction l as [|x l IH]; [done|]. cbn. by f_equal. }
  unfold available_peers. etransitivity; [do 2 apply fmap_sublist; apply sublist_filter|]. rewrite E. etransitivity; [apply fmap_sublist, sublist_filter|]. by rewrite E2.
Qed.

Lemma available_free g w writers : Forall (fun p => p.2 = sat_sub PER_PEER_LIMIT (used_by (in_flight w) p.1.2)) (available_peers g w writers) /\ Forall (fun p => 0 <= p.2) (available_peers g w writers).
Proof.
  unfold available_peers. split; apply Forall_forall; intros p [Hp Hin]%list_elem_of_filter; [|lia]. apply list_elem_of_fmap in Hin as (x & -> & _). done.
Qed.

(** a connected peer is never asked for more than its limit *)
Lemma commit_limit g w writers now req P `{!forall x, Decision (P x)} ip : NoDup writers -> used_by (in_flight w) ip <= PER_PEER_LIMIT ->
  used_by (commit (in_flight w) (filter P (assign now req (available_peers g w writers)))) ip <= PER_PEER_LIMIT.
Proof.
  intros Hn Hu. pose proof (commit_used (in_flight w) (filter P (assign now req (available_peers g w writers))) ip). pose proof (asked_filter P (assign now req (available_peers g w writers)) ip).
  destruct (available_free g w writers) as [Hf Hge]. pose proof (assign_asked now req _ ip Hge).
  pose proof (slots_unique (fun ip => sat_sub PER_PEER_LIMIT (used_by (in_flight w) ip)) (available_peers g w writers) ip (sublist_NoDup _ _ Hn (available_sub g w writers)) Hf). unfold sat_sub in *. lia.
Qed.

(** what [fill_window] does with the heights found *)
Definition sent_ok (sent : nat -> bool) (l : list (Hash256 * InFlightEntry * nat)) := filter (fun x => sent x.2 = true) l.
Definition sent_failed (sent : nat -> bool) (l : list (Hash256 * InFlightEntry * nat)) := filter (fun x => sent x.2 = false) l.
Definition filled (w : Window) (sent : nat -> bool) (req : list (Z * Hash256)) (new_entries : list (Hash256 * InFlightEntry * nat)) : Window :=
  reset_to (set_in_flight (match req !! length new_entries with Some (h, _) => set_next_height w (Z.min (next_height w) h) | None => w end) (commit (in_flight w) (sent_ok sent new_entries)))
    (min_height ((sent_failed sent new_entries).*1).*2).

Lemma filled_in_flight w sent req l : in_flight (filled w sent req l) = commit (in_flight w) (sent_ok sent l).
Proof. unfold filled. rewrite in_flight_reset. by destruct (req !! length l) as [[]|]. Qed.

Lemma filled_rest w sent req l : pending_blocks (filled w sent req l) = pending_blocks w /\ stored_hashes (filled w sent req l) = stored_hashes w /\ next_connect_height (filled w sent req l) = next_connect_height w.
Proof. unfold filled. destruct (min_height _), (req !! length l) as [[]|]; done. Qed.

Lemma filled_next_le w sent req l : next_height (filled w sent req l) <= next_height w.
Proof. unfold filled. destruct (min_height _), (req !! length l) as [[]|]; cbn; lia. Qed.

(** below the new next height nothing was left unassigned and nothing failed *)
Lemma filled_next_unassigned w sent req l h x : req !! length l = Some (h, x) -> next_height (filled w sent req l) <= h.
Proof. unfold filled. intros ->. destruct (min_height _); cbn; lia. Qed.

Lemma filled_next_failed w sent req l x e n : (x, e, n) ∈ l -> sent n = false -> next_height (filled w sent req l) <= f_height e.
Proof.
  intros Hin Hn. assert (e ∈ ((sent_failed sent l).*1).*2) as He.
  { apply list_elem_of_fmap. exists (x, e). split; [done|]. apply list_elem_of_fmap. exists (x, e, n). split; [done|]. by apply list_elem_of_filter. }
  unfold filled. destruct (min_height _) as [m|] eqn:Em; [|apply min_height_None in Em; rewrite Em in He; by apply not_elem_of_nil in He].
  pose proof (min_height_Some _ _ _ Em He). cbn. lia.
Qed.

(** an assigned request is one of the heights found *)
Lemma assigned_req now req peers x e n : (x, e, n) ∈ assign now req peers -> (f_height e, x) ∈ req.
Proof. intros [i Hi]%list_elem_of_lookup. apply assign_lookup in Hi. apply list_elem_of_lookup. by exists i. Qed.

Lemma sent_keys sent now req peers : NoDup req.*2 -> NoDup ((sent_ok sent (assign now req peers)).*1).*1.
Proof.
  intros Hn. eapply sublist_NoDup; [exact Hn|]. etransitivity; [do 2 apply fmap_sublist; apply sublist_filter|]. destruct (assign_prefix now req peers) as [k ->].
  by apply sublist_inserts_r.
Qed.

Lemma filled_gap now sent peers w chain lo free req next : NoDup chain -> scan_ok (missed := missed) w chain lo free req next ->
  no_gap missed (filled (set_next_height w next) sent req (assign now req peers)) chain lo.
Proof.
  intros Hn Hs h x Hns Hh Hx. pose proof (scan_NoDup _ _ _ _ _ _ Hn Hs) as Hnd. pose proof (sent_keys sent now req peers Hnd) as Hkeys. destruct Hs as [_ Hall Hreq Hsort]. rewrite Forall_forall in Hreq.
  set (l := assign now req peers) in *. destruct (filled_rest (set_next_height w next) sent req l) as (Ep & Es & _). pose proof (filled_next_le (set_next_height w next) sent req l) as Hle. cbn in Hle.
  unfold covered. rewrite filled_in_flight, Ep, Es. cbn [set_next_height stored_hashes in_flight pending_blocks].
  destruct (Hall h x) as [[Hst|[(e & He & Hf)|Hp]]|Hin]; [done|lia|done|by left| |by right; right|].
  - right; left. exists e. split; [|done]. apply commit_lookup; [done|]. right. split; [|done]. intros ([y f] & E & ([[y' f'] n] & E' & [_ Hl]%list_elem_of_filter)%list_elem_of_fmap)%list_elem_of_fmap.
    cbn in E, E'. simplify_eq. apply assigned_req in Hl. destruct (Hreq _ Hl) as (_ & _ & Hnone). cbn in Hnone. congruence.
  - apply list_elem_of_lookup in Hin as [i Hi]. destruct (decide (i < length l)%nat) as [Hlt|Hge].
    + destruct (lookup_lt_is_Some_2 _ _ Hlt) as [[[y e] n] Hl]. pose proof (assign_lookup _ _ _ _ _ _ _ Hl) as Ei. rewrite Hi in Ei. injection Ei as -> ->. apply list_elem_of_lookup_2 in Hl.
      destruct (sent n) eqn:Esent; [|pose proof (filled_next_failed (set_next_height w next) sent req l _ _ _ Hl Esent); lia].
      right; left. exists e. split; [|done]. apply commit_lookup; [done|]. left. exists n. by apply list_elem_of_filter.
    + apply Nat.nlt_ge in Hge. assert (length l < length req)%nat as Hlr by (apply lookup_lt_Some in Hi; lia). destruct (lookup_lt_is_Some_2 _ _ Hlr) as [[h0 x0] E0].
      pose proof (filled_next_unassigned (set_next_height w next) sent req l _ _ E0). pose proof (sorted_lookup_le fst req (length l) i _ _ Hsort E0 Hi Hge) as Hle0. cbn in Hle0. lia.
Qed.

Lemma filled_counts now sent writers g w lo free req next : NoDup writers -> NoDup (active_chain (headers g)) -> counts_ok (active_chain (headers g)) w -> scan_ok (missed := missed) w (active_chain (headers g)) lo free req next ->
  free <= WINDOW_SIZE - Z.of_nat (size (in_flight w)) -> free <= MAX_PENDING_BLOCKS - (Z.of_nat (size (pending_blocks w)) + Z.of_nat (size (in_flight w))) ->
  counts_ok (active_chain (headers g)) (filled (set_next_height w next) sent req (assign now req (available_peers g w writers))).
Proof.
  intros Hw Hn Hc Hs H1 H2. pose proof (scan_NoDup _ _ _ _ _ _ Hn Hs) as Hnd. set (l := assign now req (available_peers g w writers)) in *. destruct (filled_rest (set_next_height w next) sent req l) as (Ep & _ & _).
  pose proof (commit_size (in_flight w) (sent_ok sent l)) as Hsz. pose proof (length_filter (fun x : Hash256 * InFlightEntry * nat => sent x.2 = true) l) as Hfl. pose proof (assign_length now req (available_peers g w writers)) as Hal. fold l in Hal.
  fold (sent_ok sent l) in Hfl. destruct Hs as [Hcount _ Hreq _]. rewrite Forall_forall in Hreq. unfold zlen in Hcount. split; rewrite ?filled_in_flight, ?Ep; cbn [set_next_height in_flight pending_blocks]; [lia|lia| |].
  - intros ip. apply commit_limit; [done|apply Hc].
  - intros x e He. apply commit_lookup in He; [|by apply sent_keys]. destruct He as [(n & [_ Hin]%list_elem_of_filter)|[_ He]]; [|by apply (co_heights _ _ Hc)].
    apply assigned_req in Hin. destruct (Hreq _ Hin) as (Hr & Hl & _). split; [apply Hr|done].
Qed.

Lemma filled_next_nonneg now sent peers w req next : Forall (fun p => 0 <= p.1) req -> 0 <= next -> 0 <= next_height (filled (set_next_height w next) sent req (assign now req peers)).
Proof.
  intros Hr Hn. unfold filled. set (l := assign now req peers). assert (0 <= next_height (match req !! length l with Some (h, _) => set_next_height (set_next_height w next) (Z.min (next_height (set_next_height w next)) h) | None => set_next_height w next end)) as H0.
  { destruct (req !! length l) as [[h x]|] eqn:E; cbn; [|done]. rewrite Forall_lookup in Hr. specialize (Hr _ _ E). cbn in Hr. lia. }
  destruct (min_height _) as [m|] eqn:Em; [|exact H0]. apply min_height_nonneg in Em; [cbn; cbn in H0; lia|]. apply Forall_fmap, Forall_fmap, Forall_forall. intros [[x e] n] [_ Hin]%list_elem_of_filter.
  apply assigned_req in Hin. rewrite Forall_forall in Hr. exact (Hr _ Hin).
Qed.

Notation winv := (window_inv (missed := missed)).

(** the heights found, moved past *)
Lemma found_inv g w sent now writers free req next : NoDup writers -> winv g w -> scan_ok (missed := missed) w (active_chain (headers g)) (next_connect_height w) free req next ->
  free <= WINDOW_SIZE - Z.of_nat (size (in_flight w)) -> free <= MAX_PENDING_BLOCKS - (Z.of_nat (size (pending_blocks w)) + Z.of_nat (size (in_flight w))) ->
  next_height w <= next -> (next = next_height w \/ next <= zlen (active_chain (headers g)) /\ next <= u32_max) ->
  winv g (filled (set_next_height w next) sent req (assign now req (available_peers g w writers))).
Proof.
  intros Hw [Hc Hg Hk Hr Ht Hn] Hs H1 H2 Hle Hend. set (l := assign now req (available_peers g w writers)). destruct (filled_rest (set_next_height w next) sent req l) as (_ & _ & Ec).
  pose proof (filled_next_le (set_next_height w next) sent req l) as Hnext. cbn in Hnext, Ec.
  assert (0 <= next_height (filled (set_next_height w next) sent req l)) as Hpos.
  { apply filled_next_nonneg; [|lia]. eapply Forall_impl; [apply (sk_req _ _ _ _ _ _ Hs)|]. intros p [Hp _]. apply Hp. }
  unfold window_inv. split; rewrite ?Ec; [by apply (filled_counts now sent writers g w (next_connect_height w) free req next)|by apply (filled_gap now sent _ w _ _ free)|lia|lia|done|done].
Qed.

(** no height is to be requested *)
Lemma skipped_inv g w free next : winv g w -> scan_ok (missed := missed) w (active_chain (headers g)) (next_connect_height w) free [] next -> next_height w <= next ->
  (next = next_height w \/ next <= zlen (active_chain (headers g)) /\ next <= u32_max) -> winv g (set_next_height w next).
Proof.
  intros [Hc Hg Hk Hr Ht Hn] Hs Hle Hend. unfold window_inv. split; cbn [set_next_height next_height next_connect_height]; [by apply counts_next_height| |lia|lia|done|done].
  intros h x Hns Hh Hx. cbn in Hh. destruct (sk_all _ _ _ _ _ _ Hs h x Hns Hh Hx) as [Hcv|Hin]; [exact Hcv|by apply not_elem_of_nil in Hin].
Qed.

(** the heights that a fill moved past without asking for them: none, as long as some
    connected peer may be asked *)
Definition missed_by g w w' (writers : list IpAddr) : gset Z :=
  if zlen (available_peers g w writers) =? 0 then list_to_set (seqZ (next_height w) (next_height w' - next_height w)) else ∅.

Lemma winv_weaken g w more : winv g w -> window_inv (missed := missed ∪ more) g w.
Proof. intros [Hc Hg Hk Hr Ht Hn]. split; try done. intros h x Hns Hh Hx. apply Hg; [set_solver|done|done]. Qed.

(** the heights found were moved past, and nobody was asked *)
Lemma unasked_inv g w next : winv g w -> next_height w <= next -> (next = next_height w \/ next <= zlen (active_chain (headers g)) /\ next <= u32_max) ->
  window_inv (missed := missed ∪ list_to_set (seqZ (next_height w) (next - next_height w))) g (set_next_height w next).
Proof.
  intros [Hc Hg Hk Hr Ht Hn] Hle Hend. unfold window_inv. split; cbn [set_next_height next_height next_connect_height]; [by apply counts_next_height| |lia|lia|done|done].
  intros h x Hns Hh Hx. cbn in Hh. apply not_elem_of_union in Hns as [Hns Hskip]. rewrite elem_of_list_to_set, elem_of_seqZ in Hskip. apply (Hg h x Hns); [lia|done].
Qed.

(** [fill_window] ends, and keeps the invariant but for the heights it moves past without asking *)
Lemma fill_window_ok now sent writers g w : NoDup writers -> winv g w ->
  exists w', fill_window now sent writers g w = Some w' /\ window_inv (missed := missed ∪ missed_by g w w' writers) g w'.
Proof.
  intros Hw Hinv. unfold fill_window. set (free := Z.min _ _).
  destruct (_ && negb _); [exists w; split; [done|by apply winv_weaken]|]. destruct (_ || _); [exists w; split; [done|by apply winv_weaken]|].
  assert (scan_ok (missed := missed) w (active_chain (headers g)) (next_connect_height w) free [] (next_height w)) as Hs.
  { split; [unfold free, sat_sub; change (zlen []) with 0; lia|intros h x Hns Hh Hx; left; by apply Hinv|constructor|constructor]. }
  pose proof (wi_counts _ _ _ Hinv) as Hc. pose proof (wi_nodup _ _ _ Hinv) as Hn. pose proof (wi_range _ _ _ Hinv) as Hr.
  destruct (collect_ok (S (Z.to_nat (chain_height g - next_height w + 1))) g w (next_connect_height w) free [] (next_height w) Hn Hc) as (req & next & -> & Hs' & Hle & Hend); [lia|done|lia|].
  cbn [mbind option_bind]. destruct (Z.eqb_spec (zlen req) 0) as [E|E].
  { eexists. split; [done|]. apply winv_weaken. destruct req; [|rewrite zlen_cons in E; pose proof (zlen_nonneg req); lia]. by apply (skipped_inv g w free). }
  change (available_peers g (set_next_height w next) writers) with (available_peers g w writers). unfold missed_by.
  destruct (Z.eqb_spec (zlen (available_peers g w writers)) 0) as [Ea|Ea]; [eexists; split; [done|]; by apply unasked_inv|].
  eexists. split; [reflexivity|]. apply winv_weaken. pose proof (co_window _ _ Hc). pose proof (co_total _ _ Hc).
  pose proof (found_inv g w sent now writers free req next Hw Hinv Hs') as Hf. unfold filled in Hf.
  match goal with |- window_inv _ (reset_to (set_in_flight ?a ?b) ?c) => change (winv g (reset_to (set_in_flight a (commit (in_flight a) (sent_ok sent (assign now req (available_peers g w writers))))) c)) end.
  revert Hf. destruct (req !! _) as [[h x]|]; intros Hf; apply Hf; unfold free, sat_sub; lia.
Qed.
End Fill.

(** ** Catching up, and the loops end *)

Section Loops.
Context {missed : gset Z} `{HS : Sha256} `{HD : Digests} `{HK : K256} `{HU256 : U256Overflow} `{HO : HashOrder}.
Context {B UT MT IT KT : Type} {HB : HeaderBackend B} {HU : Table (list byte) (list byte) UT} {HM : Table string (list byte) MT}
  {HI : Table (list byte) (Z * Z * Z) IT} {HBI : Table (list byte) (Z * Z * Z) KT}.
Notation shared := (Shared B UT MT IT KT).
Implicit Types (g : shared) (w : Window) (hash : Hash256).
Notation winv := (window_inv (missed := missed)).

(** a block taken from disk was connected, and perhaps the store flushed *)
Lemma caught_inv g w cs hash b h (flushed : bool) g' w' : winv g w -> connect_block (chain g) b h hash = Ok cs ->
  (g', w') = (if flushed then flush_store (set_chain_state g cs) (set_next_connect w (u32_sat_add h 1)) else (set_chain_state g cs, set_next_connect w (u32_sat_add h 1))) ->
  winv g' w' /\ next_connect_height w' = u32_sat_add h 1 /\ headers g' = headers g /\ chain_height g' = chain_height g /\ stored_hashes w' = stored_hashes w.
Proof.
  intros Hw E Hf. apply connect_block_tip in E as [Et Eh]. assert (inv_from (missed := missed) (next_connect_height w + 1) g w) as Hw1.
  { destruct Hw as [Hc Hg Hk Hr Ht Hn]. split; try done. intros k x Hns Hk' Hx. apply Hg; [done|lia|done]. }
  assert (h = next_connect_height w) as -> by (rewrite (wi_tip _ _ _ Hw); done).
  destruct flushed; injection Hf as -> ->; (split; [apply (connected_inv g w _ _ hash Hw1); [by split|done|done]|done]).
Qed.

Lemma catch_up_batch_ok batch : forall g w n g' w' n' go, winv g w -> catch_up_batch batch g w n = Some (g', w', n', go) ->
  winv g' w' /\ headers g' = headers g /\ chain_height g' = chain_height g.
Proof.
  induction batch as [|[h x] batch IH]; intros g w n g' w' n' go Hw H; cbn [catch_up_batch] in H; [injection H as <- <- <- <-; by split|].
  destruct (negb _); [injection H as <- <- <- <-; by split|]. destruct (_ ≫= _) as [cs| |] eqn:E; [|injection H as <- <- <- <-; by split|done].
  apply res_bind_Ok in E as (raw & _ & E). apply res_bind_Ok in E as (b & _ & E).
  destruct (if _ =? 0 then _ else _) as [g1 w1] eqn:Ef in H. symmetry in Ef. apply (caught_inv g w cs x b h _ g1 w1 Hw E) in Ef as (Hw1 & _ & E1 & E2 & _).
  apply IH in H as (Hw' & E3 & E4); [|done]. split; [done|]. by rewrite E3, E4.
Qed.

Lemma catch_up_loop_ok fuel : forall g w n g' w' n', winv g w -> catch_up_loop fuel g w n = Some (g', w', n') -> winv g' w'.
Proof.
  induction fuel as [|fuel IH]; intros g w n g' w' n' Hw H; [done|]. cbn [catch_up_loop] in H. destruct (_ <=? _); [|by injection H as <- <- <-].
  destruct (_ =? 0); [by injection H as <- <- <-|]. apply bind_Some in H as ([[[g1 w1] n1] go] & Hb & H). apply catch_up_batch_ok in Hb as [Hw1 _]; [|done].
  destruct go; [by eapply IH|by injection H as <- <- <-].
Qed.

Lemma flush_inv g w : winv g w -> winv (flush_store g w).1 (flush_store g w).2.
Proof. intros [Hc Hg Hk Hr Ht Hn]. split; try done. by destruct Hc. Qed.

Lemma catch_up_inv g w g' w' : winv g w -> catch_up_chainstate g w = Some (g', w') -> winv g' w'.
Proof.
  intros Hw H. apply bind_Some in H as ([[g1 w1] n] & Hl & H). apply catch_up_loop_ok in Hl; [|done]. destruct (n >? 0); injection H as <- <-; [by apply flush_inv|done].
Qed.

(** *** The loops as finite derivations

    The rules of the two loops without a bound on their turns: a result is derived when
    the loop stops after finitely many turns, and it is [None] only when the body of some turn
    panics.  A loop that went on for ever would have no derivation. *)

Inductive drains (free : Z -> bool) : shared -> Window -> option (shared * Window) -> Prop :=
| drains_empty g w : pending_blocks w !! next_connect_height w = None -> drains free g w (Some (g, w))
| drains_panic g w hash b raw : pending_blocks w !! next_connect_height w = Some (hash, b, raw) ->
    connect_and_store free g (pop_pending w) hash b raw (next_connect_height w) = None -> drains free g w None
| drains_refused g w hash b raw g1 w1 : pending_blocks w !! next_connect_height w = Some (hash, b, raw) ->
    connect_and_store free g (pop_pending w) hash b raw (next_connect_height w) = Some (g1, w1, false) -> drains free g w (Some (g1, schedule_redownload w1 (next_connect_height w1)))
| drains_turn g w hash b raw g1 w1 r : pending_blocks w !! next_connect_height w = Some (hash, b, raw) ->
    connect_and_store free g (pop_pending w) hash b raw (next_connect_height w) = Some (g1, w1, true) -> drains free g1 w1 r -> drains free g w r.

(** the heights a turn of the catch-up looks at *)
Definition next_batch g w : list (Z * Hash256) :=
  hashes_in_range (headers g) (next_connect_height w) (Z.min (u32_sat_add (next_connect_height w) SCAN_BATCH_SIZE) (u32_sat_add (chain_height g) 1)).

Inductive catches_up : shared -> Window -> Z -> option (shared * Window * Z) -> Prop :=
| catches_up_tip g w n : chain_height g < next_connect_height w \/ next_batch g w = [] -> catches_up g w n (Some (g, w, n))
| catches_up_panic g w n : next_connect_height w <= chain_height g -> next_batch g w <> [] -> catch_up_batch (next_batch g w) g w n = None -> catches_up g w n None
| catches_up_stop g w n g1 w1 n1 : next_connect_height w <= chain_height g -> next_batch g w <> [] ->
    catch_up_batch (next_batch g w) g w n = Some (g1, w1, n1, false) -> catches_up g w n (Some (g1, w1, n1))
| catches_up_turn g w n g1 w1 n1 r : next_connect_height w <= chain_height g -> next_batch g w <> [] ->
    catch_up_batch (next_batch g w) g w n = Some (g1, w1, n1, true) -> catches_up g1 w1 n1 r -> catches_up g w n r.

(** the waiting blocks bound the drain *)
Lemma drain_enough free : forall n g w, (size (pending_blocks w) < n)%nat -> drains free g w (drain_loop n free g w).
Proof.
  induction n as [|n IH]; intros g w Hn; [lia|]. cbn [drain_loop]. destruct (pending_blocks w !! next_connect_height w) as [[[x b] raw]|] eqn:E; [|by apply drains_empty].
  fold (pop_pending w). change (next_connect_height (pop_pending w)) with (next_connect_height w).
  destruct (connect_and_store _ _ _ _ _ _ _) as [[[g1 w1] ok]|] eqn:Ec; cbn [mbind option_bind]; [|by eapply drains_panic]. destruct ok; [|by eapply drains_refused].
  eapply drains_turn; [exact E|exact Ec|]. apply IH. apply connect_and_store_ok in Ec as ([_ _ _ Ep _] & _). cbn in Ep.
  rewrite Ep, map_size_delete_Some by by eexists. assert (size (pending_blocks w) <> 0%nat); [|lia]. intros Ez. apply map_size_empty_inv in Ez. by rewrite Ez, lookup_empty in E.
Qed.

(** a batch that was connected whole moved the next height past it *)
Lemma catch_up_batch_next batch : forall g w n g' w' n', winv g w -> batch_from (active_chain (headers g)) (next_connect_height w) batch ->
  catch_up_batch batch g w n = Some (g', w', n', true) -> next_connect_height w' = next_connect_height w + zlen batch.
Proof.
  induction batch as [|[h x] batch IH]; intros g w n g' w' n' Hw Hb H; cbn [catch_up_batch] in H; [injection H as <- <- <-; change (zlen []) with 0; lia|].
  destruct (negb _); [done|]. destruct (_ ≫= _) as [cs| |] eqn:E; [|done|done]. apply res_bind_Ok in E as (raw & _ & E). apply res_bind_Ok in E as (b & _ & E).
  destruct (if _ =? 0 then _ else _) as [g1 w1] eqn:Ef in H. symmetry in Ef. apply (caught_inv g w cs x b h _ g1 w1 Hw E) in Ef as (Hw1 & Enc & E1 & _ & _).
  apply batch_tail in Hb as (Eh & _ & Hlt & Hb). cbn in Eh. subst h. assert (next_connect_height w1 = next_connect_height w + 1) as En by (rewrite Enc; unfold u32_sat_add; lia).
  apply IH in H; [|done|by rewrite En, E1]. rewrite H, En, zlen_cons. lia.
Qed.

Lemma catch_up_enough : forall n g w c, winv g w -> (Z.to_nat (chain_height g - next_connect_height w + 1) < n)%nat -> catches_up g w c (catch_up_loop n g w c).
Proof.
  induction n as [|n IH]; intros g w c Hw Hn; [lia|]. cbn [catch_up_loop]. destruct (Z.leb_spec (next_connect_height w) (chain_height g)) as [Hle|Hgt]; [|apply catches_up_tip; by left].
  fold (next_batch g w). destruct (Z.eqb_spec (zlen (next_batch g w)) 0) as [Eb|Hb].
  { apply catches_up_tip. right. destruct (next_batch g w) as [|p l]; [done|]. rewrite zlen_cons in Eb. pose proof (zlen_nonneg l). lia. }
  assert (next_batch g w <> []) as Hne by (intros E; by rewrite E in Hb).
  destruct (catch_up_batch (next_batch g w) g w c) as [[[[g1 w1] c1] go]|] eqn:E; cbn [mbind option_bind]; [|by apply catches_up_panic]. destruct go; [|by apply catches_up_stop].
  eapply catches_up_turn; [done|done|exact E|]. pose proof (catch_up_batch_ok _ _ _ _ _ _ _ _ Hw E) as (Hw1 & _ & Ech).
  apply catch_up_batch_next in E; [|done|apply batch_in_range; [apply Hw|unfold u32_sat_add; lia]]. pose proof (zlen_nonneg (next_batch g w)). apply IH; [done|lia].
Qed.

(** C29: the loops of the download manager end.  The waiting blocks are connected, and the
    chain state caught up from disk, in finitely many turns: the bounds the two loops are
    given, the number of waiting blocks and the distance to the header tip, suffice to
    derive their results by the rules of the unbounded loops, so that they give no result only
    when the body of a turn panics; and any larger bound gives a derivation too.
    [fill_window], which has no other way to fail, always returns. *)
Theorem download_loops_end free now sent writers g w : winv g w -> NoDup writers ->
  drains free g w (drain_pending free g w) /\
  catches_up g w 0 (catch_up_loop (S (Z.to_nat (chain_height g - next_connect_height w + 1))) g w 0) /\
  (forall fuel, (size (pending_blocks w) < fuel)%nat -> drains free g w (drain_loop fuel free g w)) /\
  (forall fuel, (Z.to_nat (chain_height g - next_connect_height w + 1) < fuel)%nat -> catches_up g w 0 (catch_up_loop fuel g w 0)) /\
  is_Some (fill_window now sent writers g w).
Proof.
  intros Hw Hn. split_and!; [apply drain_enough; lia|apply catch_up_enough; [done|lia]|intros fuel Hf; by apply drain_enough|intros fuel Hf; by apply catch_up_enough|].
  destruct (fill_window_ok now sent writers g w Hn Hw) as (w' & -> & _). by eexists.
Qed.

Lemma counts_grow c ext w : counts_ok c w -> counts_ok (c ++ ext) w.
Proof. intros [H1 H2 H3 H4]. split; try done. intros x e He. destruct (H4 x e He) as [Hp Hl]. split; [done|]. by apply lookup_app_l_Some. Qed.

Lemma dl_node_inv g w g' ext : winv g w -> active_chain (headers g') = active_chain (headers g) ++ ext -> NoDup (active_chain (headers g')) -> chain g' = chain g -> winv g' w.
Proof.
  intros [Hc Hg Hk Hr Ht Hn] E Hn' Ec. split; rewrite ?E, ?Ec; try done; [by apply counts_grow| |rewrite zlen_app; pose proof (zlen_nonneg ext); lia|by rewrite <- E].
  intros h x Hns Hh Hx. apply Hg; [done|done|]. destruct (decide (h < zlen (active_chain (headers g)))) as [Hlt|Hge]; [|lia]. rewrite lookup_app_l in Hx; [done|]. unfold zlen in Hlt. lia.
Qed.

Lemma manager_new_inv g : NoDup (active_chain (headers g)) -> 0 <= (tip (chain g)).2 -> winv g (manager_new g).
Proof.
  intros Hn Ht. assert (1 <= u32_sat_add (tip (chain g)).2 1) by (unfold u32_sat_add, u32_max; lia). split; cbn; [|intros h x _ Hh; cbn in Hh; lia|lia|unfold u32_max; lia|done|done].
  split; cbn; [done|done|intros peer; unfold used_by; cbn; by rewrite map_filter_empty, map_size_empty|intros x e He; by rewrite lookup_empty in He].
Qed.

Lemma mark_inv g w b : winv g w -> winv g (set_caught_up w b).
Proof. intros [[] ? ? ? ? ?]. split; done. Qed.
End Loops.

(** ** The manager's steps *)

Section Steps.
Context `{HS : Sha256} `{HD : Digests} `{HK : K256} `{HU256 : U256Overflow} `{HO : HashOrder}.
Context {B UT MT IT KT : Type} {HB : HeaderBackend B} {HU : Table (list byte) (list byte) UT} {HM : Table string (list byte) MT}
  {HI : Table (list byte) (Z * Z * Z) IT} {HBI : Table (list byte) (Z * Z * Z) KT}.
Notation shared := (Shared B UT MT IT KT).
Implicit Types (g : shared) (w : Window) (hash : Hash256) (missed : gset Z) (notices : list Z).

(** The manager beside the rest of the node: what they share, the window, and the queue of
    the channel over which a reorganisation tells the manager its new tip.  [missed] is not
    of the program: it records the heights that the window was moved past without a request. *)
Record DlState := mkDl { dl_shared : shared; dl_window : Window; dl_missed : gset Z; dl_notices : list Z }.

(** one step of the manager, or of the rest of the node in between; the headers may
    grow at any time, and a reorganisation replaces chain and headers and queues its new tip *)
Inductive dl_step : DlState -> DlState -> Prop :=
| dl_fill now sent writers g w w' missed notices : NoDup writers -> fill_window now sent writers g w = Some w' ->
    dl_step (mkDl g w missed notices) (mkDl g w' (missed ∪ missed_by g w w' writers) notices)
| dl_received free time g w hash raw g' w' missed notices : handle_received_block free time g w hash raw = Some (g', w') ->
    dl_step (mkDl g w missed notices) (mkDl g' w' missed notices)
| dl_disconnect g w peer missed notices : dl_step (mkDl g w missed notices) (mkDl g (handle_peer_disconnect w peer) missed notices)
| dl_timeout now g w missed notices : dl_step (mkDl g w missed notices) (mkDl (handle_timeout_scan now g w).1 (handle_timeout_scan now g w).2 missed notices)
| dl_flush g w missed notices : dl_step (mkDl g w missed notices) (mkDl (flush_store g w).1 (flush_store g w).2 missed notices)
| dl_mark g w b missed notices : dl_step (mkDl g w missed notices) (mkDl g (set_caught_up w b) missed notices)
| dl_catch_up g w g' w' missed notices : catch_up_chainstate g w = Some (g', w') -> dl_step (mkDl g w missed notices) (mkDl g' w' missed notices)
| dl_node g w g' ext missed notices : active_chain (headers g') = active_chain (headers g) ++ ext -> NoDup (active_chain (headers g')) -> chain g' = chain g ->
    dl_step (mkDl g w missed notices) (mkDl g' w missed notices)
| dl_reorg g w g' missed notices : 0 <= (tip (chain g')).2 -> NoDup (active_chain (headers g')) ->
    dl_step (mkDl g w missed notices) (mkDl g' w missed (notices ++ [(tip (chain g')).2]))
| dl_notice g w h missed notices : dl_step (mkDl g w missed (h :: notices)) (mkDl g (handle_reorg w h) ∅ notices).

(** while a reorganisation is announced and its notice waits, no block is connected *)
Definition in_order (s s' : DlState) : Prop :=
  dl_notices s = [] \/ dl_notices s' <> dl_notices s \/ chain (dl_shared s') = chain (dl_shared s).
Definition dl_run : DlState -> DlState -> Prop := rtc (fun s s' => dl_step s s' /\ in_order s s').

(** the invariant, when no notice waits; otherwise the last notice waiting tells the tip *)
Definition dl_inv (s : DlState) : Prop :=
  match last (dl_notices s) with
  | None => window_inv (missed := dl_missed s) (dl_shared s) (dl_window s)
  | Some h => (tip (chain (dl_shared s))).2 = h /\ 0 <= h /\ NoDup (active_chain (headers (dl_shared s)))
  end.

(** a step that leaves chain state and header chain, when a notice waits *)
Lemma dl_inv_waiting g w missed notices g' w' missed' h :
  last notices = Some h -> dl_inv (mkDl g w missed notices) -> active_chain (headers g') = active_chain (headers g) -> chain g' = chain g -> dl_inv (mkDl g' w' missed' notices).
Proof. unfold dl_inv. cbn. intros ->. intros Hi -> ->. exact Hi. Qed.

(** a step on the window alone, or on parts of the node the invariant does not mention *)
Lemma dl_inv_step g w missed notices g' w' missed' : dl_inv (mkDl g w missed notices) -> active_chain (headers g') = active_chain (headers g) ->
  (notices = [] \/ chain g' = chain g) -> (window_inv (missed := missed) g w -> window_inv (missed := missed') g' w') -> dl_inv (mkDl g' w' missed' notices).
Proof.
  intros Hi Eh Ec Hstep. destruct (last notices) as [h|] eqn:E; [|unfold dl_inv in *; cbn in *; rewrite E in *; by apply Hstep].
  destruct Ec as [->|Ec]; [done|]. by eapply dl_inv_waiting.
Qed.

(** block handling leaves the headers *)
Lemma drain_headers fuel free : forall g w g' w', drain_loop fuel free g w = Some (g', w') -> headers g' = headers g.
Proof.
  induction fuel as [|fuel IH]; intros g w g' w' H; [done|]. cbn [drain_loop] in H. destruct (pending_blocks w !! _) as [[[hash b] raw]|]; [|by injection H as <- <-].
  apply bind_Some in H as ([[g1 w1] ok] & Hc & H). apply connect_and_store_ok in Hc. destruct ok; [|destruct Hc as [-> _]; by injection H as <- <-].
  rewrite (IH _ _ _ _ H). apply Hc.
Qed.

Lemma received_headers free time g w hash raw g' w' : handle_received_block free time g w hash raw = Some (g', w') -> headers g' = headers g.
Proof.
  unfold handle_received_block. destruct (in_flight w !! hash) as [e|]; [|by intros [= <- <-]]. intros H. apply bind_Some in H as ([b|] & _ & H); [|by injection H as <- <-].
  destruct (_ ?= _).
  - apply bind_Some in H as ([[g1 w1] ok] & Hc & H). apply connect_and_store_ok in Hc. destruct ok; [|destruct Hc as [-> _]; by injection H as <- <-].
    rewrite (drain_headers _ _ _ _ _ _ H). apply Hc.
  - by apply store_block_data_ok in H as ([-> _ _ _ _] & _).
  - destruct (_ >=? _); by injection H as <- <-.
Qed.

Lemma catch_up_batch_headers batch : forall g w n g' w' n' go, catch_up_batch batch g w n = Some (g', w', n', go) -> headers g' = headers g.
Proof.
  induction batch as [|[h x] batch IH]; intros g w n g' w' n' go H; cbn [catch_up_batch] in H; [by injection H as <- _ _ _|]. destruct (negb _); [by injection H as <- _ _ _|].
  destruct (_ ≫= _) as [cs| |]; [|by injection H as <- _ _ _|done]. destruct (_ =? 0) in H; apply IH in H; exact H.
Qed.

Lemma catch_up_headers g w g' w' : catch_up_chainstate g w = Some (g', w') -> headers g' = headers g.
Proof.
  assert (forall fuel g w n g' w' n', catch_up_loop fuel g w n = Some (g', w', n') -> headers g' = headers g) as Hl.
  { induction fuel as [|fuel IH]; intros g0 w0 n g1 w1 n1 H; [done|]. cbn [catch_up_loop] in H. destruct (_ <=? _); [|by injection H as <- _ _]. destruct (_ =? 0); [by injection H as <- _ _|].
    apply bind_Some in H as ([[[g2 w2] n2] go] & Hb & H). apply catch_up_batch_headers in Hb. destruct go; [|by injection H as <- _ _]. rewrite (IH _ _ _ _ _ _ H). done. }
  intros H. apply bind_Some in H as ([[g1 w1] n] & H1 & H). apply Hl in H1. destruct (n >? 0); by injection H as <- <-.
Qed.

Lemma timeout_shared now g w : headers (handle_timeout_scan now g w).1 = headers g /\ chain (handle_timeout_scan now g w).1 = chain g.
Proof. unfold handle_timeout_scan. by destruct (foldl _ _ _) as [[ns m] low]. Qed.

(** what a step of the handling of blocks does to the invariant *)
Lemma dl_inv_blocks g w missed notices g' w' : dl_inv (mkDl g w missed notices) -> in_order (mkDl g w missed notices) (mkDl g' w' missed notices) -> headers g' = headers g ->
  (window_inv (missed := missed) g w -> window_inv (missed := missed) g' w') -> dl_inv (mkDl g' w' missed notices).
Proof. intros Hi Ho Eh Hw. apply (dl_inv_step g w missed notices); [done|by rewrite Eh| |done]. destruct Ho as [Ho|[Ho|Ho]]; cbn in Ho; [by left|done|by right]. Qed.

Lemma dl_step_inv s s' : dl_step s s' -> in_order s s' -> dl_inv s -> dl_inv s'.
Proof.
  intros [now sent writers g w w' missed q Hn Hf|free time g w hash raw g' w' missed q H|g w peer missed q|now g w missed q|g w missed q|g w b missed q|g w g' w' missed q H|g w g' ext missed q E Hn Ec|g w g' missed q Hh Hn|g w h missed q] Ho Hi.
  - apply (dl_inv_step g w missed q); [done|done|by right|]. intros Hw. destruct (fill_window_ok now sent writers g w Hn Hw) as (w1 & E & H). rewrite Hf in E. injection E as <-. exact H.
  - apply (dl_inv_blocks g w); [done|done|by eapply received_headers|by intros Hw; eapply received_inv].
  - apply (dl_inv_step g w missed q); [done|done|by right|apply disconnect_inv].
  - destruct (timeout_shared now g w) as [E1 E2]. apply (dl_inv_step g w missed q); [done|by rewrite E1|by right|apply timeout_scan_inv].
  - apply (dl_inv_step g w missed q); [done|done|by right|apply flush_inv].
  - apply (dl_inv_step g w missed q); [done|done|by right|apply mark_inv].
  - apply (dl_inv_blocks g w); [done|done|by eapply catch_up_headers|by intros Hw; eapply catch_up_inv].
  - unfold dl_inv in *. cbn in *. destruct (last q) as [h|]; [destruct Hi as (H1 & H2 & _); by rewrite Ec|by eapply dl_node_inv].
  - unfold dl_inv. cbn. by rewrite last_snoc.
  - unfold dl_inv in *. cbn in *. rewrite last_cons in Hi. destruct (last q) as [h'|]; [done|]. destruct Hi as (H1 & H2 & H3). by apply reorg_inv.
Qed.

Lemma dl_run_inv s s' : dl_run s s' -> dl_inv s -> dl_inv s'.
Proof. induction 1 as [|s1 s2 s3 [H Ho] _ IH]; [done|]. intros Hi. by apply IH, (dl_step_inv s1). Qed.

(** ** An iteration of the loop *)

Lemma handle_blocks_steps env blocks missed q : forall g w g' w', handle_blocks env g w blocks = Some (g', w') -> rtc dl_step (mkDl g w missed q) (mkDl g' w' missed q).
Proof.
  induction blocks as [|[x raw] blocks IH]; intros g w g' w' H; cbn [handle_blocks] in H; [by injection H as <- <-|].
  apply bind_Some in H as ([g1 w1] & H1 & H). eapply rtc_l; [by eapply dl_received|by apply IH].
Qed.

(** the notices left after an event; a reorganisation is the oldest notice waiting *)
Definition takes (ev : Event) (notices notices' : list Z) : Prop := match ev with Reorged h => notices = h :: notices' | _ => notices' = notices end.

Lemma handle_event_steps env g w ev g' w' missed q q' : takes ev q q' -> handle_event env g w ev = Some (g', w') ->
  exists missed', rtc dl_step (mkDl g w missed q) (mkDl g' w' missed' q').
Proof.
  intros Hev H. destruct ev as [blocks|peer|h|]; cbn in H, Hev; subst.
  - exists missed. by eapply handle_blocks_steps.
  - injection H as <- <-. exists missed. apply rtc_once, dl_disconnect.
  - injection H as <- <-. exists ∅. apply rtc_once, dl_notice.
  - exists missed. destruct (_ >? 0); injection H as <- <-; [apply rtc_once, (dl_flush g w)|done].
Qed.

Lemma run_iteration_steps env g w ev g' w' missed q q' : NoDup (e_writers env) -> takes ev q q' -> run_iteration env g w ev = Some (g', w') ->
  exists missed', rtc dl_step (mkDl g w missed q) (mkDl g' w' missed' q').
Proof.
  intros Hn Hev H. apply bind_Some in H as (w1 & Hf & H). cbv zeta in H.
  destruct (if is_caught_up g w1 && negb (was_caught_up w1) then flush_store g w1 else (g, w1)) as [g2 w2] eqn:E. apply bind_Some in H as ([g3 w3] & He & H). injection H as H.
  set (missed1 := missed ∪ missed_by g w w1 (e_writers env)).
  assert (rtc dl_step (mkDl g w1 missed1 q) (mkDl g2 w2 missed1 q)) as H2 by (destruct (_ && _) in E; injection E as <- <-; [apply rtc_once, (dl_flush g w1)|done]).
  destruct (handle_event_steps env g2 _ ev g3 w3 missed1 q q' Hev He) as (missed2 & H3). exists missed2. eapply rtc_l; [by eapply dl_fill|]. etransitivity; [exact H2|].
  eapply rtc_l; [apply (dl_mark _ _ (is_caught_up g w1))|]. eapply rtc_r; [exact H3|]. pose proof (dl_timeout (e_now env) g3 w3 missed2 q') as Ht. rewrite H in Ht. exact Ht.
Qed.


(** ** Without a peer to ask *)

Lemma handle_blocks_idle env blocks : forall g w, in_flight w = ∅ -> handle_blocks env g w blocks = Some (g, w).
Proof.
  induction blocks as [|[x raw] blocks IH]; intros g w Hw; cbn [handle_blocks]; [done|]. unfold handle_received_block. rewrite Hw, lookup_empty. cbn [mbind option_bind]. by apply IH.
Qed.

Lemma strike_peers_nil now g : foldl (strike_peer now) (nodes g, ∅, None) (elements (∅ : gset IpAddr)) = (nodes g, ∅, None).
Proof. by rewrite elements_empty. Qed.

Lemma timeout_scan_idle now g w : in_flight w = ∅ -> handle_timeout_scan now g w = (set_nodes g (nodes g), set_in_flight w ∅).
Proof. intros E. unfold handle_timeout_scan, entries. rewrite E, !map_filter_empty, map_to_list_empty. cbn [fmap list_fmap list_to_set min_height foldl]. by rewrite strike_peers_nil. Qed.

Lemma disconnect_idle w peer : in_flight w = ∅ -> handle_peer_disconnect w peer = set_in_flight w ∅.
Proof. intros E. rewrite drop_peer_eq. unfold entries. by rewrite E, !map_filter_empty, map_to_list_empty. Qed.

(** what stays the same while the manager is idle *)
Definition window_same w w' : Prop :=
  in_flight w' = ∅ /\ next_height w' = next_height w /\ stored_hashes w' = stored_hashes w /\ pending_blocks w' = pending_blocks w /\ next_connect_height w' = next_connect_height w.

(** C39: a window that was moved past the header tip without a request stays there.
    When nothing is requested and the next height is beyond the header chain,
    an iteration of the main loop with any event but a reorganisation requests
    nothing, whichever peers are connected: no height is rewound and no block is
    connected, until the header chain itself grows.  The example shows that such a
    state arises with blocks missing: [fill_window] moves [next_height] before it finds
    that the only connected peer is excluded. *)
Theorem starved_stuck env g w ev : in_flight w = ∅ -> chain_height g < next_height w -> (forall h, ev <> Reorged h) ->
  exists g' w', run_iteration env g w ev = Some (g', w') /\ window_same w w' /\ chain g' = chain g /\ is_caught_up g' w' = true.
Proof.
  intros E Hh Hev. unfold run_iteration. assert (fill_window (e_now env) (e_sent env) (e_writers env) g w = Some w) as ->.
  { unfold fill_window. destruct (_ && negb _); [done|]. rewrite Z.gtb_ltb, (proj2 (Z.ltb_lt _ _) Hh), orb_true_r. done. }
  cbn [mbind option_bind]. destruct (if is_caught_up g w && negb (was_caught_up w) then flush_store g w else (g, w)) as [g2 w2] eqn:E2.
  assert (window_same w w2 /\ chain g2 = chain g /\ chain_height g2 = chain_height g) as (Hs & Hc & Hch) by (destruct (_ && _) in E2; injection E2 as <- <-; by repeat split).
  set (w3 := set_caught_up w2 _). assert (exists g4 w4, handle_event env g2 w3 ev = Some (g4, w4) /\ window_same w3 w4 /\ chain g4 = chain g2 /\ chain_height g4 = chain_height g2) as (g4 & w4 & -> & Hs4 & Hc4 & Hch4).
  { destruct Hs as (Ei & _). destruct ev as [blocks|peer|h|]; cbn [handle_event]; [| |by destruct (Hev h)|].
    - exists g2, w3. rewrite handle_blocks_idle by done. by repeat split.
    - eexists _, _. split; [reflexivity|]. rewrite disconnect_idle by done. by repeat split.
    - destruct (_ >? 0); (eexists _, _; split; [reflexivity|]); by repeat split. }
  cbn [mbind option_bind]. destruct Hs4 as (Ei4 & En4 & Es4 & Ep4 & Ec4). rewrite timeout_scan_idle by done. destruct Hs as (Ei & En & Es & Ep & Ec). eexists _, _. split; [reflexivity|].
  unfold window_same. cbn. rewrite En4, Es4, Ep4, Ec4, Hc4. unfold w3. cbn. split; [done|]. split; [done|]. unfold is_caught_up. cbn. rewrite En4, Hch4, Hch. unfold w3. cbn. rewrite En.
  apply andb_true_iff. split; [by apply bool_decide_eq_true|lia].
Qed.
End Steps.

(** ** Examples: two blocks to fetch, from a peer that may be asked and from one that is excluded *)

#[local] Existing Instance toy_sha256.
#[local] Existing Instance toy_digests.
#[local] Existing Instance toy_k256.
#[local] Existing Instance plain_order.
#[local] Instance example_trap : U256Overflow := fun _ => None.
#[local] Instance example_backend : HeaderBackend Empty_set := {|
  persist_header b _ _ _ _ := Ok b; persist_headers b _ := Ok b; load_all _ := Ok []; persist_invalid_tip b _ := Ok b;
  load_invalid_tips _ := Ok []; clear b := Ok b |}.

Definition example_hashes : list Hash256 := [mkHash [x00]; mkHash [x01]; mkHash [x02]].
Definition example_peer : IpAddr := V4 [x01; x02; x03; x04].
Definition example_node (excluded : bool) : Shared Empty_set (gmap (list byte) (list byte)) (gmap string (list byte)) (gmap (list byte) (Z * Z * Z)) (gmap (list byte) (Z * Z * Z)) :=
  mkShared (mkStore ∅ example_hashes ∅ ∅ (mkHash [x02], 0) ∅ None testing) (mkChainState t_empty t_empty t_empty (mkUndoStore {[0 := []]} DEFAULT_MAX_FILE_SIZE 0 0) (mkHash [x00], 0) 0)
    empty_block_store (with_max_size 1000) 2 {[example_peer := mkStrikes 5 (Some 0) excluded]}.

Lemma example_NoDup : NoDup example_hashes.
Proof. apply (bool_decide_unpack _). vm_compute. exact Logic.I. Qed.

Definition example_fill (excluded : bool) : option Window := fill_window 7 (fun _ => true) [example_peer] (example_node excluded) (manager_new (example_node excluded)).

Lemma example_filled : exists w, example_fill false = Some w /\ next_height w = 3 /\ size (in_flight w) = 2%nat.
Proof.
  assert (match example_fill false with Some w => (next_height w =? 3) && (size (in_flight w) =? 2)%nat | None => false end = true) as H by (vm_compute; reflexivity).
  destruct (example_fill false) as [w|]; [|discriminate H]. exists w. apply andb_true_iff in H as [H1 H2]. split; [reflexivity|]. split; [lia|by apply Nat.eqb_eq].
Qed.

Lemma example_asked w : missed_by (example_node false) (manager_new (example_node false)) w [example_peer] = ∅.
Proof. unfold missed_by. replace (zlen (available_peers (example_node false) (manager_new (example_node false)) [example_peer]) =? 0) with false by (vm_compute; reflexivity). reflexivity. Qed.

Lemma example_starved : exists w, example_fill true = Some w /\ next_height w = 3 /\ in_flight w = ∅ /\ ~ covered w 1 (mkHash [x01]).
Proof.
  exists (set_next_height (manager_new (example_node true)) 3). split; [vm_compute; reflexivity|]. split; [reflexivity|]. split; [reflexivity|].
  intros [H|[(e & H & _)|[b H]]]; [|vm_compute in H; discriminate H|vm_compute in H; discriminate H]. revert H. apply (bool_decide_unpack (~ _)). vm_compute. exact Logic.I.
Qed.


Lemma download_loops_end_witness : is_Some (example_fill false) /\ drains (fun _ => true) (example_node false) (manager_new (example_node false)) (drain_pending (fun _ => true) (example_node false) (manager_new (example_node false))).
Proof.
  assert (window_inv (missed := ∅) (example_node false) (manager_new (example_node false))) as Hw by (apply manager_new_inv; [exact example_NoDup|vm_compute; discriminate]).
  destruct (download_loops_end (fun _ => true) 7 (fun _ => true) [example_peer] _ _ Hw (NoDup_singleton _)) as (H1 & _ & _ & _ & H2). split; [exact H2|exact H1].
Defined.

Lemma starved_stuck_witness : exists w, example_fill true = Some w /\ window_inv (missed := ∅) (example_node true) (manager_new (example_node true)) /\ ~ covered w 1 (mkHash [x01]) /\
  forall env, exists g' w', run_iteration env (example_node true) w Tick = Some (g', w') /\ window_same w w' /\ is_caught_up g' w' = true.
Proof.
  destruct example_starved as (w & E & En & Ei & Hc). exists w. split; [exact E|]. split; [apply manager_new_inv; [exact example_NoDup|vm_compute; discriminate]|]. split; [exact Hc|].
  intros env. destruct (starved_stuck env (example_node true) w Tick Ei) as (g' & w' & H1 & H2 & _ & H3).
  - rewrite En. reflexivity.
  - discriminate.
  - exists g', w'. split; [exact H1|]. split; [exact H2|exact H3].
Defined.
