(* ===== verification/NodeParts.v ===== *)
(** * NodeParts: what the components of the node keep for each other

    Lemmas for NodeHistory.v, one section per component: segments of blocks can be cut and
    joined; operations that bring in headers only let the tree and the active chain grow;
    the download manager requests blocks of the active chain at their heights; and
    the block store holds, for every hash the manager counts as stored, a block that
    was validated, with its parent stored before it. *)
From Stdlib Require Import Strings.Byte.
From stdpp Require Import base numbers list strings gmap relations.
From S2P Require Import Prelude Codec Types Merkle Compact Float64 Difficulty Validation Vec ScriptNum Signature Engine EngineSafety ScriptVerify Database Coin UndoStore Ledger Chainstate ChainstateCorrect Pow HashOrder Mempool MempoolCorrect Headers HeadersCorrect BlockStore Reorg ReorgCorrect Network Messages BlockDownload BlockDownloadCorrect.

(** ** Segments *)

Section Segments.
Context `{HS : Sha256} `{HD : Digests} `{HK : K256} {BS : Type} {HBS : BlockSource BS} (src : BS) (svh : Z).
Implicit Types (m : ledger) (path : list (Hash256 * Z)).

Lemma segment_app t0 h0 m0 p1 t1 h1 m1 u1 p2 t2 h2 m2 u2 :
  segment src svh t0 h0 m0 p1 t1 h1 m1 u1 -> segment src svh t1 h1 m1 p2 t2 h2 m2 u2 -> segment src svh t0 h0 m0 (p1 ++ p2) t2 h2 m2 (u1 ++ u2).
Proof.
  intros H1 H2. induction H2 as [|path t h m us hash b m' undos Hs IH Hb Hp Hnew Hu Ha]; [by rewrite !app_nil_r|]. rewrite !app_assoc. by eapply seg_snoc.
Qed.

Lemma segment_split t0 h0 m0 p1 p2 t h m us :
  segment src svh t0 h0 m0 (p1 ++ p2) t h m us ->
  exists t1 h1 m1 u1 u2, us = u1 ++ u2 /\ segment src svh t0 h0 m0 p1 t1 h1 m1 u1 /\ segment src svh t1 h1 m1 p2 t h m u2.
Proof.
  revert t h m us. induction p2 as [|x p2 IH] using rev_ind; intros t h m us H.
  - rewrite app_nil_r in H. exists t, h, m, us, []. rewrite app_nil_r. split; [done|]. split; [done|constructor].
  - rewrite app_assoc in H. inversion H as [E|path t' h' m' us' hash b m'' undos Hs Hb Hp Hnew Hu Ha E]; [by destruct (p1 ++ p2)|]. apply app_inj_tail in E as [-> <-]. subst.
    destruct (IH _ _ _ _ Hs) as (t1 & h1 & m1 & u1 & u2 & -> & H1 & H2). exists t1, h1, m1, u1, (u2 ++ [undos]). split; [by rewrite app_assoc|]. split; [done|]. by eapply seg_snoc.
Qed.

Lemma segment_heights t0 h0 m0 path t h m us : segment src svh t0 h0 m0 path t h m us -> path.*2 = seqZ (h0 + 1) (zlen path).
Proof.
  induction 1 as [|path t h m us hash b m' undos Hs IH]; [done|]. destruct (segment_height _ _ _ _ _ _ _ _ _ _ Hs) as [-> _].
  rewrite fmap_app, IH, zlen_app. change (zlen [(hash, h0 + zlen path + 1)]) with 1. unfold zlen. replace (Z.of_nat (length path) + 1) with (Z.of_nat (S (length path))) by lia.
  rewrite seqZ_S. cbn. do 2 f_equal. lia.
Qed.

(** coins keep their value *)
Lemma segment_total t0 h0 m0 path t h m us : segment src svh t0 h0 m0 path t h m us -> 0 <= h0 -> nonneg m0 -> total m0 <= total_subsidy (S (Z.to_nat h0)) ->
  nonneg m /\ total m <= total_subsidy (S (Z.to_nat h)).
Proof.
  induction 1 as [|path t h m us hash b m' undos Hs IH Hb Hp Hnew Hu Ha]; intros H0 Hn Ht; [done|]. destruct (IH H0 Hn Ht) as [Hn1 Ht1].
  destruct (block_applies_total _ _ _ _ _ _ (ba_rules _ _ _ Hb) Ha Hn1) as [Hn2 Ht2]. split; [done|].
  destruct (segment_height _ _ _ _ _ _ _ _ _ _ Hs) as [Eh _]. pose proof (zlen_nonneg path). replace (Z.to_nat (h + 1)) with (S (Z.to_nat h)) by lia.
  cbn [total_subsidy] in *. replace (Z.of_nat (S (Z.to_nat h))) with (h + 1) by lia. lia.
Qed.
End Segments.

(** ** Lists of blocks along the active chain *)

Lemma along_eq (chain : list Hash256) (p q : list (Hash256 * Z)) :
  p.*2 = q.*2 -> Forall (fun x => chain !! Z.to_nat x.2 = Some x.1) p -> Forall (fun x => chain !! Z.to_nat x.2 = Some x.1) q -> p = q.
Proof.
  intros E Hp. revert q E. induction Hp as [|[x h] p Hx Hp IH]; intros [|[y k] q] E Hq; cbn in E; [done|done|done|]. injection E as -> E. apply Forall_cons in Hq as [Hy Hq].
  cbn in Hx, Hy. rewrite Hx in Hy. injection Hy as ->. f_equal. by apply IH.
Qed.

(** ** Header stores *)

Section Stores.
Context {B : Type} {HB : HeaderBackend B} `{HS : Sha256} `{HU : U256Overflow} `{HO : HashOrder} `{!HashOrderLaws HO}.
Implicit Types (hs : HeaderStore B) (g x t : Hash256).

Lemma active_at g hs i x : HeadersCorrect.store_ok g hs -> active_chain hs !! i = Some x -> at_height (by_hash hs) x (Z.of_nat i).
Proof. intros Hok Hi. destruct (so_active _ _ Hok) as (tip & Hc). by apply (ct_at _ _ _ Hc). Qed.

Lemma active_nodup g hs : HeadersCorrect.store_ok g hs -> NoDup (active_chain hs).
Proof.
  intros Hok. apply NoDup_alt. intros i j x Hi Hj. pose proof (at_height_fun _ _ _ _ (active_at g hs i x Hok Hi) (active_at g hs j x Hok Hj)). lia.
Qed.

Lemma active_genesis g hs : HeadersCorrect.store_ok g hs -> active_chain hs !! 0%nat = Some g.
Proof.
  intros Hok. destruct (so_active _ _ Hok) as (tip & Hc). pose proof (genesis_active g _ _ _ (so_tree _ _ Hok) Hc) as [i Hi]%list_elem_of_lookup.
  destruct (tk_genesis _ _ (so_tree _ _ Hok)) as (s & Hs & Hz). pose proof (at_height_fun _ _ _ _ (active_at g hs i g Hok Hi) (ex_intro _ s (conj Hs Hz))).
  by replace i with 0%nat in Hi by lia.
Qed.

(** each header of the active chain is the child of the one below *)
Lemma active_parent g hs i t x : HeadersCorrect.store_ok g hs -> active_chain hs !! i = Some t -> active_chain hs !! S i = Some x ->
  exists s, by_hash hs !! x = Some s /\ prev_hash (s_header s) = t.
Proof.
  intros Hok Ht Hx. pose proof (so_tree _ _ Hok) as Htr. destruct (so_active _ _ Hok) as (tip & Hc). destruct (ct_at _ _ _ Hc _ _ Hx) as [Hax Hxh]. destruct (ct_at _ _ _ Hc _ _ Ht) as [Hat Hth].
  destruct (has_parent g _ x _ Htr Hxh) as (p & Hp & Hph); [lia|]. pose proof Hp as (s & Hs & _ & Ep). exists s. split; [done|]. rewrite <- Ep.
  pose proof (chain_to_tip _ _ _ Hc) as Htip. eapply (ancestor_unique g _ tip _ p t (Z.of_nat i) Htr Htip); [eapply rtc_r; [exact Hax|exact Hp]|done| |done].
  by replace (Z.of_nat (S i) - 1) with (Z.of_nat i) in Hph by lia.
Qed.

Lemma ancestor_between g tree t f a k i : tree_ok g tree -> (exists n, at_height tree t n) -> ancestor tree t f -> at_height tree f k -> ancestor tree t a -> at_height tree a i -> i <= k -> ancestor tree f a.
Proof.
  intros Ht [n Hn] Hf Hfk Ha Hai Hle. pose proof (at_height_range _ _ _ _ Ht Hai) as [Hi _]. destruct (ancestor_at g tree f k i Ht Hfk) as (p & Hp & Hpi); [lia|].
  assert (ancestor tree t p) as Htp by (unfold ancestor in *; by transitivity f). by rewrite (ancestor_unique g tree t n a p i Ht Hn Ha Htp Hai Hpi).
Qed.

(** *** Operations that bring in headers *)

Inductive header_op : list BlockHeader -> HeaderStore B -> HeaderStore B -> Prop :=
| op_add hs header n hs' : add_header hs header = Ok (n, hs') -> header_op [header] hs hs'
| op_batch hs l v hs' : validate_and_commit hs l = Ok (v, hs') -> header_op l hs hs'
| op_accept hs header r hs' : accept_header hs header = Ok (r, hs') -> header_op [header] hs hs'
| op_persist hs batch hs' : persist_batch hs batch = Ok hs' -> header_op [] hs hs'.

(** the tree and the active chain grow by some of the headers *)
Record grown (l : list BlockHeader) g hs hs' : Prop := {
  gr_ok : HeadersCorrect.store_ok g hs';
  gr_tree : by_hash hs ⊆ by_hash hs';
  gr_active : exists ext, active_chain hs' = active_chain hs ++ ext;
  gr_new : forall x s, by_hash hs' !! x = Some s -> by_hash hs !! x = Some s \/ x = block_hash (s_header s) /\ s_header s ∈ l;
}.

Lemma add_header_tree hs header n hs' : add_header hs header = Ok (n, hs') ->
  by_hash hs !! block_hash header = None /\ exists work, by_hash hs' = <[block_hash header := mkStored header n work]> (by_hash hs).
Proof.
  unfold add_header. intros H. apply res_bind_Ok in H as ([hash h] & Hv & H). apply res_bind_Ok in H as (eb & _ & H). destruct (negb _); [done|].
  apply res_bind_Ok in H as ([] & _ & H). apply res_bind_Ok in H as (work & _ & H). apply res_bind_Ok in H as (cw & _ & H). apply res_bind_Ok in H as (hs1 & Hbe & H). injection H as <- <-.
  assert (by_hash hs1 = by_hash hs) as E by (destruct (backend hs); [apply res_bind_Ok in Hbe as (b' & _ & [= <-])|injection Hbe as <-]; done).
  unfold validate_header in Hv. case_bool_decide as Hk; [done|]. apply eq_None_not_Some in Hk. apply res_bind_Ok in Hv as ([t k] & _ & Hv). apply res_bind_Ok in Hv as (h' & _ & [= <- <-]).
  split; [done|]. exists cw. cbn [commit_to_memory by_hash]. by rewrite E.
Qed.

(** a tree with one header more *)
Lemma grown_insert g hs hs' header n work ext : HeadersCorrect.store_ok g hs' -> by_hash hs !! block_hash header = None ->
  by_hash hs' = <[block_hash header := mkStored header n work]> (by_hash hs) -> active_chain hs' = active_chain hs ++ ext -> grown [header] g hs hs'.
Proof.
  intros Hok Hnew E Ea. split; [done|rewrite E; by apply insert_subseteq|by exists ext|]. rewrite E. intros x s [[<- <-]|[_ Hs]]%lookup_insert_Some; [right; split; [done|by left]|by left].
Qed.

Lemma validate_fold_rows hs (all l : list BlockHeader) : forall v tip v' tip', fold_res (validate_step hs) (v, tip) l = Ok (v', tip') -> l ⊆ all -> (row_header <$> v) ⊆ all -> (row_header <$> v') ⊆ all.
Proof.
  induction l as [|header l IH]; intros v tip v' tip' H Hl Hv; cbn [fold_res] in H; [by injection H as <- <-|].
  destruct (validate_step hs (v, tip) header) as [[v1 tip1]| |] eqn:E; [|done|done]. apply (IH _ _ _ _ H); [intros x Hx; apply Hl; by right|]. destruct tip as [t n]. unfold validate_step in E.
  case_bool_decide; [by injection E as <- <-|]. apply res_bind_Ok in E as (height & _ & E). apply res_bind_Ok in E as (eb & _ & E). destruct (negb _); [done|].
  apply res_bind_Ok in E as ([] & _ & E). apply res_bind_Ok in E as (work & _ & E). apply res_bind_Ok in E as (cw & _ & E). injection E as <- <-.
  unfold vec_push. rewrite fmap_app. cbn. intros x [Hx|Hx]%elem_of_app; [by apply Hv|]. apply list_elem_of_singleton in Hx as ->. apply Hl. by left.
Qed.

Lemma validate_batch_rows g hs l v : HeadersCorrect.store_ok g hs -> collision_free l -> validate_batch hs l = Ok v ->
  exists tip, batch_inv g hs v tip /\ (row_header <$> v) ⊆ l.
Proof.
  intros Hok Hcf H. unfold validate_batch in H. destruct (Z.eqb_spec (zlen l) 0) as [H0|_].
  { injection H as <-. destruct (store_tip g hs Hok) as (tip & s & _ & Ht & _). exists (tip, s_height s). split; [by apply batch_inv_nil|]. intros x Hx. by apply not_elem_of_nil in Hx. }
  apply res_bind_Ok in H as ([] & _ & H). apply res_bind_Ok in H as ([tip n] & Ht & H). apply res_bind_Ok in H as ([v0 tip'] & Hf & H).
  destruct (existsb _ v0); [done|]. injection H as <-. assert ((row_header <$> []) ⊆ l) as Hnil by (intros x Hx; by apply not_elem_of_nil in Hx).
  destruct (validate_fold_ok g hs l l [] (tip, n) v0 tip' Hok Hcf) as (Hb & _); [reflexivity|done|by apply batch_inv_nil|exact Hf|].
  exists tip'. split; [done|]. by eapply validate_fold_rows.
Qed.

Lemma header_op_grown g l hs hs' : HeadersCorrect.store_ok g hs -> collision_free l -> header_op l hs hs' -> grown l g hs hs'.
Proof.
  intros Hok Hcf Hop. destruct Hop as [hs header n hs' H|hs l v hs' H|hs header r hs' H|hs batch hs' H].
  - destruct (add_header_ok g hs header n hs' Hok H) as (Hok' & _ & _ & _ & Ea). apply add_header_tree in H as (Hnew & work & E). by eapply grown_insert.
  - apply res_bind_Ok in H as (v' & Hv & [= <- <-]). destruct (validate_batch_rows g hs l v' Hok Hcf Hv) as (tip & Hb & Hl). fold (commit_all hs v').
    split; [apply Hb|apply Hb|exists (row_hash <$> v'); apply commit_all_chain|]. intros x s Hx. destruct (bi_new _ _ _ _ Hb x s Hx) as [Hold|(row & -> & Hin)%list_elem_of_fmap]; [by left|right].
    rewrite (bi_rows _ _ _ _ Hb row Hin) in Hx. injection Hx as <-. split; [by apply Hb|]. apply Hl, list_elem_of_fmap. by exists row.
  - apply accept_header_Ok in H as [(_ & -> & _)|[Ha _]]; [split; [done|done|exists []; by rewrite app_nil_r|by left]|].
    pose proof (added_ok g hs hs' header Hok Ha) as Hok'. destruct Ha as (Hnew & _ & q & height & work & _ & _ & _ & Et & _ & _ & _ & _ & _ & _ & Ea & _).
    destruct (_ && _) in Ea; [by eapply grown_insert|]. eapply (grown_insert g hs hs' header height work []); [done|done|done|by rewrite app_nil_r].
  - unfold persist_batch in H. destruct (backend hs) as [be|]; [apply res_bind_Ok in H as (be' & _ & [= <-])|injection H as <-].
    + split; [by apply set_backend_ok|done|exists []; by rewrite app_nil_r|by left].
    + split; [done|done|exists []; by rewrite app_nil_r|by left].
Qed.
End Stores.

(** ** Requests are for blocks of the active chain *)

Section Requests.
Context `{HS : Sha256} `{HD : Digests} `{HK : K256} `{HU256 : U256Overflow} `{HO : HashOrder}.
Context {B UT MT IT KT : Type} {HB : HeaderBackend B} {HU : Table (list byte) (list byte) UT} {HM : Table string (list byte) MT}
  {HI : Table (list byte) (Z * Z * Z) IT} {HBI : Table (list byte) (Z * Z * Z) KT}.
Notation shared := (Shared B UT MT IT KT).
Implicit Types (g : shared) (w : Window) (chain : list Hash256).

Definition on_chain chain (p : Z * Hash256) : Prop := 1 <= p.1 /\ chain !! Z.to_nat p.1 = Some p.2.
Record requests_ok chain w : Prop := {
  rq_next : 1 <= next_height w;
  rq_heights : forall x e, in_flight w !! x = Some e -> on_chain chain (f_height e, x);
}.

Lemma requests_shrink chain w m : m ⊆ in_flight w -> requests_ok chain w -> requests_ok chain (set_in_flight w m).
Proof. intros Hm [H1 H2]. split; [done|]. intros x e He. apply (H2 x). by eapply lookup_weaken. Qed.

Lemma requests_reset chain w o : (forall h, o = Some h -> 1 <= h) -> requests_ok chain w -> requests_ok chain (reset_to w o).
Proof. intros Ho [H1 H2]. destruct o as [h|]; [|by split]. specialize (Ho h eq_refl). split; cbn; [lia|done]. Qed.

Lemma min_height_ge (l : list InFlightEntry) h : Forall (fun e => 1 <= f_height e) l -> min_height l = Some h -> 1 <= h.
Proof.
  intros Hl. unfold min_height. assert (forall o, (forall h, o = Some h -> 1 <= h) -> forall h, foldl (fun o e => omin o (f_height e)) o l = Some h -> 1 <= h) as H; [|by apply H].
  induction Hl as [|e l He Hl IH]; intros o Ho h0; cbn [foldl]; [apply Ho|]. apply IH. intros h1 [= <-]. destruct o as [m|]; [specialize (Ho m eq_refl); lia|done].
Qed.

Lemma entries_ge chain w m h : requests_ok chain w -> m ⊆ in_flight w -> min_height (entries m) = Some h -> 1 <= h.
Proof.
  intros [_ H] Hm. apply min_height_ge, Forall_fmap, Forall_forall. intros [x e] Hin%elem_of_map_to_list. apply (H x e). by eapply lookup_weaken.
Qed.

Lemma requests_disconnect chain w peer : requests_ok chain w -> requests_ok chain (handle_peer_disconnect w peer).
Proof.
  intros Hr. rewrite drop_peer_eq. apply requests_reset; [|apply requests_shrink; [apply map_filter_subseteq|done]]. intros h. by eapply entries_ge, map_filter_subseteq.
Qed.

Lemma strike_peers_shrink now chain w peers : requests_ok chain w -> forall ns m low ns' m' low', m ⊆ in_flight w -> (forall h, low = Some h -> 1 <= h) ->
  foldl (strike_peer now) (ns, m, low) peers = (ns', m', low') -> m' ⊆ in_flight w /\ forall h, low' = Some h -> 1 <= h.
Proof.
  intros Hr. induction peers as [|peer peers IH]; intros ns m low ns' m' low' Hm Hlow H; cbn [foldl] in H; [by injection H as <- <- <-|].
  destruct (strike_peer now (ns, m, low) peer) as [[ns1 m1] low1] eqn:E. apply (IH _ _ _ _ _ _) in H; [done| |]; unfold strike_peer in E;
    destruct (is_excluded ns peer); [by injection E as <- <- <-| |by injection E as <- <- <-|]; destruct (increment_strike ns now peer) as [ns2 k]; destruct (k >=? MAX_TIMEOUT_STRIKES); cbn in E;
    [|by injection E as <- <- <-| |by injection E as <- <- <-]; injection E as <- <- <-.
  - etrans; [apply map_filter_subseteq|done].
  - intros h Hh. destruct (min_height (entries (filter (of_peer peer) m))) as [k1|] eqn:Ek; [|by apply Hlow].
    apply (entries_ge chain w) in Ek; [|done|etrans; [apply map_filter_subseteq|done]]. injection Hh as <-. destruct low as [l|]; [specialize (Hlow l eq_refl); lia|done].
Qed.

Lemma requests_timeout now chain g w : requests_ok chain w -> requests_ok chain (handle_timeout_scan now g w).2.
Proof.
  intros Hr. unfold handle_timeout_scan. destruct (foldl _ _ _) as [[ns m] low] eqn:E. cbn [snd].
  apply (strike_peers_shrink now chain w) in E as [Hm Hlow]; [|done|apply map_filter_subseteq|intros h; by eapply entries_ge, map_filter_subseteq]. by apply requests_reset, requests_shrink.
Qed.

Lemma scan_on_chain w chain free batch : forall req next req' next', 1 <= next -> Forall (on_chain chain) batch -> Forall (on_chain chain) req ->
  scan_batch w free batch req next = (req', next') -> Forall (on_chain chain) req' /\ 1 <= next'.
Proof.
  induction batch as [|[h x] batch IH]; intros req next req' next' Hn Hb Hr H; cbn [scan_batch] in H; [by injection H as <- <-|]. destruct (zlen req >=? free); [by injection H as <- <-|].
  apply Forall_cons in Hb as [Hx Hb]. destruct (_ || _ || _) in H; (eapply IH; [| | |exact H]); [lia|done|done|lia|done|]. apply Forall_app. split; [done|by constructor].
Qed.

Lemma range_on_chain g start stop : 1 <= start -> Forall (on_chain (active_chain (headers g))) (hashes_in_range (headers g) start stop).
Proof.
  intros Hs. apply Forall_lookup. intros i p Hp. apply lookup_hashes_in_range in Hp as (E & Hl & _); [|lia]. unfold on_chain. rewrite E. split; [lia|done].
Qed.

Lemma collect_on_chain fuel g w free : forall req next req' next', 1 <= next -> Forall (on_chain (active_chain (headers g))) req ->
  collect_loop fuel g w free req next = Some (req', next') -> Forall (on_chain (active_chain (headers g))) req' /\ 1 <= next'.
Proof.
  induction fuel as [|fuel IH]; intros req next req' next' Hn Hr H; [done|]. cbn [collect_loop] in H. destruct (_ && _); [|by injection H as <- <-].
  destruct (_ =? 0); [by injection H as <- <-|]. destruct (scan_batch _ _ _ _ _) as [req1 next1] eqn:E. apply (scan_on_chain _ (active_chain (headers g))) in E as [Hr1 Hn1]; [|done|by apply range_on_chain|done].
  by eapply IH.
Qed.

Lemma commit_member (m : gmap Hash256 InFlightEntry) (l : list (Hash256 * InFlightEntry * nat)) x e : commit m l !! x = Some e -> m !! x = Some e \/ exists n, (x, e, n) ∈ l.
Proof.
  revert m. induction l as [|[[y f] n] l IH]; intros m; [by left|]. rewrite commit_cons. intros [H|(k & Hk)]%IH; [|right; exists k; by right].
  apply lookup_insert_Some in H as [[-> ->]|[_ H]]; [right; exists n; by left|by left].
Qed.

(** what [fill_window] leaves alone *)
Record same_blocks w w' : Prop := {
  sb_stored : stored_hashes w' = stored_hashes w;
  sb_pending : pending_blocks w' = pending_blocks w;
  sb_next : next_connect_height w' = next_connect_height w;
}.

Lemma same_reset w o : same_blocks w (reset_to w o).
Proof. by destruct o. Qed.

Lemma requests_fill now sent writers g w w' : requests_ok (active_chain (headers g)) w -> fill_window now sent writers g w = Some w' ->
  requests_ok (active_chain (headers g)) w' /\ same_blocks w w'.
Proof.
  intros [Hn Hf] H. unfold fill_window in H. destruct (_ && negb _); [by injection H as <-|]. destruct (_ || _); [by injection H as <-|]. apply bind_Some in H as ([req next] & Hc & H).
  apply collect_on_chain in Hc as [Hr Hn']; [|done|done]. assert (requests_ok (active_chain (headers g)) (set_next_height w next)) as Hw by by split. destruct (_ =? 0) in H; [by injection H as <-|]. destruct (_ =? 0) in H; [by injection H as <-|].
  injection H as <-. set (l := assign now req _). set (w2 := match req !! length l with Some _ => _ | None => _ end). fold (commit (in_flight w2) (filter (fun x => sent x.2 = true) l)).
  assert (requests_ok (active_chain (headers g)) w2 /\ same_blocks w w2) as [[Hn2 Hf2] [S1 S2 S3]].
  { unfold w2. destruct (req !! length l) as [[h x]|] eqn:El; [|done]. apply Forall_lookup_1 with (1 := Hr) in El as [El _]. split; [|done]. split; cbn in *; [lia|done]. }
  assert (forall x e n, (x, e, n) ∈ l -> on_chain (active_chain (headers g)) (f_height e, x)) as Hl.
  { intros x e n [i Hi]%list_elem_of_lookup. apply assign_lookup in Hi. by eapply Forall_lookup_1. }
  split; [|destruct (min_height _); by split]. apply requests_reset.
  - intros h. apply min_height_ge, Forall_fmap, Forall_fmap, Forall_forall. intros [[x e] n] [_ Hin]%list_elem_of_filter. cbn. by apply (Hl x e n).
  - split; [done|]. intros x e [He|(n & [_ Hin]%list_elem_of_filter)]%commit_member; [by apply Hf2|by eapply Hl].
Qed.
End Requests.

(** ** The blocks there are *)

(** a block for each hash, as a source of blocks *)
#[global] Instance world_source : BlockSource (Hash256 -> option Block) :=
  {| src_has world hash := bool_decide (is_Some (world hash)); src_load world hash := ok_or "unknown block" (world hash) |}.

Section Shelf.
Context `{HS : Sha256} {KT : Type} {HBI : Table (list byte) (Z * Z * Z) KT} `{!TableLaws (list byte) (Z * Z * Z) KT HBI}.
Context (world : Hash256 -> option Block) (gen : Hash256).
Implicit Types (bs : BlockStore KT) (x : Hash256) (raw : list byte) (committed : gmap Hash256 (list byte)) (queue : list (Hash256 * list byte)) (stored : gset Hash256).

(** the bytes of the block of a hash, which was validated *)
Definition good_raw x raw : Prop := U 32 (zlen raw) /\ exists b, block_from_bytes raw = Ok b /\ block_at world x b.

(** the parent of a block is the genesis or among [known] *)
Definition parent_in (known : gset Hash256) x : Prop := forall b, world x = Some b -> prev_hash (header b) = gen \/ prev_hash (header b) ∈ known.

(** the keys of committed and queued blocks *)
Definition keys committed queue : gset Hash256 := dom committed ∪ list_to_set queue.*1.

Record shelf_ok bs stored committed queue : Prop := {
  sh_holds : holds bs committed queue;
  sh_committed x raw : committed !! x = Some raw -> good_raw x raw;
  sh_queue : Forall (fun y => good_raw y.1 y.2) queue;
  sh_parents x : x ∈ dom committed -> parent_in (dom committed) x;
  sh_order q1 y q2 : queue = q1 ++ y :: q2 -> parent_in (keys committed q1) y.1;
  sh_keys : stored = keys committed queue;
}.

Lemma parent_in_mono (k1 k2 : gset Hash256) x : k1 ⊆ k2 -> parent_in k1 x -> parent_in k2 x.
Proof. intros Hk Hp b Hb. destruct (Hp b Hb); [by left|right; by apply Hk]. Qed.

Lemma keys_snoc committed queue x raw : keys committed (queue ++ [(x, raw)]) = {[x]} ∪ keys committed queue.
Proof. unfold keys. rewrite fmap_app, list_to_set_app_L. cbn. set_solver. Qed.

(** a validated block goes to the end of the queue *)
Lemma shelf_store bs stored committed queue x raw :
  shelf_ok bs stored committed queue -> bs_file_number bs < 2 ^ 16 - 1 -> good_raw x raw -> parent_in stored x ->
  exists bs', store_block_unchecked bs x raw = Ok bs' /\ shelf_ok bs' ({[x]} ∪ stored) committed (queue ++ [(x, raw)]).
Proof.
  intros [Hh Hc Hq Hp Ho Hk] Hn Hg Hx. destruct (store_block_unchecked_ok bs committed queue x raw Hh Hn (proj1 Hg)) as (bs' & E & Hh' & _). exists bs'. split; [done|].
  split; [done|done|apply Forall_app; split; [done|by constructor]|done| |by rewrite keys_snoc, Hk].
  intros q1 y q2 Eq. destruct q2 as [|z q2 _] using rev_ind.
  - apply app_inj_tail in Eq as [<- <-]. by rewrite <- Hk.
  - rewrite app_comm_cons, app_assoc in Eq. apply app_inj_tail in Eq as [Eq _]. by eapply Ho.
Qed.

Lemma dom_commit_queue committed queue : dom (commit_queue committed queue) = keys committed queue.
Proof.
  unfold keys, commit_queue. revert committed. induction queue as [|[x raw] queue IH]; intros committed; cbn [foldl fmap list_fmap list_to_set fst snd]; [set_solver|]. rewrite IH, dom_insert_L. set_solver.
Qed.

Lemma commit_queue_good committed queue x raw : Forall (fun y => good_raw y.1 y.2) queue -> (forall y r, committed !! y = Some r -> good_raw y r) -> commit_queue committed queue !! x = Some raw -> good_raw x raw.
Proof.
  unfold commit_queue. intros Hq. revert committed. induction Hq as [|[y r] queue Hy Hq IH]; intros committed Hc; cbn [foldl]; [apply Hc|]. apply IH.
  intros z r'. cbn. rewrite lookup_insert_Some. intros [[<- <-]|[_ Hz]]; [done|by apply Hc].
Qed.

Lemma shelf_flush bs stored committed queue : shelf_ok bs stored committed queue -> shelf_ok (flush bs) stored (commit_queue committed queue) [].
Proof.
  intros [Hh Hc Hq Hp Ho Hk]. assert (keys (commit_queue committed queue) [] = keys committed queue) as Ek by (unfold keys at 1; rewrite dom_commit_queue; cbn; set_solver).
  split; [by apply flush_ok|intros x raw; by apply commit_queue_good|constructor| |intros q1 y q2 E; by destruct q1|by rewrite Ek].
  rewrite dom_commit_queue. intros x Hx. unfold keys in Hx. apply elem_of_union in Hx as [Hx|Hx].
  - eapply parent_in_mono; [|by apply Hp]. unfold keys. set_solver.
  - apply elem_of_list_to_set, list_elem_of_fmap in Hx as (y & -> & (q1 & q2 & E)%list_elem_of_split). eapply parent_in_mono; [|by eapply Ho]. rewrite E. unfold keys. rewrite fmap_app, list_to_set_app_L. set_solver.
Qed.

(** what is read back is the block of the hash *)
Lemma shelf_load bs stored committed queue x raw : shelf_ok bs stored committed queue -> load_block bs x = Ok raw -> good_raw x raw /\ committed !! x = Some raw.
Proof.
  intros Hs Hl. pose proof (load_block_ok bs committed queue x (sh_holds _ _ _ _ Hs)) as E. destruct (committed !! x) as [r|] eqn:Ec; rewrite E in Hl; [|done]. injection Hl as <-. split; [|done]. by eapply sh_committed.
Qed.

Lemma shelf_block bs stored committed queue x b : shelf_ok bs stored committed queue -> block_at bs x b -> block_at world x b /\ x ∈ dom committed.
Proof.
  intros Hs [Hl Hok Hr Hh]. unfold src_load, block_store_source, load_and_deserialize in Hl. apply res_bind_Ok in Hl as (raw & Hraw & Hl).
  apply (shelf_load _ _ _ _ _ _ Hs) in Hraw as [(_ & b' & Hb & Hat) Hc]. rewrite Hb in Hl. injection Hl as <-. split; [done|]. by apply elem_of_dom.
Qed.

Lemma shelf_at bs stored committed queue x : shelf_ok bs stored committed queue -> x ∈ dom committed -> exists b, block_at world x b /\ block_at bs x b.
Proof.
  intros Hs [raw Hx]%elem_of_dom. pose proof (load_block_ok bs committed queue x (sh_holds _ _ _ _ Hs)) as E. rewrite Hx in E. destruct (sh_committed _ _ _ _ Hs _ _ Hx) as (_ & b & Hb & Hat). exists b. split; [done|].
  split; [|apply Hat..]. unfold src_load, block_store_source, load_and_deserialize. rewrite E. cbn [mbind res_bind]. by rewrite Hb.
Qed.

Lemma shelf_has bs stored committed queue x : shelf_ok bs stored committed queue -> src_has bs x = bool_decide (x ∈ dom committed).
Proof.
  intros Hs. unfold src_has, block_store_source. rewrite (has_block_ok _ _ _ x (sh_holds _ _ _ _ Hs)). apply bool_decide_ext. by rewrite elem_of_dom.
Qed.

(** a hash that is not committed is not read *)
Lemma shelf_absent bs stored committed queue x : shelf_ok bs stored committed queue -> x ∉ dom committed -> exists msg, src_load bs x = Err msg.
Proof.
  intros Hs Hx%not_elem_of_dom. pose proof (load_block_ok bs committed queue x (sh_holds _ _ _ _ Hs)) as E. rewrite Hx in E. unfold src_load, block_store_source, load_and_deserialize. rewrite E. by eexists.
Qed.
End Shelf.
