(* ===== verification/NodeHistory.v ===== *)
(** * NodeHistory: the ledger is the one its chain of blocks determines

    Puts the header store, the chain state, the block store, the pool and the download
    manager together.  [node_step] has the operations that change any of them, in any order:
    headers that arrive, blocks that are received, drained from the buffer or read back from
    disk and connected, flushes, timeouts, reorganisations with their rollback, purged forks
    and submitted transactions.  A reorganisation puts the new height into the queue of notices,
    and the download manager takes it up in a step of its own.  The invariant [history]
    says that the chain state is what the blocks of the active chain, from the genesis up to
    the tip, lead to, one valid block after the other, and that each of them can be taken
    back; [orderly] collects what is assumed of a run for it to hold.

    Blocks are identified by their hash.  [world] is the block that exists under a hash; an
    orderly step that brings in a header or a valid block brings in the one of [world],
    which is to say that no two of them collide. *)
From Stdlib Require Import Strings.Byte.
From stdpp Require Import base numbers list strings gmap relations.
From S2P Require Import Prelude Codec Types Merkle Compact Float64 Difficulty Validation Vec ScriptNum Signature Engine EngineSafety ScriptVerify Database Coin UndoStore Ledger Chainstate ChainstateCorrect Pow HashOrder Mempool MempoolCorrect Headers HeadersCorrect BlockStore Reorg ReorgCorrect Network Messages BlockDownload BlockDownloadCorrect NodeParts.

Section History.
Context `{HS : Sha256} `{!Sha256Len HS} `{HD : Digests} `{!DigestsLen HD} `{HK : K256} `{HU256 : U256Overflow} `{HO : HashOrder} `{!HashOrderLaws HO}.
Context {B UT MT IT KT : Type} {HB : HeaderBackend B} {HU : Table (list byte) (list byte) UT} `{!TableLaws (list byte) (list byte) UT HU}
  {HM : Table string (list byte) MT} `{!TableLaws string (list byte) MT HM} {HI : Table (list byte) (Z * Z * Z) IT} `{!TableLaws (list byte) (Z * Z * Z) IT HI}
  {HBI : Table (list byte) (Z * Z * Z) KT} `{!TableLaws (list byte) (Z * Z * Z) KT HBI}.
Context (world : Hash256 -> option Block) (gen : Hash256) (svh : Z).
Notation shared := (Shared B UT MT IT KT).
Notation active g := (active_chain (headers g)).
Implicit Types (g : shared) (w : Window) (m : ledger) (path : list (Hash256 * Z)) (us : list (list TxUndo)) (x : Hash256).

(** ** The invariant *)

(** stored headers are those of the blocks *)
Definition same_header (hs : HeaderStore B) : Prop := forall x s b, by_hash hs !! x = Some s -> world x = Some b -> header b = s_header s.

(** a block that waits for its turn *)
Definition waiting (chain : list Hash256) (h : Z) (p : Hash256 * Block * list byte) : Prop :=
  on_chain chain (h, p.1.1) /\ block_at world p.1.1 p.1.2 /\ U 32 (zlen p.2) /\ block_from_bytes p.2 = Ok p.1.2.

Definition along (chain : list Hash256) path : Prop := Forall (fun y => chain !! Z.to_nat y.2 = Some y.1) path.

(** the chain state is at the end of [path], which runs along the active chain, with all
    its blocks stored *)
Record at_tip g w path m us : Prop := {
  at_segment : segment world svh gen 0 ∅ path (tip (chain g)).1 (tip (chain g)).2 m us;
  at_chain : at_end svh [] (chain g) (tip (chain g)).1 (tip (chain g)).2 m path us;
  at_along : along (active g) path;
  at_stored : Forall (fun y => y.1 ∈ stored_hashes w) path;
  at_next : next_connect_height w = u32_sat_add (tip (chain g)).2 1;
}.

Record history g w path m us : Prop := {
  hi_headers : HeadersCorrect.store_ok gen (headers g);
  hi_world : same_header (headers g);
  hi_tip : at_tip g w path m us;
  hi_pool : pool_safe (pool g);
  hi_shelf : exists committed queue, shelf_ok world gen (store g) (stored_hashes w) committed queue;
  hi_requests : requests_ok (active g) w;
  hi_pending : map_Forall (waiting (active g)) (pending_blocks w);
}.

(** the window changes its requests only *)
Lemma history_window g w w' path m us : history g w path m us -> requests_ok (active g) w' -> same_blocks w w' -> history g w' path m us.
Proof.
  intros [Hh Hw [T1 T2 T3 T4 T5] Hp Hs Hr Hpe] Hr' [E1 E2 E3]. split; rewrite ?E1, ?E2; try done. split; rewrite ?E1, ?E3; done.
Qed.

Lemma history_flush g w path m us : history g w path m us -> history (flush_store g w).1 (flush_store g w).2 path m us.
Proof.
  intros [Hh Hw [T1 T2 T3 T4 T5] Hp (c & q & Hs) [R1 R2] Hpe]. split; try done. by exists (commit_queue c q), []; apply shelf_flush.
Qed.

(** a segment along the active chain ends on it *)
Lemma segment_along (hs : HeaderStore B) p t h m0 us : HeadersCorrect.store_ok gen hs -> segment world svh gen 0 ∅ p t h m0 us -> along (active_chain hs) p ->
  0 <= h /\ active_chain hs !! Z.to_nat h = Some t /\ (p = [] /\ t = gen \/ t ∈ p.*1).
Proof.
  intros Hh Hs Ha. destruct (segment_height _ _ _ _ _ _ _ _ _ _ Hs) as [Eh _]. pose proof (zlen_nonneg p). split; [lia|].
  destruct (segment_tip _ _ _ _ _ _ _ _ _ _ Hs) as [[-> ->]|([y k] & Hy & Ey)]; [rewrite Eh; split; [by apply (active_genesis gen)|by left]|].
  cbn in Ey. apply last_Some in Hy as [q ->]. pose proof (segment_heights _ _ _ _ _ _ _ _ _ _ Hs) as E2. unfold along in Ha. rewrite Forall_app, Forall_singleton in Ha. destruct Ha as [_ Ha]. cbn in Ha. subst y.
  split; [|right; rewrite fmap_app; apply elem_of_app; right; by apply list_elem_of_singleton]. rewrite <- Ha. do 2 f_equal.
  apply (f_equal last) in E2. rewrite fmap_app in E2. cbn [fmap list_fmap snd] in E2. rewrite last_snoc in E2. rewrite zlen_app in *. change (zlen [(t, k)]) with 1 in *. unfold zlen in *.
  replace (Z.of_nat (length q) + 1) with (Z.of_nat (S (length q))) in E2 by lia. rewrite seqZ_S, last_snoc in E2. injection E2 as ->. lia.
Qed.

(** the tip is on the active chain *)
Lemma tip_on_chain g w path m us : history g w path m us -> 0 <= (tip (chain g)).2 /\ active g !! Z.to_nat (tip (chain g)).2 = Some (tip (chain g)).1 /\
  ((tip (chain g)).1 = gen \/ (tip (chain g)).1 ∈ stored_hashes w).
Proof.
  intros [Hh _ [T1 _ T3 T4 _] _ _ _ _]. destruct (segment_along _ _ _ _ _ _ Hh T1 T3) as (H0 & Ht & Hs). split; [done|]. split; [done|]. destruct Hs as [[_ Hs]|Hs]; [by left|right].
  apply list_elem_of_fmap in Hs as (y & -> & Hy). rewrite Forall_forall in T4. by apply T4.
Qed.

(** ** Connecting the next block *)

(** the next block of the active chain extends the segment *)
Lemma connect_next g w path m us x b h cs : no_reuse world svh gen 0 ∅ -> history g w path m us -> zlen (active g) <= u32_max ->
  block_at world x b -> on_chain (active g) (h, x) -> connect_block (chain g) b h x = Ok cs ->
  h = (tip (chain g)).2 + 1 /\ tip cs = (x, h) /\ parent_in world gen (stored_hashes w) x /\ along (active g) (path ++ [(x, h)]) /\
  exists m' u, segment world svh gen 0 ∅ (path ++ [(x, h)]) x h m' (us ++ [u]) /\ at_end svh [] cs x h m' (path ++ [(x, h)]) (us ++ [u]).
Proof.
  intros Huniq Hi Hlen Hb [Hh1 Hx] Hc. cbn [fst snd] in Hh1, Hx. destruct (tip_on_chain _ _ _ _ _ Hi) as (Ht0 & Hta & Hts). destruct (connect_block_tip _ _ _ _ _ Hc) as [Etip Eh].
  destruct Hi as [Hhs Hw [T1 T2 T3 T4 T5] _ _ _ _]. pose proof (lookup_lt_Some _ _ _ Hta) as Hlt. unfold u32_sat_add in Eh. unfold zlen in Hlen.
  assert (h = (tip (chain g)).2 + 1) as -> by (apply lookup_lt_Some in Hx; lia). clear Eh. split; [done|]. split; [done|].
  destruct (active_parent gen (headers g) _ _ x Hhs Hta) as (s & Hs & Hprev); [by replace (S (Z.to_nat (tip (chain g)).2)) with (Z.to_nat ((tip (chain g)).2 + 1)) by lia|].
  assert (world x = Some b) as Hwb by (pose proof (ba_load _ _ _ Hb) as E; cbn in E; destruct (world x); [by injection E as ->|done]).
  assert (prev_hash (header b) = (tip (chain g)).1) as Hp by (rewrite (Hw x s b Hs Hwb); done).
  split; [intros b' Hb'; rewrite Hwb in Hb'; injection Hb' as <-; rewrite Hp; destruct Hts; [by left|by right]|]. split; [apply Forall_app; split; [done|by constructor]|].
  assert (x ∉ path.*1) as Hfresh.
  { intros ([y k] & E & Hin)%list_elem_of_fmap. cbn in E. subst y. pose proof Hin as [i Hi]%list_elem_of_lookup. assert (path.*2 !! i = Some k) as Hk by (by rewrite list_lookup_fmap, Hi).
    rewrite (segment_heights _ _ _ _ _ _ _ _ _ _ T1) in Hk. apply lookup_seqZ in Hk as [-> Hik]. destruct (segment_height _ _ _ _ _ _ _ _ _ _ T1) as [Eh _].
    unfold along in T3. rewrite Forall_forall in T3. specialize (T3 _ Hin). cbn in T3. pose proof (NoDup_lookup _ _ _ _ (active_nodup gen (headers g) Hhs) T3 Hx). lia. }
  destruct (connect_extends world svh [] (chain g) gen 0 ∅ path _ _ m us x b cs T1 Hb Hp) as (m' & u & Hseg & _ & Hend & _); [by eapply Huniq|done|apply not_elem_of_nil|done|done|]. by exists m', u.
Qed.

(** ** Files only grow *)

(** the block store has a file number to spare; an operation that keeps the headers, and before
    which there is one to spare if there is after it *)
Definition roomy g : Prop := bs_file_number (store g) < 2 ^ 16 - 1.
Definition onward g g' : Prop := headers g' = headers g /\ (roomy g' -> roomy g).

Lemma onward_trans g1 g2 g3 : onward g1 g2 -> onward g2 g3 -> onward g1 g3.
Proof. intros [E1 H1] [E2 H2]. split; [congruence|auto]. Qed.

Lemma store_file_number (bs bs' : BlockStore KT) x raw : store_block_unchecked bs x raw = Ok bs' -> bs_file_number bs <= bs_file_number bs'.
Proof.
  unfold store_block_unchecked. intros H. apply res_bind_Ok in H as (bs1 & Hn & [= <-]). cbn. destruct (_ && _); [|by injection Hn as <-]. unfold next_file in Hn.
  apply res_bind_Ok in Hn as (n & Hn%ok_or_Ok & [= <-]). cbn. destruct (inU 16 _); [injection Hn as <-; lia|done].
Qed.

Lemma flush_file_number (bs : BlockStore KT) : bs_file_number (flush bs) = bs_file_number bs.
Proof. unfold flush. by destruct (_ =? 0). Qed.

Lemma flush_onward g w : onward g (flush_store g w).1.
Proof. split; [done|]. unfold roomy. cbn. by rewrite flush_file_number. Qed.

Lemma store_onward g w x raw g' w' : store_block_data g w x raw = Some (g', w') -> onward g g' /\ chain g' = chain g.
Proof.
  unfold store_block_data. case_bool_decide; [intros [= <- <-]; done|]. destruct (store_block_unchecked (store g) x raw) as [bs| |] eqn:E; [|intros [= <- <-]; done|done].
  apply store_file_number in E. destruct (_ >=? FLUSH_INTERVAL); intros [= <- <-]; (split; [split; [done|]|done]); unfold roomy; cbn; rewrite ?flush_file_number; lia.
Qed.

Lemma connect_onward free g w x b raw h g' w' ok : connect_and_store free g w x b raw h = Some (g', w', ok) -> onward g g'.
Proof.
  unfold connect_and_store. destruct (connect_block (chain g) b h x) as [cs| |] eqn:E; [|by intros [= <- <- <-]|done]. intros H.
  apply bind_Some in H as (mp & _ & H). apply bind_Some in H as ([g1 w1] & Hs & [= <- <- <-]). apply store_onward in Hs as [[Eh Hr] _]. split; [done|exact Hr].
Qed.

Lemma drain_onward fuel free : forall g w g' w', drain_loop fuel free g w = Some (g', w') -> onward g g'.
Proof.
  induction fuel as [|fuel IH]; intros g w g' w' H; [done|]. cbn [drain_loop] in H. destruct (pending_blocks w !! _) as [[[x b] raw]|]; [|by injection H as <- <-].
  apply bind_Some in H as ([[g1 w1] ok] & Hc & H). apply connect_onward in Hc. destruct ok; [|by injection H as <- <-]. eapply onward_trans; [exact Hc|by eapply IH].
Qed.

Lemma catch_up_batch_onward batch : forall g w n g' w' n' go, catch_up_batch batch g w n = Some (g', w', n', go) -> onward g g'.
Proof.
  induction batch as [|[h x] batch IH]; intros g w n g' w' n' go H; cbn [catch_up_batch] in H; [by injection H as <- <- <- <-|]. destruct (negb _); [by injection H as <- <- <- <-|].
  destruct (raw ← load_block (store g) x; b ← block_from_bytes_and_validate raw; connect_block (chain g) b h x) as [cs| |] eqn:E; [|by injection H as <- <- <- <-|done].
    set (g1 := set_chain_state g cs) in *. set (w1 := set_next_connect w _) in *. apply (onward_trans g g1); [done|].
  destruct (_ =? 0) in H; [|by eapply IH]. change (flush_store g1 w1) with ((flush_store g1 w1).1, (flush_store g1 w1).2) in H. cbv iota beta in H.
  eapply onward_trans; [exact (flush_onward g1 w1)|by eapply IH].
Qed.

(** ** The operations of the manager *)

Lemma store_shelf g w x raw g' w' c q : shelf_ok world gen (store g) (stored_hashes w) c q -> bs_file_number (store g) < 2 ^ 16 - 1 -> good_raw world x raw -> parent_in world gen (stored_hashes w) x ->
  store_block_data g w x raw = Some (g', w') -> exists c' q', shelf_ok world gen (store g') (stored_hashes w') c' q' /\ stored_hashes w' = {[x]} ∪ stored_hashes w /\ pool g' = pool g.
Proof.
  intros Hs Hn Hg Hp H. unfold store_block_data in H. case_bool_decide as Hin; [injection H as <- <-; exists c, q; split; [done|]; split; [set_solver|done]|].
  destruct (shelf_store world gen (store g) _ c q x raw Hs Hn Hg Hp) as (bs & E & Hs'). cbn [stored_hashes set_stored] in H. rewrite E in H. destruct (_ >=? FLUSH_INTERVAL); injection H as <- <-.
  - exists (commit_queue c (q ++ [(x, raw)])), []. split; [by apply shelf_flush|done].
  - by exists c, (q ++ [(x, raw)]).
Qed.

(** a state that only went on in the store, the chain state and the pool *)
Lemma history_advance g w g' w' path m us path' m' us' : history g w path m us -> advanced g w g' w' -> at_tip g' w' path' m' us' -> pool_safe (pool g') ->
  (exists c q, shelf_ok world gen (store g') (stored_hashes w') c q) -> history g' w' path' m' us'.
Proof.
  intros [Hh Hw _ _ _ [R1 R2] Hpe] [E1 E2 E3 E4 _] Ht Hp Hs. split; rewrite ?E1, ?E4; try done. split; rewrite ?E3, ?E2; done.
Qed.

Lemma connect_history free g w x b raw h g' w' ok path m us : no_reuse world svh gen 0 ∅ -> history g w path m us -> roomy g -> zlen (active g) <= u32_max ->
  waiting (active g) h (x, b, raw) -> connect_and_store free g w x b raw h = Some (g', w', ok) -> exists path' m' us', history g' w' path' m' us' /\ (ok = false -> g' = g /\ w' = w) /\ pending_blocks w' = pending_blocks w /\ next_height w' = next_height w.
Proof.
  intros Huniq Hi Hfb Hlen (Hx & Hb & Hz & Hraw) H. cbn [fst snd] in *. pose proof (connect_and_store_ok _ _ _ _ _ _ _ _ _ _ H) as Hadv. unfold connect_and_store in H.
  destruct (connect_block (chain g) b h x) as [cs| |] eqn:E; [|injection H as <- <- <-; by exists path, m, us|done]. destruct (connect_next g w path m us x b h cs Huniq Hi Hlen Hb Hx E) as (Eh & Etip & Hpar & Hal & m' & u & Hseg & Hend).
  apply bind_Some in H as (mp & Hmp & H). apply bind_Some in H as ([g1 w1] & Hst & H). injection H as <- <- <-. destruct Hadv as (Hadv & Etip' & Enc & Hin & _).
  exists (path ++ [(x, h)]), m', (us ++ [u]). split; [|split; [done|split; apply Hadv]]. destruct (hi_shelf _ _ _ _ _ Hi) as (c & q & Hs).
  apply (store_shelf _ _ _ _ _ _ c q) in Hst as Hst'; [|exact Hs|exact Hfb|split; [done|by exists b]|exact Hpar]. destruct Hst' as (c' & q' & Hs' & Est & Epo). apply store_onward in Hst as [_ Ech]. cbn in Ech, Epo.
  eapply history_advance; [exact Hi|done| | |by exists c', q'].
  - pose proof (ad_headers _ _ _ _ Hadv) as Ehd. split; cbn [chain stored_hashes next_connect_height set_next_connect]; rewrite ?Ech, ?Ehd, ?Etip; cbn [fst snd]; [done|done|done| |done].
    rewrite Est. apply Forall_app. split; [eapply Forall_impl; [exact (at_stored _ _ _ _ _ (hi_tip _ _ _ _ _ Hi))|]; intros y Hy; apply elem_of_union; by right|]. constructor; [apply elem_of_union; left; by apply elem_of_singleton|done].
  - rewrite Epo. destruct (free h); [|injection Hmp as <-; apply Hi]. destruct (remove_block_txs_safe (pool g) b (hi_pool _ _ _ _ _ Hi)) as (mp' & E' & Hp). cbn in Hmp. congruence.
Qed.

Lemma history_redownload g w path m us h : history g w path m us -> 1 <= h -> history g (schedule_redownload w h) path m us.
Proof. intros Hi Hh. eapply history_window; [exact Hi| |done]. destruct (hi_requests _ _ _ _ _ Hi) as [H1 H2]. split; cbn; [lia|done]. Qed.

Lemma next_positive g w path m us : history g w path m us -> 1 <= next_connect_height w.
Proof. intros Hi. destruct (tip_on_chain _ _ _ _ _ Hi) as (H0 & _). rewrite (at_next _ _ _ _ _ (hi_tip _ _ _ _ _ Hi)). unfold u32_sat_add, u32_max. lia. Qed.

Lemma history_pending g w path m us p : history g w path m us -> map_Forall (waiting (active g)) p -> history g (set_pending w p) path m us.
Proof. intros [Hh Hw [T1 T2 T3 T4 T5] Hpo Hs [R1 R2] Hpe] Hp. split; try done. Qed.

Lemma drain_history fuel free : no_reuse world svh gen 0 ∅ -> forall g w g' w' path m us, history g w path m us -> zlen (active g) <= u32_max -> roomy g' -> drain_loop fuel free g w = Some (g', w') ->
  exists path' m' us', history g' w' path' m' us'.
Proof.
  intros Huniq. induction fuel as [|fuel IH]; intros g w g' w' path m us Hi Hlen Hr H; [done|]. cbn [drain_loop] in H. destruct (pending_blocks w !! next_connect_height w) as [[[x b] raw]|] eqn:Ep; [|injection H as <- <-; by eauto].
  apply bind_Some in H as ([[g1 w1] ok] & Hc & H). fold (pop_pending w) in Hc. assert (roomy g1) as Hr1 by (destruct ok; [by apply (drain_onward _ _ _ _ _ _ H)|by injection H as <- <-]).
  assert (history g (pop_pending w) path m us) as Hi0 by (apply history_pending; [done|]; apply map_Forall_delete, Hi). pose proof (connect_onward _ _ _ _ _ _ _ _ _ _ Hc) as [Eh Hback].
  destruct (connect_history free g (pop_pending w) x b raw (next_connect_height w) g1 w1 ok path m us Huniq Hi0) as (p1 & m1 & u1 & Hi1 & Hsame & _); [by apply Hback|done|by apply (hi_pending _ _ _ _ _ Hi)|done|].
  destruct ok; [eapply IH; [exact Hi1|by rewrite Eh|done|done]|]. injection H as <- <-. destruct Hsame as [-> ->]; [done|]. exists p1, m1, u1. apply history_redownload; [done|]. by eapply (next_positive g w).
Qed.

(** received bytes: a valid block has the hash it came under and is the block of that hash *)
Definition offered x (raw : list byte) : Prop :=
  U 32 (zlen raw) /\ forall b, block_from_bytes_and_validate raw = Ok b -> check_block b = Ok tt -> x = block_hash (header b) /\ world x = Some b.

Lemma validated_parses raw b : block_from_bytes_and_validate raw = Ok b -> block_from_bytes raw = Ok b /\ block_ok b.
Proof.
  intros H. unfold block_from_bytes_and_validate in H. apply res_bind_Ok in H as (b' & Hb & H). assert (b' = b) as ->.
  { destruct (transactions b'); [done|]. apply res_bind_Ok in H as ([root mutated] & _ & H). destruct (negb mutated); [|done]. cbn in H. case_bool_decide; [by injection H as <-|done]. }
  split; [done|]. unfold block_from_bytes in Hb. apply run_reader_Ok in Hb as (rest & Hb). by apply (encode_decode (c := block_codec)) in Hb as [Hok _].
Qed.

Lemma received_waiting g h time x raw b : offered x raw -> on_chain (active g) (h, x) -> validate_received g h time raw = Some (Some b) -> waiting (active g) h (x, b, raw).
Proof.
  intros Hoff Hx H. unfold validate_received in H. destruct (block_from_bytes_and_validate raw) as [b'| |] eqn:Eb; [|done|done]. destruct (check_block b') as [[]| |] eqn:Ec; [|done|done].
  assert (b' = b) as ->. { destruct (h >? 0); [|by injection H as <-]. destruct (compute_median_time_past _ _) as [mtp|]; [|done]. destruct time as [t|]; [|done]. destruct (check_block_context _ _ _ _); [by injection H as <-|done|done]. }
  destruct Hoff as [Hz Ho]. destruct (Ho b Eb Ec) as [Eh Hw]. apply validated_parses in Eb as [Hp Hok]. split; [done|]. split; [|done]. split; cbn; [by rewrite Hw|done|by apply check_block_Ok|]. rewrite Eh. apply hash_ok_double_sha256.
Qed.

Lemma received_history free time g w x raw g' w' path m us : no_reuse world svh gen 0 ∅ -> history g w path m us -> zlen (active g) <= u32_max -> roomy g' -> offered x raw ->
  handle_received_block free time g w x raw = Some (g', w') -> exists path' m' us', history g' w' path' m' us'.
Proof.
  intros Huniq Hi Hlen Hr Hoff H. unfold handle_received_block in H. destruct (in_flight w !! x) as [e|] eqn:He; [|injection H as <- <-; by eauto].
  set (w1 := set_in_flight w (delete x (in_flight w))) in *. pose proof (rq_heights _ _ (hi_requests _ _ _ _ _ Hi) x e He) as Hx.
  assert (history g w1 path m us) as Hi1 by (eapply history_window; [exact Hi|apply requests_shrink; [apply delete_subseteq|apply Hi]|done]).
  apply bind_Some in H as (valid & Hv & H). destruct valid as [b|]; [|injection H as <- <-; exists path, m, us; apply history_redownload; [done|apply Hx]].
  pose proof (received_waiting g _ _ x raw b Hoff Hx Hv) as Hwait. destruct (Z.compare_spec (f_height e) (next_connect_height w1)) as [Eh|Hlt|Hgt].
  - apply bind_Some in H as ([[g1 w2] ok] & Hc & H). pose proof (connect_onward _ _ _ _ _ _ _ _ _ _ Hc) as [Ehd Hback]. assert (roomy g1) as Hr1 by (destruct ok; [by apply (drain_onward _ _ _ _ _ _ H)|by injection H as <- <-]).
    destruct (connect_history free g w1 x b raw _ g1 w2 ok path m us Huniq Hi1 (Hback Hr1) Hlen Hwait Hc) as (p1 & m1 & u1 & Hi2 & Hsame & _).
    destruct ok; [eapply (drain_history _ free Huniq g1 w2); [exact Hi2|by rewrite Ehd|done|exact H]|]. injection H as <- <-. destruct Hsame as [-> ->]; [done|]. exists p1, m1, u1. apply history_redownload; [done|apply Hx].
  - assert (x ∈ stored_hashes w1) as Hin.
    { destruct Hi as [Hh _ [T1 _ T3 T4 T5] _ _ _ _]. change (next_connect_height w1) with (next_connect_height w) in Hlt. rewrite T5 in Hlt. destruct Hx as [Hx1 Hx2]. cbn in Hx1, Hx2.
      destruct (segment_height _ _ _ _ _ _ _ _ _ _ T1) as [Et _]. unfold u32_sat_add in Hlt. destruct (lookup_lt_is_Some_2 path (Z.to_nat (f_height e - 1))) as [[y k] Hy]; [unfold zlen in Et; lia|].
      assert (path.*2 !! Z.to_nat (f_height e - 1) = Some k) as Hk by (by rewrite list_lookup_fmap, Hy). rewrite (segment_heights _ _ _ _ _ _ _ _ _ _ T1) in Hk. apply lookup_seqZ in Hk as [-> _].
      apply (Forall_lookup_1 _ _ _ _ T3) in Hy as Ha. apply (Forall_lookup_1 _ _ _ _ T4) in Hy as Hs. cbn in Ha, Hs. replace (Z.to_nat (0 + 1 + Z.of_nat (Z.to_nat (f_height e - 1)))) with (Z.to_nat (f_height e)) in Ha by lia. rewrite Hx2 in Ha. injection Ha as ->. exact Hs. }
    unfold store_block_data in H. rewrite bool_decide_true in H by done. injection H as <- <-. by eauto.
  - destruct (_ >=? MAX_PENDING_BLOCKS); injection H as <- <-; exists path, m, us; [apply history_redownload; [done|apply Hx]|]. apply history_pending; [done|]. apply map_Forall_insert_2; [done|apply Hi].
Qed.

(** blocks read back from disk *)
Lemma catch_up_batch_history batch : no_reuse world svh gen 0 ∅ -> forall g w n g' w' n' go path m us, history g w path m us -> zlen (active g) <= u32_max ->
  Forall (on_chain (active g)) batch -> catch_up_batch batch g w n = Some (g', w', n', go) -> exists path' m' us', history g' w' path' m' us'.
Proof.
  intros Huniq. induction batch as [|[h x] batch IH]; intros g w n g' w' n' go path m us Hi Hlen Hb H; cbn [catch_up_batch] in H; [injection H as <- <- _ _; by eauto|].
  destruct (bool_decide (x ∈ stored_hashes w)) eqn:Est; [|injection H as <- <- _ _; by eauto]. apply bool_decide_eq_true in Est. cbn [negb] in H. apply Forall_cons in Hb as [Hx Hb].
  destruct (raw ← load_block (store g) x; b ← block_from_bytes_and_validate raw; connect_block (chain g) b h x) as [cs| |] eqn:E; [|injection H as <- <- _ _; by eauto|done].
  apply res_bind_Ok in E as (raw & Hload & E). apply res_bind_Ok in E as (b & Hval & E). destruct (hi_shelf _ _ _ _ _ Hi) as (c & q & Hs). destruct (shelf_load world gen _ _ c q x raw Hs Hload) as [(_ & b' & Hp & Hat) _].
  apply validated_parses in Hval as [Hp' _]. rewrite Hp' in Hp. injection Hp as <-. set (g1 := set_chain_state g cs) in *. set (w1 := set_next_connect w _) in *.
  destruct (connect_next g w path m us x b h cs Huniq Hi) as (Eh & Etip & _ & Hal & m' & u & Hseg & Hend); [done|done|done|done|].
  assert (history g1 w1 (path ++ [(x, h)]) m' (us ++ [u])) as Hi1.
  { eapply history_advance; [exact Hi|done| |apply Hi|by exists c, q]. split; cbn; rewrite ?Etip; cbn [fst snd]; [done|done|done| |done].
    apply Forall_app. split; [exact (at_stored _ _ _ _ _ (hi_tip _ _ _ _ _ Hi))|by constructor]. }
  destruct (_ =? 0) in H; [|by eapply IH]. change (flush_store g1 w1) with ((flush_store g1 w1).1, (flush_store g1 w1).2) in H. cbv iota beta in H. eapply IH; [exact (history_flush _ _ _ _ _ Hi1)|done|done|exact H].
Qed.

Lemma catch_up_history fuel : no_reuse world svh gen 0 ∅ -> forall g w n g' w' n' path m us, history g w path m us -> zlen (active g) <= u32_max ->
  catch_up_loop fuel g w n = Some (g', w', n') -> exists path' m' us', history g' w' path' m' us'.
Proof.
  intros Huniq. induction fuel as [|fuel IH]; intros g w n g' w' n' path m us Hi Hlen H; [done|]. cbn [catch_up_loop] in H. destruct (_ <=? _); [|injection H as <- <- _; by eauto]. destruct (_ =? 0); [injection H as <- <- _; by eauto|].
  apply bind_Some in H as ([[[g1 w1] n1] go] & Hb & H). pose proof (catch_up_batch_onward _ _ _ _ _ _ _ _ Hb) as [Eh _].
  set (batch := hashes_in_range (headers g) _ _) in Hb. destruct (catch_up_batch_history batch Huniq g w n g1 w1 n1 go path m us Hi Hlen) as (p1 & m1 & u1 & Hi1); [apply range_on_chain; by eapply (next_positive g w)|exact Hb|].
  destruct go; [eapply IH; [exact Hi1|by rewrite Eh|exact H]|]. injection H as <- <- _. by eauto.
Qed.

Lemma catch_up_chainstate_history g w g' w' path m us : no_reuse world svh gen 0 ∅ -> history g w path m us -> zlen (active g) <= u32_max ->
  catch_up_chainstate g w = Some (g', w') -> exists path' m' us', history g' w' path' m' us'.
Proof.
  intros Huniq Hi Hlen H. unfold catch_up_chainstate in H. apply bind_Some in H as ([[g1 w1] n] & Hc & H). destruct (n >? 0).
  - change (flush_store g1 w1) with ((flush_store g1 w1).1, (flush_store g1 w1).2) in H. injection H as <- <-.
    destruct (catch_up_history _ Huniq g w 0 g1 w1 n path m us Hi Hlen Hc) as (p1 & m1 & u1 & Hi1). exists p1, m1, u1. exact (history_flush _ _ _ _ _ Hi1).
  - injection H as <- <-. by eapply catch_up_history.
Qed.

(** ** Reorganisations *)

Lemma kept_split (cs : ChainState UT MT IT) t h m p1 u1 p2 u2 : length u1 = length p1 -> at_end svh [] cs t h m (p1 ++ p2) (u1 ++ u2) -> at_end svh (zip p1.*1 u1) cs t h m p2 u2.
Proof.
  intros Hl [E1 E2 E3 E4 _]. apply Forall2_app_inv in E4 as [E4 E5]; [|done]. split; try done. clear -E4. induction E4 as [|x u p1 u1 Hx H IH]; cbn; by constructor.
Qed.

Lemma kept_join (cs : ChainState UT MT IT) t h m p1 u1 p2 u2 : length u1 = length p1 -> at_end svh (zip p1.*1 u1) cs t h m p2 u2 -> at_end svh [] cs t h m (p1 ++ p2) (u1 ++ u2).
Proof.
  intros Hl [E1 E2 E3 E4 E5]. split; try done. apply Forall2_app; [|done]. clear -Hl E5. revert u1 Hl E5. induction p1 as [|x p1 IH]; intros [|u u1] Hl H; cbn in *; try done.
  apply Forall_cons in H as [Hx H]. constructor; [done|]. apply IH; [lia|done].
Qed.

(** a committed tip has all its ancestors committed *)
Lemma committed_path (bs : BlockStore KT) stored c q p t h m0 us : shelf_ok world gen bs stored c q -> segment world svh gen 0 ∅ p t h m0 us -> gen ∉ p.*1 -> t ∈ dom c -> Forall (fun y => y.1 ∈ dom c) p.
Proof.
  intros Hs Hseg. induction Hseg as [|p t h m1 us x b m' undos Hseg IH Hb Hp Hnew Hu Ha]; intros Hg Ht; [constructor|]. apply Forall_app. split; [|by constructor]. rewrite fmap_app, not_elem_of_app in Hg. destruct Hg as [Hg _].
  assert (world x = Some b) as Hw by (pose proof (ba_load _ _ _ Hb) as E; cbn in E; destruct (world x); [by injection E as ->|done]).
  destruct (sh_parents _ _ _ _ _ _ Hs x Ht b Hw) as [Hpg|Hpc]; rewrite Hp in *; [|by apply IH].
  destruct (segment_tip _ _ _ _ _ _ _ _ _ _ Hseg) as [[-> _]|(y & Hy & Ey)]; [constructor|]. destruct Hg. apply last_Some in Hy as [q' ->]. rewrite fmap_app. apply elem_of_app. right. cbn. rewrite Ey, Hpg. by left.
Qed.

(** the two branches that meet at the fork point *)
Record branches g path m us (f : Hash256) (k : Z) (p1 old new : list (Hash256 * Z)) (m0 : ledger) (u1 u2 : list (list TxUndo)) : Prop := {
  br_path : path = p1 ++ old;
  br_undos : us = u1 ++ u2;
  br_prefix : segment world svh gen 0 ∅ p1 f k m0 u1;
  br_suffix : segment world svh f k m0 old (tip (chain g)).1 (tip (chain g)).2 m u2;
  br_fork : find_fork_point (headers g) (tip (chain g)).1 (best_known_tip (headers g)).1 = Ok f /\ at_height (by_hash (headers g)) f k;
  br_old : get_path (headers g) f (tip (chain g)).1 = Ok old;
  br_new : get_path (headers g) f (best_known_tip (headers g)).1 = Ok new;
  br_heights : new.*2 = seqZ (k + 1) (zlen new) /\ Forall (fun y => ancestor (by_hash (headers g)) (best_known_tip (headers g)).1 y.1 /\ at_height (by_hash (headers g)) y.1 y.2) new;
  br_common : ancestor (by_hash (headers g)) (tip (chain g)).1 f /\ ancestor (by_hash (headers g)) (best_known_tip (headers g)).1 f;
}.

Lemma fork_branches g w path m us : history g w path m us -> exists f k p1 old new m0 u1 u2, branches g path m us f k p1 old new m0 u1 u2.
Proof.
  intros Hi. destruct (tip_on_chain _ _ _ _ _ Hi) as (Ht0 & Hta & _). destruct Hi as [Hh _ [T1 _ T3 _ _] _ _ _ _]. pose proof (so_tree _ _ Hh) as Htr. set (t := (tip (chain g)).1) in *. set (ht := (tip (chain g)).2) in *.
  pose proof (active_at gen _ _ _ Hh Hta) as Hth. rewrite Z2Nat.id in Hth by done. destruct (so_best _ _ Hh) as (sb & Hsb & _). set (best := (best_known_tip (headers g)).1) in *.
  assert (at_height (by_hash (headers g)) best (s_height sb)) as Hbest by by exists sb. destruct (find_fork_point_ok gen _ t best _ _ Htr Hth Hbest) as (f & Ef & Hft & Hfb & _).
  destruct (ancestor_height _ _ _ _ _ Htr Hft Hth) as (k & Hfk & Hle). pose proof (at_height_range _ _ _ _ Htr Hfk) as [Hk0 _].
  destruct (get_path_ok gen _ f t k ht Htr Hfk Hth Hft) as (old & Eo & Ho2 & Ho). destruct (get_path_ok gen _ f best k _ Htr Hfk Hbest Hfb) as (new & En & Hn2 & Hn). apply seqZ_zlen in Hn2.
  rewrite <- (take_drop (Z.to_nat k) path) in T1, T3. destruct (segment_split _ _ _ _ _ _ _ _ _ _ _ T1) as (t1 & h1 & m1 & u1 & u2 & -> & H1 & H2). apply Forall_app in T3 as [A1 A2].
  destruct (segment_height _ _ _ _ _ _ _ _ _ _ H1) as [E1 _]. destruct (segment_height _ _ _ _ _ _ _ _ _ _ H2) as [E2 _]. destruct (segment_height _ _ _ _ _ _ _ _ _ _ T1) as [E3 _]. rewrite take_drop in E3.
  assert (h1 = k) as ->. { rewrite E1. unfold zlen in *. rewrite length_take. lia. } destruct (segment_along _ _ _ _ _ _ Hh H1 A1) as (_ & Ht1 & _).
  destruct (so_active _ _ Hh) as (atip & Hc). pose proof (chain_to_tip _ _ _ Hc) as Hatip. destruct (ct_at _ _ _ Hc _ _ Hta) as [Hat _].
  assert (forall y hy, ancestor (by_hash (headers g)) t y -> at_height (by_hash (headers g)) y hy -> active g !! Z.to_nat hy = Some y) as Hact.
  { intros y hy Hy Hyh. assert (ancestor (by_hash (headers g)) atip y) as Hay by (unfold ancestor in *; by transitivity t). pose proof (chain_to_index gen _ _ _ _ _ _ Htr Hatip Hc Hay Hyh) as E. unfold vec_index in E. by destruct (0 <=? hy). }
  assert (t1 = f) as -> by (pose proof (Hact f k Hft Hfk); congruence). assert (old = drop (Z.to_nat k) path) as ->.
  { apply (along_eq (active g)); [|eapply Forall_impl; [exact Ho|]; intros y [Hy Hyh]; by apply Hact|exact A2]. rewrite Ho2, (segment_heights _ _ _ _ _ _ _ _ _ _ H2). f_equal. lia. }
  exists f, k, (take (Z.to_nat k) path), (drop (Z.to_nat k) path), new, m1, u1, u2. split; try done. by rewrite take_drop.
Qed.

Definition node_of g : Reorg.Node B UT MT IT := mkNode (headers g) (chain g) (pool g).
Definition with_components g (n : Reorg.Node B UT MT IT) : shared := mkShared (n_headers n) (n_chain n) (store g) (n_pool n) (chain_height g) (nodes g).

Lemma shelf_stored (bs : BlockStore KT) stored c q x : shelf_ok world gen bs stored c q -> x ∈ dom c -> x ∈ stored.
Proof. intros Hs Hx. rewrite (sh_keys _ _ _ _ _ _ Hs). unfold keys. apply elem_of_union. by left. Qed.

(** heights tell the common part from the branches *)
Lemma branches_apart g w path m us f k p1 old new m0 u1 u2 : history g w path m us -> branches g path m us f k p1 old new m0 u1 u2 ->
  Forall (fun y => y.1 ∉ (zip p1.*1 u1).*1) (old ++ new).
Proof.
  intros Hi Hb. destruct (segment_height _ _ _ _ _ _ _ _ _ _ (br_prefix _ _ _ _ _ _ _ _ _ _ _ _ Hb)) as [Ek Hl]. rewrite fst_zip by (rewrite length_fmap; lia).
  pose proof (hi_headers _ _ _ _ _ Hi) as Hh. pose proof (at_along _ _ _ _ _ (hi_tip _ _ _ _ _ Hi)) as Ha. rewrite (br_path _ _ _ _ _ _ _ _ _ _ _ _ Hb) in Ha. apply Forall_app in Ha as [A1 A2].
  assert (forall (p : list (Hash256 * Z)) h0 y, 0 <= h0 -> p.*2 = seqZ (h0 + 1) (zlen p) -> y ∈ p -> h0 < y.2 <= h0 + zlen p) as Hz.
  { intros p h0 y H0 E Hy. apply (list_elem_of_fmap_2 snd) in Hy. rewrite E in Hy. apply elem_of_seqZ in Hy. lia. }
  assert (forall y, y ∈ p1 -> at_height (by_hash (headers g)) y.1 y.2 /\ y.2 <= k) as H1.
  { intros y Hy. destruct (Hz p1 0 y) as [Hy1 Hy2]; [done|by eapply segment_heights, Hb|done|]. split; [|lia]. rewrite <- (Z2Nat.id y.2) by lia. rewrite Forall_forall in A1. by apply (active_at gen), A1. }
  pose proof (zlen_nonneg p1). assert (forall y, y ∈ old ++ new -> at_height (by_hash (headers g)) y.1 y.2 /\ k < y.2) as H2.
  { intros y [Hy|Hy]%elem_of_app.
    - destruct (Hz old k y) as [Hy1 Hy2]; [lia|by eapply segment_heights, Hb|done|]. split; [|lia]. rewrite <- (Z2Nat.id y.2) by lia. rewrite Forall_forall in A2. by apply (active_at gen), A2.
    - destruct (br_heights _ _ _ _ _ _ _ _ _ _ _ _ Hb) as [E Hn]. destruct (Hz new k y) as [Hy1 Hy2]; [lia|done|done|]. split; [|lia]. rewrite Forall_forall in Hn. by apply Hn. }
  apply Forall_forall. intros y Hy (z & E & Hz1)%list_elem_of_fmap. destruct (H1 z Hz1) as [Hz2 Hz3]. destruct (H2 y Hy) as [Hy2 Hy3]. rewrite E in Hy2. pose proof (at_height_fun _ _ _ _ Hy2 Hz2). lia.
Qed.

(** no block reuses an identifier above the fork point *)
Lemma path_unique p1 f k m0 u1 new : no_reuse world svh gen 0 ∅ -> segment world svh gen 0 ∅ p1 f k m0 u1 -> unique_txids world svh f k m0 new.
Proof.
  intros Huniq H1. apply no_reuse_path. intros dn t h m us x b H2. eapply Huniq. exact (segment_app _ _ _ _ _ _ _ _ _ _ _ _ _ _ _ H1 H2).
Qed.

(** what the block store gives for a header is its block, or an error *)
Lemma store_blocks g stored c q : same_header (headers g) -> shelf_ok world gen (store g) stored c q -> blocks_ok (store g) world (headers g).
Proof.
  intros Hw Hs x s Hx. unfold honest. destruct (decide (x ∈ dom c)) as [Hin|Hin]; [|destruct (shelf_absent world gen _ _ _ _ _ Hs Hin) as [msg ->]; done].
  destruct (shelf_at world gen _ _ _ _ _ Hs Hin) as (b & Hwb & Hb). rewrite (ba_load _ _ _ Hb). split; [done|]. intros b' [= <-].
  eapply Hw; [exact Hx|]. pose proof (ba_load _ _ _ Hwb) as E. cbn in E. destruct (world x); [by injection E as ->|done].
Qed.

(** the node is ready for a reorganisation *)
Lemma branches_ready g w path m us c q f k p1 old new m0 u1 u2 : no_reuse world svh gen 0 ∅ -> (forall (b : B) h, persist_invalid_tip b h <> Panic) -> history g w path m us ->
  shelf_ok world gen (store g) (stored_hashes w) c q -> branches g path m us f k p1 old new m0 u1 u2 -> ready (store g) world (zip p1.*1 u1) gen (node_of g) m m0 f k old new u2.
Proof.
  intros Huniq Hback Hi Hs Hb. destruct (segment_height _ _ _ _ _ _ _ _ _ _ (br_prefix _ _ _ _ _ _ _ _ _ _ _ _ Hb)) as [_ Hl]. destruct (tip_on_chain _ _ _ _ _ Hi) as (Ht0 & Hta & _).
  pose proof (at_chain _ _ _ _ _ (hi_tip _ _ _ _ _ Hi)) as Hend. pose proof (ae_svh _ _ _ _ _ _ _ _ Hend) as Ev. rewrite (br_path _ _ _ _ _ _ _ _ _ _ _ _ Hb), (br_undos _ _ _ _ _ _ _ _ _ _ _ _ Hb) in Hend.
  assert (at_height (by_hash (headers g)) (tip (chain g)).1 (tip (chain g)).2) as Hth by (rewrite <- (Z2Nat.id (tip (chain g)).2) by done; apply (active_at gen); [apply Hi|done]).
  split; cbn [node_of n_headers n_chain n_pool]; rewrite ?Ev; try (apply Hi); try (apply Hb); try done.
  - by apply kept_split.
  - by eapply branches_apart.
  - eapply segment_wf; [apply Hb|done].
  - by eapply store_blocks; [apply Hi|].
  - by eapply path_unique; [|apply Hb].
Qed.

(** with both branches on disk no read fails *)
Lemma not_stranded g stored c q f k m0 old new kept n n' : shelf_ok world gen (store g) stored c q -> Forall (fun y => y.1 ∈ dom c) old -> Forall (fun y => src_has (store g) y.1 = true) new ->
  ~ stranded (B := B) (UT := UT) (MT := MT) (IT := IT) (store g) world kept n n' svh f k m0 old new.
Proof.
  intros Hs Ho Hn Hsd. destruct (sd_cause _ _ _ _ _ _ _ _ _ _ _ Hsd) as (x & e & (y & -> & Hy)%list_elem_of_fmap & He).
  assert (y.1 ∈ dom c) as Hin.
  { rewrite Forall_forall in Ho, Hn. apply elem_of_app in Hy as [Hy|Hy]; [by apply Ho|]. specialize (Hn y Hy). change (src_has (store g) y.1 = true) in Hn. rewrite (shelf_has world gen _ _ _ _ _ Hs) in Hn. by apply bool_decide_eq_true in Hn. }
  destruct (shelf_at world gen _ _ _ _ _ Hs Hin) as (b & _ & Hb). rewrite (ba_load _ _ _ Hb) in He. done.
Qed.

(** the tip is not on disk yet: nothing happens *)
Lemma activate_unloadable g f old new t h msg : tip (chain g) = (t, h) -> find_fork_point (headers g) t (best_known_tip (headers g)).1 = Ok f -> is_Some (by_hash (headers g) !! f) ->
  get_path (headers g) f t = Ok (old ++ [(t, h)]) -> get_path (headers g) f (best_known_tip (headers g)).1 = Ok new -> src_load (store g) t = Err msg ->
  match activate_best_chain (store g) (node_of g) with
  | Done (Reorganized _ _ _ _) _ | Exited _ | Trapped => False
  | Done _ n | Failed _ n => n = node_of g
  end.
Proof.
  intros Et Hf [sf Hsf] Ho Hn Hl. unfold activate_best_chain. rewrite (bind_Done get_state _ (node_of g) (node_of g) (node_of g) eq_refl). unfold best_tip. cbn [node_of n_headers n_chain].
  destruct (best_known_tip (headers g)) as [best wb] eqn:Eb. cbn [fst] in *. rewrite Et. cbv beta iota. case_bool_decide as Hbest; [done|]. fold (node_of g).
  rewrite (bind_Done _ _ _ _ _ (try_Ok (fun n => find_fork_point (n_headers n) t best) f (node_of g) Hf)).
  rewrite (bind_Done _ _ _ sf (node_of g)) by (unfold try_, hs_get; cbn; by rewrite Hsf). cbv beta zeta. destruct (_ >? _); [done|].
  rewrite (bind_Done _ _ _ _ _ (try_Ok (fun n => get_path (n_headers n) f t) (old ++ [(t, h)]) (node_of g) Ho)).
  rewrite (bind_Done _ _ _ _ _ (try_Ok (fun n => get_path (n_headers n) f best) new (node_of g) Hn)). cbv beta zeta. destruct (_ >? _); [done|]. destruct (negb _); [done|].
  unfold reorganize. rewrite reverse_snoc. cbn [fold_stm]. erewrite bind_Failed; [done|]. apply bind_Failed. unfold disconnect_one. apply bind_Failed. unfold try_. by rewrite Hl.
Qed.

(** the new branch takes the place of the old one *)
Lemma reorganized_history g w path m us c q f k p1 old new m0 u1 u2 n' : history g w path m us -> shelf_ok world gen (store g) (stored_hashes w) c q -> branches g path m us f k p1 old new m0 u1 u2 ->
  reorganized world (zip p1.*1 u1) gen (node_of g) n' svh f k m0 new (best_known_tip (headers g)).1 -> Forall (fun y => src_has (store g) y.1 = true) new ->
  exists path' m' us', history (with_components g n') (handle_reorg w (tip (n_chain n')).2) path' m' us'.
Proof.
  intros Hi Hs Hb [(h & m' & us' & Hseg & Hend) Hh' Etree Hact Hpool] Hhas. cbn [node_of n_headers] in Etree, Hact. set (best := (best_known_tip (headers g)).1) in *. pose proof (hi_headers _ _ _ _ _ Hi) as Hh. pose proof (so_tree _ _ Hh) as Htr.
  destruct (segment_height _ _ _ _ _ _ _ _ _ _ (br_prefix _ _ _ _ _ _ _ _ _ _ _ _ Hb)) as [Ek Hl]. pose proof (ae_tip _ _ _ _ _ _ _ _ Hend) as Etip. pose proof (zlen_nonneg p1). pose proof (zlen_nonneg new).
  destruct (segment_height _ _ _ _ _ _ _ _ _ _ Hseg) as [Eh _].
  pose proof (chain_to_tip _ _ _ Hact) as Hbest. pose proof Hi as [_ Hw [_ _ A T4 _] _ _ _ _]. rewrite (br_path _ _ _ _ _ _ _ _ _ _ _ _ Hb) in A, T4. apply Forall_app in A as [A1 _]. apply Forall_app in T4 as [S1 _].
  assert (forall y, ancestor (by_hash (headers g)) best y.1 -> at_height (by_hash (headers g)) y.1 y.2 -> active_chain (n_headers n') !! Z.to_nat y.2 = Some y.1) as Hidx.
  { intros y Hy Hyh. pose proof (chain_to_index gen _ _ _ _ _ _ Htr Hbest Hact Hy Hyh) as E. unfold vec_index in E. by destruct (0 <=? y.2). }
  destruct (br_common _ _ _ _ _ _ _ _ _ _ _ _ Hb) as [Hct Hcb]. fold best in Hcb. destruct (br_fork _ _ _ _ _ _ _ _ _ _ _ _ Hb) as [_ Hfk]. destruct (br_heights _ _ _ _ _ _ _ _ _ _ _ _ Hb) as [_ Hnew].
  exists (p1 ++ new), m', (u1 ++ us'). split; cbn [with_components handle_reorg headers chain store pool set_pending set_in_flight set_next_height set_next_connect stored_hashes pending_blocks].
  - done.
  - unfold same_header. by rewrite Etree.
  - split; cbn; rewrite ?Etip; cbn [fst snd]; [by eapply segment_app; [apply Hb|]|by apply kept_join| | |done].
    + apply Forall_app. split; [|eapply Forall_impl; [exact Hnew|]; intros y [Hy Hyh]; by apply Hidx].
      pose proof (segment_heights _ _ _ _ _ _ _ _ _ _ (br_prefix _ _ _ _ _ _ _ _ _ _ _ _ Hb)) as E. apply Forall_forall. intros y Hy. pose proof Hy as Hy2%(list_elem_of_fmap_2 snd). rewrite E in Hy2. apply elem_of_seqZ in Hy2.
      unfold along in A1. rewrite Forall_forall in A1. pose proof (active_at gen _ _ _ Hh (A1 y Hy)) as Hyh. rewrite Z2Nat.id in Hyh by lia. apply Hidx; [|done].
      destruct (tip_on_chain _ _ _ _ _ Hi) as (Ht0 & Hta & _). destruct (so_active _ _ Hh) as (atip & Hc). destruct (ct_at _ _ _ Hc _ _ Hta) as [Hat _]. destruct (ct_at _ _ _ Hc _ _ (A1 y Hy)) as [Hay _].
      assert (ancestor (by_hash (headers g)) atip f) as Haf by (unfold ancestor in *; by transitivity (tip (chain g)).1). pose proof (ancestor_between gen _ atip f y.1 k y.2 Htr (ex_intro _ _ (chain_to_tip _ _ _ Hc)) Haf Hfk Hay Hyh) as Hfy.
      unfold ancestor in *. transitivity f; [done|]. apply Hfy. lia.
    + apply Forall_app. split; [done|]. eapply Forall_impl; [exact Hhas|]. intros y Hy. eapply shelf_stored; [exact Hs|]. change (src_has (store g) y.1 = true) in Hy. rewrite (shelf_has world gen _ _ _ _ _ Hs) in Hy. by apply bool_decide_eq_true in Hy.
  - done.
  - by exists c, q.
  - split; cbn; [unfold u32_sat_add, u32_max; rewrite Etip; cbn [snd]; lia|intros x e He; by rewrite lookup_empty in He].
  - done.
Qed.

Lemma unchanged_history g w path m us f k p1 old new m0 u1 u2 n' : history g w path m us -> branches g path m us f k p1 old new m0 u1 u2 ->
  unchanged (zip p1.*1 u1) gen (node_of g) n' m old u2 -> history (with_components g n') w path m us.
Proof.
  intros [Hh Hw [T1 T2 T3 T4 T5] Hp Hs [R1 R2] Hpe] Hb [Hend Etip Hh' Etree Eact Hp']. cbn [node_of n_headers n_chain] in *. destruct (segment_height _ _ _ _ _ _ _ _ _ _ (br_prefix _ _ _ _ _ _ _ _ _ _ _ _ Hb)) as [_ Hl].
  rewrite (ae_svh _ _ _ _ _ _ _ _ T2) in Hend. apply kept_join in Hend; [|done]. rewrite <- (br_path _ _ _ _ _ _ _ _ _ _ _ _ Hb), <- (br_undos _ _ _ _ _ _ _ _ _ _ _ _ Hb) in Hend.
  split; cbn [with_components headers chain store pool]; rewrite ?Eact; try done; [unfold same_header; by rewrite Etree|]. split; cbn; rewrite ?Etip, ?Eact; done.
Qed.

Lemma genesis_not_above g w path m us : history g w path m us -> gen ∉ path.*1.
Proof.
  intros [Hh _ [T1 _ T3 _ _] _ _ _ _] (y & E & Hy)%list_elem_of_fmap. pose proof Hy as Hy2%(list_elem_of_fmap_2 snd). rewrite (segment_heights _ _ _ _ _ _ _ _ _ _ T1) in Hy2. apply elem_of_seqZ in Hy2.
  unfold along in T3. rewrite Forall_forall in T3. specialize (T3 y Hy). rewrite <- E in T3. pose proof (NoDup_lookup _ _ _ _ (active_nodup gen _ Hh) T3 (active_genesis gen _ Hh)). lia.
Qed.

(** the branch that is left is on disk, or its tip cannot be read *)
Lemma old_on_disk g w path m us c q f k p1 old new m0 u1 u2 : history g w path m us -> shelf_ok world gen (store g) (stored_hashes w) c q -> branches g path m us f k p1 old new m0 u1 u2 ->
  old = [] \/ (tip (chain g)).1 ∈ dom c -> Forall (fun y => y.1 ∈ dom c) old.
Proof.
  intros Hi Hs Hb [->|Ht]; [constructor|]. pose proof (committed_path _ _ _ _ _ _ _ _ _ Hs (at_segment _ _ _ _ _ (hi_tip _ _ _ _ _ Hi)) (genesis_not_above _ _ _ _ _ Hi) Ht) as Hp.
  rewrite (br_path _ _ _ _ _ _ _ _ _ _ _ _ Hb) in Hp. by apply Forall_app in Hp as [_ Hp].
Qed.

(** a reorganisation, successful or not *)
Lemma activate_history g w path m us : no_reuse world svh gen 0 ∅ -> (forall (b : B) h, persist_invalid_tip b h <> Panic) -> history g w path m us ->
  match activate_best_chain (store g) (node_of g) with
  | Done (Reorganized _ _ _ _) n => exists path' m' us', history (with_components g n) (handle_reorg w (tip (n_chain n)).2) path' m' us'
  | Done _ n | Failed _ n => history (with_components g n) w path m us
  | Exited _ => 2 ^ 16 - 1 < file_number (undo_store (chain g)) + 2 * MAX_REORG_DEPTH
  | Trapped => False
  end.
Proof.
  intros Huniq Hback Hi. destruct (fork_branches g w path m us Hi) as (f & k & p1 & old & new & m0 & u1 & u2 & Hb). destruct (hi_shelf _ _ _ _ _ Hi) as (c & q & Hs).
  assert (history (with_components g (node_of g)) w path m us) as Hid by by destruct g. pose proof (branches_ready _ _ _ _ _ _ _ _ _ _ _ _ _ _ _ Huniq Hback Hi Hs Hb) as Hr.
  pose proof (activate_outcome _ _ _ _ _ _ _ _ _ _ _ _ Hr) as Ho. cbn zeta in Ho. cbn [node_of n_chain n_headers] in Ho. rewrite (ae_svh _ _ _ _ _ _ _ _ (at_chain _ _ _ _ _ (hi_tip _ _ _ _ _ Hi))) in Ho.
  destruct (decide (old = [] \/ (tip (chain g)).1 ∈ dom c)) as [Hold|[Hne Hdom]%Decidable.not_or].
  - pose proof (old_on_disk _ _ _ _ _ _ _ _ _ _ _ _ _ _ _ Hi Hs Hb Hold) as Hc.
    destruct (activate_best_chain (store g) (node_of g)) as [[|o b d cn|missing] n|msg n|n|]; [destruct Ho as [-> _]; exact Hid| |destruct Ho as [-> _]; exact Hid| |done|done].
    + destruct Ho as (_ & _ & Ho & Hhas). by eapply reorganized_history.
    + destruct Ho as [Ho|[Ho Hhas]]; [by eapply unchanged_history|]. by destruct (not_stranded _ _ _ _ _ _ _ _ _ _ _ _ Hs Hc Hhas Ho).
  - pose proof (br_suffix _ _ _ _ _ _ _ _ _ _ _ _ Hb) as Hsuf. destruct (shelf_absent world gen _ _ _ _ _ Hs Hdom) as [msg Hl]. clear Ho Hr.
    destruct (br_fork _ _ _ _ _ _ _ _ _ _ _ _ Hb) as [Hf (sf & Hsf & _)]. pose proof (br_old _ _ _ _ _ _ _ _ _ _ _ _ Hb) as Ho. pose proof (br_new _ _ _ _ _ _ _ _ _ _ _ _ Hb) as Hn. destruct (tip (chain g)) as [t h] eqn:Et. cbn [fst snd] in *.
    assert (exists old', old = old' ++ [(t, h)]) as [old' Eo] by (inversion Hsuf; subst; [done|by eexists]). rewrite Eo in Ho.
    pose proof (activate_unloadable g f old' new t h msg Et Hf (ex_intro _ sf Hsf) Ho Hn Hl) as Hu. destruct (activate_best_chain (store g) (node_of g)) as [[|o b d cn|missing] n|msg' n|n|]; try done; rewrite Hu; exact Hid.
Qed.

(** ** Headers and transactions *)

(** the headers of a peer are those of the blocks *)
Definition known_headers (l : list BlockHeader) : Prop := forall hd b, hd ∈ l -> world (block_hash hd) = Some b -> header b = hd.

Definition set_header_store g hs : shared := mkShared hs (chain g) (store g) (pool g) (chain_height g) (nodes g).

Lemma history_headers g w path m us hs : history g w path m us -> HeadersCorrect.store_ok gen hs -> same_header hs -> (exists ext, active_chain hs = active g ++ ext) -> history (set_header_store g hs) w path m us.
Proof.
  intros [Hh Hw [T1 T2 T3 T4 T5] Hp Hs [R1 R2] Hpe] Hh' Hw' [ext E]. assert (forall i x, active g !! i = Some x -> active_chain hs !! i = Some x) as Hi by (intros i x Hx; rewrite E; by apply lookup_app_l_Some).
  split; cbn; try done.
  - split; cbn; try done. eapply Forall_impl; [exact T3|]. intros y. apply Hi.
  - split; [done|]. intros x e He. destruct (R2 x e He) as [H1 H2]. split; [done|]. by apply Hi.
  - intros h p Hp1. destruct (Hpe h p Hp1) as ([H1 H2] & H3). split; [split; [done|by apply Hi]|done].
Qed.

Lemma grow_history g w path m us l hs : history g w path m us -> header_op l (headers g) hs -> collision_free l -> known_headers l -> history (set_header_store g hs) w path m us.
Proof.
  intros Hi Hop Hcf Hk. destruct (header_op_grown gen l _ _ (hi_headers _ _ _ _ _ Hi) Hcf Hop) as [Hok _ Hext Hnew]. apply history_headers; [done|done| |done].
  intros x s b Hx Hb. destruct (Hnew x s Hx) as [Ho|[-> Hin]]; [by eapply (hi_world _ _ _ _ _ Hi)|]. by apply Hk.
Qed.

Lemma purge_history g w path m us n hs : history g w path m us -> purge_stale_forks (headers g) n = Some hs -> ~ orphaned (by_hash hs) -> history (set_header_store g hs) w path m us.
Proof.
  intros Hi Hp Ho. destruct (purge_intact gen _ n hs (hi_headers _ _ _ _ _ Hi) Hp Ho) as (Hok & Hsub & Ea). apply history_headers; [done|done| |exists []; by rewrite app_nil_r].
  intros x s b Hx Hb. eapply (hi_world _ _ _ _ _ Hi); [by eapply lookup_weaken|done].
Qed.

Lemma accept_history g w path m us tx id mp : history g w path m us -> tx_ok tx -> accept_tx (pool g) tx (chain g) = Ok (id, mp) -> history (set_mempool g mp) w path m us.
Proof.
  intros [Hh Hw [T1 T2 T3 T4 T5] Hp Hs Hr Hpe] Htx H. destruct (accept_tx_pool_safe (chain g) m (pool g) tx (chainstate_view_laws _ _ (co_utxos _ _ (ae_ok _ _ _ _ _ _ _ _ T2))) Htx Hp) as [[msg E]|(mp' & E & Hp')]; [congruence|].
  rewrite H in E. injection E as -> ->. split; try done.
Qed.

(** ** The node *)

(** a reorganisation; the notice for the download manager, when there is one *)
Definition activate g : option (shared * list Z) :=
  match activate_best_chain (store g) (node_of g) with
  | Done (Reorganized _ _ _ _) n => Some (with_components g n, [(tip (n_chain n)).2])
  | Done _ n | Failed _ n => Some (with_components g n, [])
  | Exited _ | Trapped => None
  end.

(** the components, the download window, and the notices of reorganisations that wait in
    the channel to the download manager *)
Record Machine := mkMachine { st_shared : shared; st_window : Window; st_notices : list Z }.

Inductive node_op :=
| Headers (l : list BlockHeader)
| Purge
| Submit (tx : Transaction)
| Peers
| Fill
| Receive (x : Hash256) (raw : list byte)
| Disconnect
| Timeout_
| Flush
| Mark
| CatchUp
| Activate
| Notice.

(** what the node does, one operation at a time, in any order *)
Inductive node_step : node_op -> Machine -> Machine -> Prop :=
| ns_headers g w q l hs : header_op l (headers g) hs -> node_step (Headers l) (mkMachine g w q) (mkMachine (set_header_store g hs) w q)
| ns_purge g w q n hs : purge_stale_forks (headers g) n = Some hs -> node_step Purge (mkMachine g w q) (mkMachine (set_header_store g hs) w q)
| ns_submit g w q tx id mp : tx_ok tx -> accept_tx (pool g) tx (chain g) = Ok (id, mp) -> node_step (Submit tx) (mkMachine g w q) (mkMachine (set_mempool g mp) w q)
| ns_peers g w q h ns : node_step Peers (mkMachine g w q) (mkMachine (mkShared (headers g) (chain g) (store g) (pool g) h ns) w q)
| ns_fill now sent writers g w q w' : fill_window now sent writers g w = Some w' -> node_step Fill (mkMachine g w q) (mkMachine g w' q)
| ns_received free time g w q x raw g' w' : handle_received_block free time g w x raw = Some (g', w') -> node_step (Receive x raw) (mkMachine g w q) (mkMachine g' w' q)
| ns_disconnect g w q peer : node_step Disconnect (mkMachine g w q) (mkMachine g (handle_peer_disconnect w peer) q)
| ns_timeout now g w q : node_step Timeout_ (mkMachine g w q) (mkMachine (handle_timeout_scan now g w).1 (handle_timeout_scan now g w).2 q)
| ns_flush g w q : node_step Flush (mkMachine g w q) (mkMachine (flush_store g w).1 (flush_store g w).2 q)
| ns_mark g w q b : node_step Mark (mkMachine g w q) (mkMachine g (set_caught_up w b) q)
| ns_catch_up g w q g' w' : catch_up_chainstate g w = Some (g', w') -> node_step CatchUp (mkMachine g w q) (mkMachine g' w' q)
| ns_activate g w q g' notice : activate g = Some (g', notice) -> node_step Activate (mkMachine g w q) (mkMachine g' w (q ++ notice))
| ns_notice g w h q : node_step Notice (mkMachine g w (h :: q)) (mkMachine g (handle_reorg w h) q).

(** What is assumed of a run.  Hashes identify headers and blocks; a block is handled only when
    no notice of a reorganisation waits; a purge leaves no header without its parent; the
    active chain has fewer than 2^32 headers and the block store has a file number to spare. *)
Definition orderly (op : node_op) (s s' : Machine) : Prop :=
  match op with
  | Headers l => collision_free l /\ known_headers l
  | Receive x raw => offered x raw /\ st_notices s = []
  | CatchUp => st_notices s = []
  | Purge => ~ orphaned (by_hash (headers (st_shared s')))
  | _ => True
  end /\ zlen (active (st_shared s)) <= u32_max /\ roomy (st_shared s').
Definition orderly_step (s s' : Machine) : Prop := exists op, node_step op s s' /\ orderly op s s'.

Lemma fill_same now sent writers g w w' : fill_window now sent writers g w = Some w' -> same_blocks w w'.
Proof.
  unfold fill_window. destruct (_ && negb _); [by intros [= <-]|]. destruct (_ || _); [by intros [= <-]|]. intros H. apply bind_Some in H as ([req next] & _ & H).
  destruct (_ =? 0) in H; [by injection H as <-|]. destruct (_ =? 0) in H; [by injection H as <-|]. injection H as <-. destruct (min_height _), (req !! _) as [[]|]; done.
Qed.

Lemma timeout_parts now g w : exists ns, (handle_timeout_scan now g w).1 = set_nodes g ns /\ same_blocks w (handle_timeout_scan now g w).2.
Proof. unfold handle_timeout_scan. destruct (foldl _ _ _) as [[ns m] low]. exists ns. split; [done|]. by destruct low. Qed.

(** the window once the notices that wait are handled *)
Definition settled w (q : list Z) : Window := foldl handle_reorg w q.

Lemma settled_stored w q : stored_hashes (settled w q) = stored_hashes w.
Proof. revert w. induction q as [|h q IH]; intros w; [done|]. cbn [settled foldl]. fold (settled (handle_reorg w h) q). by rewrite IH. Qed.

(** with a notice waiting, only what is stored matters *)
Lemma settled_same w w' h q : stored_hashes w' = stored_hashes w ->
  same_blocks (settled w (h :: q)) (settled w' (h :: q)) /\ next_height (settled w' (h :: q)) = next_height (settled w (h :: q)) /\ in_flight (settled w' (h :: q)) = ∅.
Proof.
  intros E. destruct (exists_last (l := h :: q)) as (q' & k & ->); [done|]. unfold settled. rewrite !foldl_snoc. fold (settled w q') (settled w' q').
  split; [|done]. split; [cbn; by rewrite !settled_stored|done|done].
Qed.

Lemma settled_window g w w' q path m us : history g (settled w q) path m us -> stored_hashes w' = stored_hashes w ->
  (requests_ok (active g) w -> requests_ok (active g) w' /\ same_blocks w w') -> history g (settled w' q) path m us.
Proof.
  intros Hi E Hq. destruct q as [|h q]; [destruct (Hq (hi_requests _ _ _ _ _ Hi)) as [Hr Hs]; by eapply history_window|].
  destruct (settled_same w w' h q E) as (Hs & En & Ef). eapply history_window; [exact Hi| |exact Hs]. split; [rewrite En; apply Hi|]. rewrite Ef. intros x e He. by rewrite lookup_empty in He.
Qed.

Definition consistent (s : Machine) : Prop := exists path m us, history (st_shared s) (settled (st_window s) (st_notices s)) path m us.

Lemma activate_consistent g w q g' notice path m us : no_reuse world svh gen 0 ∅ -> (forall (b : B) h, persist_invalid_tip b h <> Panic) ->
  history g (settled w q) path m us -> activate g = Some (g', notice) -> consistent (mkMachine g' w (q ++ notice)).
Proof.
  intros Huniq Hback Hi Ha. pose proof (activate_history g (settled w q) path m us Huniq Hback Hi) as H. unfold activate in Ha. unfold consistent, settled. cbn [st_shared st_window st_notices].
  destruct (activate_best_chain (store g) (node_of g)) as [[|o b d c|l] n|msg n|n|]; try done; injection Ha as <- <-; rewrite ?app_nil_r, ?foldl_snoc; by eauto.
Qed.

Lemma node_step_consistent op s s' : no_reuse world svh gen 0 ∅ -> (forall (b : B) h, persist_invalid_tip b h <> Panic) -> node_step op s s' -> orderly op s s' -> consistent s -> consistent s'.
Proof.
  intros Huniq Hback Hst (Ho & Hlen & Hr) (path & m & us & Hi).
  destruct Hst as [g w q l hs Hop|g w q n hs Hp|g w q tx id mp Htx Ha|g w q h ns|now sent writers g w q w' Hf|free time g w q x raw g' w' H|g w q peer|now g w q|g w q|g w q b|g w q g' w' H|g w q g' notice Ha|g w h q]; cbn [st_shared st_window st_notices orderly] in *.
  - exists path, m, us. destruct Ho as [Hcf Hk]. by eapply grow_history.
  - exists path, m, us. by eapply purge_history.
  - exists path, m, us. by eapply accept_history.
  - exists path, m, us. destruct Hi as [? ? [? ? ? ? ?] ? ? ? ?]. by split.
  - exists path, m, us. eapply (settled_window g w w'); [exact Hi|by eapply sb_stored, fill_same|]. intros Hq. by eapply requests_fill.
  - destruct Ho as [Hoff ->]. by eapply received_history.
  - exists path, m, us. eapply (settled_window g w); [exact Hi|rewrite drop_peer_eq; by destruct (min_height _)|]. intros Hq. split; [by apply requests_disconnect|]. rewrite drop_peer_eq. by destruct (min_height _).
  - exists path, m, us. destruct (timeout_parts now g w) as (ns & E & Es). rewrite E. cbn. eapply (settled_window _ w); [|apply Es|intros Hq; split; [by apply requests_timeout|done]].
    destruct Hi as [? ? [? ? ? ? ?] ? ? ? ?]. by split.
  - exists path, m, us. assert (history (flush_store g w).1 (settled w q) path m us) as Hf by (eapply history_window; [exact (history_flush _ _ _ _ _ Hi)|destruct (hi_requests _ _ _ _ _ Hi); by split|done]).
    eapply (settled_window _ w); [exact Hf|done|]. intros [H1 H2]. by split.
  - exists path, m, us. eapply (settled_window g w); [exact Hi|done|]. intros [H1 H2]. by split.
  - rewrite Ho in *. by eapply catch_up_chainstate_history.
  - by eapply activate_consistent.
  - by exists path, m, us.
Qed.

(** a node before its first block: the header index has the genesis, nothing is stored *)
Record fresh g : Prop := {
  fr_headers : HeadersCorrect.store_ok gen (headers g);
  fr_world : same_header (headers g);
  fr_tip : tip (chain g) = (gen, 0);
  fr_svh : script_verify_height (chain g) = svh;
  fr_chain : chain_ok (chain g) ∅;
  fr_pool : pool_safe (pool g);
  fr_store : holds (store g) ∅ [];
  fr_index : all_indexed_hashes (store g) = ∅;
}.

Lemma fresh_history g : fresh g -> history g (manager_new g) [] ∅ [].
Proof.
  intros [Hh Hw Ht Hv Hc Hp Hs Ei]. split; try done.
  - split; rewrite ?Ht; cbn; [constructor|by split|constructor|constructor|by rewrite Ht].
  - exists ∅, []. cbn [manager_new stored_hashes]. rewrite Ei. split; [done|intros x raw Hx; by rewrite lookup_empty in Hx|constructor|intros x Hx; by rewrite dom_empty_L in Hx|intros q1 y q2 E; by destruct q1|done].
Qed.

Lemma reach_consistent g0 s : no_reuse world svh gen 0 ∅ -> (forall (b : B) h, persist_invalid_tip b h <> Panic) -> fresh g0 -> rtc orderly_step (mkMachine g0 (manager_new g0) []) s -> consistent s.
Proof.
  intros Huniq Hback Hf Hr. revert s Hr. refine (rtc_ind_r consistent _ _ _); [by exists [], ∅, []; apply fresh_history|].
  intros s1 s2 _ (op & Hs & Ho) Hi. by eapply node_step_consistent.
Qed.

End History.

(** ** Between a reorganisation and its notification *)

Section Stale.
Context `{HS : Sha256} `{HD : Digests} `{HK : K256} `{HU256 : U256Overflow} `{HO : HashOrder}.
Context {B UT MT IT KT : Type} {HB : HeaderBackend B} {HU : Table (list byte) (list byte) UT} {HM : Table string (list byte) MT}
  {HI : Table (list byte) (Z * Z * Z) IT} {HBI : Table (list byte) (Z * Z * Z) KT}.
Implicit Types (g : Shared B UT MT IT KT) (w : Window).

(** C37: a block that was requested for the height above the tip is connected on that tip
    whatever its parent is.  The notice of a reorganisation waits in a channel, and a block of
    the branch that was left, requested before, can be handled first. *)
Theorem connected_whatever_parent free time g w x e raw b cs g' w' : in_flight w !! x = Some e -> f_height e = next_connect_height w -> pending_blocks w = ∅ ->
  validate_received g (f_height e) time raw = Some (Some b) -> connect_block (chain g) b (f_height e) x = Ok cs -> handle_received_block free time g w x raw = Some (g', w') ->
  tip (chain g') = (x, u32_sat_add (tip (chain g)).2 1) /\ forall hd, connect_block (chain g) (mkBlock hd (transactions b)) (f_height e) x = Ok cs.
Proof.
  intros He Eh Hp Hv Hc H. split; [|exact (fun _ => Hc)]. destruct (connect_block_tip _ _ _ _ _ Hc) as [Et Eh']. unfold handle_received_block in H. rewrite He, Hv in H. cbn [mbind option_bind next_connect_height set_in_flight] in H.
  rewrite <- Eh, Z.compare_refl in H. apply bind_Some in H as ([[g1 w1] ok] & Hcs & H). pose proof (connect_and_store_ok _ _ _ _ _ _ _ _ _ _ Hcs) as Hadv.
  destruct ok; [|unfold connect_and_store in Hcs; rewrite Hc in Hcs; apply bind_Some in Hcs as (? & _ & Hcs); by apply bind_Some in Hcs as ([] & _ & Hcs)].
  destruct Hadv as ([_ _ _ Epe _] & Etip & _). cbn [pending_blocks set_in_flight] in Epe. unfold drain_pending in H. rewrite Epe, Hp, map_size_empty in H. cbn [drain_loop] in H. rewrite Epe, Hp, lookup_empty in H. injection H as <- <-. by rewrite Etip, <- Eh'.
Qed.
End Stale.

(** ** Example: the first block arrives *)

#[local] Existing Instance trap.
#[local] Existing Instance no_backend.
#[local] Existing Instance plain_order.
#[local] Existing Instance toy_sha256.
#[local] Existing Instance toy_digests.
#[local] Existing Instance toy_k256.

Definition first_header : BlockHeader := mkHeader 1 root_hash (txid (bip34_coinbase 1)) 1600 0x1e0ffff0 1.
Definition first_block : Block := mkBlock first_header [bip34_coinbase 1].
Definition first_hash : Hash256 := block_hash first_header.
Definition small_world (x : Hash256) : option Block := if bool_decide (x = first_hash) then Some first_block else None.
Definition first_peer : IpAddr := V4 [x01; x02; x03; x04].
Notation first_node := (Shared Empty_set byte_table meta_table sample_index sample_index).
Definition start_node (hs : HeaderStore Empty_set) : first_node := mkShared hs root_state empty_block_store (with_max_size 1000) 1 {[first_peer := mkStrikes 0 None false]}.

Lemma small_world_inv x b : small_world x = Some b -> x = first_hash /\ b = first_block.
Proof. unfold small_world. case_bool_decide as Hx; [|discriminate]. intros E. injection E as <-. split; [exact Hx|reflexivity]. Qed.

Lemma first_not_root : first_hash <> root_hash.
Proof. apply (bool_decide_unpack (~ _)). vm_compute. exact Logic.I. Qed.

Lemma small_block_at x b : block_at small_world x b -> x = first_hash /\ b = first_block.
Proof. intros Hb. apply small_world_inv. pose proof (ba_load _ _ _ Hb) as E. cbn [src_load world_source] in E. destruct (small_world x) as [c|]; [injection E as ->; reflexivity|discriminate E]. Qed.

Lemma small_unique : no_reuse small_world 0 root_hash 0 ∅.
Proof.
  intros path t h m us x b Hs Hb Hp. apply small_block_at in Hb as [_ ->]. change (prev_hash (header first_block)) with root_hash in Hp. subst t.
  apply (root_segment small_world 0 root_hash) in Hs as ->; [apply new_txids_single; intros o _; apply lookup_empty|]. intros y c Hy. apply small_block_at in Hy as [-> _]. exact first_not_root.
Qed.

(** the run: the header is added, its block requested, received and written *)
Definition small_run : option (first_node * first_node * Window * first_node * Window) :=
  match (hs ← fresh_store; '(_, hs1) ← add_header hs first_header; Ok (hs, hs1)) with
  | Ok (hs, hs1) =>
    let g1 := set_header_store (start_node hs) hs1 in
    w1 ← fill_window 7 (fun _ => true) [first_peer] g1 (manager_new (start_node hs));
    '(g2, w2) ← handle_received_block (fun _ => true) (Some 2000) g1 w1 first_hash (block_to_bytes first_block);
    Some (start_node hs, g1, w1, g2, w2)
  | _ => None
  end.

Definition roomy_check (g : first_node) : bool :=
  (bs_file_number (store g) <? 2 ^ 16 - 1) && (zlen (active_chain (headers g)) <=? u32_max).

Lemma roomy_check_ok g : roomy_check g = true -> zlen (active_chain (headers g)) <= u32_max /\ roomy g.
Proof. unfold roomy_check, roomy. rewrite !andb_true_iff. lia. Qed.

Lemma small_run_checked : match small_run with
  | Some (g0, g1, _, g2, _) => roomy_check g0 && roomy_check g1 && roomy_check g2 && bool_decide (tip (chain g2) = (first_hash, 1))
  | None => false
  end = true.
Proof. vm_compute. reflexivity. Qed.

Lemma first_raw : block_from_bytes_and_validate (block_to_bytes first_block) = Ok first_block.
Proof. vm_compute. reflexivity. Qed.

Lemma first_offered : offered small_world first_hash (block_to_bytes first_block).
Proof.
  split; [apply inU_spec; vm_compute; reflexivity|]. intros b Hb _. rewrite first_raw in Hb. injection Hb as <-. split; [reflexivity|].
  unfold small_world. rewrite bool_decide_eq_true_2 by reflexivity. reflexivity.
Qed.

Lemma start_fresh hs : fresh_store = Ok hs -> fresh small_world root_hash 0 (start_node hs).
Proof.
  intros E. destruct (fresh_store_ok hs E) as [Hok _]. split; cbn [start_node headers chain store pool].
  - exact Hok.
  - apply res_bind_Ok in E as (cw & _ & E). injection E as <-. intros x s b Hx Hb. cbn [by_hash] in Hx. apply lookup_singleton_Some in Hx as [Hx _]. apply small_world_inv in Hb as [Hb _]. destruct first_not_root. rewrite <- Hb. symmetry. exact Hx.
  - reflexivity.
  - reflexivity.
  - exact root_state_ok.
  - apply (pool_inv_safe ∅), pool_inv_empty; vm_compute; discriminate.
  - exact empty_block_store_holds.
  - reflexivity.
Qed.

Lemma first_alone : collision_free [first_header].
Proof. intros a b Ha Hb _. apply list_elem_of_singleton in Ha as ->, Hb as ->. reflexivity. Qed.

Lemma first_known : known_headers small_world [first_header].
Proof. intros hd b Hin Hb. apply list_elem_of_singleton in Hin as ->. apply small_world_inv in Hb as [_ ->]. reflexivity. Qed.

Lemma small_reach : exists g0 g w, fresh small_world root_hash 0 g0 /\ rtc (orderly_step small_world) (mkMachine g0 (manager_new g0) []) (mkMachine g w []) /\ tip (chain g) = (first_hash, 1).
Proof.
  pose proof small_run_checked as H. unfold small_run in H. destruct (hs ← fresh_store; '(_, hs1) ← add_header hs first_header; Ok (hs, hs1)) as [[hs hs1]| |] eqn:E; [|discriminate H|discriminate H].
  apply res_bind_Ok in E as (hs0 & E0 & E). apply res_bind_Ok in E as ([n hs2] & E1 & E). injection E as -> ->. cbv zeta in H. set (g1 := set_header_store (start_node hs) hs1) in *.
  destruct (fill_window 7 (fun _ => true) [first_peer] g1 (manager_new (start_node hs))) as [w1|] eqn:Ef; [|discriminate H]. cbn [mbind option_bind] in H.
  destruct (handle_received_block (fun _ => true) (Some 2000) g1 w1 first_hash (block_to_bytes first_block)) as [[g2 w2]|] eqn:Er; [|discriminate H]. cbn [mbind option_bind] in H.
  apply andb_true_iff in H as [[[H0 H1]%andb_true_iff H2]%andb_true_iff Ht%bool_decide_eq_true]. apply roomy_check_ok in H0, H1, H2. exists (start_node hs), g2, w2. split; [exact (start_fresh hs E0)|]. split; [|exact Ht].
  apply rtc_l with (mkMachine g1 (manager_new (start_node hs)) []); [|apply rtc_l with (mkMachine g1 w1 []); [|apply rtc_once]].
  - exists (Headers [first_header]). split; [exact (ns_headers (start_node hs) _ _ _ _ (op_add _ _ _ _ E1))|]. split; [|split; [exact (proj1 H0)|exact (proj2 H1)]]. split; [exact first_alone|exact first_known].
  - exists Fill. split; [exact (ns_fill _ _ _ _ _ _ _ Ef)|]. split; [exact Logic.I|]. split; [exact (proj1 H1)|exact (proj2 H1)].
  - exists (Receive first_hash (block_to_bytes first_block)). split; [exact (ns_received _ _ _ _ _ _ _ _ _ Er)|]. split; [split; [exact first_offered|reflexivity]|]. split; [exact (proj1 H1)|exact (proj2 H2)].
Qed.


(** a block whose parent is not the tip *)
Definition stray_header : BlockHeader := mkHeader 1 (mkHash (replicate 32 x09)) (txid (bip34_coinbase 1)) 1600 0x1e0ffff0 1.
Definition stray_block : Block := mkBlock stray_header [bip34_coinbase 1].
Definition stray_hash : Hash256 := block_hash stray_header.
Definition stray_window : Window := mkWindow {[stray_hash := mkInFlight first_peer 0 1]} 2 ∅ ∅ 1 false 0.
Definition stray_received (hs : HeaderStore Empty_set) : option (first_node * Window) :=
  handle_received_block (fun _ => true) (Some 2000) (start_node hs) stray_window stray_hash (block_to_bytes stray_block).

Lemma stray_checked : match fresh_store with
  | Ok hs => match validate_received (start_node hs) 1 (Some 2000) (block_to_bytes stray_block), connect_block root_state stray_block 1 stray_hash, stray_received hs with
             | Some (Some b), Ok _, Some _ => bool_decide (block_to_bytes b = block_to_bytes stray_block)
             | _, _, _ => false
             end
  | _ => false
  end = true.
Proof. vm_compute. reflexivity. Qed.

Lemma stray_parses : block_from_bytes (block_to_bytes stray_block) = Ok stray_block.
Proof. vm_compute. reflexivity. Qed.

Lemma stray_parent : prev_hash (header stray_block) <> root_hash.
Proof. apply (bool_decide_unpack (~ _)). vm_compute. exact Logic.I. Qed.

Lemma connected_whatever_parent_witness : exists hs g w, tip (chain (start_node hs)) = (root_hash, 0) /\ prev_hash (header stray_block) <> root_hash /\
  stray_received hs = Some (g, w) /\ tip (chain g) = (stray_hash, 1).
Proof.
  pose proof stray_checked as H. destruct fresh_store as [hs| |]; [|discriminate H|discriminate H]. destruct (validate_received (start_node hs) 1 (Some 2000) (block_to_bytes stray_block)) as [[b|]|] eqn:Ev; [|discriminate H|discriminate H].
  destruct (connect_block root_state stray_block 1 stray_hash) as [cs| |] eqn:Ec; [|discriminate H|discriminate H]. destruct (stray_received hs) as [[g w]|] eqn:Er; [|discriminate H].
  exists hs, g, w. split; [reflexivity|]. split; [exact stray_parent|]. split; [exact Er|].
  assert (b = stray_block) as ->.
  { unfold validate_received in Ev. destruct (block_from_bytes_and_validate (block_to_bytes stray_block)) as [b'| |] eqn:Eb; [|discriminate Ev|discriminate Ev]. destruct (validated_parses _ _ Eb) as [Hp _].
    rewrite stray_parses in Hp. injection Hp as <-. destruct (check_block stray_block) as [u| |]; [|discriminate Ev|discriminate Ev]. cbn [Z.gtb Z.compare] in Ev.
    destruct (compute_median_time_past (headers (start_node hs)) _) as [mtp|]; [|discriminate Ev]. destruct (check_block_context stray_block 1 mtp 2000); [|discriminate Ev|discriminate Ev]. injection Ev as <-. reflexivity. }
  destruct (connected_whatever_parent (fun _ => true) (Some 2000) (start_node hs) stray_window stray_hash (mkInFlight first_peer 0 1) (block_to_bytes stray_block) stray_block cs g w) as [Ht _].
  - unfold stray_window. cbn [in_flight]. apply lookup_singleton_Some. split; reflexivity.
  - reflexivity.
  - reflexivity.
  - exact Ev.
  - exact Ec.
  - exact Er.
  - exact Ht.
Defined.
