(* ===== verification/NodeTypes.v ===== *)
(** * NodeTypes: every number stays within the type that holds it

    The components of the node, with no condition on what they are given: heights of headers,
    of the tip and of the window fit in 32 bits, file numbers in 16 and offsets in 64, every
    coin of the ledger decodes into fields of their widths, the pool keeps its size.  Each
    operation keeps this, whatever the order of the operations, whichever parsed blocks are
    connected and disconnected, and whether or not a purge orphans headers.

    For the reorganisation, [keeps] is a small program logic over the monad of Reorg.v: an
    invariant of the state and a property of the result, with one rule per construct. *)
From Stdlib Require Import Strings.Byte.
From stdpp Require Import base numbers list strings gmap relations.
From S2P Require Import Prelude Codec Types Merkle Compact Float64 Difficulty Validation Vec ScriptNum Signature Engine EngineSafety ScriptVerify Database Coin UndoStore Ledger Chainstate ChainstateCorrect Pow HashOrder Mempool MempoolCorrect Headers HeadersCorrect BlockStore Reorg ReorgCorrect Network Messages BlockDownload BlockDownloadCorrect NodeParts NodeHistory.

(** ** Coins *)

(** the widths of the fields of a coin *)
Definition coin_fits (c : Coin) : Prop :=
  U 32 (coin_height c) /\ I 64 (value (tx_out c)) /\ U 32 (zlen (script_pubkey (tx_out c))).

Lemma coin_ok_fits c : coin_ok c -> coin_fits c.
Proof. intros (Hh & Hv & Hs). split; [done|]. split; [done|]. pose proof (zlen_nonneg (script_pubkey (tx_out c))). unfold MAX_SCRIPT_SIZE in Hs. range. Qed.

Lemma coin_fits_decodes c : coin_fits c -> coin_from_bytes (coin_to_bytes c) = Ok c.
Proof.
  destruct c as [[v scr] h cb]. intros (Hh & Hv & Hs). cbn in Hh, Hv, Hs. apply run_reader_Ok. exists []. rewrite <- (app_nil_r (coin_to_bytes _)).
  unfold coin_to_bytes, coin_from_cursor. cbn [tx_out coin_height value script_pubkey coin_is_coinbase]. rewrite <- !app_assoc. field_step (le_codec 4); [exact Hh|].
  field_step (raw_codec 1); [done|]. field_step (le_signed_codec 8); [split; [lia|exact Hv]|]. field_step (le_codec 4); [exact Hs|].
  field_step (raw_codec (Z.to_nat (zlen scr))); [cbn; by rewrite to_nat_zlen|]. by destruct cb.
Qed.

(** whatever is decoded has the widths *)
Lemma coin_cursor_fits s c s' : coin_from_cursor s = Ok (c, s') -> coin_fits c.
Proof.
  unfold coin_from_cursor. intros H. apply reader_bind_Ok in H as (h & s1 & Hh%rcontext_Ok & H). apply (encode_decode (c := le_codec 4)) in Hh as [Hh _].
  apply reader_bind_Ok in H as (fl & s2 & _ & H). apply reader_bind_Ok in H as (v & s3 & Hv%rcontext_Ok & H). apply (encode_decode (c := le_signed_codec 8)) in Hv as [[_ Hv] _].
  apply reader_bind_Ok in H as (n & s4 & Hn%rcontext_Ok & H). apply (encode_decode (c := le_codec 4)) in Hn as [Hn _].
  apply reader_bind_Ok in H as (scr & s5 & Hscr%rcontext_Ok & H). apply (encode_decode (c := raw_codec _)) in Hscr as [Hscr _]. apply reader_ret_Ok in H as [<- _].
  cbn in *. split; [done|]. split; [done|]. cbn. unfold zlen. rewrite Hscr. unfold U in *. lia.
Qed.

Lemma read_many_Forall {A} (P : A -> Prop) (r : reader A) n : (forall s a s', r s = Ok (a, s') -> P a) -> forall s l s', read_many n r s = Ok (l, s') -> Forall P l.
Proof.
  intros Hr. induction n as [|n IH]; intros s l s' H; cbn [read_many] in H; [apply reader_ret_Ok in H as [<- _]; constructor|].
  apply reader_bind_Ok in H as (a & s1 & Ha & H). apply reader_bind_Ok in H as (k & s2 & Hk & H). apply reader_ret_Ok in H as [<- _]. constructor; [by eapply Hr|by eapply IH].
Qed.

(** a record read from a slice *)
Lemma framed_reads {A} (P : A -> Prop) msg1 msg2 msg3 (from : list byte -> result A) s a s' : (forall d a, from d = Ok a -> P a) ->
  (n ← rcontext msg1 read_u32; d ← read_slice msg2 n; of_result (context msg3 (from d)) : reader A) s = Ok (a, s') -> P a.
Proof.
  intros Hf H. apply reader_bind_Ok in H as (n & s1 & _ & H). apply reader_bind_Ok in H as (d & s2 & _ & H). unfold of_result in H. apply res_bind_Ok in H as (a' & Ha & [= <- _]).
  apply (Hf d). by destruct (from d).
Qed.

Definition undo_fits (u : TxUndo) : Prop := Forall coin_fits (spent_outputs u).

Lemma tx_undo_cursor_fits s u s' : tx_undo_from_cursor s = Ok (u, s') -> undo_fits u.
Proof.
  unfold tx_undo_from_cursor. intros H. apply reader_bind_Ok in H as (n & s1 & _ & H). apply reader_bind_Ok in H as (l & s2 & Hl & H). apply reader_ret_Ok in H as [<- _].
  apply (read_many_Forall coin_fits) in Hl; [done|]. intros s0 c s0'. apply (framed_reads coin_fits). intros d c' [rest Hc]%run_reader_Ok. by apply coin_cursor_fits in Hc.
Qed.

Lemma block_undo_fits_read data u : block_undo_from_bytes data = Ok u -> Forall undo_fits (tx_undos u).
Proof.
  unfold block_undo_from_bytes. intros (rest & H)%run_reader_Ok. apply reader_bind_Ok in H as (n & s1 & _ & H). apply reader_bind_Ok in H as (l & s2 & Hl & H). apply reader_ret_Ok in H as [<- _].
  apply (read_many_Forall undo_fits) in Hl; [done|]. intros s0 c s0'. apply (framed_reads undo_fits). intros d c' [r Hc]%run_reader_Ok. by apply tx_undo_cursor_fits in Hc.
Qed.

Section Coins.
Context `{HS : Sha256} `{!Sha256Len HS} `{HD : Digests} `{HK : K256}.
Context {UT MT IT : Type} {HU : Table (list byte) (list byte) UT} `{!TableLaws (list byte) (list byte) UT HU}
  {HM : Table string (list byte) MT} {HI : Table (list byte) (Z * Z * Z) IT}.
Implicit Types (t : UT) (m : ledger) (tx : Transaction) (cs : ChainState UT MT IT).

(** the table of unspent outputs stands for a ledger whose coins have the widths *)
Record holds_coins t m : Prop := {
  hc_get o : outpoint_ok o -> t_get t (outpoint_to_key o) = coin_to_bytes <$> m !! o;
  hc_fits : map_Forall (fun o c => outpoint_ok o /\ coin_fits c) m;
}.
Definition coins_fit t : Prop := exists m, holds_coins t m.

Lemma coins_insert t o c : coins_fit t -> outpoint_ok o -> coin_fits c -> coins_fit (t_insert t (outpoint_to_key o) (coin_to_bytes c)).
Proof.
  intros (m & Hg & Hf) Ho Hc. exists (<[o := c]> m). split; [|by apply map_Forall_insert_2]. intros o' Ho'. rewrite get_insert, lookup_insert.
  destruct (decide (o = o')) as [<-|Hne]; [by rewrite decide_True|]. rewrite decide_False by (intros E; by apply key_inj in E). by apply Hg.
Qed.

Lemma coins_remove t o : coins_fit t -> outpoint_ok o -> coins_fit (t_remove t (outpoint_to_key o)).
Proof.
  intros (m & Hg & Hf) Ho. exists (delete o m). split; [|by apply map_Forall_delete]. intros o' Ho'. rewrite get_remove, lookup_delete.
  destruct (decide (o = o')) as [<-|Hne]; [by rewrite decide_True|]. rewrite decide_False by (intros E; by apply key_inj in E). by apply Hg.
Qed.

Lemma coins_outputs t tx h cb : coins_fit t -> tx_ok tx -> U 32 h -> coins_fit (insert_outputs t (txid tx) (vout tx) h cb).
Proof.
  intros Ht Htx Hh. rewrite insert_outputs_eq by done. pose proof (created_ok h cb tx Htx Hh) as Hc. revert t Ht.
  induction Hc as [|[o c] l [Ho Hc] _ IH]; intros t Ht; cbn [foldl]; [done|]. apply IH, coins_insert; [done|done|by apply coin_ok_fits].
Qed.

Lemma coins_unoutput t tx : coins_fit t -> tx_ok tx -> coins_fit (remove_outputs t tx).
Proof.
  intros Ht Htx. rewrite remove_outputs_eq by done. pose proof (created_outpoints tx Htx) as Hc. revert t Ht.
  induction Hc as [|o l Ho _ IH]; intros t Ht; cbn [foldl]; [done|]. by apply IH, coins_remove.
Qed.

Lemma fold_res_each {A X} (P : A -> Prop) (Q : X -> Prop) (f : A -> X -> result A) l : (forall a x a', P a -> Q x -> f a x = Ok a' -> P a') -> Forall Q l ->
  forall a a', P a -> fold_res f a l = Ok a' -> P a'.
Proof. intros Hf Hl a a' Ha. apply fold_res_inv; [|done]. intros s x s' Hx Hs. rewrite Forall_forall in Hl. apply (Hf s x s' Hs), Hl, Hx. Qed.

Lemma connect_tx_fits svh h acc tx acc' : coins_fit acc.1.1 -> tx_ok tx -> U 32 h -> connect_tx svh h acc tx = Ok acc' -> coins_fit acc'.1.1.
Proof.
  destruct acc as [[t us] f]. intros Ht Htx Hh H. unfold connect_tx in H. destruct (is_coinbase tx); [injection H as <-; by apply coins_outputs|]. destruct (negb _); [|done].
  apply res_bind_Ok in H as ([[t1 sp] s1] & Hs & H). apply (fold_res_each (fun a : UT * list Coin * Z => coins_fit a.1.1) (fun i => outpoint_ok (prev_output i))) in Hs; [|
    intros [[t0 sp0] s0] i a' Ha Hi E; unfold spend_input in E; apply res_bind_Ok in E as (? & _ & E); apply res_bind_Ok in E as (? & _ & E); apply res_bind_Ok in E as (? & _ & E);
    apply res_bind_Ok in E as (? & _ & [= <-]); by apply coins_remove|by apply inputs_ok|done].
  apply res_bind_Ok in H as (? & _ & H). apply res_bind_Ok in H as (o & _ & H). destruct (o >? s1); [done|]. apply res_bind_Ok in H as (? & _ & H). apply res_bind_Ok in H as (? & _ & [= <-]).
  by apply coins_outputs.
Qed.

(** *** The chain state *)

Record chain_fits cs : Prop := {
  cf_coins : coins_fit (utxos cs);
  cf_height : U 32 (tip cs).2;
  cf_file : U 16 (file_number (undo_store cs));
  cf_offset : U 64 (offset (undo_store cs));
}.

Lemma sat_fits a b : 0 <= a -> 0 <= b -> U 64 (u64_sat_add a b).
Proof. unfold U, u64_sat_add, u64_max. lia. Qed.

Lemma store_undo_fits us hash undo loc us' : U 16 (file_number us) -> U 64 (offset us) -> store_undo_to_file us hash undo = Ok (loc, us') -> U 16 (file_number us') /\ U 64 (offset us').
Proof.
  intros Hn Ho H. unfold store_undo_to_file in H. apply res_bind_Ok in H as (us1 & Hr & [= <- <-]). cbn [file_number offset].
  assert (U 16 (file_number us1) /\ U 64 (offset us1)) as [H1 H2].
  { destruct (_ && _) in Hr; [|by injection Hr as <-]. unfold rotate in Hr. apply res_bind_Ok in Hr as (n & E%ok_or_Ok & [= <-]). cbn. destruct (inU 16 (file_number us + 1)) eqn:Ei; [|done]. injection E as <-. by apply inU_spec in Ei. }
  split; [done|]. apply sat_fits; [apply H2|]. unfold u64_sat_add, u64_max, ENTRY_PREFIX_SIZE. pose proof (zlen_nonneg (block_undo_to_bytes undo)). lia.
Qed.

Lemma connect_block_fits cs b h hash cs' : chain_fits cs -> block_ok b -> connect_block cs b h hash = Ok cs' -> chain_fits cs'.
Proof.
  intros [Hc Hh Hf Ho] (_ & _ & Htx) H. pose proof (connect_block_height _ _ _ _ _ H) as Eh. assert (U 32 h) as Hh' by (rewrite Eh; unfold U, u32_sat_add, u32_max in *; lia).
  unfold connect_block in H. destruct (negb (h =? _)); [done|]. destruct (negb (zlen _ =? 0)); [|done]. apply res_bind_Ok in H as ([[t undos] fees] & Ht & H). apply res_bind_Ok in H as (? & _ & H).
  apply res_bind_Ok in H as ([us index] & Hu & [= <-]). apply (fold_res_each (fun a : UT * list TxUndo * Z => coins_fit a.1.1) tx_ok) in Ht; [|intros a tx a' Ha Hx; by apply connect_tx_fits|done|done].
  assert (U 16 (file_number us) /\ U 64 (offset us)) as [H1 H2]; [|by split].
  destruct (negb _) in Hu; [|by injection Hu as <- <-]. apply res_bind_Ok in Hu as ([loc us1] & Hs & [= <- <-]). destruct (store_undo_to_file _ _ _) as [[loc1 us2]| |] eqn:E; [|done|done]. injection Hs as <- <-.
  by eapply store_undo_fits.
Qed.

Lemma disconnect_tx_fits un t k tx t' : coins_fit t -> tx_ok tx -> (forall u, un = Some u -> Forall undo_fits (tx_undos u)) -> disconnect_tx un t (k, tx) = Ok t' -> coins_fit t'.
Proof.
  intros Ht Htx Hun H. apply (coins_unoutput t tx) in Ht; [|done]. unfold disconnect_tx in H. destruct un as [u|]; [|by injection H as <-]. destruct (negb _); [|by injection H as <-].
  apply res_bind_Ok in H as (i & _ & H). apply res_bind_Ok in H as (tu & Hi%ok_or_Ok & H). apply (Forall_lookup_1 _ _ _ _ (Hun u eq_refl)) in Hi.
  eapply (fold_res_each coins_fit (fun e : nat * TxIn => outpoint_ok (prev_output e.2))); [| |exact Ht|exact H].
  - intros t0 [j x] t1 Ht0 Hx E. unfold restore_input in E. apply res_bind_Ok in E as (c & Hcx%ok_or_Ok & [= <-]). apply coins_insert; [done|done|]. exact (Forall_lookup_1 _ _ _ _ Hi Hcx).
  - apply Forall_forall. intros [j x] (i' & x' & [= <- <-] & Hx)%elem_of_lookup_imap. exact (Forall_lookup_1 _ _ _ _ (inputs_ok tx Htx) Hx).
Qed.

Lemma disconnect_block_fits cs b h hash cs' : chain_fits cs -> block_ok b -> disconnect_block cs b h hash = Ok cs' -> chain_fits cs'.
Proof.
  intros [Hc Hh Hf Ho] (_ & _ & Htx) H. unfold disconnect_block in H. destruct (h =? 0); [done|]. destruct (tip cs) as [ct ch]. destruct (_ || _); [done|]. apply res_bind_Ok in H as (ph & Hp & H).
  apply res_bind_Ok in H as (un & Hu & H). apply res_bind_Ok in H as (t & Ht & [= <-]). split; cbn; [|unfold u32_sub in Hp; destruct (inU 32 (h - 1)) eqn:E; [injection Hp as <-; by apply inU_spec in E|done]|done|done].
  assert (forall u, un = Some u -> Forall undo_fits (tx_undos u)) as Hun.
  { intros u ->. destruct (_ >? 0); [|done]. apply res_bind_Ok in Hu as (u' & Hl & Hu). destruct (negb _); [done|]. injection Hu as ->. unfold load_undo in Hl.
    destruct (_ ≫= _) as [u1| |] eqn:E in Hl; [|done|done]. injection Hl as ->. apply res_bind_Ok in E as ([[f o] n] & _ & E). apply res_bind_Ok in E as (file & _ & E). apply res_bind_Ok in E as ([buf rest] & _ & E).
    apply (block_undo_fits_read buf). by destruct (block_undo_from_bytes buf); [injection E as ->|..]. }
  eapply (fold_res_each coins_fit (fun e : nat * Transaction => tx_ok e.2)); [| |exact Hc|exact Ht].
  - intros t0 [k tx] t1 Ht0 Hx. by apply disconnect_tx_fits.
  - apply Forall_forall. intros [k tx] Hin. rewrite elem_of_reverse in Hin. apply elem_of_lookup_imap in Hin as (i' & x' & [= <- <-] & Hx). exact (Forall_lookup_1 _ _ _ _ Htx Hx).
Qed.

(** the pool sees the coins of the ledger *)
Lemma coins_view cs m : holds_coins (utxos cs) m -> CoinViewLaws chainstate_view cs m.
Proof.
  intros [Hg Hf] o Ho. unfold get_coin, chainstate_view, get_utxo. rewrite Hg by done. destruct (m !! o) as [c|] eqn:E; [|done]. change (coin_to_bytes <$> Some c) with (Some (coin_to_bytes c)). cbv iota beta. by rewrite (coin_fits_decodes c (proj2 (Hf o c E))).
Qed.
End Coins.

(** ** Headers *)

Section Heights.
Context {B : Type} {HB : HeaderBackend B} `{HS : Sha256} `{HU : U256Overflow} `{HO : HashOrder} `{!HashOrderLaws HO}.
Implicit Types (hs : HeaderStore B).

Definition heights_fit hs : Prop := map_Forall (fun _ s => U 32 (s_height s)) (by_hash hs).

Lemma hs_tip_range hs t n : hs_tip hs = Ok (t, n) -> 0 <= n.
Proof. unfold hs_tip, hs_height. intros H. apply res_bind_Ok in H as (h & Hh & H). apply res_bind_Ok in Hh as (k & _ & [= <-]). apply res_bind_Ok in H as (? & _ & [= _ <-]). apply Z.mod_pos_bound. lia. Qed.

Lemma chains_height hs hash header t n h : validate_chains_to_tip hs hash header t n = Ok h -> 0 <= n -> U 32 h.
Proof. unfold validate_chains_to_tip. case_bool_decide; [case_bool_decide; done|]. destruct (Z.leb_spec (n + 1) u32_max); [|done]. intros [= <-] Hn0. unfold U, u32_max in *. lia. Qed.

Lemma commit_heights (v : list header_row) : forall hs, heights_fit hs -> Forall (fun row : header_row => U 32 row.1.2) v -> heights_fit (foldl commit_to_memory hs v).
Proof.
  induction v as [|[[[x hd] h] cw] v IH]; intros hs Hs Hv; cbn [foldl]; [done|]. apply Forall_cons in Hv as [Hh Hv]. apply IH; [|done]. unfold heights_fit. cbn. by apply map_Forall_insert_2.
Qed.

Lemma validate_batch_heights hs l v : validate_batch hs l = Ok v -> Forall (fun row : header_row => U 32 row.1.2) v.
Proof.
  unfold validate_batch. destruct (zlen l =? 0); [intros [= <-]; constructor|]. intros H. apply res_bind_Ok in H as (? & _ & H). apply res_bind_Ok in H as ([t n] & Ht%hs_tip_range & H).
  apply res_bind_Ok in H as ([v0 tip'] & Hf & H). destruct (existsb _ v0); [done|]. injection H as <-.
  assert (Forall (fun _ : BlockHeader => True) l) as Hl by (by apply Forall_true).
  eapply (fold_res_each (fun acc : list header_row * (Hash256 * Z) => Forall (fun row => U 32 row.1.2) acc.1 /\ 0 <= acc.2.2) (fun _ => True)) in Hf as [Hv _]; [done| |done|split; [constructor|done]].
  intros [v1 [t1 n1]] hd [v2 [t2 n2]] [Hv1 Hn1] _ E. cbn in Hn1. unfold validate_step in E. case_bool_decide; [by injection E as <- <- <-|]. apply res_bind_Ok in E as (h & Hh & E). apply chains_height in Hh; [|done].
  apply res_bind_Ok in E as (? & _ & E). destruct (negb _); [done|]. apply res_bind_Ok in E as (? & _ & E). apply res_bind_Ok in E as (? & _ & E). apply res_bind_Ok in E as (? & _ & E). injection E as <- _ <-.
  cbn. split; [|apply Hh]. unfold vec_push. apply Forall_app. split; [done|]. by constructor.
Qed.

Lemma header_op_heights l hs hs' : header_op l hs hs' -> heights_fit hs -> heights_fit hs'.
Proof.
  intros Hop Hs. destruct Hop as [hs header n hs' H|hs l v hs' H|hs header r hs' H|hs batch hs' H].
  - assert (U 32 n) as Hn.
    { unfold add_header in H. apply res_bind_Ok in H as ([hash h] & Hv & H). apply res_bind_Ok in H as (? & _ & H). destruct (negb _); [done|]. do 4 apply res_bind_Ok in H as (? & _ & H). injection H as <- _.
      unfold validate_header in Hv. case_bool_decide; [done|]. apply res_bind_Ok in Hv as ([t k] & Ht%hs_tip_range & Hv). apply res_bind_Ok in Hv as (h' & Hh & [= _ <-]). by eapply chains_height. }
    apply add_header_tree in H as (_ & work & E). unfold heights_fit. rewrite E. by apply map_Forall_insert_2.
  - apply res_bind_Ok in H as (v' & Hv & [= _ <-]). apply commit_heights; [done|]. by eapply validate_batch_heights.
  - unfold accept_header in H. case_bool_decide; [by injection H as _ <-|]. case_bool_decide; [done|]. apply res_bind_Ok in H as (p & Hp%ok_or_Ok & H). apply res_bind_Ok in H as (h & Hh & H).
    assert (U 32 h) as Hu by (pose proof (Hs _ _ Hp); destruct (Z.leb_spec (s_height p + 1) u32_max); [injection Hh as <-; unfold U, u32_max in *; lia|done]).
    apply res_bind_Ok in H as (w & _ & H). apply res_bind_Ok in H as (cw & _ & H). apply res_bind_Ok in H as (? & _ & H). apply res_bind_Ok in H as (? & _ & H). destruct (negb _); [done|]. destruct (fails_pow _ _ _); [done|].
    apply res_bind_Ok in H as (? & _ & H). destruct (_ >? _); [case_bool_decide|]; injection H as _ <-; unfold heights_fit; cbn; by apply map_Forall_insert_2.
  - unfold persist_batch in H. destruct (backend hs); [apply res_bind_Ok in H as (? & _ & [= <-])|injection H as <-]; done.
Qed.

Lemma purge_heights hs n hs' : purge_stale_forks hs n = Some hs' -> heights_fit hs -> heights_fit hs'.
Proof. intros Hp Hs. destruct (purge_thins hs n) as (hs1 & E & Hth). rewrite Hp in E. injection E as ->. intros x s Hx. apply (Hs x). eapply lookup_weaken; [exact Hx|apply Hth]. Qed.

Lemma mark_invalid_heights hs x hs' : mark_invalid hs x = Some hs' -> heights_fit hs -> heights_fit hs'.
Proof.
  unfold mark_invalid. intros H. apply bind_Some in H as (d & _ & H). apply bind_Some in H as (be & _ & H). by injection H as <-.
Qed.

Lemma switch_heights hs x hs' : switch_active_chain hs x = Ok hs' -> heights_fit hs -> heights_fit hs'.
Proof. unfold switch_active_chain. intros H. apply res_bind_Ok in H as (? & _ & H). apply res_bind_Ok in H as (c & _ & H). by injection H as <-. Qed.
End Heights.

(** ** A program logic for reorganisations *)

Section Keeps.
Context {S : Type} (P : S -> Prop).

(** the invariant is kept and the result has the property, if there is one *)
Definition keeps {A} (Q : A -> Prop) (p : stm S A) : Prop :=
  forall s, P s -> match p s with Done a s' => P s' /\ Q a | Failed _ s' | Exited s' => P s' | Trapped => True end.

Lemma typed_ret {A} (Q : A -> Prop) a : Q a -> keeps Q (mret a).
Proof. intros Ha s Hs. by split. Qed.

Lemma typed_bind {A B} (Q : A -> Prop) (R : B -> Prop) (p : stm S A) (f : A -> stm S B) : keeps Q p -> (forall a, Q a -> keeps R (f a)) -> keeps R (p ≫= f).
Proof.
  intros Hp Hf s Hs. unfold mbind, stm_bind. specialize (Hp s Hs). destruct (p s) as [a s'|msg s'|s'|]; try done. destruct Hp as [Hs' Ha]. exact (Hf a Ha s' Hs').
Qed.

Lemma keeps_try {A} (Q : A -> Prop) (f : S -> result A) : (forall s a, P s -> f s = Ok a -> Q a) -> keeps Q (try_ f).
Proof. intros Hf s Hs. unfold try_. destruct (f s) eqn:E; [|done|done]. split; [done|]. by eapply Hf. Qed.

Lemma typed_get : keeps P get_state.
Proof. intros s Hs. by split. Qed.

Lemma keeps_trap {A} (Q : A -> Prop) (o : option A) : (forall a, o = Some a -> Q a) -> keeps Q (or_trap o).
Proof. intros Ho s Hs. unfold or_trap. destruct o; [|done]. split; [done|by apply Ho]. Qed.

Lemma keeps_fail {A} (Q : A -> Prop) msg : keeps Q (fail msg).
Proof. by intros s Hs. Qed.

Lemma keeps_exit {A} (Q : A -> Prop) : keeps Q exit.
Proof. by intros s Hs. Qed.

Lemma keeps_fold {A X} (Q : A -> Prop) (f : A -> X -> stm S A) l : (forall a x, Q a -> keeps Q (f a x)) -> forall a, Q a -> keeps Q (fold_stm f a l).
Proof. intros Hf. induction l as [|x l IH]; intros a Ha; cbn [fold_stm]; [by apply typed_ret|]. eapply typed_bind; [by apply Hf|]. intros a' Ha'. by apply IH. Qed.
End Keeps.

Section Reorganisation.
Context `{HS : Sha256} `{!Sha256Len HS} `{HD : Digests} `{!DigestsLen HD} `{HK : K256} `{HU256 : U256Overflow} `{HO : HashOrder} `{!HashOrderLaws HO}.
Context {B UT MT IT : Type} {HB : HeaderBackend B} {HU : Table (list byte) (list byte) UT} `{!TableLaws (list byte) (list byte) UT HU}
  {HM : Table string (list byte) MT} {HI : Table (list byte) (Z * Z * Z) IT} {BS : Type} {HBS : BlockSource BS} (src : BS).
Context (Hsrc : forall x b, src_load src x = Ok b -> block_ok b).
Implicit Types (n : Node B UT MT IT).

Record node_fits n : Prop := {
  nf_chain : chain_fits (n_chain n);
  nf_headers : heights_fit (n_headers n);
  nf_pool : pool_safe (n_pool n);
}.
Notation kept := (keeps node_fits).

Lemma keeps_load x : kept block_ok (try_ (fun _ => src_load src x)).
Proof. apply keeps_try. intros n b _. apply Hsrc. Qed.

Lemma keeps_set_chain cs : chain_fits cs -> kept (fun _ => True) (set_chain cs).
Proof. intros Hc n [_ H2 H3]. by split. Qed.

Lemma keeps_set_pool mp : pool_safe mp -> kept (fun _ => True) (set_pool mp).
Proof. intros Hp n [H1 H2 _]. by split. Qed.

Lemma keeps_set_headers hs : heights_fit hs -> kept (fun _ => True) (set_headers hs).
Proof. intros Hp n [H1 _ H3]. by split. Qed.

Lemma keeps_disconnect_one acc x : Forall tx_ok acc.1 -> kept (fun a => Forall tx_ok a.1) (disconnect_one src acc x).
Proof.
  destruct acc as [txs bl], x as [hash h]. intros Ha. unfold disconnect_one. eapply typed_bind; [apply keeps_load|]. intros b Hb.
  eapply (typed_bind _ chain_fits); [apply keeps_try; intros n cs Hn; apply disconnect_block_fits; [apply Hn|done]|]. intros cs Hcs. eapply typed_bind; [by apply keeps_set_chain|]. intros _ _. apply typed_ret. cbn.
  apply Forall_app. split; [done|by apply user_txs_ok].
Qed.

Lemma keeps_rollback l1 l2 : kept (fun _ => True) (rollback src l1 l2).
Proof.
  unfold rollback. eapply (typed_bind _ (fun _ => True)); [|intros _ _]; apply keeps_fold; try done; intros [] [hash h] _; cbn; (eapply typed_bind; [apply keeps_load|]); intros b Hb; (eapply typed_bind; [apply typed_get|]); intros n Hn.
  - destruct (disconnect_block _ b h hash) eqn:E; [apply keeps_set_chain; eapply disconnect_block_fits; [apply Hn|done|exact E]|apply keeps_exit|done].
  - destruct (connect_block _ b h hash) eqn:E; [apply keeps_set_chain; eapply connect_block_fits; [apply Hn|done|exact E]|apply keeps_exit|done].
Qed.

Lemma keeps_readd txs : Forall tx_ok txs -> kept (fun _ => True) (readd txs).
Proof.
  intros Htx. unfold readd. eapply (typed_bind _ (fun r => pool_safe r.1)).
  - apply keeps_try. intros n [mp k] [[(m & Hm) _ _ _] _ Hp] E.
    destruct (readd_ok (n_chain n) pool_safe (fun mp tx => accept_tx_pool_safe (n_chain n) m mp tx (coins_view _ _ Hm)) txs (n_pool n) Htx Hp) as (mp' & rest & k' & E' & Hp' & _). rewrite E in E'. by injection E' as -> _.
  - intros [mp k] Hp. eapply typed_bind; [by apply keeps_set_pool|]. intros _ _. by apply typed_ret.
Qed.

Lemma keeps_connect_one best path old acc x : Forall tx_ok acc.1 -> kept (fun a => Forall tx_ok a.1) (connect_one src best path old acc x).
Proof.
  destruct acc as [removed k], x as [hash h]. intros Ha. unfold connect_one. eapply typed_bind; [apply keeps_load|]. intros b Hb. eapply typed_bind; [apply typed_get|]. intros n Hn.
  destruct (connect_block (n_chain n) b h hash) as [cs| |] eqn:E; [| |done].
  - eapply typed_bind; [apply keeps_set_chain; eapply connect_block_fits; [apply Hn|done|exact E]|]. intros _ _. eapply (typed_bind _ pool_safe).
    + apply keeps_trap. intros mp Hmp. destruct (remove_block_txs_safe (n_pool n) b (nf_pool n Hn)) as (mp' & E' & Hp). congruence.
    + intros mp Hmp. eapply typed_bind; [by apply keeps_set_pool|]. intros _ _. apply typed_ret. cbn. apply Forall_app. split; [done|]. pose proof (user_txs_ok b Hb) as Hu. rewrite Forall_forall in *. intros tx [_ Hin]%list_elem_of_filter. by apply Hu.
  - eapply typed_bind; [apply keeps_rollback|]. intros _ _. eapply typed_bind; [by apply keeps_readd|]. intros _ _. eapply typed_bind; [apply typed_get|]. intros n1 Hn1.
    eapply (typed_bind _ heights_fit); [apply keeps_trap; intros hs Hhs; eapply mark_invalid_heights; [exact Hhs|apply Hn1]|]. intros hs Hhs. eapply typed_bind; [by apply keeps_set_headers|]. intros _ _. apply keeps_fail.
Qed.

Lemma keeps_reorganize a best p1 p2 : kept (fun _ => True) (reorganize src a best p1 p2).
Proof.
  unfold reorganize. eapply (typed_bind _ (fun r => Forall tx_ok r.1)); [apply keeps_fold; [intros; by apply keeps_disconnect_one|constructor]|]. intros [txs bl] Htx.
  eapply (typed_bind _ (fun r => Forall tx_ok r.1)); [apply keeps_fold; [intros; by apply keeps_connect_one|constructor]|]. intros [removed k] _.
  eapply (typed_bind _ heights_fit); [apply keeps_try; intros n hs Hn Hhs; eapply switch_heights; [exact Hhs|apply Hn]|]. intros hs Hhs. eapply typed_bind; [by apply keeps_set_headers|]. intros _ _.
  eapply typed_bind; [by apply keeps_readd|]. intros c _. by apply typed_ret.
Qed.

(** a reorganisation, whatever its outcome *)
Lemma keeps_activate : kept (fun _ => True) (activate_best_chain src).
Proof.
  unfold activate_best_chain. eapply typed_bind; [apply typed_get|]. intros n _. destruct (best_tip (n_headers n)) as [[best bh] bw]. destruct (tip (n_chain n)) as [a ah]. case_bool_decide; [by apply typed_ret|].
  eapply (typed_bind _ (fun _ => True)); [by apply keeps_try|]. intros f _. eapply (typed_bind _ (fun _ => True)); [by apply keeps_try|]. intros s _. destruct (_ >? _); [apply keeps_fail|].
  eapply (typed_bind _ (fun _ => True)); [by apply keeps_try|]. intros p1 _. eapply (typed_bind _ (fun _ => True)); [by apply keeps_try|]. intros p2 _. destruct (_ >? _); [apply keeps_fail|].
  destruct (negb _); [by apply typed_ret|apply keeps_reorganize].
Qed.
End Reorganisation.

(** ** The node *)

Section Typed.
Context `{HS : Sha256} `{!Sha256Len HS} `{HD : Digests} `{!DigestsLen HD} `{HK : K256} `{HU256 : U256Overflow} `{HO : HashOrder} `{!HashOrderLaws HO}.
Context {B UT MT IT KT : Type} {HB : HeaderBackend B} {HU : Table (list byte) (list byte) UT} `{!TableLaws (list byte) (list byte) UT HU}
  {HM : Table string (list byte) MT} {HI : Table (list byte) (Z * Z * Z) IT} {HBI : Table (list byte) (Z * Z * Z) KT}.
Notation shared := (Shared B UT MT IT KT).
Notation state := (Machine (B := B) (UT := UT) (MT := MT) (IT := IT) (KT := KT)).
Implicit Types (g : shared) (w : Window) (s : state).

Record shared_fits g : Prop := {
  sf_node : node_fits (node_of g);
  sf_file : U 16 (bs_file_number (store g));
  sf_offset : U 64 (bs_offset (store g));
}.

Record window_fits w : Prop := {
  wf_next : U 32 (next_connect_height w);
  wf_pending : map_Forall (fun _ (p : Hash256 * Block * list byte) => block_ok p.1.2) (pending_blocks w);
}.

Definition state_fits s : Prop := shared_fits (st_shared s) /\ window_fits (st_window s) /\ Forall (U 32) (st_notices s).

Lemma next_fits h : -1 <= h -> U 32 (u32_sat_add h 1).
Proof. unfold U, u32_sat_add, u32_max. lia. Qed.

Lemma window_same_fits w w' : same_blocks w w' -> window_fits w -> window_fits w'.
Proof. intros [_ E2 E3] [H1 H2]. split; rewrite ?E2, ?E3; done. Qed.

Lemma block_file_fits (bs bs' : BlockStore KT) x raw : U 16 (bs_file_number bs) -> U 64 (bs_offset bs) -> store_block_unchecked bs x raw = Ok bs' -> U 16 (bs_file_number bs') /\ U 64 (bs_offset bs').
Proof.
  intros Hn Ho H. unfold store_block_unchecked in H. apply res_bind_Ok in H as (bs1 & Hr & [= <-]). cbn [bs_file_number bs_offset].
  assert (U 16 (bs_file_number bs1) /\ U 64 (bs_offset bs1)) as [H1 H2].
  { destruct (_ && _) in Hr; [|by injection Hr as <-]. unfold next_file in Hr. apply res_bind_Ok in Hr as (n & E%ok_or_Ok & [= <-]). cbn. destruct (inU 16 (bs_file_number bs + 1)) eqn:Ei; [|done]. injection E as <-. by apply inU_spec in Ei. }
  split; [done|]. apply sat_fits; [apply H2|]. unfold u64_sat_add, u64_max, ENTRY_PREFIX_SIZE. pose proof (zlen_nonneg raw). lia.
Qed.

Lemma flush_fits g w : shared_fits g -> window_fits w -> shared_fits (flush_store g w).1 /\ window_fits (flush_store g w).2.
Proof. intros [H1 H2 H3] [W1 W2]. split; [|by split]. split; cbn; [done|..]; unfold flush; by destruct (_ =? 0). Qed.

Lemma store_data_fits g w x raw g' w' : shared_fits g -> window_fits w -> store_block_data g w x raw = Some (g', w') -> shared_fits g' /\ window_fits w'.
Proof.
  intros Hg Hw H. unfold store_block_data in H. case_bool_decide; [by injection H as <- <-|]. destruct (store_block_unchecked (store g) x raw) as [bs| |] eqn:E; [| |done].
  - destruct (block_file_fits _ _ _ _ (sf_file _ Hg) (sf_offset _ Hg) E) as [Hf Ho]. destruct Hg as [Hn _ _], Hw as [W1 W2].
    destruct (_ >=? _) in H; injection H as <- <-; (split; [|by split]); split; cbn; try done; unfold flush; by destruct (_ =? 0).
  - injection H as <- <-. split; [done|by destruct Hw].
Qed.

(** connecting a parsed block, and what follows it in the buffer *)
Lemma connect_fits g cs : shared_fits g -> chain_fits cs -> shared_fits (set_chain_state g cs).
Proof. intros [[H1 H2 H3] H4 H5] Hc. split; [split; done|done|done]. Qed.

Lemma connect_and_store_fits free g w x b raw h g' w' ok : shared_fits g -> window_fits w -> block_ok b -> connect_and_store free g w x b raw h = Some (g', w', ok) -> shared_fits g' /\ window_fits w'.
Proof.
  intros Hg Hw Hb H. unfold connect_and_store in H. destruct (connect_block (chain g) b h x) as [cs| |] eqn:E; [|by injection H as <- <- _|done].
  pose proof (connect_block_height _ _ _ _ _ E) as Eh. pose proof (cf_height _ (nf_chain _ (sf_node _ Hg))) as Hh. apply connect_block_fits in E; [|apply Hg|done]. apply (connect_fits g cs Hg) in E as Hg1.
  apply bind_Some in H as (mp & Hmp & H). apply bind_Some in H as ([g2 w2] & Hs & H). injection H as <- <- _.
  assert (pool_safe mp) as Hp. { destruct (free h); [|injection Hmp as <-; apply Hg]. destruct (remove_block_txs_safe (pool g) b (nf_pool _ (sf_node _ Hg))) as (mp' & E' & Hp). cbn in Hmp. congruence. }
  apply store_data_fits in Hs as [Hg2 [W1 W2]]; [|destruct Hg1 as [[H1 H2 _] H4 H5]; by split; [split|..]|done]. split; [done|]. split; [|done]. cbn [set_next_connect next_connect_height].
  apply next_fits. rewrite Eh. unfold U, u32_sat_add, u32_max in *. cbn in Hh. lia.
Qed.

Lemma drain_fits fuel free : forall g w g' w', shared_fits g -> window_fits w -> drain_loop fuel free g w = Some (g', w') -> shared_fits g' /\ window_fits w'.
Proof.
  induction fuel as [|fuel IH]; intros g w g' w' Hg Hw H; [done|]. cbn [drain_loop] in H. destruct (pending_blocks w !! next_connect_height w) as [[[x b] raw]|] eqn:Ep; [|by injection H as <- <-].
  pose proof (wf_pending _ Hw _ _ Ep) as Hb. cbn in Hb. apply bind_Some in H as ([[g1 w1] ok] & Hc & H). apply connect_and_store_fits in Hc as [Hg1 Hw1]; [|done|destruct Hw as [W1 W2]; split; [done|by apply map_Forall_delete]|done].
  destruct ok; [by eapply IH|]. injection H as <- <-. split; [done|by destruct Hw1].
Qed.

Lemma received_block_ok g h time raw b : validate_received g h time raw = Some (Some b) -> block_ok b.
Proof.
  unfold validate_received. destruct (block_from_bytes_and_validate raw) as [b'| |] eqn:Eb; [|done|done]. apply validated_parses in Eb as [_ Hb]. destruct (check_block b'); [|done|done].
  destruct (h >? 0); [|by intros [= <-]]. destruct (compute_median_time_past _ _); [|done]. destruct time; [|done]. destruct (check_block_context _ _ _ _); [by intros [= <-]|done|done].
Qed.

Lemma received_fits free time g w x raw g' w' : shared_fits g -> window_fits w -> handle_received_block free time g w x raw = Some (g', w') -> shared_fits g' /\ window_fits w'.
Proof.
  intros Hg Hw H. unfold handle_received_block in H. destruct (in_flight w !! x) as [e|]; [|by injection H as <- <-]. assert (window_fits (set_in_flight w (delete x (in_flight w)))) as Hw1 by by destruct Hw.
  set (w1 := set_in_flight w (delete x (in_flight w))) in *. apply bind_Some in H as ([b|] & Hv & H); [apply received_block_ok in Hv|injection H as <- <-; split; [done|by destruct Hw1]].
  destruct (_ ?= _).
  - apply bind_Some in H as ([[g1 w2] ok] & Hc & H). apply connect_and_store_fits in Hc as [Hg1 Hw2]; [|done|done|done]. destruct ok; [eapply drain_fits; [exact Hg1|exact Hw2|exact H]|]. injection H as <- <-. split; [done|by destruct Hw2].
  - by eapply store_data_fits.
  - destruct (_ >=? _); injection H as <- <-; (split; [done|]); destruct Hw1 as [W1 W2]; split; try done. by apply map_Forall_insert_2.
Qed.

Lemma catch_up_batch_fits batch : forall g w n g' w' n' go, shared_fits g -> window_fits w -> catch_up_batch batch g w n = Some (g', w', n', go) -> shared_fits g' /\ window_fits w'.
Proof.
  induction batch as [|[h x] batch IH]; intros g w n g' w' n' go Hg Hw H; cbn [catch_up_batch] in H; [by injection H as <- <- _ _|]. destruct (negb _); [by injection H as <- <- _ _|].
  destruct (_ ≫= _) as [cs| |] eqn:E; [|by injection H as <- <- _ _|done]. apply res_bind_Ok in E as (raw & _ & E). apply res_bind_Ok in E as (b & Hb%validated_parses & E). destruct Hb as [_ Hb].
  pose proof (connect_block_height _ _ _ _ _ E) as Eh. pose proof (cf_height _ (nf_chain _ (sf_node _ Hg))) as Hh. apply connect_block_fits in E; [|apply Hg|done]. apply (connect_fits g cs Hg) in E as Hg1.
  assert (window_fits (set_next_connect w (u32_sat_add h 1))) as Hw1 by (destruct Hw as [W1 W2]; split; [|done]; apply next_fits; rewrite Eh; unfold U, u32_sat_add, u32_max in *; cbn in Hh; lia).
  destruct (_ =? 0) in H; (eapply IH; [| |exact H]); [apply (flush_fits _ _ Hg1 Hw1)..|done|done].
Qed.

Lemma catch_up_fits g w g' w' : shared_fits g -> window_fits w -> catch_up_chainstate g w = Some (g', w') -> shared_fits g' /\ window_fits w'.
Proof.
  assert (forall fuel g w n g' w' n', shared_fits g -> window_fits w -> catch_up_loop fuel g w n = Some (g', w', n') -> shared_fits g' /\ window_fits w') as Hl.
  { induction fuel as [|fuel IH]; intros g0 w0 n g1 w1 n1 Hg Hw H; [done|]. cbn [catch_up_loop] in H. destruct (_ <=? _); [|by injection H as <- <- _]. destruct (_ =? 0); [by injection H as <- <- _|].
    apply bind_Some in H as ([[[g2 w2] n2] go] & Hb & H). apply catch_up_batch_fits in Hb as [Hg2 Hw2]; [|done|done]. destruct go; [by eapply IH|by injection H as <- <- _]. }
  intros Hg Hw H. apply bind_Some in H as ([[g1 w1] n] & H1 & H). apply Hl in H1 as [Hg1 Hw1]; [|done|done]. destruct (n >? 0); injection H as <- <-; [by apply flush_fits|done].
Qed.

Lemma store_source_ok (bs : BlockStore KT) x b : src_load bs x = Ok b -> block_ok b.
Proof.
  intros H. change (load_and_deserialize bs x = Ok b) in H. unfold load_and_deserialize in H. apply res_bind_Ok in H as (raw & _ & H). destruct (block_from_bytes raw) as [b'| |] eqn:E; [|done|done]. injection H as <-.
  unfold block_from_bytes in E. apply run_reader_Ok in E as (rest & Hb). by apply (encode_decode (c := block_codec)) in Hb as [Hok _].
Qed.

Lemma activate_fits g g' notice : shared_fits g -> activate g = Some (g', notice) -> shared_fits g' /\ Forall (U 32) notice.
Proof.
  intros [Hn Hf Ho] H. unfold activate in H. pose proof (keeps_activate (store g) (store_source_ok (store g)) (node_of g) Hn) as Hk.
  assert (forall n, node_fits n -> shared_fits (with_components g n)) as Hs by (intros n Hk1; split; [by destruct n|done|done]).
  destruct (activate_best_chain (store g) (node_of g)) as [r n|msg n|n|]; [destruct Hk as [Hk _]| |done|done].
  - destruct r; injection H as <- <-; (split; [by apply Hs|]); [constructor|constructor; [apply Hk|constructor]|constructor].
  - injection H as <- <-. split; [by apply Hs|constructor].
Qed.

Lemma node_step_fits op s s' : node_step op s s' -> state_fits s -> state_fits s'.
Proof.
  intros Hst (Hg & Hw & Hq).
  destruct Hst as [g w q l hs Hop|g w q n hs Hp|g w q tx id mp Htx Ha|g w q h ns|now sent writers g w q w' Hf|free time g w q x raw g' w' H|g w q peer|now g w q|g w q|g w q b|g w q g' w' H|g w q g' notice Ha|g w h q]; cbn [st_shared st_window st_notices] in *.
  - destruct Hg as [[H1 H2 H3] H4 H5]. split_and!; [|done|done]. split; [split; [done|by eapply header_op_heights|done]|done|done].
  - destruct Hg as [[H1 H2 H3] H4 H5]. split_and!; [|done|done]. split; [split; [done|by eapply purge_heights|done]|done|done].
  - destruct Hg as [[H1 H2 H3] H4 H5]. split_and!; [|done|done]. split; [split; [done|done|]|done|done]. destruct H1 as [(m & Hm) _ _ _].
    destruct (accept_tx_pool_safe (chain g) m (pool g) tx (coins_view _ _ Hm) Htx H3) as [[msg E]|(mp' & E & Hp')]; [congruence|]. rewrite Ha in E. by injection E as -> ->.
  - destruct Hg as [[H1 H2 H3] H4 H5]. split_and!; [by split|done|done].
  - split_and!; [done|by eapply window_same_fits; [eapply fill_same|]|done].
  - destruct (received_fits _ _ _ _ _ _ _ _ Hg Hw H) as [Hg' Hw']. by split_and!.
  - split_and!; [done|rewrite drop_peer_eq; by destruct (min_height _), Hw|done].
  - destruct (timeout_parts now g w) as (ns & E & Es). split_and!; [|by eapply window_same_fits|done]. cbn. rewrite E. destruct Hg as [[H1 H2 H3] H4 H5]. by split.
  - destruct (flush_fits g w Hg Hw) as [Hg' Hw']. by split_and!.
  - split_and!; [done|by destruct Hw|done].
  - destruct (catch_up_fits _ _ _ _ Hg Hw H) as [Hg' Hw']. by split_and!.
  - destruct (activate_fits _ _ _ Hg Ha) as [Hg' Hn]. split_and!; [done|done|]. cbn. apply Forall_app. by split.
  - apply Forall_cons in Hq as [Hh Hq]. split_and!; [done| |done]. split; cbn; [apply next_fits; unfold U in Hh; lia|done].
Qed.

End Typed.

(** ** Example: the node of NodeHistory.v, from its start to its first block *)

Lemma fresh_fits `{HS : Sha256} `{!Sha256Len HS} `{HU256 : U256Overflow} `{HO : HashOrder} {B UT MT IT KT : Type} {HB : HeaderBackend B} {HU : Table (list byte) (list byte) UT} `{!TableLaws (list byte) (list byte) UT HU}
  {HM : Table string (list byte) MT} {HI : Table (list byte) (Z * Z * Z) IT} {HBI : Table (list byte) (Z * Z * Z) KT} world gen svh (g : Shared B UT MT IT KT) : fresh world gen svh g -> shared_fits g.
Proof.
  intros [Hh _ Ht _ Hc Hp Hs _]. destruct Hc as [[Hg Hw] [C1 C2 C3 _ _ C4] _ _ C5]. pose proof (zlen_nonneg (contents (files (undo_store (chain g))) (file_number (undo_store (chain g))))).
  split; [split; [split; [|done|done|]| |done]| |]; cbn.
  - exists ∅. split; [done|]. intros o c Hc. by rewrite lookup_empty in Hc.
  - unfold U in *. lia.
  - intros x s Hx. eapply (at_height_range gen); [apply Hh|by exists s].
  - apply Hs.
  - destruct (hd_files _ _ _ Hs) as [_ _ F3 _ _ F4]. cbn in F3, F4. pose proof (zlen_nonneg (contents (bs_files (store g)) (bs_file_number (store g)))). unfold U. lia.
Qed.

#[local] Existing Instance trap.
#[local] Existing Instance no_backend.
#[local] Existing Instance plain_order.
#[local] Existing Instance toy_sha256.
#[local] Existing Instance toy_digests.
#[local] Existing Instance toy_k256.

Lemma orderly_runs (s s' : Machine (B := Empty_set) (UT := byte_table) (MT := meta_table) (IT := sample_index) (KT := sample_index)) :
  rtc (orderly_step small_world) s s' -> rtc (fun s s' => exists op, node_step op s s') s s'.
Proof. apply rtc_subrel. intros s1 s2 (op & H & _). by exists op. Qed.

