(* ===== verification/PeerTable.v ===== *)
(** * PeerTable: the table of peers and its state machine

    Models the part of src/src/nodes/mod.rs that keeps the peers: their connection
    states with bans and backoff, incoming and outgoing connections, the votes on the
    node's own address, strikes, saved peers and bans, and the periodic scans; and
    the address checks of src/src/utils.rs.  A [NodeManager] is the shared state; its
    concurrent map is a finite map, iterated in an unknown order ([PeerOrder]).  The
    clock is an argument ([Clock]: an instant in nanoseconds and the Unix time in
    seconds), read once per operation; so is the random number behind a backoff.  A
    spawned connection task is the triple of address, port and attempt that it is
    started with; a channel is the list of what was sent on it.  Figures that only the
    display uses are left out. *)
From Stdlib Require Import Strings.Byte Floats.SpecFloat.
From stdpp Require Import base numbers list strings gmap.
From S2P Require Import Prelude Codec Types Compact Float64 Difficulty Validation Vec ScriptNum Signature Engine ScriptVerify Database Coin UndoStore Ledger Chainstate Pow HashOrder Mempool Headers BlockStore Network Messages BlockDownload.

(** ** Addresses (utils.rs) *)

Definition octet (l : list byte) (i : nat) : Z := match l !! i with Some b => b2z b | None => 0 end.

Definition v4_is_loopback (o : list byte) : bool := octet o 0 =? 127.
Definition v4_is_private (o : list byte) : bool :=
  (octet o 0 =? 10) || ((octet o 0 =? 172) && (16 <=? octet o 1) && (octet o 1 <=? 31)) || ((octet o 0 =? 192) && (octet o 1 =? 168)).
Definition v4_is_link_local (o : list byte) : bool := (octet o 0 =? 169) && (octet o 1 =? 254).
Definition v4_is_unspecified (o : list byte) : bool := bool_decide (o = [x00; x00; x00; x00]).
Definition v4_is_broadcast (o : list byte) : bool := bool_decide (o = [xff; xff; xff; xff]).

Definition is_routable_v4 (o : list byte) : bool :=
  if v4_is_loopback o || v4_is_private o || v4_is_link_local o || v4_is_unspecified o || v4_is_broadcast o then false else
  if (octet o 0 =? 100) && (Z.land (octet o 1) 0xC0 =? 64) then false else
  if (octet o 0 =? 192) && (octet o 1 =? 0) && (octet o 2 =? 0) then false else
  if (octet o 0 =? 198) && (Z.land (octet o 1) 0xFE =? 18) then false else
  if (octet o 0 =? 192) && (octet o 1 =? 0) && (octet o 2 =? 2) then false else
  if (octet o 0 =? 198) && (octet o 1 =? 51) && (octet o 2 =? 100) then false else
  if (octet o 0 =? 203) && (octet o 1 =? 0) && (octet o 2 =? 113) then false else
  true.

Definition v6_is_loopback (o : list byte) : bool := bool_decide (o = replicate 15 x00 ++ [x01]).
Definition v6_is_unspecified (o : list byte) : bool := bool_decide (o = replicate 16 x00).
(** [to_ipv4_mapped] *)
Definition v6_mapped (o : list byte) : option (list byte) := if bool_decide (take 12 o = v4_prefix) then Some (drop 12 o) else None.
Definition first_segment (o : list byte) : Z := octet o 0 * 256 + octet o 1.

Definition is_routable (ip : IpAddr) : bool :=
  match ip with
  | V4 o => is_routable_v4 o
  | V6 o =>
    if v6_is_loopback o || v6_is_unspecified o then false else
    match v6_mapped o with
    | Some v4 => is_routable_v4 v4
    | None => negb (Z.land (first_segment o) 0xFFC0 =? 0xFE80) && negb (Z.land (first_segment o) 0xFE00 =? 0xFC00)
    end
  end.

Definition is_loopback (ip : IpAddr) : bool := match ip with V4 o => v4_is_loopback o | V6 o => v6_is_loopback o end.

Record Clock := mkClock { c_now : Z; c_unix : Z }.

Definition is_recently_active (clk : Clock) (timestamp : Z) : bool :=
  let max_future := u64_sat_add (c_unix clk) (60 * 10) in
  let cutoff := sat_sub (c_unix clk) (60 * 60 * 24) in
  (timestamp >=? cutoff) && (timestamp <=? max_future).

(** ** Constants *)

Definition BACKOFF_BASE_SECS : Z := 30.
Definition BACKOFF_MAX_SECS : Z := 30 * 60.
Definition MAX_RETRY_ATTEMPTS : Z := 10.
Definition MAX_NODES : Z := 5000.
Definition STALE_CONNECTING_TIMEOUT : Z := 300 * SECOND.
Definition STALE_HANDSHAKE_TIMEOUT : Z := 60 * SECOND.
Definition MAX_EXTERNAL_IP_VOTES : Z := 100.
Definition MAX_INV_KNOWN : Z := 50000.
Definition HEADER_REQUEST_TIMEOUT : Z := 5 * SECOND.
Definition MAX_INCOMING_CONNECTIONS : Z := 125.
Definition INCOMING_IP_COOLDOWN : Z := 30 * SECOND.
Definition BAN_DURATION_SECS : Z := 24 * 60 * 60.
Definition ADDR_TOKEN_INITIAL : f64 := f64_of_i64 10.

(** ** Peers *)

Inductive BanReason := ProtocolViolation | Misbehavior.

Definition ban_expires_at (created : Z) : Z := u64_sat_add created BAN_DURATION_SECS.

(** a writer is the number of its connection *)
Inductive NodeState :=
| Connecting (since : Z)
| Handshaking (since : Z)
| Connected (writer : nat)
| Disconnected (retry_at attempt : Z)
| Dead
| Banned (reason : BanReason) (created expires : Z).

Definition is_connectable (clk : Clock) (s : NodeState) : bool := match s with Disconnected retry_at _ => retry_at <=? c_now clk | _ => false end.
Definition is_connected (s : NodeState) : bool := match s with Connected _ => true | _ => false end.
Definition is_banned (clk : Clock) (s : NodeState) : bool := match s with Banned _ _ expires => c_unix clk <? expires | _ => false end.

Definition u64_sat_mul (a b : Z) : Z := Z.min u64_max (a * b).
Definition u64_sat_pow (a b : Z) : Z := Z.min u64_max (a ^ b).

(** the delay in seconds, from a random number *)
Definition calculate_backoff (random attempt : Z) : Z :=
  let base := u64_sat_mul BACKOFF_BASE_SECS (u64_sat_pow 2 attempt) in
  let capped := Z.min base BACKOFF_MAX_SECS in
  let jitter_range := capped / 4 in
  let jitter_window := u64_sat_mul jitter_range 2 in
  let jitter_offset := if jitter_window >? 0 then random mod jitter_window else 0 in
  u64_sat_add (sat_sub capped jitter_range) jitter_offset.

Inductive ConnectionType := Incoming | Outgoing.
#[global] Instance ConnectionType_eq_dec : EqDecision ConnectionType.
Proof. solve_decision. Defined.

Record PeerNode := mkPeer {
  p_port : Z;
  p_last_seen : Z;
  p_version : Z;
  p_version_received : bool;
  p_services : Z;
  p_timestamp : Z;
  p_user_agent : list byte;
  p_height : Z;
  p_relay : bool;
  p_connection_type : ConnectionType;
  p_state : NodeState;
  p_addr_known : gset IpAddr;
  p_addr_known_bucket : Z;
  p_addr_tokens : f64;
  p_last_token_refill : Z;
  p_sent_getaddr : bool;
  p_last_getaddr_response : option Z;
  p_pending_external_ip : option IpAddr;
  p_last_ping_nonce : option Z;
  p_inv_known : gset Hash256;
  p_prefer_headers : bool;
  p_strikes : Strikes;
  p_pending_getheaders : option Z;
}.

Definition set_port (n : PeerNode) (x : Z) : PeerNode :=
  mkPeer x (p_last_seen n) (p_version n) (p_version_received n) (p_services n) (p_timestamp n) (p_user_agent n) (p_height n) (p_relay n) (p_connection_type n) (p_state n) (p_addr_known n) (p_addr_known_bucket n) (p_addr_tokens n) (p_last_token_refill n) (p_sent_getaddr n) (p_last_getaddr_response n) (p_pending_external_ip n) (p_last_ping_nonce n) (p_inv_known n) (p_prefer_headers n) (p_strikes n) (p_pending_getheaders n).
Definition set_last_seen (n : PeerNode) (x : Z) : PeerNode :=
  mkPeer (p_port n) x (p_version n) (p_version_received n) (p_services n) (p_timestamp n) (p_user_agent n) (p_height n) (p_relay n) (p_connection_type n) (p_state n) (p_addr_known n) (p_addr_known_bucket n) (p_addr_tokens n) (p_last_token_refill n) (p_sent_getaddr n) (p_last_getaddr_response n) (p_pending_external_ip n) (p_last_ping_nonce n) (p_inv_known n) (p_prefer_headers n) (p_strikes n) (p_pending_getheaders n).
Definition set_version_received (n : PeerNode) (x : bool) : PeerNode :=
  mkPeer (p_port n) (p_last_seen n) (p_version n) x (p_services n) (p_timestamp n) (p_user_agent n) (p_height n) (p_relay n) (p_connection_type n) (p_state n) (p_addr_known n) (p_addr_known_bucket n) (p_addr_tokens n) (p_last_token_refill n) (p_sent_getaddr n) (p_last_getaddr_response n) (p_pending_external_ip n) (p_last_ping_nonce n) (p_inv_known n) (p_prefer_headers n) (p_strikes n) (p_pending_getheaders n).
Definition set_peer_height (n : PeerNode) (x : Z) : PeerNode :=
  mkPeer (p_port n) (p_last_seen n) (p_version n) (p_version_received n) (p_services n) (p_timestamp n) (p_user_agent n) x (p_relay n) (p_connection_type n) (p_state n) (p_addr_known n) (p_addr_known_bucket n) (p_addr_tokens n) (p_last_token_refill n) (p_sent_getaddr n) (p_last_getaddr_response n) (p_pending_external_ip n) (p_last_ping_nonce n) (p_inv_known n) (p_prefer_headers n) (p_strikes n) (p_pending_getheaders n).
Definition set_connection_type (n : PeerNode) (x : ConnectionType) : PeerNode :=
  mkPeer (p_port n) (p_last_seen n) (p_version n) (p_version_received n) (p_services n) (p_timestamp n) (p_user_agent n) (p_height n) (p_relay n) x (p_state n) (p_addr_known n) (p_addr_known_bucket n) (p_addr_tokens n) (p_last_token_refill n) (p_sent_getaddr n) (p_last_getaddr_response n) (p_pending_external_ip n) (p_last_ping_nonce n) (p_inv_known n) (p_prefer_headers n) (p_strikes n) (p_pending_getheaders n).
Definition set_peer_state (n : PeerNode) (x : NodeState) : PeerNode :=
  mkPeer (p_port n) (p_last_seen n) (p_version n) (p_version_received n) (p_services n) (p_timestamp n) (p_user_agent n) (p_height n) (p_relay n) (p_connection_type n) x (p_addr_known n) (p_addr_known_bucket n) (p_addr_tokens n) (p_last_token_refill n) (p_sent_getaddr n) (p_last_getaddr_response n) (p_pending_external_ip n) (p_last_ping_nonce n) (p_inv_known n) (p_prefer_headers n) (p_strikes n) (p_pending_getheaders n).
Definition set_sent_getaddr (n : PeerNode) (x : bool) : PeerNode :=
  mkPeer (p_port n) (p_last_seen n) (p_version n) (p_version_received n) (p_services n) (p_timestamp n) (p_user_agent n) (p_height n) (p_relay n) (p_connection_type n) (p_state n) (p_addr_known n) (p_addr_known_bucket n) (p_addr_tokens n) (p_last_token_refill n) x (p_last_getaddr_response n) (p_pending_external_ip n) (p_last_ping_nonce n) (p_inv_known n) (p_prefer_headers n) (p_strikes n) (p_pending_getheaders n).
Definition set_getaddr_response (n : PeerNode) (x : option Z) : PeerNode :=
  mkPeer (p_port n) (p_last_seen n) (p_version n) (p_version_received n) (p_services n) (p_timestamp n) (p_user_agent n) (p_height n) (p_relay n) (p_connection_type n) (p_state n) (p_addr_known n) (p_addr_known_bucket n) (p_addr_tokens n) (p_last_token_refill n) (p_sent_getaddr n) x (p_pending_external_ip n) (p_last_ping_nonce n) (p_inv_known n) (p_prefer_headers n) (p_strikes n) (p_pending_getheaders n).
Definition set_pending_ip (n : PeerNode) (x : option IpAddr) : PeerNode :=
  mkPeer (p_port n) (p_last_seen n) (p_version n) (p_version_received n) (p_services n) (p_timestamp n) (p_user_agent n) (p_height n) (p_relay n) (p_connection_type n) (p_state n) (p_addr_known n) (p_addr_known_bucket n) (p_addr_tokens n) (p_last_token_refill n) (p_sent_getaddr n) (p_last_getaddr_response n) x (p_last_ping_nonce n) (p_inv_known n) (p_prefer_headers n) (p_strikes n) (p_pending_getheaders n).
Definition set_ping_nonce (n : PeerNode) (x : option Z) : PeerNode :=
  mkPeer (p_port n) (p_last_seen n) (p_version n) (p_version_received n) (p_services n) (p_timestamp n) (p_user_agent n) (p_height n) (p_relay n) (p_connection_type n) (p_state n) (p_addr_known n) (p_addr_known_bucket n) (p_addr_tokens n) (p_last_token_refill n) (p_sent_getaddr n) (p_last_getaddr_response n) (p_pending_external_ip n) x (p_inv_known n) (p_prefer_headers n) (p_strikes n) (p_pending_getheaders n).
Definition set_inv_known (n : PeerNode) (x : gset Hash256) : PeerNode :=
  mkPeer (p_port n) (p_last_seen n) (p_version n) (p_version_received n) (p_services n) (p_timestamp n) (p_user_agent n) (p_height n) (p_relay n) (p_connection_type n) (p_state n) (p_addr_known n) (p_addr_known_bucket n) (p_addr_tokens n) (p_last_token_refill n) (p_sent_getaddr n) (p_last_getaddr_response n) (p_pending_external_ip n) (p_last_ping_nonce n) x (p_prefer_headers n) (p_strikes n) (p_pending_getheaders n).
Definition set_prefer_headers (n : PeerNode) (x : bool) : PeerNode :=
  mkPeer (p_port n) (p_last_seen n) (p_version n) (p_version_received n) (p_services n) (p_timestamp n) (p_user_agent n) (p_height n) (p_relay n) (p_connection_type n) (p_state n) (p_addr_known n) (p_addr_known_bucket n) (p_addr_tokens n) (p_last_token_refill n) (p_sent_getaddr n) (p_last_getaddr_response n) (p_pending_external_ip n) (p_last_ping_nonce n) (p_inv_known n) x (p_strikes n) (p_pending_getheaders n).
Definition set_strikes (n : PeerNode) (x : Strikes) : PeerNode :=
  mkPeer (p_port n) (p_last_seen n) (p_version n) (p_version_received n) (p_services n) (p_timestamp n) (p_user_agent n) (p_height n) (p_relay n) (p_connection_type n) (p_state n) (p_addr_known n) (p_addr_known_bucket n) (p_addr_tokens n) (p_last_token_refill n) (p_sent_getaddr n) (p_last_getaddr_response n) (p_pending_external_ip n) (p_last_ping_nonce n) (p_inv_known n) (p_prefer_headers n) x (p_pending_getheaders n).
Definition set_pending_getheaders (n : PeerNode) (x : option Z) : PeerNode :=
  mkPeer (p_port n) (p_last_seen n) (p_version n) (p_version_received n) (p_services n) (p_timestamp n) (p_user_agent n) (p_height n) (p_relay n) (p_connection_type n) (p_state n) (p_addr_known n) (p_addr_known_bucket n) (p_addr_tokens n) (p_last_token_refill n) (p_sent_getaddr n) (p_last_getaddr_response n) (p_pending_external_ip n) (p_last_ping_nonce n) (p_inv_known n) (p_prefer_headers n) (p_strikes n) x.
Definition set_tokens (n : PeerNode) (x0 : f64) (x1 : Z) : PeerNode :=
  mkPeer (p_port n) (p_last_seen n) (p_version n) (p_version_received n) (p_services n) (p_timestamp n) (p_user_agent n) (p_height n) (p_relay n) (p_connection_type n) (p_state n) (p_addr_known n) (p_addr_known_bucket n) x0 x1 (p_sent_getaddr n) (p_last_getaddr_response n) (p_pending_external_ip n) (p_last_ping_nonce n) (p_inv_known n) (p_prefer_headers n) (p_strikes n) (p_pending_getheaders n).
Definition set_addr_known (n : PeerNode) (x0 : gset IpAddr) (x1 : Z) : PeerNode :=
  mkPeer (p_port n) (p_last_seen n) (p_version n) (p_version_received n) (p_services n) (p_timestamp n) (p_user_agent n) (p_height n) (p_relay n) (p_connection_type n) (p_state n) x0 x1 (p_addr_tokens n) (p_last_token_refill n) (p_sent_getaddr n) (p_last_getaddr_response n) (p_pending_external_ip n) (p_last_ping_nonce n) (p_inv_known n) (p_prefer_headers n) (p_strikes n) (p_pending_getheaders n).
Definition set_saved (n : PeerNode) (x0 : Z) (x1 : Z) (x2 : list byte) (x3 : Z) : PeerNode :=
  mkPeer (p_port n) x1 (p_version n) (p_version_received n) x0 (p_timestamp n) x2 x3 (p_relay n) (p_connection_type n) (p_state n) (p_addr_known n) (p_addr_known_bucket n) (p_addr_tokens n) (p_last_token_refill n) (p_sent_getaddr n) (p_last_getaddr_response n) (p_pending_external_ip n) (p_last_ping_nonce n) (p_inv_known n) (p_prefer_headers n) (p_strikes n) (p_pending_getheaders n).
Definition set_version_fields (n : PeerNode) (x0 : Z) (x1 : Z) (x2 : list byte) (x3 : Z) (x4 : Z) (x5 : bool) : PeerNode :=
  mkPeer (p_port n) (p_last_seen n) x4 (p_version_received n) x0 x1 x2 x3 x5 (p_connection_type n) (p_state n) (p_addr_known n) (p_addr_known_bucket n) (p_addr_tokens n) (p_last_token_refill n) (p_sent_getaddr n) (p_last_getaddr_response n) (p_pending_external_ip n) (p_last_ping_nonce n) (p_inv_known n) (p_prefer_headers n) (p_strikes n) (p_pending_getheaders n).

Definition node_new (clk : Clock) (port : Z) (connection_type : ConnectionType) (state : NodeState) : PeerNode :=
  mkPeer port 0 0 false 0 0 [] 0 false connection_type state ∅ 0 ADDR_TOKEN_INITIAL (c_now clk) false None None None ∅ false (mkStrikes 0 None false) None.

(** ** The manager *)

Class PeerOrder : Type := { peer_order : forall {A}, gmap IpAddr A -> list (IpAddr * A) }.
Class PeerOrderLaws (H : PeerOrder) : Prop := { peer_order_perm {A} (m : gmap IpAddr A) : peer_order m ≡ₚ map_to_list m }.

(** [m_locked]: the write lock of the header store is held; queues are what was sent on an attached channel *)
Record NodeManager (B UT MT IT KT : Type) := mkManager {
  m_nodes : gmap IpAddr PeerNode;
  my_nonce : Z;
  external_ip_votes : gmap IpAddr Z;
  listen_port : Z;
  port_reachable : bool;
  incoming_count : Z;
  incoming_cooldowns : gmap IpAddr Z;
  m_headers : HeaderStore B;
  m_locked : bool;
  cached_height : Z;
  cached_tip_bits : Z;
  block_queue : option (list (Hash256 * list byte));
  disconnect_queue : option (list IpAddr);
  reorg_queue : option (list Z);
  m_mempool : option Mempool;
  m_chainstate : option (ChainState UT MT IT);
  m_block_store : option (BlockStore KT);
}.
Arguments mkManager {B UT MT IT KT}.
Arguments m_nodes {B UT MT IT KT}.
Arguments my_nonce {B UT MT IT KT}.
Arguments external_ip_votes {B UT MT IT KT}.
Arguments listen_port {B UT MT IT KT}.
Arguments port_reachable {B UT MT IT KT}.
Arguments incoming_count {B UT MT IT KT}.
Arguments incoming_cooldowns {B UT MT IT KT}.
Arguments m_headers {B UT MT IT KT}.
Arguments m_locked {B UT MT IT KT}.
Arguments cached_height {B UT MT IT KT}.
Arguments cached_tip_bits {B UT MT IT KT}.
Arguments block_queue {B UT MT IT KT}.
Arguments disconnect_queue {B UT MT IT KT}.
Arguments reorg_queue {B UT MT IT KT}.
Arguments m_mempool {B UT MT IT KT}.
Arguments m_chainstate {B UT MT IT KT}.
Arguments m_block_store {B UT MT IT KT}.

Section Table.
Context {B UT MT IT KT : Type} `{HP : PeerOrder}.
Notation manager := (NodeManager B UT MT IT KT).
Implicit Types (nm : manager) (clk : Clock) (address : IpAddr) (n : PeerNode).

Definition set_m_nodes nm x : manager := mkManager x (my_nonce nm) (external_ip_votes nm) (listen_port nm) (port_reachable nm) (incoming_count nm) (incoming_cooldowns nm) (m_headers nm) (m_locked nm) (cached_height nm) (cached_tip_bits nm) (block_queue nm) (disconnect_queue nm) (reorg_queue nm) (m_mempool nm) (m_chainstate nm) (m_block_store nm).
Definition set_votes nm x : manager := mkManager (m_nodes nm) (my_nonce nm) x (listen_port nm) (port_reachable nm) (incoming_count nm) (incoming_cooldowns nm) (m_headers nm) (m_locked nm) (cached_height nm) (cached_tip_bits nm) (block_queue nm) (disconnect_queue nm) (reorg_queue nm) (m_mempool nm) (m_chainstate nm) (m_block_store nm).
Definition set_reachable nm x : manager := mkManager (m_nodes nm) (my_nonce nm) (external_ip_votes nm) (listen_port nm) x (incoming_count nm) (incoming_cooldowns nm) (m_headers nm) (m_locked nm) (cached_height nm) (cached_tip_bits nm) (block_queue nm) (disconnect_queue nm) (reorg_queue nm) (m_mempool nm) (m_chainstate nm) (m_block_store nm).
Definition set_incoming_count nm x : manager := mkManager (m_nodes nm) (my_nonce nm) (external_ip_votes nm) (listen_port nm) (port_reachable nm) x (incoming_cooldowns nm) (m_headers nm) (m_locked nm) (cached_height nm) (cached_tip_bits nm) (block_queue nm) (disconnect_queue nm) (reorg_queue nm) (m_mempool nm) (m_chainstate nm) (m_block_store nm).
Definition set_cooldowns nm x : manager := mkManager (m_nodes nm) (my_nonce nm) (external_ip_votes nm) (listen_port nm) (port_reachable nm) (incoming_count nm) x (m_headers nm) (m_locked nm) (cached_height nm) (cached_tip_bits nm) (block_queue nm) (disconnect_queue nm) (reorg_queue nm) (m_mempool nm) (m_chainstate nm) (m_block_store nm).
Definition set_m_headers nm x : manager := mkManager (m_nodes nm) (my_nonce nm) (external_ip_votes nm) (listen_port nm) (port_reachable nm) (incoming_count nm) (incoming_cooldowns nm) x (m_locked nm) (cached_height nm) (cached_tip_bits nm) (block_queue nm) (disconnect_queue nm) (reorg_queue nm) (m_mempool nm) (m_chainstate nm) (m_block_store nm).
Definition set_locked nm x : manager := mkManager (m_nodes nm) (my_nonce nm) (external_ip_votes nm) (listen_port nm) (port_reachable nm) (incoming_count nm) (incoming_cooldowns nm) (m_headers nm) x (cached_height nm) (cached_tip_bits nm) (block_queue nm) (disconnect_queue nm) (reorg_queue nm) (m_mempool nm) (m_chainstate nm) (m_block_store nm).
Definition set_block_queue nm x : manager := mkManager (m_nodes nm) (my_nonce nm) (external_ip_votes nm) (listen_port nm) (port_reachable nm) (incoming_count nm) (incoming_cooldowns nm) (m_headers nm) (m_locked nm) (cached_height nm) (cached_tip_bits nm) x (disconnect_queue nm) (reorg_queue nm) (m_mempool nm) (m_chainstate nm) (m_block_store nm).
Definition set_disconnect_queue nm x : manager := mkManager (m_nodes nm) (my_nonce nm) (external_ip_votes nm) (listen_port nm) (port_reachable nm) (incoming_count nm) (incoming_cooldowns nm) (m_headers nm) (m_locked nm) (cached_height nm) (cached_tip_bits nm) (block_queue nm) x (reorg_queue nm) (m_mempool nm) (m_chainstate nm) (m_block_store nm).
Definition set_reorg_queue nm x : manager := mkManager (m_nodes nm) (my_nonce nm) (external_ip_votes nm) (listen_port nm) (port_reachable nm) (incoming_count nm) (incoming_cooldowns nm) (m_headers nm) (m_locked nm) (cached_height nm) (cached_tip_bits nm) (block_queue nm) (disconnect_queue nm) x (m_mempool nm) (m_chainstate nm) (m_block_store nm).
Definition set_m_mempool nm x : manager := mkManager (m_nodes nm) (my_nonce nm) (external_ip_votes nm) (listen_port nm) (port_reachable nm) (incoming_count nm) (incoming_cooldowns nm) (m_headers nm) (m_locked nm) (cached_height nm) (cached_tip_bits nm) (block_queue nm) (disconnect_queue nm) (reorg_queue nm) x (m_chainstate nm) (m_block_store nm).
Definition set_cache nm x y : manager := mkManager (m_nodes nm) (my_nonce nm) (external_ip_votes nm) (listen_port nm) (port_reachable nm) (incoming_count nm) (incoming_cooldowns nm) (m_headers nm) (m_locked nm) x y (block_queue nm) (disconnect_queue nm) (reorg_queue nm) (m_mempool nm) (m_chainstate nm) (m_block_store nm).

(** [if let Some(mut node) = nodes.get_mut(address)] *)
Definition with_node nm address (f : PeerNode -> PeerNode) : manager :=
  match m_nodes nm !! address with
  | Some n => set_m_nodes nm (<[address := f n]> (m_nodes nm))
  | None => nm
  end.

Definition get_node nm address : option PeerNode := m_nodes nm !! address.
Definition ban clk (reason : BanReason) n : PeerNode := set_peer_state n (Banned reason (c_unix clk) (ban_expires_at (c_unix clk))).

Definition notify_peer_disconnected nm address : manager :=
  match disconnect_queue nm with
  | Some q => set_disconnect_queue nm (Some (q ++ [address]))
  | None => nm
  end.

(** *** Inserting *)

Definition reactivated clk n (port : Z) (connection_type : ConnectionType) : PeerNode :=
  let n := set_connection_type (set_port n port) connection_type in
  let n := set_sent_getaddr (set_version_received (set_peer_state n (Handshaking (c_now clk))) false) false in
  set_pending_getheaders (set_tokens n ADDR_TOKEN_INITIAL (c_now clk)) None.

Definition initial_state clk (connection_type : ConnectionType) (reset_handshake : bool) : NodeState :=
  if reset_handshake then Handshaking (c_now clk) else
  match connection_type with Outgoing => Connecting (c_now clk) | Incoming => Handshaking (c_now clk) end.

Definition try_insert_or_reactivate clk nm address (port : Z) (connection_type : ConnectionType) (reset_handshake : bool) : manager * bool :=
  if Z.of_nat (size (m_nodes nm)) >=? MAX_NODES then (nm, false) else
  match m_nodes nm !! address with
  | Some n =>
    match p_state n with
    | Disconnected _ _ | Dead =>
      let n := if reset_handshake then reactivated clk n port connection_type else set_connection_type (set_port n port) connection_type in
      (set_m_nodes nm (<[address := n]> (m_nodes nm)), reset_handshake)
    | _ => (nm, false)
    end
  | None => (set_m_nodes nm (<[address := node_new clk port connection_type (initial_state clk connection_type reset_handshake)]> (m_nodes nm)), true)
  end.

Definition insert_node clk nm address (port : Z) (connection_type : ConnectionType) : manager * bool :=
  try_insert_or_reactivate clk nm address port connection_type false.

(** *** The node's own address *)

Definition record_external_ip_vote nm (ip : IpAddr) : manager :=
  if negb (is_routable ip) then nm else
  if Z.of_nat (size (external_ip_votes nm)) >=? MAX_EXTERNAL_IP_VOTES then nm else
  set_votes nm (<[ip := match external_ip_votes nm !! ip with Some count => u32_sat_add count 1 | None => 1 end]> (external_ip_votes nm)).

(** [max_by_key]: the last of the largest *)
Definition max_votes (l : list (IpAddr * Z)) : option (IpAddr * Z) :=
  foldl (fun best e => match best with Some b => if e.2 >=? b.2 then Some e else best | None => Some e end) None l.

Definition get_external_ip nm : result (option IpAddr) :=
  total_votes ← fold_res (fun total (e : IpAddr * Z) => u32_add total e.2) 0 (peer_order (external_ip_votes nm));
  candidates ← fold_res (fun l (e : IpAddr * Z) => doubled ← (if e.2 * 2 <=? u32_max then Ok (e.2 * 2) else Panic); Ok (if (e.2 >=? 3) && (doubled >? total_votes) then l ++ [e] else l)) [] (peer_order (external_ip_votes nm));
  Ok (fst <$> max_votes candidates).

(** *** Incoming connections; [true] is the guard that counts the connection *)
Definition insert_incoming clk nm address (port : Z) : result (manager * bool) :=
  if incoming_count nm >=? MAX_INCOMING_CONNECTIONS then Ok (nm, false) else
  own ← (if is_loopback address then Ok true else ip ← get_external_ip nm; Ok (bool_decide (ip = Some address)));
  if (own : bool) then Ok (nm, false) else
  if match incoming_cooldowns nm !! address with Some last => sat_sub (c_now clk) last <? INCOMING_IP_COOLDOWN | None => false end then Ok (nm, false) else
  let '(nm, inserted) := try_insert_or_reactivate clk nm address port Incoming true in
  if inserted then Ok (set_cooldowns (set_incoming_count nm (incoming_count nm + 1)) (<[address := c_now clk]> (incoming_cooldowns nm)), true)
  else Ok (nm, false).

(** *** States *)

Definition update_last_seen clk nm address : manager := with_node nm address (fun n => set_last_seen n (c_unix clk)).

Definition end_session n : PeerNode := set_pending_getheaders (set_inv_known n ∅) None.

Definition set_state nm address (state : NodeState) : manager :=
  with_node nm address (fun n =>
    let n := match state with Disconnected _ _ | Dead => end_session n | _ => n end in
    set_peer_state n state).

Definition should_attempt_connection clk nm address : bool :=
  match m_nodes nm !! address with
  | Some n => match p_state n with Connecting _ => true | s => is_connectable clk s end
  | None => false
  end.

Definition schedule_retry clk (random : Z) nm address (attempt : Z) : manager :=
  let nm := notify_peer_disconnected nm address in
  let next_attempt := u32_sat_add attempt 1 in
  if next_attempt >=? MAX_RETRY_ATTEMPTS then set_state nm address Dead
  else set_state nm address (Disconnected (c_now clk + calculate_backoff random next_attempt * SECOND) next_attempt).

(** a connection task: the connection was established *)
Definition connection_established clk nm address : manager :=
  with_node nm address (fun n => set_version_received (set_peer_state n (Handshaking (c_now clk))) false).

(** the connection loop of an outgoing connection ended *)
Definition outgoing_ended clk (random : Z) nm address (attempt : Z) : manager :=
  match m_nodes nm !! address with
  | Some n => if is_banned clk (p_state n) then nm else schedule_retry clk random nm address attempt
  | None => schedule_retry clk random nm address attempt
  end.

(** and of an incoming one, with its guard dropped *)
Definition incoming_ended nm address : manager :=
  let nm := set_state nm address Dead in
  set_incoming_count nm (incoming_count nm - 1).

(** a task to start: address, port and attempt *)
Notation spawn := (IpAddr * Z * Z)%type.

Definition insert_outgoing clk nm address (port : Z) : manager * list spawn :=
  let '(nm, inserted) := insert_node clk nm address port Outgoing in
  (nm, if inserted then [(address, port, 0)] else []).

Definition revive_if_newer clk nm address (port timestamp : Z) : manager * list spawn * bool :=
  match m_nodes nm !! address with
  | Some n =>
    match p_state n with
    | Dead =>
      if timestamp >? p_last_seen n then
        (set_m_nodes nm (<[address := set_port (set_last_seen (set_peer_state n (Connecting (c_now clk))) timestamp) port]> (m_nodes nm)), [(address, port, 0)], true)
      else (nm, [], false)
    | _ => (nm, [], false)
    end
  | None => (nm, [], false)
  end.

Definition get_connected_writers nm : list (IpAddr * nat) :=
  omap (fun e => match p_state e.2 with Connected writer => Some (e.1, writer) | _ => None end) (peer_order (m_nodes nm)).
Definition connected_count nm : Z := zlen (filter (fun e => is_connected (p_state e.2) = true) (peer_order (m_nodes nm))).

(** *** Inventory *)

Definition peer_knows_inv nm address (hash : Hash256) : bool := match m_nodes nm !! address with Some n => bool_decide (hash ∈ p_inv_known n) | None => false end.
Definition know_inv n (hashes : list Hash256) : PeerNode :=
  let known := if Z.of_nat (size (p_inv_known n)) >=? MAX_INV_KNOWN then ∅ else p_inv_known n in
  set_inv_known n (list_to_set hashes ∪ known).
Definition mark_peer_inv_known nm address (hash : Hash256) : manager := with_node nm address (fun n => know_inv n [hash]).

(** ** The periodic scans *)

Definition decay_peers clk nm : manager := set_m_nodes nm ((fun n => set_strikes n (decay_strike (c_now clk) (p_strikes n))) <$> m_nodes nm).

Definition strike_node clk nm address : manager := with_node nm address (fun n => set_strikes n (strike (c_now clk) (p_strikes n))).

Definition header_overdue clk n : bool :=
  negb (strike_excluded (p_strikes n)) && match p_pending_getheaders n with Some sent_at => sat_sub (c_now clk) sent_at >? HEADER_REQUEST_TIMEOUT | None => false end.

Definition scan_header_timeouts clk nm : manager :=
  let timed_out := fst <$> filter (fun e => header_overdue clk e.2 = true) (peer_order (m_nodes nm)) in
  let nm := set_m_nodes nm ((fun n => if strike_excluded (p_strikes n) || header_overdue clk n then set_pending_getheaders n None else n) <$> m_nodes nm) in
  foldl (strike_node clk) nm timed_out.

(** the reaper: the nodes of each kind are collected first, then handled *)
Definition is_stale_node clk n : bool :=
  match p_state n with
  | Connecting since => sat_sub (c_now clk) since >? STALE_CONNECTING_TIMEOUT
  | Handshaking since => sat_sub (c_now clk) since >? STALE_HANDSHAKE_TIMEOUT
  | _ => false
  end.
Definition ban_expired clk n : bool := match p_state n with Banned _ _ _ => negb (is_banned clk (p_state n)) | _ => false end.

Definition retry_node clk (acc : manager * list spawn) (e : IpAddr * Z) : manager * list spawn :=
  let '(nm, tasks) := acc in
  match m_nodes nm !! e.1 with
  | Some n =>
    if is_connectable clk (p_state n) then (set_m_nodes nm (<[e.1 := set_peer_state n (Connecting (c_now clk))]> (m_nodes nm)), tasks ++ [(e.1, p_port n, e.2)])
    else acc
  | None => acc
  end.

Definition reset_stale clk nm address : manager :=
  with_node nm address (fun n => match p_state n with Connecting _ | Handshaking _ => set_peer_state (set_inv_known n ∅) (Disconnected (c_now clk) 0) | _ => n end).
Definition lift_ban clk nm address : manager := with_node nm address (fun n => if ban_expired clk n then set_peer_state n Dead else n).

Definition reaper_scan clk nm : manager * list spawn :=
  let order := peer_order (m_nodes nm) in
  let ready := omap (fun e => match p_state e.2 with Disconnected _ attempt => if is_connectable clk (p_state e.2) then Some (e.1, attempt) else None | _ => None end) order in
  let stale := fst <$> filter (fun e => is_stale_node clk e.2 = true) order in
  let expired := fst <$> filter (fun e => ban_expired clk e.2 = true) order in
  let '(nm, tasks) := foldl (retry_node clk) (nm, []) ready in
  let nm := foldl (reset_stale clk) nm stale in
  let nm := foldl (lift_ban clk) nm expired in
  let connected_ips : gset IpAddr := list_to_set (fst <$> filter (fun e => is_connected (p_state e.2) = true) (peer_order (m_nodes nm))) in
  let nm := set_votes nm (filter (fun e => e.1 ∈ connected_ips) (external_ip_votes nm)) in
  (set_cooldowns nm (filter (fun e => sat_sub (c_now clk) e.2 < INCOMING_IP_COOLDOWN * 2) (incoming_cooldowns nm)), tasks).

(** ** Saved peers and bans *)

Record SavedPeer := mkSavedPeer { sp_ip : IpAddr; sp_port : Z; sp_services : Z; sp_last_seen : Z; sp_user_agent : list byte; sp_height : Z }.
Record SavedBan := mkSavedBan { sb_ip : IpAddr; sb_reason : string; sb_created : Z; sb_expires : Z }.
Record Db (A : Type) := mkDb { db_version : Z; db_rows : list A }.
#[global] Arguments mkDb {A}.
#[global] Arguments db_version {A}.
#[global] Arguments db_rows {A}.

Definition ban_reason_text (r : BanReason) : string := match r with ProtocolViolation => "protocol violation" | Misbehavior => "misbehavior" end.
Definition ban_reason_parse (s : string) : BanReason := if String.eqb s "misbehavior" then Misbehavior else ProtocolViolation.

Definition collect_peers_for_save nm : Db SavedPeer :=
  mkDb 1 (omap (fun e => let '(ip, n) := e in
    if bool_decide (p_connection_type n = Outgoing) && (p_version n >? 0) && (p_last_seen n >? 0)
    then Some (mkSavedPeer ip (p_port n) (p_services n) (p_last_seen n) (p_user_agent n) (p_height n)) else None) (peer_order (m_nodes nm))).

Definition collect_bans_for_save clk nm : Db SavedBan :=
  mkDb 1 (omap (fun e => match p_state e.2 with
    | Banned reason created expires => if expires >? c_unix clk then Some (mkSavedBan e.1 (ban_reason_text reason) created expires) else None
    | _ => None end) (peer_order (m_nodes nm))).

Definition load_saved_peer clk (acc : manager * list spawn) (peer : SavedPeer) : manager * list spawn :=
  let '(nm, tasks) := acc in
  let '(nm, inserted) := insert_node clk nm (sp_ip peer) (sp_port peer) Outgoing in
  if inserted then
    (with_node nm (sp_ip peer) (fun n => set_saved n (from_bits_truncate (sp_services peer)) (sp_last_seen peer) (sp_user_agent peer) (sp_height peer)),
     tasks ++ [(sp_ip peer, sp_port peer, 0)])
  else (nm, tasks).
Definition load_saved_peers clk nm (db : Db SavedPeer) : manager * list spawn :=
  if negb (db_version db =? 1) then (nm, []) else foldl (load_saved_peer clk) (nm, []) (db_rows db).

Definition load_saved_ban clk nm (b : SavedBan) : manager :=
  if sb_expires b <=? c_unix clk then nm else
  let nm := (insert_node clk nm (sb_ip b) 0 Outgoing).1 in
  with_node nm (sb_ip b) (fun n => set_peer_state n (Banned (ban_reason_parse (sb_reason b)) (sb_created b) (sb_expires b))).
Definition load_saved_bans clk nm (db : Db SavedBan) : manager :=
  if negb (db_version db =? 1) then nm else foldl (load_saved_ban clk) nm (db_rows db).
End Table.
