(* ===== verification/Handlers.v ===== *)
(** * Handlers: what the node does with a message

    Models the message handlers of src/src/nodes/ (handler_version.rs,
    handler_verack.rs, handler_ping.rs, handler_addr.rs, handler_inv.rs,
    handler_headers.rs, handler_getblocks.rs, handler_mempool.rs, handler_block.rs,
    handler_tx.rs), their dispatch and the activation of a better chain in
    src/src/nodes/mod.rs.

    A handler is a task on the [World]: the manager, what was sent and which
    connection tasks were started.  It returns, returns an error, waits for ever for a
    lock it holds itself ([Stuck]: the lock of the header store is not
    reentrant), or panics.  What it gets from outside is in [Env]: the clock, the
    connection the message came on, which sends succeed, whether the pool could
    be locked and whether a block fitted its channel, the outcome of the probe of the
    own port, and the keyed hash that ranks relay peers.  A handler is one step; other tasks run between steps. *)
From Stdlib Require Import Strings.Byte Floats.SpecFloat.
From stdpp Require Import base numbers list strings gmap.
From S2P Require Import Prelude Codec Types Compact Float64 Difficulty Validation Vec ScriptNum Signature Engine ScriptVerify Database Coin UndoStore Ledger Chainstate Pow HashOrder Mempool Headers BlockStore Reorg Network Messages BlockDownload PeerTable.

(** ** Tasks *)

Inductive reply (S A : Type) : Type :=
| Returned (a : A) (s : S)
| Refused (msg : string) (s : S)
| Stuck (s : S)
| Crashed.
Arguments Returned {S A}.
Arguments Refused {S A}.
Arguments Stuck {S A}.
Arguments Crashed {S A}.

Definition task (S A : Type) : Type := S -> reply S A.

#[global] Instance task_ret S : MRet (task S) := fun A a s => Returned a s.
#[global] Instance task_bind S : MBind (task S) := fun A B f m s =>
  match m s with
  | Returned a s => f a s
  | Refused msg s => Refused msg s
  | Stuck s => Stuck s
  | Crashed => Crashed
  end.

(** a [for] loop *)
Fixpoint each {S A X} (f : A -> X -> task S A) (a : A) (l : list X) : task S A :=
  match l with
  | [] => mret a
  | x :: l => a ← f a x; each f a l
  end.

Definition refuse {S A} (msg : string) : task S A := fun s => Refused msg s.
(** [.context(msg)?] *)
Definition with_context {S A} (msg : string) (m : task S A) : task S A := fun s => match m s with Refused _ s => Refused msg s | r => r end.
Definition of_res {S A} (r : result A) : task S A := fun s => match r with Ok a => Returned a s | Err msg => Refused msg s | Panic => Crashed end.
(** whether the step succeeded; an error is handled by the caller *)
Definition attempt {S A} (m : task S A) : task S bool := fun s => match m s with Returned _ s => Returned true s | Refused _ s => Returned false s | Stuck s => Stuck s | Crashed => Crashed end.

(** ** Floating point, as far as the token bucket needs it *)

(** [x.mul_add(y, z)]: one rounding *)
Definition f64_mul_add (x y z : f64) : f64 :=
  match x, y, z with
  | S754_finite sx mx ex, S754_finite sy my ey, S754_finite sz mz ez =>
    let p := (if xorb sx sy then - (Zpos mx * Zpos my) else Zpos mx * Zpos my) in
    let e := Z.min (ex + ey) ez in
    binary_normalize 53 1024 (p * 2 ^ (ex + ey - e) + (if sz then - Zpos mz else Zpos mz) * 2 ^ (ez - e)) e false
  | _, _, _ => f64_add (f64_mul x y) z
  end.
Definition f64_ge (x y : f64) : bool := SFleb y x.
Definition f64_sub (x y : f64) : f64 := SFsub 53 1024 x y.
(** [Duration::as_secs_f64] of a duration in nanoseconds *)
Definition as_secs_f64 (d : Z) : f64 := f64_add (f64_of_i64 (d / SECOND)) (f64_div (f64_of_i64 (d mod SECOND)) (f64_of_i64 SECOND)).

(** ** The world *)

Class SipHash : Type := { sip_ip : Z -> IpAddr -> Z; sip_words : Z -> list Z -> Z }.

Definition GETADDR_RECENT_WINDOW : Z := 60 * 60 * 2.
Definition ADDR_RELAY_MAX_ENTRIES : Z := 10.
Definition ADDR_RELAY_PEER_COUNT : nat := 2.
Definition ADDR_TOKEN_RATE : f64 := f64_lit 1 10.
Definition ADDR_TOKEN_CAPACITY : f64 := f64_of_i64 1000.
Definition MAX_USER_AGENT_DISPLAY : nat := 256.
Definition MAX_ADDR_KNOWN : Z := 5000.
Definition SENDHEADERS_VERSION : Z := 70012.
Definition MAX_BLOCKS_PER_GETBLOCKS : Z := 500.
Definition MAX_BLOCKS_PER_GETDATA : Z := 16.
Definition MAX_INV_ITEMS : Z := 50000.

Record PeerEnv := mkPeerEnv {
  pe_clock : Clock;
  pe_writer : nat;
  pe_delivers : nat -> bool;
  pe_user_agent : list byte;
  pe_relay_key : Z;
  pe_probe : bool;
  pe_pool_free : bool;
  pe_channel_free : bool;
}.

(** ** Small steps *)

Definition refill_addr_tokens (tokens : f64) (elapsed : Z) : f64 := f64_min (f64_mul_add (as_secs_f64 elapsed) ADDR_TOKEN_RATE tokens) ADDR_TOKEN_CAPACITY.

(** the entries that are fresh and have a token each; the tokens left *)
Definition take_token (clk : Clock) (acc : f64 * list AddrEntry) (e : AddrEntry) : f64 * list AddrEntry :=
  let '(tokens, fresh) := acc in
  if negb (is_recently_active clk (ae_timestamp e)) then acc else
  if f64_ge tokens (f64_of_i64 1) then (f64_sub tokens (f64_of_i64 1), fresh ++ [e]) else acc.

Definition is_graphic (c : byte) : bool := (33 <=? b2z c) && (b2z c <=? 126).
Definition is_space (c : byte) : bool := bool_decide (c = x20).
Fixpoint trim_start (s : list byte) : list byte := match s with c :: r => if is_space c then trim_start r else s | [] => [] end.
Definition trim (s : list byte) : list byte := rev (trim_start (rev (trim_start s))).
(** a character outside ASCII is dropped with all its bytes, as each of them is dropped here *)
Definition sanitize_user_agent (s : list byte) : list byte :=
  trim (take MAX_USER_AGENT_DISPLAY (filter (fun c => is_graphic c = true \/ c = x20) s)).

(** [sort_by] with the larger score first; stable *)
Fixpoint insert_desc (x : nat * Z) (l : list (nat * Z)) : list (nat * Z) :=
  match l with
  | [] => [x]
  | y :: r => if y.2 >=? x.2 then y :: insert_desc x r else x :: l
  end.
Definition sort_desc (l : list (nat * Z)) : list (nat * Z) := foldl (fun acc x => insert_desc x acc) [] l.

Section Handlers.
Context `{HS : Sha256} `{HD : Digests} `{HK : K256} `{HU256 : U256Overflow} `{HO : HashOrder} `{HP : PeerOrder} `{HSip : SipHash}.
Context {B UT MT IT KT : Type} {HB : HeaderBackend B} {HU : Table (list byte) (list byte) UT} {HM : Table string (list byte) MT}
  {HI : Table (list byte) (Z * Z * Z) IT} {HBI : Table (list byte) (Z * Z * Z) KT}.
Notation manager := (NodeManager B UT MT IT KT).

(** what was sent: connection, command, payload and whether it arrived *)
Record World := mkWorld { w_nm : manager; w_sent : list (nat * string * list byte * bool); w_spawned : list (IpAddr * Z * Z) }.
Notation handler := (task World).
Implicit Types (w : World) (nm : manager) (env : PeerEnv) (address : IpAddr) (payload : list byte).

Definition nm_get : handler manager := fun w => Returned (w_nm w) w.
Definition nm_update (f : manager -> manager) : handler unit := fun w => Returned tt (mkWorld (f (w_nm w)) (w_sent w) (w_spawned w)).
Definition spawn_tasks (l : list (IpAddr * Z * Z)) : handler unit := fun w => Returned tt (mkWorld (w_nm w) (w_sent w) (w_spawned w ++ l)).

(** [send_message] *)
Definition send_on env (writer : nat) (command : string) payload : handler unit := fun w =>
  match message_new (String.list_byte_of_string command) payload with
  | Ok _ =>
    let ok := pe_delivers env (length (w_sent w)) in
    let w := mkWorld (w_nm w) (w_sent w ++ [(writer, command, payload, ok)]) (w_spawned w) in
    if ok then Returned tt w else Refused "Error in write_all" w
  | Err msg => Refused msg w
  | Panic => Crashed
  end.
Definition send env (command : string) payload : handler unit := send_on env (pe_writer env) command payload.

(** *** The header store behind its lock *)

Definition read_headers {A} (f : HeaderStore B -> result A) : handler A := fun w =>
  if m_locked (w_nm w) then Stuck w else of_res (f (m_headers (w_nm w))) w.
Definition lock_headers : handler (HeaderStore B) := fun w =>
  if m_locked (w_nm w) then Stuck w else Returned (m_headers (w_nm w)) (mkWorld (set_locked (w_nm w) true) (w_sent w) (w_spawned w)).
Definition unlock_headers (hs : HeaderStore B) : handler unit := nm_update (fun nm => set_locked (set_m_headers nm hs) false).

Definition refresh_chain_cache : handler unit :=
  '(h, b) ← read_headers (fun hs => h ← hs_height hs; b ← tip_bits hs; Ok (h, b));
  nm_update (fun nm => set_cache nm h b).

Definition is_in_ibd : handler bool :=
  header_height ← read_headers hs_height;
  nm ← nm_get;
  let chain_height := match m_chainstate nm with Some cs => (tip cs).2 | None => 0 end in
  mret (sat_sub header_height chain_height >? 1000).

(** *** Activating a better chain *)

Definition set_components (n : Reorg.Node B UT MT IT) nm : manager :=
  mkManager (m_nodes nm) (my_nonce nm) (external_ip_votes nm) (listen_port nm) (port_reachable nm) (incoming_count nm) (incoming_cooldowns nm) (n_headers n) (m_locked nm)
    (cached_height nm) (cached_tip_bits nm) (block_queue nm) (disconnect_queue nm) (reorg_queue nm) (Some (n_pool n)) (Some (n_chain n)) (m_block_store nm).

(** after a reorganisation: tell the download manager, purge stale forks *)
Definition after_reorg (result : ActivateResult) (n : Reorg.Node B UT MT IT) : handler unit :=
  match result with
  | Reorganized _ _ _ _ =>
    let new_height := (tip (n_chain n)).2 in
    _ ← nm_update (fun nm => match reorg_queue nm with Some q => set_reorg_queue nm (Some (q ++ [new_height])) | None => nm end);
    match purge_stale_forks (n_headers n) new_height with
    | Some hs => nm_update (fun nm => set_m_headers nm hs)
    | None => fun _ => Crashed
    end
  | _ => mret tt
  end.

Definition drop_lock : handler unit := nm_update (fun nm => set_locked nm false).

Definition try_activate_best_chain env : handler (option ActivateResult) :=
  ibd ← is_in_ibd;
  if (ibd : bool) then mret None else
  nm ← nm_get;
  match m_chainstate nm, m_block_store nm, m_mempool nm with
  | Some chainstate, Some block_store, Some mempool =>
    best ← read_headers (fun hs => Ok (best_tip hs));
    if bool_decide (best.1.1 = (tip chainstate).1) then mret None else
    headers ← lock_headers;
    if negb (pe_pool_free env) then _ ← drop_lock; mret None else
    match activate_best_chain block_store (mkNode headers chainstate mempool) with
    | Done result n =>
      _ ← nm_update (set_components n);
      _ ← after_reorg result n;
      _ ← drop_lock;
      mret (Some result)
    | Failed _ n => _ ← nm_update (set_components n); _ ← drop_lock; mret None
    | Exited _ => fun _ => Crashed
    | Trapped => fun _ => Crashed
    end
  | _, _, _ => mret None
  end.
(** ** Handshake *)

Definition node_or_refuse (msg : string) address : handler PeerNode := nm ← nm_get; match get_node nm address with Some n => mret n | None => refuse msg end.
Definition edit_node address (f : PeerNode -> PeerNode) : handler unit := nm_update (fun nm => with_node nm address f).
(** a write through the reference the entry was read with *)
Definition put_node address (n : PeerNode) : handler unit := edit_node address (fun _ => n).
Definition tip_height nm : Z := match m_chainstate nm with Some cs => (tip cs).2 | None => 0 end.

Definition send_version env address (port : Z) : handler unit :=
  nm ← nm_get;
  send env "version" (message_version_to_bytes (message_version_new (c_unix (pe_clock env)) (pe_user_agent env) (network_address_new address port) (my_nonce nm) (tip_height nm))).

(** phase 1: one version per connection, and not from the node itself *)
Definition version_check env address (version : MessageVersion) : handler (bool * Z) :=
  n ← node_or_refuse "node disappeared from manager" address;
  nm ← nm_get;
  if p_version_received n then _ ← put_node address (ban (pe_clock env) ProtocolViolation n); refuse "Node sent version command twice" else
  if v_nonce version =? my_nonce nm then _ ← put_node address (ban (pe_clock env) ProtocolViolation n); refuse "Node is myself" else
  mret (bool_decide (p_connection_type n = Incoming), p_port n).

(** phase 3: the fields of the peer *)
Definition version_commit address (version : MessageVersion) : handler unit :=
  n ← node_or_refuse "node disappeared from manager during version handling" address;
  match p_state n with
  | Handshaking _ =>
    let n := set_version_fields n (v_services version) (v_timestamp version) (sanitize_user_agent (v_user_agent version)) (v_start_height version) (v_version version) (v_relay version) in
    put_node address (set_pending_ip (set_version_received n true) (Some (a_address (v_addr_recv version))))
  | _ => refuse "node state changed during version handling"
  end.

Definition handle_version env address payload : handler unit :=
  version ← with_context "failed to parse version message" (of_res (message_version_from_bytes payload));
  '(is_incoming, port) ← version_check env address version;
  _ ← (if (is_incoming : bool) then with_context "failed to send version reply for inbound connection" (send_version env address port) else mret tt);
  if v_start_height version <? 0 then
    _ ← edit_node address (ban (pe_clock env) Misbehavior);
    refuse "Node sent negative start_height"
  else
  _ ← of_res (i64_op (v_timestamp version - to_signed 64 (c_unix (pe_clock env))));
  _ ← version_commit address version;
  with_context "failed to send verack" (send env "verack" []).

(** the peer's vote on our address, and a probe of our port when it settles the address *)
Definition probe_reachability env : handler unit :=
  nm ← nm_get;
  ip ← of_res (get_external_ip nm);
  match ip with
  | None => mret tt
  | Some _ => nm_update (fun nm => set_reachable nm (pe_probe env))
  end.

Definition record_vote env (pending_ip : option IpAddr) : handler unit :=
  match pending_ip with
  | None => mret tt
  | Some ip =>
    nm ← nm_get;
    before ← of_res (get_external_ip nm);
    _ ← nm_update (fun nm => record_external_ip_vote nm ip);
    nm ← nm_get;
    match before with
    | Some _ => mret tt
    | None => after ← of_res (get_external_ip nm); match after with Some _ => probe_reachability env | None => mret tt end
    end
  end.

Definition advertise env : handler unit :=
  nm ← nm_get;
  if port_reachable nm then
    ip ← of_res (get_external_ip nm);
    match ip with
    | Some ip => with_context "failed to send self-advertisement" (send env "addr" (message_addr_to_bytes (message_addr_new (c_unix (pe_clock env)) [network_address_new ip (listen_port nm)])))
    | None => mret tt
    end
  else mret tt.

Definition excluded_peer nm address : bool := match get_node nm address with Some n => strike_excluded (p_strikes n) | None => false end.

(** ask for headers, unless the peer is excluded *)
Definition request_headers env (msg : string) address : handler unit :=
  nm ← nm_get;
  if excluded_peer nm address then mret tt else
  locator ← read_headers build_locator;
  _ ← with_context msg (send env "getheaders" (getheaders_to_bytes (mkGetHeaders locator HASH_ZERO)));
  edit_node address (fun n => set_pending_getheaders n (Some (c_now (pe_clock env)))).

Definition handle_verack env address : handler unit :=
  n ← node_or_refuse "node disappeared from manager" address;
  if negb (p_version_received n) then _ ← put_node address (ban (pe_clock env) ProtocolViolation n); refuse "Node sent verack before version" else
  _ ← put_node address (set_pending_ip (set_sent_getaddr (set_peer_state n (Connected (pe_writer env))) true) None);
  _ ← record_vote env (p_pending_external_ip n);
  _ ← advertise env;
  _ ← with_context "failed to send getaddr" (send env "getaddr" []);
  nm ← nm_get;
  let peer_version := match get_node nm address with Some n => p_version n | None => 0 end in
  _ ← (if peer_version >=? SENDHEADERS_VERSION then with_context "failed to send sendheaders" (send env "sendheaders" []) else mret tt);
  request_headers env "failed to send initial getheaders" address.

(** ** Ping *)

Definition send_ping env (nonce : Z) address : handler unit :=
  nm ← nm_get;
  match get_node nm address with
  | Some n =>
    match p_state n with
    | Connected writer =>
      _ ← put_node address (set_ping_nonce n (Some nonce));
      _ ← attempt (send_on env writer "ping" (le_bytes 8 nonce));
      mret tt
    | _ => mret tt
    end
  | None => mret tt
  end.

Definition handle_ping env address payload : handler unit :=
  if zlen payload =? 0 then mret tt else
  if negb (zlen payload =? 8) then
    _ ← nm_update (fun nm => set_state nm address (Banned Misbehavior (c_unix (pe_clock env)) (ban_expires_at (c_unix (pe_clock env)))));
    refuse "Received malformed ping command"
  else with_context "failed to send pong" (send env "pong" (le_bytes 8 (le_val payload))).

Definition handle_pong address payload : handler unit :=
  if negb (zlen payload =? 8) then mret tt else edit_node address (fun n => set_ping_nonce n None).

(** ** Headers *)

Definition handle_sendheaders address : handler unit := edit_node address (fun n => set_prefer_headers n true).

(** fork headers one by one, under the lock; whether a reorganisation is due *)
Definition accept_each (acc : HeaderStore B * bool) (h : BlockHeader) : result (HeaderStore B * bool) :=
  let '(hs, need_reorg) := acc in
  match accept_header hs h with
  | Ok (NeedReorg, hs) => Ok (hs, true)
  | Ok (_, hs) => Ok (hs, need_reorg)
  | Err _ => Ok (hs, need_reorg)
  | Panic => Panic
  end.

(** the batch under the write lock: what to persist, the locator to go on with, whether
    a reorganisation is due; nothing during the initial download when the batch fails *)
Definition commit_batch (headers : list BlockHeader) : handler (option (list header_row * option (list Hash256) * bool)) :=
  hs ← lock_headers;
  committed ← (match validate_and_commit hs headers with
    | Ok (batch, hs) => mret (Some (batch, hs, false))
    | Err _ =>
      ibd ← is_in_ibd;
      if (ibd : bool) then mret None else
      '(hs, need_reorg) ← of_res (fold_res accept_each (hs, false) headers);
      mret (Some ([], hs, need_reorg))
    | Panic => fun _ => Crashed
    end);
  match committed with
  | None => _ ← drop_lock; mret None
  | Some (batch, hs, need_reorg) =>
    locator ← (if (zlen headers =? MAX_HEADERS_PER_MSG) && negb (zlen batch =? 0) then l ← of_res (build_locator hs); mret (Some l) else mret None);
    _ ← of_res (hs_height hs);
    _ ← unlock_headers hs;
    mret (Some (batch, locator, need_reorg))
  end.

Definition follow_up env address (locator : list Hash256) : handler unit :=
  nm ← nm_get;
  if excluded_peer nm address then mret tt else
  _ ← with_context "failed to send follow-up getheaders" (send env "getheaders" (getheaders_to_bytes (mkGetHeaders locator HASH_ZERO)));
  edit_node address (fun n => set_pending_getheaders n (Some (c_now (pe_clock env)))).

(** [persist_batch] under the read lock; an error is only logged *)
Definition persist_headers_batch (batch : list header_row) : handler unit :=
  hs ← read_headers (fun hs => Ok hs);
  match persist_batch hs batch with
  | Ok hs => nm_update (fun nm => set_m_headers nm hs)
  | Err _ => mret tt
  | Panic => fun _ => Crashed
  end.

(** a peer that sent headers has at least our height *)
Definition raise_height (h : Z) (n : PeerNode) : PeerNode := if h >? p_height n then set_peer_height n h else n.

Definition handle_headers env address payload : handler unit :=
  headers ← with_context "failed to parse headers message" (of_res (message_headers_from_bytes payload));
  _ ← edit_node address (fun n => set_pending_getheaders n None);
  if zlen headers =? 0 then mret tt else
  committed ← commit_batch headers;
  match committed with
  | None => mret tt
  | Some (batch, locator, need_reorg) =>
    _ ← (if negb (zlen batch =? 0) then refresh_chain_cache else mret tt);
    nm ← nm_get;
    _ ← edit_node address (raise_height (to_signed 32 (cached_height nm)));
    _ ← (match locator with Some l => follow_up env address l | None => mret tt end);
    _ ← (if negb (zlen batch =? 0) then persist_headers_batch batch else mret tt);
    if (need_reorg : bool) then _ ← try_activate_best_chain env; mret tt else mret tt
  end.

(** the height of the first locator hash that is stored *)
Fixpoint locator_height (hs : HeaderStore B) (genesis : Hash256) (locator : list Hash256) : Z :=
  match locator with
  | [] => 0
  | hash :: locator =>
    if bool_decide (hash = genesis) then 0 else
    match hs_get hs hash with
    | Some stored => s_height stored
    | None => locator_height hs genesis locator
    end
  end.
Definition start_height (hs : HeaderStore B) (locator : list Hash256) : result Z :=
  match locator with
  | [] => Ok 0
  | _ => genesis ← hs_genesis hs; Ok (locator_height hs genesis locator)
  end.

Definition handle_getheaders env payload : handler unit :=
  msg ← with_context "failed to parse getheaders" (of_res (getheaders_from_bytes payload));
  response ← read_headers (fun hs => h ← start_height hs (locator_hashes msg); get_headers_after hs h MAX_HEADERS_PER_MSG (hash_stop msg));
  if zlen response =? 0 then mret tt else
  with_context "failed to send headers response" (send env "headers" (message_headers_to_bytes response)).

(** the hashes after a height, up to the stop hash *)
Fixpoint blocks_after (fuel : nat) (hs : HeaderStore B) (tip_height : Z) (stop : Hash256) (h : Z) (items : list InvItem) : result (list InvItem) :=
  if (h <=? tip_height) && (zlen items <? MAX_BLOCKS_PER_GETBLOCKS) then
    match fuel with
    | O => Panic
    | S fuel =>
      match hash_at_height hs h with
      | Some hash =>
        let items := items ++ [mkInv InvBlock hash] in
        if bool_decide (stop <> HASH_ZERO) && bool_decide (hash = stop) then Ok items
        else h ← u32_add h 1; blocks_after fuel hs tip_height stop h items
      | None => h ← u32_add h 1; blocks_after fuel hs tip_height stop h items
      end
    end
  else Ok items.

Definition getblocks_items (hs : HeaderStore B) (msg : MessageGetHeaders) : result (list InvItem) :=
  start ← start_height hs (locator_hashes msg);
  tip_height ← hs_height hs;
  if start >=? tip_height then Ok [] else
  h ← u32_add start 1;
  blocks_after (length (active_chain hs)) hs tip_height (hash_stop msg) h [].

Definition handle_getblocks env payload : handler unit :=
  msg ← with_context "failed to parse getblocks" (of_res (getheaders_from_bytes payload));
  items ← read_headers (fun hs => getblocks_items hs msg);
  if zlen items =? 0 then mret tt else
  with_context "failed to send inv response to getblocks" (send env "inv" (message_inv_to_bytes items)).

(** ** Inventory *)

Definition is_inv (t : InvType) (item : InvItem) : bool := inv_type_code (inv_type item) =? inv_type_code t.

Definition handle_inv env address payload : handler unit :=
  items ← with_context "failed to parse inv message" (of_res (message_inv_from_bytes payload));
  _ ← edit_node address (fun n => know_inv n (inv_hash <$> items));
  has_new_blocks ← read_headers (fun hs => Ok (existsb (fun item => is_inv InvBlock item && negb (bool_decide (is_Some (hs_get hs (inv_hash item))))) items));
  _ ← (if (has_new_blocks : bool) then
         nm ← nm_get;
         _ ← edit_node address (raise_height (to_signed 32 (u32_sat_add (cached_height nm) 1)));
         request_headers env "failed to send getheaders after block inv" address
       else mret tt);
  nm ← nm_get;
  let unknown := match m_mempool nm with Some mp => filter (fun item => is_inv InvTx item && negb (contains mp (inv_hash item)) = true) items | None => [] end in
  if zlen unknown =? 0 then mret tt else
  with_context "failed to send getdata for unknown txs" (send env "getdata" (message_inv_to_bytes unknown)).

(** one requested item; the accumulator is what was not found and the number of blocks served *)
Definition serve_item env (acc : list InvItem * Z) (item : InvItem) : handler (list InvItem * Z) :=
  let '(notfound, served) := acc in
  nm ← nm_get;
  match inv_type item with
  | InvBlock =>
    if served >=? MAX_BLOCKS_PER_GETDATA then mret (notfound ++ [item], served) else
    match m_block_store nm with
    | None => mret (notfound ++ [item], served)
    | Some store =>
      match load_block store (inv_hash item) with
      | Ok bytes => ok ← attempt (send env "block" bytes); if (ok : bool) then mret (notfound, served + 1) else mret (notfound ++ [item], served)
      | Err _ => mret (notfound ++ [item], served)
      | Panic => refuse "block load task panicked"
      end
    end
  | InvTx =>
    match m_mempool nm with
    | None => mret (notfound ++ [item], served)
    | Some mp =>
      match txs mp !! inv_hash item with
      | Some entry => ok ← attempt (send env "tx" (tx_to_bytes (e_tx entry))); if (ok : bool) then mret (notfound, served) else mret (notfound ++ [item], served)
      | None => mret (notfound ++ [item], served)
      end
    end
  | _ => mret (notfound ++ [item], served)
  end.

Definition handle_getdata env payload : handler unit :=
  items ← with_context "failed to parse getdata message" (of_res (message_inv_from_bytes payload));
  '(notfound, _) ← each (serve_item env) ([], 0) items;
  if zlen notfound =? 0 then mret tt else with_context "failed to send notfound" (send env "notfound" (message_inv_to_bytes notfound)).

Definition handle_mempool env : handler unit :=
  nm ← nm_get;
  match m_mempool nm with
  | None => mret tt
  | Some mp =>
    let txids := fst <$> map_order (txs mp) in
    if zlen txids =? 0 then mret tt else
    with_context "failed to send inv response to mempool request" (send env "inv" (message_inv_to_bytes (mkInv InvTx <$> take (Z.to_nat MAX_INV_ITEMS) txids)))
  end.

(** ** Blocks and transactions *)

Definition handle_block env payload : handler unit :=
  header ← with_context "failed to parse block header from block message" (of_res (header_from_bytes payload));
  nm_update (fun nm => match block_queue nm with
    | Some q => if pe_channel_free env then set_block_queue nm (Some (q ++ [(block_hash header, payload)])) else nm
    | None => nm
    end).

Definition handle_tx address payload : handler unit :=
  nm ← nm_get;
  match m_mempool nm, m_chainstate nm with
  | Some mp, Some cs =>
    tx ← with_context "failed to deserialize tx" (of_res (tx_from_bytes payload));
    _ ← nm_update (fun nm => mark_peer_inv_known nm address (txid tx));
    match accept_tx mp tx cs with
    | Ok (_, mp) => nm_update (fun nm => set_m_mempool nm (Some mp))
    | Err _ => mret tt
    | Panic => fun _ => Crashed
    end
  | _, _ => mret tt
  end.

(** ** Addresses *)

Definition add_address env (_ : unit) (e : AddrEntry) : handler unit :=
  let ip := a_address (ae_address e) in
  if negb (is_routable ip) then mret tt else
  if a_port (ae_address e) =? 0 then mret tt else
  nm ← nm_get;
  let '(nm1, tasks, revived) := revive_if_newer (pe_clock env) nm ip (a_port (ae_address e)) (ae_timestamp e) in
  if revived then _ ← nm_update (fun _ => nm1); spawn_tasks tasks else
  let '(nm2, tasks) := insert_outgoing (pe_clock env) nm ip (a_port (ae_address e)) in
  _ ← nm_update (fun _ => nm2);
  spawn_tasks tasks.

Definition compute_relay_score (relay_key addr_hash time_bucket peer_hash : Z) : Z := sip_words relay_key [addr_hash; time_bucket; peer_hash].

(** mark an address as known to a peer; whether it was new *)
Definition know_address (time_bucket : Z) (n : PeerNode) (ip : IpAddr) : PeerNode * bool :=
  let n := if p_addr_known_bucket n =? time_bucket then n else set_addr_known n ∅ time_bucket in
  if Z.of_nat (size (p_addr_known n)) >=? MAX_ADDR_KNOWN then (n, false) else
  (set_addr_known n ({[ip]} ∪ p_addr_known n) (p_addr_known_bucket n), negb (bool_decide (ip ∈ p_addr_known n))).

Definition relay_to env (time_bucket : Z) (peers : list (IpAddr * nat)) (e : AddrEntry) (_ : unit) (x : nat * Z) : handler unit :=
  match peers !! x.1 with
  | None => fun _ => Crashed
  | Some (peer_ip, writer) =>
    nm ← nm_get;
    match get_node nm peer_ip with
    | None => mret tt
    | Some n =>
      let '(n, fresh) := know_address time_bucket n (a_address (ae_address e)) in
      _ ← put_node peer_ip n;
      if fresh then _ ← attempt (send_on env writer "addr" (message_addr_to_bytes [e])); mret tt else mret tt
    end
  end.

Definition relay_entry env (time_bucket : Z) (peers : list (IpAddr * nat)) (_ : unit) (e : AddrEntry) : handler unit :=
  let addr_hash := sip_ip (pe_relay_key env) (a_address (ae_address e)) in
  let scored := imap (fun idx p => (idx, compute_relay_score (pe_relay_key env) addr_hash time_bucket (sip_ip (pe_relay_key env) p.1))) peers in
  each (relay_to env time_bucket peers e) tt (take ADDR_RELAY_PEER_COUNT (sort_desc scored)).

Definition relay_addr env (source : IpAddr) (entries : list AddrEntry) : handler unit :=
  if zlen entries =? 0 then mret tt else
  nm ← nm_get;
  let time_bucket := c_unix (pe_clock env) / (24 * 60 * 60) in
  let peers := omap (fun e => if bool_decide (e.1 = source) then None else if negb (bool_decide (p_connection_type e.2 = Outgoing)) then None else
                       match p_state e.2 with Connected writer => Some (e.1, writer) | _ => None end) (peer_order (m_nodes nm)) in
  each (relay_entry env time_bucket peers) tt entries.

Definition handle_addr env address payload : handler unit :=
  entries ← with_context "failed to parse addr message" (of_res (message_addr_from_bytes payload));
  nm ← nm_get;
  match get_node nm address with
  | None => mret tt
  | Some n =>
    let tokens := refill_addr_tokens (p_addr_tokens n) (sat_sub (c_now (pe_clock env)) (p_last_token_refill n)) in
    let '(tokens, fresh) := foldl (take_token (pe_clock env)) (tokens, []) entries in
    _ ← put_node address (set_tokens n tokens (c_now (pe_clock env)));
    if zlen fresh =? 0 then mret tt else
    _ ← each (add_address env) tt fresh;
    nm ← nm_get;
    let should_relay := match get_node nm address with Some n => negb (p_sent_getaddr n) | None => false end in
    if should_relay && (zlen entries <=? ADDR_RELAY_MAX_ENTRIES) then relay_addr env address fresh else mret tt
  end.

Definition handle_getaddr env address : handler unit :=
  nm ← nm_get;
  match get_node nm address with
  | None => mret tt
  | Some n =>
    if match p_last_getaddr_response n with Some last => sat_sub (c_now (pe_clock env)) last <? 60 * SECOND | None => false end then mret tt else
    _ ← put_node address (set_getaddr_response n (Some (c_now (pe_clock env))));
    nm ← nm_get;
    let shared := take 1000 (filter (fun e => is_connected (p_state e.2) && bool_decide (p_connection_type e.2 = Outgoing) && (sat_sub (c_unix (pe_clock env)) (p_last_seen e.2) <? GETADDR_RECENT_WINDOW) = true) (peer_order (m_nodes nm))) in
    if zlen shared =? 0 then mret tt else
    with_context "failed to send addr" (send env "addr" (message_addr_to_bytes (message_addr_new (c_unix (pe_clock env)) ((fun e => mkAddress (p_services e.2) e.1 (p_port e.2)) <$> shared))))
  end.

(** ** Dispatch *)

(** the bytes up to the first zero *)
Fixpoint until_nul (s : list byte) : option (list byte) :=
  match s with
  | [] => None
  | c :: s => if bool_decide (c = x00) then Some [] else cons c <$> until_nul s
  end.

Definition is_handshake (command : NetworkCommand) : bool := match command with Version | Verack => true | _ => false end.

Definition dispatch env address (command : NetworkCommand) payload : handler unit :=
  match command with
  | Version => handle_version env address payload
  | Verack => handle_verack env address
  | Ping => handle_ping env address payload
  | Pong => handle_pong address payload
  | Addr => handle_addr env address payload
  | Alert => mret tt
  | GetAddr => handle_getaddr env address
  | Inv => handle_inv env address payload
  | GetData => handle_getdata env payload
  | NotFound => mret tt
  | Headers => handle_headers env address payload
  | GetHeaders => handle_getheaders env payload
  | SendHeaders => handle_sendheaders address
  | BlockCmd => handle_block env payload
  | Tx => handle_tx address payload
  | GetBlocks => handle_getblocks env payload
  | MempoolCmd => handle_mempool env
  | Unknown _ => mret tt
  end.

Definition parse_incoming_message env address (message : Message) : handler unit :=
  match until_nul (m_command message) with
  | None => refuse "Error parsing incoming message, 'command' field is malformed"
  | Some name =>
    if negb (utf8_valid name) then refuse "command field is not valid UTF-8" else
    let command := from_command_str (String.string_of_list_byte name) in
    nm ← nm_get;
    if negb (is_handshake command) && negb match get_node nm address with Some n => is_connected (p_state n) | None => false end then mret tt
    else dispatch env address command (m_payload message)
  end.

(** a message taken from the queue of a connection *)
Definition handle_message env address (message : Message) : handler unit :=
  _ ← nm_update (fun nm => update_last_seen (pe_clock env) nm address);
  parse_incoming_message env address message.
End Handlers.
Arguments mkWorld {B UT MT IT KT}.
Arguments w_nm {B UT MT IT KT}.
Arguments w_sent {B UT MT IT KT}.
Arguments w_spawned {B UT MT IT KT}.
