(* ===== verification/PeerTableCorrect.v ===== *)
(** * PeerTableCorrect: the peer table stays within its limits

    [table_ok] bounds the table and what it keeps per peer, ties strikes to
    exclusion, and says that a peer counts as connected only after its version
    message.  Every operation of PeerTable.v keeps it.  Then: the delays of the
    backoff, how exclusion ends, how the votes on the own address are counted, and what
    becomes of a ban when the connection ends. *)
From Stdlib Require Import Strings.Byte.
From stdpp Require Import base numbers list strings gmap fin_maps.
From S2P Require Import Prelude Codec Types Compact Float64 Difficulty Validation Vec ScriptNum Signature Engine ScriptVerify Database Coin UndoStore Ledger Chainstate Pow HashOrder Mempool Headers BlockStore Network Messages BlockDownload PeerTable.

Create HintDb peers.

(** ** Strikes *)

Record strikes_ok (s : Strikes) : Prop := {
  so_range : 0 <= timeout_strikes s <= MAX_TIMEOUT_STRIKES;
  so_full : timeout_strikes s = MAX_TIMEOUT_STRIKES -> strike_excluded s = true;
  so_excluded : strike_excluded s = true -> 1 <= timeout_strikes s;
  so_last : 1 <= timeout_strikes s -> is_Some (last_strike s);
}.

Lemma strike_ok now s : strikes_ok s -> strikes_ok (strike now s).
Proof.
  intros [H1 H2 H3 H4]. unfold strike. destruct (timeout_strikes s >=? MAX_TIMEOUT_STRIKES) eqn:E; [by split|]. unfold MAX_TIMEOUT_STRIKES in *.
  replace (Z.min 255 (timeout_strikes s + 1)) with (timeout_strikes s + 1) by lia.
  split; cbn [timeout_strikes last_strike strike_excluded]; unfold MAX_TIMEOUT_STRIKES; [lia| |lia|by eexists]. intros E5. by rewrite (proj2 (Z.geb_le _ _)) by lia.
Qed.

Lemma decay_strike_ok now s : strikes_ok s -> strikes_ok (decay_strike now s).
Proof.
  intros [H1 H2 H3 H4]. unfold decay_strike. destruct (timeout_strikes s =? 0) eqn:E0; [by split|]. destruct (last_strike s) as [last|] eqn:El; [|split; try done; by rewrite El].
  destruct (_ <? _); [split; try done; by rewrite El|]. unfold sat_sub, MAX_TIMEOUT_STRIKES in *. destruct (Z.max 0 (timeout_strikes s - 1) =? 0) eqn:E1.
  - split; cbn; unfold MAX_TIMEOUT_STRIKES; [lia|lia|done|lia].
  - split; cbn; unfold MAX_TIMEOUT_STRIKES; [lia|lia|lia|by eexists].
Qed.

(** ** The invariant *)

Record node_ok (n : PeerNode) : Prop := {
  no_inv : Z.of_nat (size (p_inv_known n)) < 2 * MAX_INV_KNOWN;
  no_addr : Z.of_nat (size (p_addr_known n)) <= 5000;
  no_strikes : strikes_ok (p_strikes n);
  no_connected : is_connected (p_state n) = true -> p_version_received n = true;
}.

(** with [count] incoming connections *)
Record table_ok {B UT MT IT KT} (count : Z) (nm : NodeManager B UT MT IT KT) : Prop := {
  tk_nodes : map_Forall (fun _ n => node_ok n) (m_nodes nm);
  tk_size : Z.of_nat (size (m_nodes nm)) <= MAX_NODES;
  tk_votes : Z.of_nat (size (external_ip_votes nm)) <= MAX_EXTERNAL_IP_VOTES;
  tk_incoming : incoming_count nm = count;
}.

Section Nodes.
Implicit Types (n : PeerNode) (clk : Clock).

Lemma node_new_ok clk port ct st : is_connected st = false -> node_ok (node_new clk port ct st).
Proof. intros H. split; cbn; [done|done|split; cbn; done|congruence]. Qed.

(** changes that touch neither the sets, the strikes nor the state *)
Lemma set_port_ok n x : node_ok n -> node_ok (set_port n x).
Proof. by intros []. Qed.
Lemma set_last_seen_ok n x : node_ok n -> node_ok (set_last_seen n x).
Proof. by intros []. Qed.
Lemma set_peer_height_ok n x : node_ok n -> node_ok (set_peer_height n x).
Proof. by intros []. Qed.
Lemma set_connection_type_ok n x : node_ok n -> node_ok (set_connection_type n x).
Proof. by intros []. Qed.
Lemma set_sent_getaddr_ok n x : node_ok n -> node_ok (set_sent_getaddr n x).
Proof. by intros []. Qed.
Lemma set_getaddr_response_ok n x : node_ok n -> node_ok (set_getaddr_response n x).
Proof. by intros []. Qed.
Lemma set_pending_ip_ok n x : node_ok n -> node_ok (set_pending_ip n x).
Proof. by intros []. Qed.
Lemma set_ping_nonce_ok n x : node_ok n -> node_ok (set_ping_nonce n x).
Proof. by intros []. Qed.
Lemma set_prefer_headers_ok n x : node_ok n -> node_ok (set_prefer_headers n x).
Proof. by intros []. Qed.
Lemma set_pending_getheaders_ok n x : node_ok n -> node_ok (set_pending_getheaders n x).
Proof. by intros []. Qed.
Lemma set_tokens_ok n x y : node_ok n -> node_ok (set_tokens n x y).
Proof. by intros []. Qed.
Lemma set_saved_ok n a b c d : node_ok n -> node_ok (set_saved n a b c d).
Proof. by intros []. Qed.
Lemma set_version_fields_ok n a b c d e f : node_ok n -> node_ok (set_version_fields n a b c d e f).
Proof. by intros []. Qed.
Lemma set_version_received_true n : node_ok n -> node_ok (set_version_received n true).
Proof. intros []. split; done. Qed.

(** changes of the state *)
Lemma set_peer_state_ok n s : is_connected s = false -> node_ok n -> node_ok (set_peer_state n s).
Proof. intros Hs [H1 H2 H3 H4]. split; cbn; try done. congruence. Qed.
Lemma set_connected_ok n w : p_version_received n = true -> node_ok n -> node_ok (set_peer_state n (Connected w)).
Proof. intros Hv [H1 H2 H3 H4]. split; done. Qed.
Lemma restart_ok n since : node_ok n -> node_ok (set_version_received (set_peer_state n (Handshaking since)) false).
Proof. intros [H1 H2 H3 H4]. split; cbn; done. Qed.
Lemma clear_inv_ok n : node_ok n -> node_ok (set_inv_known n ∅).
Proof. intros [H1 H2 H3 H4]. split; cbn; done. Qed.
Lemma set_strikes_ok n s : strikes_ok s -> node_ok n -> node_ok (set_strikes n s).
Proof. intros Hs [H1 H2 H3 H4]. split; cbn; done. Qed.
Lemma ban_ok clk r n : node_ok n -> node_ok (ban clk r n).
Proof. by apply set_peer_state_ok. Qed.

Lemma union_size `{Countable A} (X Y : gset A) : (size (X ∪ Y) <= size X + size Y)%nat.
Proof. rewrite size_union_alt. assert (size (Y ∖ X) <= size Y)%nat by (apply subseteq_size; set_solver). lia. Qed.

Lemma list_to_set_size `{Countable A} (l : list A) : (size (list_to_set l : gset A) <= length l)%nat.
Proof.
  induction l as [|x l IH]; cbn [list_to_set length]; [by rewrite size_empty|]. pose proof (union_size {[x]} (list_to_set l : gset A)) as Hu. rewrite size_singleton in Hu. lia.
Qed.

Lemma know_inv_ok n l : zlen l <= MAX_INV_KNOWN -> node_ok n -> node_ok (know_inv n l).
Proof.
  intros Hl [H1 H2 H3 H4]. split; [|done..]. unfold know_inv. cbn [p_inv_known set_inv_known]. set (known := if Z.of_nat (size (p_inv_known n)) >=? MAX_INV_KNOWN then ∅ else p_inv_known n).
  assert (Z.of_nat (size known) < MAX_INV_KNOWN) by (subst known; destruct (_ >=? _) eqn:E; [rewrite size_empty; unfold MAX_INV_KNOWN; lia|lia]).
  pose proof (union_size (list_to_set l) known). pose proof (list_to_set_size l). unfold zlen in Hl. lia.
Qed.

Lemma end_session_ok n : node_ok n -> node_ok (end_session n).
Proof. intros H. by apply set_pending_getheaders_ok, clear_inv_ok. Qed.

Lemma reactivated_ok clk n port ct : node_ok n -> node_ok (reactivated clk n port ct).
Proof. intros H. apply set_pending_getheaders_ok, set_tokens_ok, set_sent_getaddr_ok, restart_ok, set_connection_type_ok, set_port_ok, H. Qed.
End Nodes.
#[export] Hint Resolve strike_ok decay_strike_ok set_port_ok set_last_seen_ok set_peer_height_ok set_connection_type_ok set_sent_getaddr_ok set_getaddr_response_ok set_pending_ip_ok
  set_ping_nonce_ok set_prefer_headers_ok set_pending_getheaders_ok set_tokens_ok set_saved_ok set_version_fields_ok set_version_received_true set_peer_state_ok restart_ok clear_inv_ok
  set_strikes_ok ban_ok end_session_ok reactivated_ok no_strikes : peers.

Section Table.
Context {B UT MT IT KT : Type} `{HP : PeerOrder}.
Notation manager := (NodeManager B UT MT IT KT).
Implicit Types (nm : manager) (clk : Clock) (address : IpAddr) (n : PeerNode) (c : Z).

(** ** Every operation keeps it *)

Lemma with_node_ok c nm address f : table_ok c nm -> (forall n, m_nodes nm !! address = Some n -> node_ok n -> node_ok (f n)) -> table_ok c (with_node nm address f).
Proof.
  intros [H1 H2 H3 H4] Hf. unfold with_node. destruct (m_nodes nm !! address) as [n|] eqn:E; [|by split]. split; cbn [m_nodes external_ip_votes incoming_count set_m_nodes]; [| |done|done].
  - apply map_Forall_insert_2; [apply Hf; [done|by apply (H1 address)]|done].
  - by rewrite map_size_insert_Some.
Qed.

Lemma fmap_nodes_ok c nm f : table_ok c nm -> (forall n, node_ok n -> node_ok (f n)) -> table_ok c (set_m_nodes nm (f <$> m_nodes nm)).
Proof.
  intros [H1 H2 H3 H4] Hf. split; cbn [m_nodes external_ip_votes incoming_count set_m_nodes]; [|by rewrite map_size_fmap|done|done].
  apply map_Forall_fmap. eapply map_Forall_impl; [exact H1|]. intros a n Hn. by apply Hf.
Qed.

Lemma get_node_ok c nm address n : table_ok c nm -> m_nodes nm !! address = Some n -> node_ok n.
Proof. intros H Hn. by apply (tk_nodes _ _ H address). Qed.

(** replacing an entry *)
Lemma insert_node_ok c nm address n0 n : table_ok c nm -> m_nodes nm !! address = Some n0 -> node_ok n -> table_ok c (set_m_nodes nm (<[address := n]> (m_nodes nm))).
Proof. intros H Hn0 Hn. pose proof (with_node_ok c nm address (fun _ => n) H (fun _ _ _ => Hn)) as Hw. unfold with_node in Hw. by rewrite Hn0 in Hw. Qed.

Lemma try_insert_ok clk c nm address port ct reset : table_ok c nm -> table_ok c (try_insert_or_reactivate clk nm address port ct reset).1.
Proof.
  intros H. unfold try_insert_or_reactivate. destruct (_ >=? _) eqn:Esz; [done|]. destruct (m_nodes nm !! address) as [n|] eqn:E.
  - pose proof (get_node_ok _ _ _ _ H E) as Hn. destruct (p_state n); cbn [fst]; try done; (eapply insert_node_ok; [done|done|destruct reset; eauto with peers]).
  - cbn [fst]. destruct H as [H1 H2 H3 H4]. split; cbn [m_nodes external_ip_votes incoming_count set_m_nodes]; [|rewrite map_size_insert_None by done; lia|done|done].
    apply map_Forall_insert_2; [|done]. apply node_new_ok. unfold initial_state. by destruct reset, ct.
Qed.

Lemma record_vote_ok c nm ip : table_ok c nm -> table_ok c (record_external_ip_vote nm ip).
Proof.
  intros [H1 H2 H3 H4]. unfold record_external_ip_vote. destruct (negb _); [by split|]. destruct (_ >=? _) eqn:E; [by split|]. split; cbn [m_nodes external_ip_votes incoming_count set_votes]; try done.
  rewrite map_size_insert. destruct (external_ip_votes nm !! ip); cbn; lia.
Qed.

Lemma table_ok_ext c nm nm' : table_ok c nm -> m_nodes nm' = m_nodes nm -> external_ip_votes nm' = external_ip_votes nm -> incoming_count nm' = incoming_count nm -> table_ok c nm'.
Proof. intros [H1 H2 H3 H4] E1 E2 E3. split; rewrite ?E1, ?E2, ?E3; done. Qed.

Lemma insert_incoming_ok clk c nm address port nm' guard : table_ok c nm -> insert_incoming clk nm address port = Ok (nm', guard) ->
  table_ok (if guard then c + 1 else c) nm' /\ (guard = true -> c < MAX_INCOMING_CONNECTIONS).
Proof.
  intros H E. unfold insert_incoming in E. pose proof (tk_incoming _ _ H) as Hc. destruct (_ >=? _) eqn:Elim in E; [by injection E as <- <-|].
  apply res_bind_Ok in E as (own & _ & E). destruct own; [by injection E as <- <-|]. destruct (match incoming_cooldowns nm !! address with Some _ => _ | None => _ end); [by injection E as <- <-|].
  pose proof (try_insert_ok clk c nm address port Incoming true H) as Ht. destruct (try_insert_or_reactivate clk nm address port Incoming true) as [nm1 inserted]. cbn [fst] in Ht.
  destruct inserted; injection E as <- <-; [|by split]. split; [|lia]. destruct Ht as [H1 H2 H3 H4]. split; cbn; try done. by rewrite H4.
Qed.

Lemma set_state_ok c nm address s : is_connected s = false -> table_ok c nm -> table_ok c (set_state nm address s).
Proof. intros Hs H. apply with_node_ok; [done|]. intros n _ Hn. apply set_peer_state_ok; [done|]. destruct s; eauto with peers. Qed.

Lemma notify_ok c nm address : table_ok c nm -> table_ok c (notify_peer_disconnected nm address).
Proof. intros H. unfold notify_peer_disconnected. destruct (disconnect_queue nm); [by eapply table_ok_ext|done]. Qed.

Lemma schedule_retry_ok clk r c nm address k : table_ok c nm -> table_ok c (schedule_retry clk r nm address k).
Proof. intros H%(notify_ok _ _ address). unfold schedule_retry. destruct (_ >=? _); by apply set_state_ok. Qed.

Lemma outgoing_ended_ok clk r c nm address k : table_ok c nm -> table_ok c (outgoing_ended clk r nm address k).
Proof. intros H. unfold outgoing_ended. destruct (m_nodes nm !! address) as [n|]; [destruct (is_banned clk (p_state n)); [done|]|]; by apply schedule_retry_ok. Qed.

Lemma incoming_ended_ok c nm address : table_ok c nm -> table_ok (c - 1) (incoming_ended nm address).
Proof. intros H%(set_state_ok _ _ address Dead eq_refl). destruct H as [H1 H2 H3 H4]. unfold incoming_ended. split; cbn [m_nodes external_ip_votes incoming_count set_incoming_count]; try done. by rewrite H4. Qed.

Lemma established_ok clk c nm address : table_ok c nm -> table_ok c (connection_established clk nm address).
Proof. intros H. apply with_node_ok; [done|]. eauto with peers. Qed.

Lemma revive_ok clk c nm address port ts : table_ok c nm -> table_ok c (revive_if_newer clk nm address port ts).1.1.
Proof.
  intros H. unfold revive_if_newer. destruct (m_nodes nm !! address) as [n|] eqn:E; [|done]. pose proof (get_node_ok _ _ _ _ H E). destruct (p_state n); try done. destruct (_ >? _); [|done].
  cbn [fst]. eapply insert_node_ok; [done|done|]. eauto with peers.
Qed.

Lemma insert_outgoing_ok clk c nm address port : table_ok c nm -> table_ok c (insert_outgoing clk nm address port).1.
Proof. intros H. unfold insert_outgoing, insert_node. pose proof (try_insert_ok clk c nm address port Outgoing false H) as Ht. by destruct (try_insert_or_reactivate _ _ _ _ _ _). Qed.

Lemma foldl_ok {X A} c (f : A -> X -> A) (g : A -> manager) l : (forall a x, table_ok c (g a) -> table_ok c (g (f a x))) -> forall a, table_ok c (g a) -> table_ok c (g (foldl f a l)).
Proof. intros Hf. induction l as [|x l IH]; intros a H; cbn [foldl]; [done|]. by apply IH, Hf. Qed.

Lemma decay_peers_ok clk c nm : table_ok c nm -> table_ok c (decay_peers clk nm).
Proof. intros H. apply fmap_nodes_ok; [done|]. eauto with peers. Qed.

Lemma scan_header_timeouts_ok clk c nm : table_ok c nm -> table_ok c (scan_header_timeouts clk nm).
Proof.
  intros H. unfold scan_header_timeouts. apply (foldl_ok c (strike_node clk) id); [intros a x Ha; apply with_node_ok; [done|]; eauto with peers|].
  apply (fmap_nodes_ok c nm); [done|]. intros n Hn. destruct (_ || _); eauto with peers.
Qed.

Lemma reaper_scan_ok clk c nm : table_ok c nm -> table_ok c (reaper_scan clk nm).1.
Proof.
  intros H. unfold reaper_scan. set (ready := omap _ _). set (stale := fst <$> filter (fun e => is_stale_node clk e.2 = true) _). set (expired := fst <$> filter (fun e => ban_expired clk e.2 = true) _).
  assert (table_ok c (foldl (retry_node clk) (nm, []) ready).1) as H1.
  { apply (foldl_ok c (retry_node clk) fst); [|done]. intros [nm1 tasks] e Ha. unfold retry_node. cbn [fst] in Ha. destruct (m_nodes nm1 !! e.1) as [n|] eqn:E; [|done].
    destruct (is_connectable clk (p_state n)); [|done]. cbn [fst]. eapply insert_node_ok; [done|done|]. apply set_peer_state_ok; [done|]. by eapply get_node_ok. }
  destruct (foldl (retry_node clk) (nm, []) ready) as [nm1 tasks]. cbn [fst] in *.
  assert (table_ok c (foldl (lift_ban clk) (foldl (reset_stale clk) nm1 stale) expired)) as [T1 T2 T3 T4].
  { apply (foldl_ok c (lift_ban clk) id); [intros a x Ha; apply with_node_ok; [done|]; intros n _ Hn; destruct (ban_expired clk n); eauto with peers|].
    apply (foldl_ok c (reset_stale clk) id); [|done]. intros a x Ha. apply with_node_ok; [done|]. intros n _ Hn. destruct (p_state n); eauto with peers. }
  split; cbn [m_nodes external_ip_votes incoming_count set_cooldowns set_votes]; try done. etransitivity; [|exact T3]. apply Nat2Z.inj_le, map_subseteq_size, map_filter_subseteq.
Qed.

Lemma load_saved_peers_ok clk c nm db : table_ok c nm -> table_ok c (load_saved_peers clk nm db).1.
Proof.
  intros H. unfold load_saved_peers. destruct (negb _); [done|]. apply (foldl_ok c (load_saved_peer clk) fst); [|done]. intros [nm1 tasks] p Ha. cbn [fst] in Ha. unfold load_saved_peer, insert_node.
  pose proof (try_insert_ok clk c nm1 (sp_ip p) (sp_port p) Outgoing false Ha) as Ht. destruct (try_insert_or_reactivate _ _ _ _ _ _) as [nm2 ins]. cbn [fst] in Ht.
  destruct ins; [|done]. cbn [fst]. apply with_node_ok; [done|]. eauto with peers.
Qed.

Lemma load_saved_bans_ok clk c nm db : table_ok c nm -> table_ok c (load_saved_bans clk nm db).
Proof.
  intros H. unfold load_saved_bans. destruct (negb _); [done|]. apply (foldl_ok c (load_saved_ban clk) id); [|done]. intros a b Ha. unfold load_saved_ban. destruct (_ <=? _); [done|].
  apply with_node_ok; [by apply try_insert_ok|]. eauto with peers.
Qed.
End Table.

(** ** Backoff *)

Definition backoff_base (attempt : Z) : Z := Z.min (30 * 2 ^ attempt) 1800.

Lemma calculate_backoff_range r k : 0 <= r -> 0 <= k -> let c := backoff_base k in c - c / 4 <= calculate_backoff r k < c + c / 4.
Proof.
  intros Hr Hk. cbv zeta. unfold calculate_backoff, backoff_base. assert (1 <= 2 ^ k) by (apply (Z.pow_le_mono_r 2 0 k); lia).
  assert (Z.min (u64_sat_mul BACKOFF_BASE_SECS (u64_sat_pow 2 k)) BACKOFF_MAX_SECS = Z.min (30 * 2 ^ k) 1800) as E by (unfold u64_sat_mul, u64_sat_pow, BACKOFF_BASE_SECS, BACKOFF_MAX_SECS, u64_max; lia).
  rewrite E. set (c := Z.min (30 * 2 ^ k) 1800). assert (30 <= c <= 1800) as Hc by (unfold c; lia). clearbody c. assert (7 <= c / 4 <= 450 /\ c / 4 <= c) as Hq by (pose proof (Z.div_mod c 4); pose proof (Z.mod_pos_bound c 4); lia).
  assert (u64_sat_mul (c / 4) 2 = 2 * (c / 4)) as -> by (unfold u64_sat_mul, u64_max; lia). rewrite (proj2 (Z.gtb_lt _ _)) by lia.
  pose proof (Z.mod_pos_bound r (2 * (c / 4)) ltac:(lia)). generalize dependent (r mod (2 * (c / 4))). intros x Hx. generalize dependent (c / 4). intros q Hq Hx. unfold u64_sat_add, sat_sub, u64_max. lia.
Qed.

Section Properties.
Context {B UT MT IT KT : Type} `{HP : PeerOrder} `{!PeerOrderLaws HP}.
Notation manager := (NodeManager B UT MT IT KT).
Implicit Types (nm : manager) (clk : Clock) (address : IpAddr) (n : PeerNode).

Lemma lookup_with_node nm address f a : m_nodes (with_node nm address f) !! a = (if decide (a = address) then f <$> m_nodes nm !! a else m_nodes nm !! a).
Proof.
  unfold with_node. destruct (m_nodes nm !! address) as [n|] eqn:E; cbn [m_nodes set_m_nodes].
  - destruct (decide (a = address)) as [->|Hne]; [by rewrite lookup_insert_eq, E|by rewrite lookup_insert_ne].
  - destruct (decide (a = address)) as [->|Hne]; [by rewrite E|done].
Qed.

Lemma notify_nodes nm address : m_nodes (notify_peer_disconnected nm address) = m_nodes nm.
Proof. unfold notify_peer_disconnected. by destruct (disconnect_queue nm). Qed.

(** a lost peer is retried with growing delays, and given up in the end.  After a
    failed or ended connection the download manager is told, the session data of the
    peer is dropped, and the peer is either dead, after ten attempts, or to be retried
    after twice the previous delay, capped at thirty minutes and varied by at most a
    quarter; so a retry is never more than 37.5 minutes away. *)
Theorem retry_schedule clk random nm address attempt n : m_nodes nm !! address = Some n -> 0 <= random -> 0 <= attempt < u32_max ->
  let nm' := schedule_retry clk random nm address attempt in
  disconnect_queue nm' = (fun q => q ++ [address]) <$> disconnect_queue nm /\
  exists n', m_nodes nm' !! address = Some n' /\ p_inv_known n' = ∅ /\ p_pending_getheaders n' = None /\
    if attempt + 1 >=? 10 then p_state n' = Dead
    else exists retry_at, p_state n' = Disconnected retry_at (attempt + 1) /\ let c := backoff_base (attempt + 1) in
      (c - c / 4) * SECOND <= retry_at - c_now clk < (c + c / 4) * SECOND /\ retry_at - c_now clk < 2250 * SECOND.
Proof.
  intros Hn Hr Ha nm'. unfold nm', schedule_retry. replace (u32_sat_add attempt 1) with (attempt + 1) by (unfold u32_sat_add; lia). split.
  - transitivity (disconnect_queue (notify_peer_disconnected nm address)); [|unfold notify_peer_disconnected; by destruct (disconnect_queue nm) eqn:E; [|rewrite E]].
    destruct (_ >=? _); unfold set_state, with_node; by destruct (m_nodes (notify_peer_disconnected nm address) !! address).
  - change MAX_RETRY_ATTEMPTS with 10. destruct (attempt + 1 >=? 10) eqn:E; unfold set_state; rewrite lookup_with_node, decide_True, notify_nodes, Hn by done; eexists; (split; [reflexivity|]); (split; [done|]); (split; [done|]); [done|].
    eexists. split; [reflexivity|]. pose proof (calculate_backoff_range random (attempt + 1) Hr ltac:(lia)) as Hb. cbv zeta in Hb |- *. set (c := backoff_base (attempt + 1)) in *.
    assert (c <= 1800) by (unfold c, backoff_base; lia). assert (c / 4 <= 450) by (pose proof (Z.div_mod c 4); pose proof (Z.mod_pos_bound c 4); lia). unfold SECOND. lia.
Qed.

(** ** How exclusion ends *)

Definition decays (s : Strikes) (times : list Z) : Strikes := foldl (fun s t => decay_strike t s) s times.

(** each time at least the decay interval after the one before *)
Fixpoint spaced (t : Z) (times : list Z) : Prop :=
  match times with
  | [] => True
  | t' :: times => t + STRIKE_DECAY_INTERVAL <= t' /\ spaced t' times
  end.

Lemma decay_interval_pos : 0 < STRIKE_DECAY_INTERVAL.
Proof. done. Qed.

Lemma decay_late s t0 t : 1 <= timeout_strikes s -> last_strike s = Some t0 -> t0 + STRIKE_DECAY_INTERVAL <= t ->
  decay_strike t s = if timeout_strikes s =? 1 then mkStrikes 0 None false else mkStrikes (timeout_strikes s - 1) (Some t) (strike_excluded s).
Proof.
  intros Hs Hl Ht. pose proof decay_interval_pos. unfold decay_strike, sat_sub. rewrite (proj2 (Z.eqb_neq _ _)) by lia. rewrite Hl, (proj2 (Z.ltb_ge _ _)) by lia.
  replace (Z.max 0 (timeout_strikes s - 1)) with (timeout_strikes s - 1) by lia. destruct (Z.eqb_spec (timeout_strikes s) 1) as [E|E].
  - by rewrite E.
  - by rewrite (proj2 (Z.eqb_neq _ _)) by lia.
Qed.

Lemma decay_early s t0 t : last_strike s = Some t0 -> t < t0 + STRIKE_DECAY_INTERVAL -> decay_strike t s = s.
Proof. intros Hl Ht. pose proof decay_interval_pos. unfold decay_strike. destruct (_ =? 0); [done|]. rewrite Hl, (proj2 (Z.ltb_lt _ _)); [done|]. unfold sat_sub. lia. Qed.

Lemma decays_early times : forall s t0, strikes_ok s -> strike_excluded s = true -> last_strike s = Some t0 -> strike_excluded (decays s times) = false ->
  exists t, t ∈ times /\ t0 + timeout_strikes s * STRIKE_DECAY_INTERVAL <= t.
Proof.
  induction times as [|t times IH]; intros s t0 Hs He Hl H; [cbn in H; congruence|]. change (decays s (t :: times)) with (decays (decay_strike t s) times) in H.
  pose proof (so_excluded _ Hs He) as H1. pose proof decay_interval_pos. destruct (decide (t0 + STRIKE_DECAY_INTERVAL <= t)) as [Hlate|Hearly].
  - pose proof (decay_strike_ok t s Hs) as Hs'. rewrite (decay_late s t0 t) in * by done. destruct (Z.eqb_spec (timeout_strikes s) 1) as [E|E]; [exists t; split; [by left|rewrite E; lia]|].
    destruct (IH _ t Hs' He eq_refl H) as (t' & Hin & Ht'). exists t'. split; [by right|]. cbn in Ht'. lia.
  - rewrite (decay_early s t0 t) in H by (done || lia). destruct (IH s t0 Hs He Hl H) as (t' & Hin & Ht'). exists t'. split; [by right|done].
Qed.

Lemma decays_spaced times : forall s t0, 1 <= timeout_strikes s <= zlen times -> last_strike s = Some t0 -> spaced t0 times -> timeout_strikes s = zlen times -> decays s times = mkStrikes 0 None false.
Proof.
  induction times as [|t times IH]; intros s t0 Hs Hl Hsp En; [change (zlen []) with 0 in *; lia|]. change (decays s (t :: times)) with (decays (decay_strike t s) times). destruct Hsp as [Ht Hsp].
  rewrite (decay_late s t0 t) by (done || lia). rewrite zlen_cons in *. destruct (Z.eqb_spec (timeout_strikes s) 1) as [E|E].
  - destruct times; [done|]. rewrite zlen_cons in *. pose proof (zlen_nonneg times). lia.
  - apply (IH _ t); cbn [timeout_strikes last_strike]; [lia|done|done|lia].
Qed.

(** an excluded peer recovers, and not too early.  Whenever decay passes have
    cleared the exclusion of a peer, one of them ran at least one decay interval (300
    seconds) per strike after the last strike, 25 minutes for a peer at the limit; and
    as many passes as strikes, each an interval after the one before, do clear
    it, with all strikes gone. *)
Theorem exclusion_expires s t0 times : strikes_ok s -> strike_excluded s = true -> last_strike s = Some t0 ->
  (strike_excluded (decays s times) = false -> exists t, t ∈ times /\ t0 + timeout_strikes s * (300 * SECOND) <= t) /\
  (spaced t0 times -> zlen times = timeout_strikes s -> decays s times = mkStrikes 0 None false).
Proof.
  intros Hs He Hl. split; [by apply decays_early|]. intros Hsp En. pose proof (so_excluded _ Hs He). apply (decays_spaced times s t0); [lia|done|done|lia].
Qed.

(** ** Votes *)

Definition votes_total (m : gmap IpAddr Z) : Z := zsum (snd <$> map_to_list m).

#[global] Instance zsum_perm : Proper ((≡ₚ) ==> eq) zsum.
Proof. intros l k H. induction H as [|x l k H IH|x y l|l1 l2 l3 H1 IH1 H2 IH2]; rewrite ?zsum_cons; lia. Qed.

Lemma elem_of_peer_order {A} (m : gmap IpAddr A) a x : (a, x) ∈ peer_order m <-> m !! a = Some x.
Proof. by rewrite peer_order_perm, elem_of_map_to_list. Qed.

Lemma sum_votes l : forall acc, 0 <= acc -> Forall (fun e : IpAddr * Z => 0 <= e.2) l -> acc + zsum (snd <$> l) <= u32_max ->
  fold_res (fun total (e : IpAddr * Z) => u32_add total e.2) acc l = (Ok (acc + zsum (snd <$> l)) : result Z).
Proof.
  induction l as [|e l IH]; intros acc Ha Hl Hm; cbn [fold_res fmap list_fmap]; [by rewrite Z.add_0_r|]. apply Forall_cons in Hl as [He Hl]. cbn [fmap list_fmap] in Hm. rewrite zsum_cons in Hm |- *.
  assert (0 <= zsum (snd <$> l)) by (apply zsum_nonneg; by apply Forall_fmap). rewrite u32_add_Ok by (split; unfold u32_max in *; lia). rewrite IH by (done || lia). f_equal. lia.
Qed.

Lemma candidates_eq (total : Z) l : Forall (fun e : IpAddr * Z => e.2 * 2 <= u32_max) l -> forall acc,
  fold_res (fun l (e : IpAddr * Z) => doubled ← (if e.2 * 2 <=? u32_max then Ok (e.2 * 2) else Panic); Ok (if (e.2 >=? 3) && (doubled >? total) then l ++ [e] else l)) acc l =
  (Ok (acc ++ filter (fun e => 3 <= e.2 /\ total < e.2 * 2) l) : result (list (IpAddr * Z))).
Proof.
  induction 1 as [|e l He Hl IH]; intros acc; cbn [fold_res]; [by rewrite app_nil_r|]. rewrite (proj2 (Z.leb_le _ _)) by done. cbn [mbind res_bind]. rewrite filter_cons.
  destruct (decide (3 <= e.2 /\ total < e.2 * 2)) as [[H1 H2]|Hno].
  - rewrite (proj2 (Z.geb_le _ _)), (proj2 (Z.gtb_lt _ _)) by lia. cbn [andb]. rewrite IH, <- app_assoc. done.
  - assert ((e.2 >=? 3) && (e.2 * 2 >? total) = false) as -> by (destruct (Z.geb_spec e.2 3), (Z.gtb_spec (e.2 * 2) total); cbn; lia || done). by rewrite IH.
Qed.

(** two majorities cannot be *)
Lemma majority_unique l total : NoDup l -> Forall (fun e : IpAddr * Z => 0 <= e.2) l -> zsum (snd <$> l) <= total -> (length (filter (fun e : IpAddr * Z => (3 <= e.2 /\ total < e.2 * 2)%Z) l) <= 1)%nat.
Proof.
  intros Hn Hp Ht. destruct (filter _ l) as [|x [|y k]] eqn:E; cbn; [lia|lia|]. exfalso.
  assert (filter (fun e => 3 <= e.2 /\ total < e.2 * 2) l ++ filter (fun e => ~ (3 <= e.2 /\ total < e.2 * 2)) l ≡ₚ l) as Hperm by apply filter_app_complement.
  rewrite <- Hperm in Ht. rewrite E, fmap_app, zsum_app in Ht. cbn [fmap list_fmap] in Ht. rewrite !zsum_cons in Ht.
  assert (0 <= zsum (snd <$> k) /\ 0 <= zsum (snd <$> filter (fun e => ~ (3 <= e.2 /\ total < e.2 * 2)) l)) as [K1 K2].
  { rewrite <- Hperm, Forall_app, E in Hp. destruct Hp as [Hp1 Hp2]. apply Forall_cons in Hp1 as [_ Hp1]. apply Forall_cons in Hp1 as [_ Hp1]. split; apply zsum_nonneg; by apply Forall_fmap. }
  assert (forall z, z ∈ x :: y :: k -> total < z.2 * 2) as Hall by (intros z Hz; rewrite <- E in Hz; by apply list_elem_of_filter in Hz as [[_ ?] _]).
  pose proof (Hall x ltac:(by left)). pose proof (Hall y ltac:(right; by left)). lia.
Qed.

(** the node's own address is the one the majority of at least three peers reported.
    [get_external_ip] answers with an address exactly when it has three votes and more
    than half of all votes, whatever order the votes are visited in; at most one
    address can have that. *)
Theorem external_ip_exact nm ip : map_Forall (fun _ v => 0 <= v) (external_ip_votes nm) -> votes_total (external_ip_votes nm) * 2 <= u32_max ->
  exists o, get_external_ip nm = Ok o /\ (o = Some ip <-> exists v, external_ip_votes nm !! ip = Some v /\ 3 <= v /\ votes_total (external_ip_votes nm) < v * 2).
Proof.
  intros Hp Ht. unfold get_external_ip. set (m := external_ip_votes nm) in *. set (l := peer_order m).
  assert (Forall (fun e : IpAddr * Z => 0 <= e.2) l) as Hl by (apply Forall_forall; intros [a v] Hin; apply elem_of_peer_order in Hin; by apply (Hp a)).
  assert (zsum (snd <$> l) = votes_total m) as Es by (unfold l, votes_total; by rewrite peer_order_perm). assert (0 <= votes_total m) by (rewrite <- Es; apply zsum_nonneg; by apply Forall_fmap).
  rewrite sum_votes by (done || rewrite ?Es; lia). cbn [mbind res_bind]. rewrite Z.add_0_l, Es. rewrite candidates_eq; cbn [mbind res_bind].
  2: { apply Forall_forall. intros e He. assert (e.2 <= zsum (snd <$> l)); [|lia]. clear -He Hl. induction Hl as [|x l Hx Hl IH]; [by apply not_elem_of_nil in He|]. cbn [fmap list_fmap]. rewrite zsum_cons.
       assert (0 <= zsum (snd <$> l)) by (apply zsum_nonneg; by apply Forall_fmap). apply elem_of_cons in He as [->|He]; [lia|]. specialize (IH He). lia. }
  cbn [app]. eexists. split; [reflexivity|]. assert (NoDup l) as Hn by (unfold l; rewrite peer_order_perm; apply NoDup_map_to_list). pose proof (majority_unique l (votes_total m) Hn Hl ltac:(lia)) as Hone.
  assert (forall v, (ip, v) ∈ filter (fun e => 3 <= e.2 /\ votes_total m < e.2 * 2) l <-> m !! ip = Some v /\ 3 <= v /\ votes_total m < v * 2) as Hmem.
  { intros v. rewrite list_elem_of_filter. unfold l. rewrite elem_of_peer_order. cbn. naive_solver. }
  destruct (filter _ l) as [|[a v] [|y k]]; cbn in Hone |- *; [|clear Hone|lia].
  - split; [done|]. intros (v & Hv). apply Hmem in Hv. by apply not_elem_of_nil in Hv.
  - split; [intros [= ->]; exists v; apply Hmem; by left|]. intros (v' & Hv). apply Hmem, list_elem_of_singleton in Hv. by injection Hv as -> ->.
Qed.

(** the reaper forgets the votes on the node's own address.  It means to drop the
    votes of peers that left, but the table is keyed by the reported address, not
    by the peer: after a scan only addresses of connected peers have votes, so the node's
    own address, which is not a peer's, is lost each time. *)
Theorem reaper_drops_votes clk nm ip : (forall n, m_nodes (reaper_scan clk nm).1 !! ip = Some n -> is_connected (p_state n) = false) ->
  external_ip_votes (reaper_scan clk nm).1 !! ip = None.
Proof.
  unfold reaper_scan. destruct (foldl (retry_node clk) _ _) as [nm1 tasks]. cbn [fst]. set (nm2 := foldl (lift_ban clk) _ _). cbn [m_nodes external_ip_votes set_cooldowns set_votes]. intros H.
  apply map_lookup_filter_None. right. intros v _. cbn [fst]. rewrite elem_of_list_to_set. intros ([a n] & -> & [Hc Hin]%list_elem_of_filter)%list_elem_of_fmap. cbn in *.
  apply elem_of_peer_order in Hin. rewrite (H n Hin) in Hc. discriminate Hc.
Qed.

(** ** Bans *)

Lemma lookup_set_state nm address s n : m_nodes nm !! address = Some n -> exists n', m_nodes (set_state nm address s) !! address = Some n' /\ p_state n' = s.
Proof. intros Hn. unfold set_state. rewrite lookup_with_node, decide_True, Hn by done. eexists. split; [reflexivity|done]. Qed.

(** a ban does not outlive an incoming connection.  When the connection of a banned
    peer ends, an outgoing peer stays banned; a peer that had connected to us is
    marked dead instead, ban and all, and once the cooldown of 30 seconds has
    passed its next connection is accepted. *)
Theorem incoming_ban_lost clk nm address n reason created expires port : m_nodes nm !! address = Some n -> p_state n = Banned reason created expires -> c_unix clk < expires ->
  (forall random attempt, outgoing_ended clk random nm address attempt = nm) /\
  (exists n', m_nodes (incoming_ended nm address) !! address = Some n' /\ p_state n' = Dead) /\
  (Z.of_nat (size (m_nodes nm)) < MAX_NODES -> incoming_count nm <= MAX_INCOMING_CONNECTIONS -> is_loopback address = false -> get_external_ip nm = Ok None ->
   (forall last, incoming_cooldowns nm !! address = Some last -> last + INCOMING_IP_COOLDOWN <= c_now clk) ->
   exists nm', insert_incoming clk (incoming_ended nm address) address port = Ok (nm', true)).
Proof.
  intros Hn Hs He. split; [intros r k; unfold outgoing_ended; rewrite Hn, Hs; cbn; by rewrite (proj2 (Z.ltb_lt _ _))|].
  destruct (lookup_set_state nm address Dead n Hn) as (n' & Hn' & Hd). split; [by exists n'|]. intros Hsz Hcnt Hlo Hip Hcd. unfold insert_incoming.
  assert (incoming_count (incoming_ended nm address) = incoming_count nm - 1) as -> by (unfold incoming_ended; cbn; unfold set_state, with_node; by rewrite Hn).
  replace (incoming_count nm - 1 >=? MAX_INCOMING_CONNECTIONS) with false by lia. rewrite Hlo.
  assert (get_external_ip (incoming_ended nm address) = Ok None) as -> by (unfold get_external_ip in *; unfold incoming_ended, set_state, with_node; rewrite Hn; exact Hip). cbn [mbind res_bind].
  rewrite bool_decide_false by done. assert (incoming_cooldowns (incoming_ended nm address) = incoming_cooldowns nm) as -> by (unfold incoming_ended, set_state, with_node; by rewrite Hn).
  assert (match incoming_cooldowns nm !! address with Some last => sat_sub (c_now clk) last <? INCOMING_IP_COOLDOWN | None => false end = false) as ->.
  { destruct (incoming_cooldowns nm !! address) as [last|] eqn:El; [|done]. specialize (Hcd last eq_refl). apply Z.ltb_ge. unfold sat_sub. lia. }
  assert (exists nm', try_insert_or_reactivate clk (incoming_ended nm address) address port Incoming true = (nm', true)) as (nm' & ->); [|by eexists].
  unfold try_insert_or_reactivate. assert (size (m_nodes (incoming_ended nm address)) = size (m_nodes nm)) as -> by (unfold incoming_ended, set_state, with_node; rewrite Hn; cbn; by rewrite map_size_insert_Some).
  replace (Z.of_nat (size (m_nodes nm)) >=? MAX_NODES) with false by lia. change (m_nodes (incoming_ended nm address)) with (m_nodes (set_state nm address Dead)). rewrite Hn', Hd. by eexists.
Qed.
End Properties.

(** ** Examples *)

Definition plain_peers : PeerOrder := {| peer_order A m := map_to_list m |}.
#[global] Instance plain_peers_laws : PeerOrderLaws plain_peers.
Proof. by split. Qed.
#[local] Existing Instance plain_peers.

Definition sample_peer : IpAddr := V4 [x05; x06; x07; x08].
Definition sample_clock : Clock := mkClock (1000 * SECOND) 1700000000.
Definition bare_headers : HeaderStore Empty_set := mkStore ∅ [] ∅ ∅ (HASH_ZERO, 0) ∅ None testing.
(** a manager with one peer and some votes *)
Definition sample_manager (s : NodeState) (votes : gmap IpAddr Z) : NodeManager Empty_set unit unit unit unit :=
  mkManager {[sample_peer := node_new sample_clock 9933 Incoming s]} 42 votes 9933 false 1 ∅ bare_headers false 0 0 None (Some []) None None None None.

Lemma retry_schedule_witness : exists n', m_nodes (schedule_retry sample_clock 5 (sample_manager (Connected 0) ∅) sample_peer 2) !! sample_peer = Some n' /\ exists t, p_state n' = Disconnected t 3.
Proof.
  destruct (retry_schedule sample_clock 5 (sample_manager (Connected 0) ∅) sample_peer 2 _ eq_refl) as (_ & n' & Hn & _ & _ & t & Ht & _); [lia|vm_compute; split; [discriminate|reflexivity]|].
  exists n'. split; [exact Hn|]. exists t. exact Ht.
Defined.

Lemma exclusion_expires_witness : decays (mkStrikes 2 (Some 0) true) [300 * SECOND; 700 * SECOND] = mkStrikes 0 None false.
Proof. apply (exclusion_expires (mkStrikes 2 (Some 0) true) 0); [split; cbn; unfold MAX_TIMEOUT_STRIKES; by (lia || eexists)|reflexivity|reflexivity|repeat split; discriminate|reflexivity]. Defined.

Lemma external_ip_exact_witness : get_external_ip (sample_manager Dead {[sample_peer := 3]}) = Ok (Some sample_peer).
Proof.
  destruct (external_ip_exact (sample_manager Dead {[sample_peer := 3]}) sample_peer) as (o & E & H); [by apply map_Forall_singleton|vm_compute; discriminate|].
  rewrite E. f_equal. apply H. exists 3. split; [reflexivity|]. split; [lia|reflexivity].
Defined.

Lemma reaper_drops_votes_witness : external_ip_votes (reaper_scan sample_clock (sample_manager Dead {[V4 [x09; x09; x09; x09] := 7]})).1 !! V4 [x09; x09; x09; x09] = None.
Proof. apply reaper_drops_votes. intros n H. vm_compute in H. discriminate H. Defined.

Lemma incoming_ban_lost_witness : exists n', m_nodes (incoming_ended (sample_manager (Banned Misbehavior 1700000000 1700086400) ∅) sample_peer) !! sample_peer = Some n' /\ p_state n' = Dead.
Proof. apply (incoming_ban_lost sample_clock (sample_manager (Banned Misbehavior 1700000000 1700086400) ∅) sample_peer _ Misbehavior 1700000000 1700086400 9933 eq_refl eq_refl). reflexivity. Defined.
