(* ===== verification/HandlersCorrect.v ===== *)
(** * HandlersCorrect: the handlers keep the peer table in order

    [preserves] lifts an invariant of the manager to tasks, with one rule per
    combinator; every handler is then shown to keep [table_ok], and with the
    operations of PeerTable.v this gives the invariant of every reachable state.  Before
    the handshake is complete, only version and verack have an effect.  The last
    sections follow two handlers through the header store: the answer to getheaders, and
    the lock taken twice on a failed batch of headers. *)
From Stdlib Require Import Strings.Byte.
From stdpp Require Import base numbers list strings gmap relations.
From S2P Require Import Prelude Codec Types Compact Float64 Difficulty Validation Vec ScriptNum Signature Engine EngineSafety ScriptVerify Database Coin UndoStore Ledger Chainstate Pow HashOrder Mempool Headers HeadersCorrect BlockStore Reorg Network Messages BlockDownload PeerTable PeerTableCorrect Handlers.

Section Keeps.
Context `{HS : Sha256} `{HD : Digests} `{HK : K256} `{HU256 : U256Overflow} `{HO : HashOrder} `{HP : PeerOrder} `{HSip : SipHash}.
Context {B UT MT IT KT : Type} {HB : HeaderBackend B} {HU : Table (list byte) (list byte) UT} {HM : Table string (list byte) MT}
  {HI : Table (list byte) (Z * Z * Z) IT} {HBI : Table (list byte) (Z * Z * Z) KT}.
Notation manager := (NodeManager B UT MT IT KT).
Notation world := (World (B := B) (UT := UT) (MT := MT) (IT := IT) (KT := KT)).
Notation handler := (task world).
Implicit Types (w : world) (nm : manager) (env : PeerEnv) (address : IpAddr) (payload : list byte).

(** the world a task ends in, however it ends *)
Definition ends_in {A} (P : manager -> Prop) (r : reply world A) : Prop :=
  match r with
  | Returned _ w | Refused _ w | Stuck w => P (w_nm w)
  | Crashed => True
  end.
Definition preserves {A} (P : manager -> Prop) (m : handler A) : Prop := forall w, P (w_nm w) -> ends_in P (m w).

Section Rules.
Context (P : manager -> Prop).

Lemma preserves_ret {A} (a : A) : preserves P (mret a).
Proof. by intros w H. Qed.
Lemma preserves_refuse {A} msg : preserves P (refuse msg : handler A).
Proof. by intros w H. Qed.
Lemma preserves_bind {A C} (m : handler A) (k : A -> handler C) : preserves P m -> (forall a, preserves P (k a)) -> preserves P (m ≫= k).
Proof. intros Hm Hk w Hw. specialize (Hm w Hw). unfold mbind, task_bind. destruct (m w) as [a w1|msg w1|w1|]; [by apply Hk|done..]. Qed.
Lemma preserves_get {C} (k : manager -> handler C) : (forall nm, P nm -> preserves P (k nm)) -> preserves P (nm_get ≫= k).
Proof. intros Hk w Hw. exact (Hk (w_nm w) Hw w Hw). Qed.
Lemma preserves_update f : (forall nm, P nm -> P (f nm)) -> preserves P (nm_update f).
Proof. intros Hf w Hw. by apply Hf. Qed.
Lemma preserves_spawn l : preserves P (spawn_tasks l).
Proof. by intros w H. Qed.
Lemma preserves_res {A} (r : result A) : preserves P (of_res r : handler A).
Proof. intros w H. unfold of_res. by destruct r. Qed.
Lemma preserves_context {A} msg (m : handler A) : preserves P m -> preserves P (with_context msg m).
Proof. intros Hm w Hw. specialize (Hm w Hw). unfold with_context. by destruct (m w). Qed.
Lemma preserves_attempt {A} (m : handler A) : preserves P m -> preserves P (attempt m).
Proof. intros Hm w Hw. specialize (Hm w Hw). unfold attempt. by destruct (m w). Qed.
Lemma preserves_each {A X} (f : A -> X -> handler A) l : (forall a x, preserves P (f a x)) -> forall a, preserves P (each f a l).
Proof. intros Hf. induction l as [|x l IH]; intros a; cbn [each]; [apply preserves_ret|]. apply preserves_bind; [apply Hf|apply IH]. Qed.
Lemma preserves_parse {A C} msg (r : result A) (k : A -> handler C) : (forall a, r = Ok a -> preserves P (k a)) -> preserves P (with_context msg (of_res r) ≫= k).
Proof. intros Hk w Hw. unfold mbind, task_bind, with_context, of_res. destruct r as [a| |]; [by apply Hk|done|done]. Qed.
Lemma preserves_crash {A} : preserves P ((fun _ => Crashed) : handler A).
Proof. by intros w H. Qed.
Lemma preserves_send_on env writer command payload : preserves P (send_on env writer command payload).
Proof. intros w H. unfold send_on. destruct (message_new _ _); [|done|done]. by destruct (pe_delivers _ _). Qed.
Lemma preserves_read {A} (f : HeaderStore B -> result A) : preserves P (read_headers f).
Proof. intros w H. unfold read_headers. destruct (m_locked (w_nm w)); [done|]. by apply (preserves_res (f (m_headers (w_nm w)))). Qed.
End Rules.

(** ** The table *)

Section Table.
Context (c : Z).
Notation preserves_table := (preserves (table_ok c)).

Lemma preserves_edit address f : (forall n, node_ok n -> node_ok (f n)) -> preserves_table (edit_node address f).
Proof. intros Hf. apply preserves_update. intros nm H. apply with_node_ok; [done|]. intros n _. apply Hf. Qed.
Lemma preserves_put address n : node_ok n -> preserves_table (put_node address n).
Proof. intros Hn. by apply preserves_edit. Qed.
Lemma preserves_node {C} msg address (k : PeerNode -> handler C) : (forall n, node_ok n -> preserves_table (k n)) -> preserves_table (node_or_refuse msg address ≫= k).
Proof.
  intros Hk w Hw. unfold node_or_refuse, mbind, task_bind, nm_get. destruct (get_node (w_nm w) address) as [n|] eqn:E; [|done]. apply Hk; [|done]. by apply (get_node_ok c (w_nm w) address).
Qed.
Lemma preserves_lock {C} (k : HeaderStore B -> handler C) : (forall hs, preserves_table (k hs)) -> preserves_table (lock_headers ≫= k).
Proof.
  intros Hk w Hw. unfold lock_headers, mbind, task_bind. destruct (m_locked (w_nm w)); [done|]. apply Hk. cbn. by apply (table_ok_ext c (w_nm w)).
Qed.

Lemma table_ok_same nm nm' : table_ok c nm -> m_nodes nm' = m_nodes nm -> external_ip_votes nm' = external_ip_votes nm -> incoming_count nm' = incoming_count nm -> table_ok c nm'.
Proof. apply table_ok_ext. Qed.
End Table.
End Keeps.

(** take a task apart *)
Ltac preserves_split :=
  repeat match goal with
  | |- preserves _ (match ?x with _ => _ end) => destruct x eqn:?
  | |- preserves _ (let '(_, _) := ?x in _) => destruct x eqn:?
  | |- preserves _ (nm_get ≫= _) => apply preserves_get; intros
  | |- preserves _ (node_or_refuse _ _ ≫= _) => apply preserves_node; intros
  | |- preserves _ (lock_headers ≫= _) => apply preserves_lock; intros
  | |- preserves _ (with_context _ (of_res _) ≫= _) => apply preserves_parse; intros ? ?
  | |- preserves _ (_ ≫= _) => apply preserves_bind; [|intros]
  | |- preserves _ (mret _) => apply preserves_ret
  | |- preserves _ (refuse _) => apply preserves_refuse
  | |- preserves _ (of_res _) => apply preserves_res
  | |- preserves _ (with_context _ _) => apply preserves_context
  | |- preserves _ (attempt _) => apply preserves_attempt
  | |- preserves _ (each _ _ _) => apply preserves_each; intros
  | |- preserves _ (fun _ => Crashed) => apply preserves_crash
  | |- preserves _ (send_on _ _ _ _) => apply preserves_send_on
  | |- preserves _ (send _ _ _) => apply preserves_send_on
  | |- preserves _ (read_headers _) => apply preserves_read
  | |- preserves _ (spawn_tasks _) => apply preserves_spawn
  | |- preserves _ (put_node _ _) => apply preserves_put
  | |- preserves _ (edit_node _ _) => apply preserves_edit; intros
  end.

Section Handlers.
Context `{HS : Sha256} `{HD : Digests} `{HK : K256} `{HU256 : U256Overflow} `{HO : HashOrder} `{HP : PeerOrder} `{HSip : SipHash}.
Context {B UT MT IT KT : Type} {HB : HeaderBackend B} {HU : Table (list byte) (list byte) UT} {HM : Table string (list byte) MT}
  {HI : Table (list byte) (Z * Z * Z) IT} {HBI : Table (list byte) (Z * Z * Z) KT}.
Notation manager := (NodeManager B UT MT IT KT).
Notation world := (World (B := B) (UT := UT) (MT := MT) (IT := IT) (KT := KT)).
Notation handler := (task world).
Implicit Types (w : world) (nm : manager) (env : PeerEnv) (address : IpAddr) (payload : list byte).
Context (c : Z).
Notation preserves_table := (preserves (B := B) (UT := UT) (MT := MT) (IT := IT) (KT := KT) (table_ok c)).

Lemma send_version_keeps env address port : preserves_table (send_version env address port).
Proof. unfold send_version. preserves_split. Qed.

Lemma handle_version_keeps env address payload : preserves_table (handle_version env address payload).
Proof.
  unfold handle_version, version_check, version_commit. preserves_split; eauto with peers. by apply send_version_keeps.
Qed.

Lemma record_vote_keeps env ip : preserves_table (record_vote env ip).
Proof.
  unfold record_vote, probe_reachability. preserves_split; apply preserves_update; intros; first [by apply record_vote_ok|by eapply table_ok_ext].
Qed.

Lemma request_headers_keeps env msg address : preserves_table (request_headers env msg address).
Proof. unfold request_headers. preserves_split. eauto with peers. Qed.

Lemma handle_verack_keeps env address : preserves_table (handle_verack env address).
Proof.
  unfold handle_verack, advertise. preserves_split; eauto with peers.
  - apply set_pending_ip_ok, set_sent_getaddr_ok, set_connected_ok; [|done]. by apply negb_false_iff.
  - apply record_vote_keeps.
  - apply request_headers_keeps.
Qed.

Lemma handle_ping_keeps env address payload : preserves_table (handle_ping env address payload).
Proof. unfold handle_ping. preserves_split. apply preserves_update. intros nm. by apply set_state_ok. Qed.

Lemma handle_pong_keeps address payload : preserves_table (handle_pong address payload).
Proof. unfold handle_pong. preserves_split. eauto with peers. Qed.

Lemma send_ping_keeps env nonce address : preserves_table (send_ping env nonce address).
Proof. unfold send_ping. preserves_split. apply set_ping_nonce_ok. by eapply get_node_ok. Qed.

(** steps that leave the table alone *)
Lemma aside_keeps (f : manager -> manager) : (forall nm, m_nodes (f nm) = m_nodes nm /\ external_ip_votes (f nm) = external_ip_votes nm /\ incoming_count (f nm) = incoming_count nm) -> preserves_table (nm_update f).
Proof. intros Hf. apply preserves_update. intros nm H. destruct (Hf nm) as (E1 & E2 & E3). by apply (table_ok_ext c nm). Qed.

Lemma is_in_ibd_keeps : preserves_table is_in_ibd.
Proof. unfold is_in_ibd. preserves_split. Qed.

Lemma commit_batch_keeps headers : preserves_table (commit_batch headers).
Proof. unfold commit_batch, drop_lock, unlock_headers. preserves_split; try apply is_in_ibd_keeps; by apply aside_keeps. Qed.

Lemma try_activate_keeps env : preserves_table (try_activate_best_chain env).
Proof.
  unfold try_activate_best_chain, after_reorg, drop_lock. preserves_split; try apply is_in_ibd_keeps; apply aside_keeps; try done. intros nm'. by destruct (reorg_queue nm').
Qed.

Lemma raise_height_ok h n : node_ok n -> node_ok (raise_height h n).
Proof. intros H. unfold raise_height. destruct (_ >? _); eauto with peers. Qed.

Lemma handle_headers_keeps env address payload : preserves_table (handle_headers env address payload).
Proof.
  unfold handle_headers, refresh_chain_cache, follow_up, persist_headers_batch. preserves_split; eauto using raise_height_ok with peers; try (by apply aside_keeps).
  - apply commit_batch_keeps.
  - apply try_activate_keeps.
Qed.

Lemma inv_items_bound bytes items : message_inv_from_bytes bytes = Ok items -> zlen items <= MAX_INV_SIZE.
Proof.
  rewrite inv_from_bytes. destruct (counted _ _ _ _ bytes) as [[l rest]| |] eqn:E; [|done..]. intros [= <-]. apply (counted_canonical raw_item) in E as (Hl & _).
  etransitivity; [|exact Hl]. unfold zlen. apply Nat2Z.inj_le. clear. induction l as [|x l IH]; cbn; [lia|]. destruct (known x); cbn; lia.
Qed.

Lemma handle_inv_keeps env address payload : preserves_table (handle_inv env address payload).
Proof.
  unfold handle_inv. preserves_split; [|by apply raise_height_ok|apply request_headers_keeps]. apply know_inv_ok; [|done]. unfold zlen. rewrite length_fmap. by apply inv_items_bound in H.
Qed.

Lemma serve_item_keeps env acc item : preserves_table (serve_item env acc item).
Proof. unfold serve_item. preserves_split. Qed.

Lemma handle_tx_keeps address payload : preserves_table (handle_tx address payload).
Proof.
  unfold handle_tx. preserves_split; [|by apply aside_keeps]. apply preserves_update. intros nm' H'. apply with_node_ok; [done|]. intros n _ Hn. by apply know_inv_ok.
Qed.

Lemma add_address_keeps env u e : preserves_table (add_address env u e).
Proof.
  unfold add_address. preserves_split; apply preserves_update; intros nm' _.
  - match goal with E : revive_if_newer ?clk ?nm ?a ?p ?t = _, H : table_ok c ?nm |- _ => pose proof (revive_ok clk c nm a p t H) as Hr; rewrite E in Hr; exact Hr end.
  - match goal with E : insert_outgoing ?clk ?nm ?a ?p = _, H : table_ok c ?nm |- _ => pose proof (insert_outgoing_ok clk c nm a p H) as Hr; rewrite E in Hr; exact Hr end.
Qed.

Lemma know_address_ok b n ip n' fresh : node_ok n -> know_address b n ip = (n', fresh) -> node_ok n'.
Proof.
  intros [H1 H2 H3 H4]. unfold know_address. set (n1 := if _ =? b then n else _). assert (node_ok n1) as Hn1 by (unfold n1; destruct (_ =? b); split; cbn; done || (rewrite size_empty; lia)).
  destruct (_ >=? _) eqn:E; intros [= <- <-]; [done|]. destruct Hn1 as [K1 K2 K3 K4]. split; cbn; try done. pose proof (union_size {[ip]} (p_addr_known n1)) as Hu. rewrite size_singleton in Hu.
  unfold MAX_ADDR_KNOWN in E. lia.
Qed.

Lemma relay_to_keeps env b peers e u x : preserves_table (relay_to env b peers e u x).
Proof. unfold relay_to. preserves_split; eapply know_address_ok; try done; by eapply get_node_ok. Qed.

Lemma handle_addr_keeps env address payload : preserves_table (handle_addr env address payload).
Proof.
  unfold handle_addr, relay_addr, relay_entry. preserves_split; [|apply add_address_keeps|apply relay_to_keeps]. apply set_tokens_ok. by eapply get_node_ok.
Qed.

Lemma handle_getaddr_keeps env address : preserves_table (handle_getaddr env address).
Proof. unfold handle_getaddr. preserves_split. apply set_getaddr_response_ok. by eapply get_node_ok. Qed.

Lemma dispatch_keeps env address command payload : preserves_table (dispatch env address command payload).
Proof.
  unfold dispatch. destruct command; try apply preserves_ret.
  - apply handle_version_keeps.
  - apply handle_verack_keeps.
  - apply handle_ping_keeps.
  - apply handle_pong_keeps.
  - apply handle_getaddr_keeps.
  - apply handle_addr_keeps.
  - apply handle_inv_keeps.
  - unfold handle_getdata. preserves_split. apply serve_item_keeps.
  - unfold handle_getheaders. preserves_split.
  - apply handle_headers_keeps.
  - unfold handle_sendheaders. preserves_split. eauto with peers.
  - unfold handle_block. preserves_split. apply aside_keeps. intros nm. destruct (block_queue nm); [|done]. by destruct (pe_channel_free env).
  - apply handle_tx_keeps.
  - unfold handle_mempool. preserves_split.
  - unfold handle_getblocks. preserves_split.
Qed.

Lemma handle_message_keeps env address m : preserves_table (handle_message env address m).
Proof.
  unfold handle_message, parse_incoming_message. preserves_split; [|apply dispatch_keeps]. apply preserves_update. intros nm H. apply with_node_ok; [done|]. eauto with peers.
Qed.
End Handlers.

(** ** Reachable states *)

Section System.
Context `{HS : Sha256} `{HD : Digests} `{HK : K256} `{HU256 : U256Overflow} `{HO : HashOrder} `{HP : PeerOrder} `{HSip : SipHash}.
Context {B UT MT IT KT : Type} {HB : HeaderBackend B} {HU : Table (list byte) (list byte) UT} {HM : Table string (list byte) MT}
  {HI : Table (list byte) (Z * Z * Z) IT} {HBI : Table (list byte) (Z * Z * Z) KT}.
Notation manager := (NodeManager B UT MT IT KT).
Notation world := (World (B := B) (UT := UT) (MT := MT) (IT := IT) (KT := KT)).
Implicit Types (w : world) (nm : manager) (env : PeerEnv) (address : IpAddr) (payload : list byte) (live : Z).

(** an operation on the table by a connection task, a scan, or the start-up *)
Inductive table_op : manager -> manager -> Prop :=
| op_outgoing clk nm address port : table_op nm (insert_outgoing clk nm address port).1
| op_established clk nm address : table_op nm (connection_established clk nm address)
| op_retry clk random nm address attempt : table_op nm (schedule_retry clk random nm address attempt)
| op_outgoing_ended clk random nm address attempt : table_op nm (outgoing_ended clk random nm address attempt)
| op_reaper clk nm : table_op nm (reaper_scan clk nm).1
| op_header_scan clk nm : table_op nm (scan_header_timeouts clk nm)
| op_decay clk nm : table_op nm (decay_peers clk nm)
| op_strike clk nm address : table_op nm (strike_node clk nm address)
| op_load_peers clk nm db : table_op nm (load_saved_peers clk nm db).1
| op_load_bans clk nm db : table_op nm (load_saved_bans clk nm db)
| op_other nm nm' : m_nodes nm' = m_nodes nm -> external_ip_votes nm' = external_ip_votes nm -> incoming_count nm' = incoming_count nm -> table_op nm nm'.

Definition set_nm w nm : world := mkWorld nm (w_sent w) (w_spawned w).

(** the world a task leaves when it returns, fails, or waits forever *)
Definition leaves (r : reply world unit) w' : Prop := r = Returned tt w' \/ (exists msg, r = Refused msg w') \/ r = Stuck w'.

Lemma leaves_keeps P (m : task world unit) w w' : preserves P m -> P (w_nm w) -> leaves (m w) w' -> P (w_nm w').
Proof. intros Hk Hw Hl. specialize (Hk w Hw). by destruct Hl as [Hl|[[msg Hl]|Hl]]; rewrite Hl in Hk. Qed.

(** the world with the number of open incoming connections *)
Inductive peer_step : world * Z -> world * Z -> Prop :=
| ps_message env address m w w' live : leaves (handle_message env address m w) w' -> peer_step (w, live) (w', live)
| ps_ping env nonce address w w' live : leaves (send_ping env nonce address w) w' -> peer_step (w, live) (w', live)
| ps_incoming clk address port w nm' guard live : insert_incoming clk (w_nm w) address port = Ok (nm', guard) -> peer_step (w, live) (set_nm w nm', if guard then live + 1 else live)
| ps_incoming_ended address w live : 0 < live -> peer_step (w, live) (set_nm w (incoming_ended (w_nm w) address), live - 1)
| ps_table w nm' live : table_op (w_nm w) nm' -> peer_step (w, live) (set_nm w nm', live).

Lemma table_op_ok c nm nm' : table_op nm nm' -> table_ok c nm -> table_ok c nm'.
Proof.
  intros [clk nm0 a p|clk nm0 a|clk r nm0 a k|clk r nm0 a k|clk nm0|clk nm0|clk nm0|clk nm0 a|clk nm0 db|clk nm0 db|nm0 nm1 E1 E2 E3] H.
  - by apply insert_outgoing_ok.
  - by apply established_ok.
  - by apply schedule_retry_ok.
  - by apply outgoing_ended_ok.
  - by apply reaper_scan_ok.
  - by apply scan_header_timeouts_ok.
  - by apply decay_peers_ok.
  - apply with_node_ok; [done|]. eauto with peers.
  - by apply load_saved_peers_ok.
  - by apply load_saved_bans_ok.
  - by apply (table_ok_ext c nm0).
Qed.

Definition peers_inv (s : world * Z) : Prop := table_ok s.2 (w_nm s.1) /\ 0 <= s.2 <= MAX_INCOMING_CONNECTIONS.

Lemma peer_step_inv s s' : peer_step s s' -> peers_inv s -> peers_inv s'.
Proof.
  intros [env a m w w' live H|env r a w w' live H|clk a p w nm' guard live H|a w live Hl|w nm' live H] [Ht Hb]; cbn [fst snd] in *; unfold peers_inv; cbn [fst snd set_nm w_nm].
  - split; [|done]. by apply (leaves_keeps _ _ w w' (handle_message_keeps live env a m)).
  - split; [|done]. by apply (leaves_keeps _ _ w w' (send_ping_keeps live env r a)).
  - destruct (insert_incoming_ok clk live (w_nm w) a p nm' guard Ht H) as [Ht' Hg]. split; [by destruct guard|]. destruct guard; [specialize (Hg eq_refl); lia|lia].
  - split; [by apply incoming_ended_ok|lia].
  - split; [by eapply table_op_ok|done].
Qed.

Lemma peer_steps_inv s s' : rtc peer_step s s' -> peers_inv s -> peers_inv s'.
Proof. induction 1 as [|s1 s2 s3 H _ IH]; [done|]. intros Hi. by apply IH, (peer_step_inv s1). Qed.

(** C9: the peer table stays within its limits, whatever peers send and whenever they
    come and go.  From an empty table, through any sequence of messages, connections,
    disconnections, scans and loads: at most 5000 peers are tracked, at most 125
    incoming connections are open and the counter is exactly their number, at most 100
    addresses have votes; per peer at most 99999 known inventory hashes and 5000 known
    addresses are remembered, strikes stay between 0 and 5 with exclusion from 5 on and
    only with strikes left, and a peer counts as connected only after
    its version message was accepted. *)
Theorem peer_table_invariant w0 w live : m_nodes (w_nm w0) = ∅ -> external_ip_votes (w_nm w0) = ∅ -> incoming_count (w_nm w0) = 0 -> rtc peer_step (w0, 0) (w, live) ->
  (Z.of_nat (size (m_nodes (w_nm w))) <= 5000 /\ Z.of_nat (size (external_ip_votes (w_nm w))) <= 100 /\ incoming_count (w_nm w) = live /\ 0 <= live <= 125) /\
  forall address n, m_nodes (w_nm w) !! address = Some n ->
    Z.of_nat (size (p_inv_known n)) < 100000 /\ Z.of_nat (size (p_addr_known n)) <= 5000 /\ 0 <= timeout_strikes (p_strikes n) <= 5 /\
    (timeout_strikes (p_strikes n) = 5 -> strike_excluded (p_strikes n) = true) /\ (strike_excluded (p_strikes n) = true -> 1 <= timeout_strikes (p_strikes n)) /\
    (is_connected (p_state n) = true -> p_version_received n = true).
Proof.
  intros E1 E2 E3 H. assert (peers_inv (w0, 0)) as H0.
  { split; [|done]. split; cbn [fst snd]; rewrite ?E1, ?E2, ?E3; [apply map_Forall_empty|done..]. }
  destruct (peer_steps_inv _ _ H H0) as [[T1 T2 T3 T4] Hl]. cbn [fst snd] in *. split; [done|]. intros a n Hn. destruct (T1 a n Hn) as [N1 N2 [S1 S2 S3 S4] N4]. done.
Qed.

(** ** The handshake comes first *)

(** a property of the peer at [address], if it is there *)
Definition at_peer address (Q : PeerNode -> Prop) nm : Prop := forall n, m_nodes nm !! address = Some n -> Q n.

Lemma with_node_at address Q f nm : at_peer address Q nm -> (forall n, Q n -> Q (f n)) -> at_peer address Q (with_node nm address f).
Proof. intros H Hf n Hn. rewrite lookup_with_node, decide_True in Hn by done. apply fmap_Some in Hn as (n0 & Hn0 & ->). by apply Hf, H. Qed.

Definition not_connected (n : PeerNode) : Prop := is_connected (p_state n) = false.
Notation off address := (at_peer address not_connected).

Lemma preserves_edit_off address f : (forall n, not_connected n -> not_connected (f n)) -> preserves (off address) (edit_node address f).
Proof. intros Hf. apply preserves_update. intros nm H. by apply with_node_at. Qed.

Lemma preserves_node_off {C} msg address (k : PeerNode -> task world C) : (forall n, not_connected n -> preserves (off address) (k n)) -> preserves (off address) (node_or_refuse msg address ≫= k).
Proof.
  intros Hk w Hw. unfold node_or_refuse, mbind, task_bind, nm_get. destruct (get_node (w_nm w) address) as [n|] eqn:E; [|done]. apply Hk; [|done]. by apply Hw.
Qed.

Lemma version_keeps_off env address payload : preserves (off address) (handle_version env address payload).
Proof.
  unfold handle_version, version_check, version_commit, send_version. apply preserves_parse. intros v _. apply preserves_bind.
  { apply preserves_node_off. intros n Hn. preserves_split; by apply preserves_edit_off. }
  intros [inc port]. apply preserves_bind; [preserves_split|]. intros _. destruct (v_start_height v <? 0).
  { apply preserves_bind; [by apply preserves_edit_off|]. intros. apply preserves_refuse. }
  apply preserves_bind; [apply preserves_res|]. intros _. apply preserves_bind; [|intros; preserves_split]. apply preserves_node_off. intros n Hn. destruct (p_state n) eqn:Es; try apply preserves_refuse. apply preserves_edit_off. intros n' _. by unfold not_connected; cbn; rewrite Es.
Qed.

(** a verack before the version message bans the peer *)
Lemma early_verack_off env address w w' : at_peer address (fun n => p_version_received n = false) (w_nm w) -> off address (w_nm w) -> leaves (handle_verack env address w) w' -> off address (w_nm w').
Proof.
  intros Hv Hoff H. unfold handle_verack, node_or_refuse, mbind, task_bind, nm_get, get_node in H. destruct (m_nodes (w_nm w) !! address) as [n|] eqn:E.
  - cbn [mret task_ret] in H. rewrite (Hv n E) in H. cbn [negb] in H. destruct H as [H|[[msg H]|H]]; [discriminate H| |discriminate H]. injection H as _ <-.
    intros n' Hn'. cbn in Hn'. rewrite lookup_with_node, decide_True in Hn' by done. by apply fmap_Some in Hn' as (? & _ & ->).
  - destruct H as [H|[[msg H]|H]]; [discriminate H| |discriminate H]. by injection H as _ <-.
Qed.

(** the command of a message *)
Definition command_of (m : Message) : option NetworkCommand :=
  name ← until_nul (m_command m); if utf8_valid name then Some (from_command_str (String.string_of_list_byte name)) else None.

Lemma dispatch_message env address m : (parse_incoming_message env address m : task world unit) =
  match command_of m with
  | Some command => nm ← nm_get; if negb (is_handshake command) && negb match get_node nm address with Some n => is_connected (p_state n) | None => false end then mret tt else dispatch env address command (m_payload m)
  | None => refuse (if until_nul (m_command m) then "command field is not valid UTF-8" else "Error parsing incoming message, 'command' field is malformed")
  end.
Proof. unfold parse_incoming_message, command_of. destruct (until_nul (m_command m)) as [name|]; [|done]. cbn [mbind option_bind]. by destruct (utf8_valid name). Qed.

(** C16: nothing but the handshake is heard before it is complete.  While a peer is not
    connected, a message with a command other than version and verack only
    updates the time it was last seen: it is answered with nothing and changes nothing
    else.  And the peer becomes connected by no message other than a verack, once its
    version message was accepted. *)
Theorem handshake_gate env address m w : at_peer address not_connected (w_nm w) ->
  let w1 := set_nm w (update_last_seen (pe_clock env) (w_nm w) address) in
  (forall command, command_of m = Some command -> is_handshake command = false -> handle_message env address m w = Returned tt w1) /\
  (forall w' n', leaves (handle_message env address m w) w' -> m_nodes (w_nm w') !! address = Some n' -> is_connected (p_state n') = true ->
     command_of m = Some Verack /\ exists n, m_nodes (w_nm w) !! address = Some n /\ p_version_received n = true).
Proof.
  intros Hoff w1. assert (at_peer address not_connected (w_nm w1)) as Hoff1 by (apply with_node_at; [done|]; done).
  assert (match get_node (w_nm w1) address with Some n => is_connected (p_state n) | None => false end = false) as Hgate.
  { destruct (get_node (w_nm w1) address) as [n|] eqn:E; [by apply Hoff1|done]. }
  assert (handle_message env address m w = parse_incoming_message env address m w1) as -> by done. rewrite dispatch_message. split.
  - intros command -> Hh. unfold mbind, task_bind, nm_get. by rewrite Hh, Hgate.
  - intros w' n' Hend Hn' Hc. assert (at_peer address not_connected (w_nm w') -> False) as Hno by (intros H; specialize (H n' Hn'); unfold not_connected in H; congruence).
    destruct (command_of m) as [command|]; [|exfalso; apply Hno; exact (leaves_keeps _ (refuse _) w1 w' (preserves_refuse _ _) Hoff1 Hend)].
    destruct (is_handshake command) eqn:Eh; [|exfalso; apply Hno; unfold mbind, task_bind, nm_get in Hend; rewrite Hgate in Hend; exact (leaves_keeps _ (mret tt) w1 w' (preserves_ret _ _) Hoff1 Hend)].
    destruct command; try discriminate Eh.
    + exfalso. apply Hno. by apply (leaves_keeps _ _ w1 w' (version_keeps_off env address (m_payload m))).
    + split; [done|]. destruct (m_nodes (w_nm w) !! address) as [n|] eqn:E.
      * exists n. split; [done|]. destruct (p_version_received n) eqn:Ev; [done|]. exfalso. apply Hno. apply (early_verack_off env address w1 w'); [|done..].
        intros n1 Hn1. unfold w1, update_last_seen in Hn1. cbn in Hn1. rewrite lookup_with_node, decide_True, E in Hn1 by done. by injection Hn1 as <-.
      * exfalso. apply Hno. apply (early_verack_off env address w1 w'); [|done..].
        intros n1 Hn1. unfold w1, update_last_seen in Hn1. cbn in Hn1. by rewrite lookup_with_node, decide_True, E in Hn1.
Qed.

(** C36: a batch of headers that does not extend the chain blocks the node.  The handler
    takes the write lock of the header store and, when the batch fails, asks whether the
    node is in its initial download, which waits for the read lock of the same
    store: the task never goes on, and the lock is never released. *)
Theorem headers_deadlock env address payload w headers msg : m_locked (w_nm w) = false -> message_headers_from_bytes payload = Ok headers -> headers <> [] ->
  validate_and_commit (m_headers (w_nm w)) headers = Err msg ->
  exists w', handle_headers env address payload w = Stuck w' /\ m_locked (w_nm w') = true /\ (forall A (f : HeaderStore B -> result A), read_headers f w' = Stuck w').
Proof.
  intros Hl Hp Hne Hv. unfold handle_headers. unfold mbind, task_bind, with_context, of_res. rewrite Hp. unfold edit_node, nm_update. cbn [w_nm w_sent w_spawned].
  set (w1 := mkWorld _ _ _). assert (zlen headers =? 0 = false) as -> by (destruct headers; [done|]; rewrite zlen_cons; pose proof (zlen_nonneg headers); lia).
  assert (m_locked (w_nm w1) = false /\ m_headers (w_nm w1) = m_headers (w_nm w)) as [Hl1 Hh1] by (unfold w1, with_node; cbn; by destruct (m_nodes (w_nm w) !! address)).
  unfold commit_batch, mbind, task_bind, lock_headers. rewrite Hl1, Hh1, Hv. unfold is_in_ibd, mbind, task_bind, read_headers. cbn [w_nm m_locked set_locked].
  eexists. split; [reflexivity|]. split; [done|]. intros A f. done.
Qed.
End System.

(** ** Examples *)

#[local] Existing Instance toy_sha256.
#[local] Existing Instance toy_digests.
#[local] Existing Instance toy_k256.
#[local] Existing Instance plain_order.
#[local] Existing Instance plain_peers.
#[local] Existing Instance no_backend.
#[local] Existing Instance trap.
#[local] Instance plain_sip : SipHash := {| sip_ip key _ := key; sip_words key _ := key |}.

Notation sample_world := (World (B := Empty_set) (UT := gmap (list byte) (list byte)) (MT := gmap string (list byte)) (IT := gmap (list byte) (Z * Z * Z)) (KT := gmap (list byte) (Z * Z * Z))).

Definition sample_env : PeerEnv := mkPeerEnv sample_clock 0 (fun _ => true) [] 1 false true true.
(** a manager with the peers [nodes] and the header store [hs], before any component is attached *)
Definition world_of (nodes : gmap IpAddr PeerNode) (hs : HeaderStore Empty_set) (live : Z) : sample_world :=
  mkWorld (mkManager nodes 42 ∅ 9933 false live ∅ hs false 0 0 None (Some []) None None None None) [] [].

Definition joined : result (sample_world * bool) :=
  '(nm, guard) ← insert_incoming sample_clock (w_nm (world_of ∅ bare_headers 0)) sample_peer 9933; Ok (set_nm (world_of ∅ bare_headers 0) nm, guard).

(** a peer connects and is gone again *)
Lemma peer_table_invariant_witness : exists w, joined = Ok (w, true) /\ incoming_count (w_nm w) = 1 /\ incoming_count (incoming_ended (w_nm w) sample_peer) = 0.
Proof.
  assert (exists w, joined = Ok (w, true)) as [w E].
  { assert (match insert_incoming sample_clock (w_nm (world_of ∅ bare_headers 0)) sample_peer 9933 with Ok (_, guard) => guard | _ => false end = true) as H by (vm_compute; reflexivity).
    unfold joined. destruct (insert_incoming _ _ _ _) as [[nm g]| |]; [|discriminate H..]. subst g. eexists. reflexivity. }
  exists w. split; [exact E|]. apply res_bind_Ok in E as ([nm g] & E & E'). injection E' as <- ->.
  assert (rtc peer_step (world_of ∅ bare_headers 0, 0) (set_nm (world_of ∅ bare_headers 0) nm, 1)) as H1 by (apply rtc_once, (ps_incoming sample_clock sample_peer 9933 _ _ true 0 E)).
  destruct (peer_table_invariant (world_of ∅ bare_headers 0) _ 1 eq_refl eq_refl eq_refl H1) as ((_ & _ & Hc & _) & _). split; [exact Hc|].
  destruct (peer_table_invariant (world_of ∅ bare_headers 0) (set_nm (set_nm (world_of ∅ bare_headers 0) nm) (incoming_ended nm sample_peer)) 0 eq_refl eq_refl eq_refl) as ((_ & _ & Hc' & _) & _); [|exact Hc'].
  eapply rtc_r; [exact H1|]. exact (ps_incoming_ended sample_peer (set_nm (world_of ∅ bare_headers 0) nm) 1 ltac:(lia)).
Defined.

Definition half_open : sample_world := world_of {[sample_peer := node_new sample_clock 9933 Incoming (Connecting 0)]} bare_headers 1.
Definition bare_message (command : string) : Message := mkMessage NET_MAGIC (take 12 (String.list_byte_of_string command ++ replicate 12 x00)) 0 0 [].

Lemma handshake_gate_witness : handle_message sample_env sample_peer (bare_message "getheaders") half_open = Returned tt (set_nm half_open (update_last_seen sample_clock (w_nm half_open) sample_peer)).
Proof.
  refine (proj1 (handshake_gate sample_env sample_peer (bare_message "getheaders") half_open _) GetHeaders _ _).
  - intros n Hn. vm_compute in Hn. injection Hn as <-. reflexivity.
  - reflexivity.
  - reflexivity.
Defined.

(** a header whose parent is not known *)
Definition orphan_header : BlockHeader := child_of (child_of root_header 7) 7.

Lemma orphan_refused : exists hs msg, fresh_store = Ok hs /\ validate_and_commit hs [orphan_header] = Err msg.
Proof.
  assert (match fresh_store with Ok hs => match validate_and_commit hs [orphan_header] with Err _ => true | _ => false end | _ => false end = true) as H by (vm_compute; reflexivity).
  destruct fresh_store as [hs| |]; [|discriminate H..]. destruct (validate_and_commit hs [orphan_header]) as [?|msg|] eqn:E; [discriminate H| |discriminate H]. by exists hs, msg.
Qed.

Lemma orphan_payload : message_headers_from_bytes (message_headers_to_bytes [orphan_header]) = Ok [orphan_header].
Proof. vm_compute. reflexivity. Qed.

Lemma headers_deadlock_witness : exists hs w', fresh_store = Ok hs /\ handle_headers sample_env sample_peer (message_headers_to_bytes [orphan_header]) (world_of ∅ hs 0) = Stuck w'.
Proof.
  destruct orphan_refused as (hs & msg & E & Hv). exists hs.
  destruct (headers_deadlock sample_env sample_peer (message_headers_to_bytes [orphan_header]) (world_of ∅ hs 0) [orphan_header] msg eq_refl orphan_payload) as (w' & H & _); [discriminate|exact Hv|].
  exists w'. split; [exact E|exact H].
Defined.
