(* ===== verification/Serving.v ===== *)
(** * Serving: what the node answers to requests for headers and data

    The answer to getheaders is compared with the active chain after the height the
    locator selects, and getdata with the items asked for. *)
From Stdlib Require Import Strings.Byte.
From stdpp Require Import base numbers list strings gmap relations.
From S2P Require Import Prelude Codec Types Compact Float64 Difficulty Validation Vec ScriptNum Signature Engine EngineSafety ScriptVerify Database Coin UndoStore Ledger Chainstate Pow HashOrder Mempool Headers HeadersCorrect BlockStore Reorg Network Messages BlockDownload PeerTable PeerTableCorrect Handlers HandlersCorrect.

(** [l] up to and including [stop]; all of it when [stop] is zero or does not occur *)
Fixpoint upto (stop : Hash256) (l : list Hash256) : list Hash256 :=
  match l with
  | [] => []
  | x :: l => if bool_decide (stop <> HASH_ZERO) && bool_decide (x = stop) then [x] else x :: upto stop l
  end.

Section Serving.
Context `{HS : Sha256} `{HD : Digests} `{HK : K256} `{HU256 : U256Overflow} `{HO : HashOrder} `{HP : PeerOrder} `{HSip : SipHash}.
Context {B UT MT IT KT : Type} {HB : HeaderBackend B} {HU : Table (list byte) (list byte) UT} {HM : Table string (list byte) MT}
  {HI : Table (list byte) (Z * Z * Z) IT} {HBI : Table (list byte) (Z * Z * Z) KT}.
Notation manager := (NodeManager B UT MT IT KT).
Notation world := (World (B := B) (UT := UT) (MT := MT) (IT := IT) (KT := KT)).
Implicit Types (w : world) (hs : HeaderStore B) (g x stop : Hash256) (env : PeerEnv) (payload : list byte).

(** ** Headers *)

(** [header] is stored under [x] *)
Definition stored_as hs x (header : BlockHeader) : Prop := exists s, by_hash hs !! x = Some s /\ s_header s = header.

Lemma active_stored g hs i x : store_ok g hs -> active_chain hs !! i = Some x -> exists s, by_hash hs !! x = Some s /\ s_height s = Z.of_nat i.
Proof. intros Hok Hi. destruct (so_active _ _ Hok) as (t & Hc). by destruct (ct_at _ _ _ Hc i x Hi) as [_ H]. Qed.

(** on the active chain each header names the one below it *)
Lemma active_prev g hs i x s : store_ok g hs -> active_chain hs !! S i = Some x -> by_hash hs !! x = Some s -> active_chain hs !! i = Some (prev_hash (s_header s)).
Proof.
  intros Hok Hi Hs. destruct (active_stored g hs (S i) x Hok Hi) as (s' & Hs' & Hh). simplify_eq. destruct (so_active _ _ Hok) as (t & Hc). destruct (ct_at _ _ _ Hc _ _ Hi) as [Ha _].
  destruct (tk_parent _ _ (so_tree _ _ Hok) x s Hs) as (q & Hq & He); [lia|].
  assert (parent (by_hash hs) x (prev_hash (s_header s))) as Hp by (exists s; split; [done|]; split; [lia|done]).
  assert (at_height (by_hash hs) (prev_hash (s_header s)) (Z.of_nat i)) as Hq' by (replace (Z.of_nat i) with (Z.of_nat (S i) - 1) by lia; eapply parent_height; [apply (so_tree _ _ Hok)|done|by exists s]).
  pose proof (chain_to_tip _ _ _ Hc) as Ht. assert (vec_index (active_chain hs) (Z.of_nat i) = Some (prev_hash (s_header s))) as Hv.
  { eapply chain_to_index; [apply (so_tree _ _ Hok)|exact Ht|exact Hc| |exact Hq']. by eapply rtc_r. }
  unfold vec_index in Hv. by rewrite (proj2 (Z.leb_le _ _)), Nat2Z.id in Hv by lia.
Qed.

Lemma active_height g hs : store_ok g hs -> zlen (active_chain hs) <= 2 ^ 32 -> hs_height hs = Ok (zlen (active_chain hs) - 1) /\ 1 <= zlen (active_chain hs).
Proof.
  intros Hok Hl. destruct (so_active _ _ Hok) as (t & Hc). pose proof (ct_last _ _ _ Hc) as E. unfold hs_height, usize_sub, zlen in *.
  destruct (active_chain hs) as [|y l]; [done|]. cbn [length] in *. rewrite (proj2 (Z.ltb_ge _ _)) by lia. cbn [mbind res_bind]. rewrite Z.mod_small by lia. split; [done|lia].
Qed.

Lemma headers_after_loop_ok g hs stop maxc : store_ok g hs -> zlen (active_chain hs) < 2 ^ 32 -> 0 <= maxc -> forall fuel h acc, (length (active_chain hs) <= h + fuel)%nat ->
  exists response, headers_after_loop fuel hs (zlen (active_chain hs) - 1) maxc stop (Z.of_nat h) acc = Ok (acc ++ response) /\
    Forall2 (stored_as hs) (upto stop (take (Z.to_nat maxc - length acc) (drop h (active_chain hs)))) response.
Proof.
  intros Hok Hl Hm. induction fuel as [|fuel IH]; intros h acc Hf; cbn [headers_after_loop]; unfold zlen in *.
  - replace (Z.of_nat h <=? Z.of_nat (length (active_chain hs)) - 1) with false by lia. cbn [andb]. exists []. rewrite app_nil_r, drop_ge, take_nil by lia. by split; [|constructor].
  - destruct (Z.of_nat h <=? _) eqn:Eh; cbn [andb]; [|exists []; rewrite app_nil_r, drop_ge, take_nil by lia; by split; [|constructor]].
    destruct (Z.of_nat (length acc) <? maxc) eqn:Em; [|exists []; rewrite app_nil_r; replace (Z.to_nat maxc - length acc)%nat with 0%nat by lia; by split; [|constructor]].
    destruct (lookup_lt_is_Some_2 (active_chain hs) h) as [x Hx]; [lia|]. destruct (active_stored g hs h x Hok Hx) as (s & Hs & _).
    unfold vec_index. rewrite (proj2 (Z.leb_le 0 _)), Nat2Z.id, Hx by lia. cbn [or_panic mbind res_bind]. rewrite Hs.
    rewrite (drop_S _ _ _ Hx). replace (Z.to_nat maxc - length acc)%nat with (S (Z.to_nat maxc - length (acc ++ [s_header s])))%nat by (rewrite length_app; cbn; lia).
    cbn [take upto]. unfold vec_push. destruct (bool_decide (stop <> HASH_ZERO) && bool_decide (x = stop)).
    + exists [s_header s]. split; [done|]. repeat constructor. by exists s.
    + unfold u32_add. rewrite (proj2 (inU_spec 32 _)) by (unfold U; lia). cbn [or_panic mbind res_bind]. destruct (IH (S h) (acc ++ [s_header s])) as (r & E & Hr); [lia|].
      replace (Z.of_nat h + 1) with (Z.of_nat (S h)) by lia. rewrite E. exists (s_header s :: r). rewrite <- app_assoc. split; [done|]. constructor; [by exists s|done].
Qed.

Lemma get_headers_after_ok g hs start maxc stop : store_ok g hs -> zlen (active_chain hs) < 2 ^ 32 -> 0 <= maxc -> 0 <= start ->
  exists response, get_headers_after hs start maxc stop = Ok response /\ Forall2 (stored_as hs) (upto stop (take (Z.to_nat maxc) (drop (S (Z.to_nat start)) (active_chain hs)))) response.
Proof.
  intros Hok Hl Hm Hs. destruct (active_height g hs Hok) as [Eh H1]; [lia|]. unfold get_headers_after. rewrite Eh. cbn [mbind res_bind]. destruct (start >=? _) eqn:E.
  - exists []. unfold zlen in E. rewrite drop_ge, take_nil by lia. by split; [|constructor].
  - unfold u32_add. rewrite (proj2 (inU_spec 32 _)) by (unfold U; lia). cbn [or_panic mbind res_bind]. replace (start + 1) with (Z.of_nat (S (Z.to_nat start))) by lia.
    destruct (headers_after_loop_ok g hs stop maxc Hok Hl Hm (length (active_chain hs)) (S (Z.to_nat start)) []) as (r & E' & Hr); [lia|]. exists r. rewrite E'. cbn [length app] in *. by rewrite Nat.sub_0_r in Hr.
Qed.

Lemma upto_head stop l : head (upto stop l) = head l.
Proof. destruct l as [|x l]; [done|]. cbn [upto]. by destruct (_ && _). Qed.

Lemma locator_height_nonneg g hs genesis l : store_ok g hs -> 0 <= locator_height hs genesis l.
Proof.
  intros Hok. induction l as [|x l IH]; cbn [locator_height]; [done|]. case_bool_decide; [done|]. unfold hs_get. destruct (by_hash hs !! x) as [s|] eqn:E; [|done].
  apply (tk_range _ _ (so_tree _ _ Hok) x s E).
Qed.

(** the first stored hash of the locator decides *)
Lemma locator_height_first g hs genesis before x s after : store_ok g hs -> active_chain hs !! 0%nat = Some genesis -> Forall (fun y => by_hash hs !! y = None) before -> by_hash hs !! x = Some s ->
  locator_height hs genesis (before ++ x :: after) = s_height s.
Proof.
  intros Hok Hg Hb Hx. destruct (active_stored g hs 0 genesis Hok Hg) as (s0 & Hs0 & E0). induction Hb as [|y l Hy Hb IH]; cbn [app locator_height].
  - case_bool_decide as Hd; [subst; simplify_eq; lia|]. unfold hs_get. by rewrite Hx.
  - rewrite bool_decide_false by congruence. unfold hs_get. by rewrite Hy.
Qed.

Lemma start_height_ok g hs l : store_ok g hs -> exists genesis, active_chain hs !! 0%nat = Some genesis /\ start_height hs l = Ok (locator_height hs genesis l).
Proof.
  intros Hok. destruct (so_active _ _ Hok) as (t & Hc). pose proof (ct_last _ _ _ Hc) as E. unfold start_height, hs_genesis, vec_index. destruct (active_chain hs) as [|genesis ch]; [done|].
  exists genesis. split; [done|]. by destruct l.
Qed.

(** C24: the answer to getheaders.  Without an error or a wait, the peer gets the headers of
    the active chain above the height of its first known locator hash, one per
    height, at most 2000 and none after the stop hash, or no message when there are
    none; their first one extends the block of the active chain at that height.  It
    therefore extends the peer's locator hash exactly when that hash is on the active
    chain: a hash that is known but on a fork is taken for the fork point,
    and the peer is sent headers it cannot connect. *)
Theorem getheaders_answer env payload w msg g before x s after : store_ok g (m_headers (w_nm w)) -> m_locked (w_nm w) = false -> zlen (active_chain (m_headers (w_nm w))) < 2 ^ 32 ->
  getheaders_from_bytes payload = Ok msg -> locator_hashes msg = before ++ x :: after -> Forall (fun y => by_hash (m_headers (w_nm w)) !! y = None) before -> by_hash (m_headers (w_nm w)) !! x = Some s ->
  exists response,
    Forall2 (stored_as (m_headers (w_nm w))) (upto (hash_stop msg) (take 2000 (drop (S (Z.to_nat (s_height s))) (active_chain (m_headers (w_nm w)))))) response /\
    handle_getheaders env payload w = (if zlen response =? 0 then Returned tt w else with_context "failed to send headers response" (send env "headers" (message_headers_to_bytes response)) w) /\
    (forall header, head response = Some header -> active_chain (m_headers (w_nm w)) !! Z.to_nat (s_height s) = Some (prev_hash header) /\
      (prev_hash header = x <-> x ∈ active_chain (m_headers (w_nm w)))).
Proof.
  set (hs := m_headers (w_nm w)). intros Hok Hlk Hl Hp Hloc Hb Hx. destruct (start_height_ok g hs (locator_hashes msg) Hok) as (genesis & Hg & Es).
  rewrite Hloc, (locator_height_first g hs genesis before x s after Hok Hg Hb Hx) in Es. pose proof (tk_range _ _ (so_tree _ _ Hok) x s Hx) as [Hs0 _].
  destruct (get_headers_after_ok g hs (s_height s) 2000 (hash_stop msg) Hok Hl ltac:(lia) Hs0) as (r & Er & Hr). exists r. split; [exact Hr|]. split.
  - unfold handle_getheaders, mbind, task_bind, with_context at 1, of_res at 1. rewrite Hp. unfold read_headers. rewrite Hlk. fold hs. rewrite Hloc, Es. cbn [res_bind]. unfold MAX_HEADERS_PER_MSG. rewrite Er. cbn [of_res]. by destruct (zlen r =? 0).
  - intros header Hh. assert (exists y, active_chain hs !! S (Z.to_nat (s_height s)) = Some y /\ stored_as hs y header) as (y & Hy & s' & Hs' & <-).
    { destruct r as [|z r]; [done|]. injection Hh as ->. apply Forall2_cons_inv_r in Hr as (y & l & Hy & _ & El). exists y. split; [|done].
      rewrite <- (Nat.add_0_r (S _)), <- lookup_drop, <- head_lookup. assert (head (upto (hash_stop msg) (take (Z.to_nat 2000) (drop (S (Z.to_nat (s_height s))) (active_chain hs)))) = Some y) as H by by rewrite El.
      rewrite upto_head in H. destruct (drop _ _); [done|]. by injection H as ->. }
    pose proof (active_prev g hs _ y s' Hok Hy Hs') as Hprev. split; [done|]. split; [intros <-; by eapply list_elem_of_lookup_2|].
    intros [i Hi]%list_elem_of_lookup. destruct (active_stored g hs i x Hok Hi) as (s2 & Hs2 & E2). simplify_eq. rewrite E2, Nat2Z.id in Hprev. congruence.
Qed.

(** ** Data *)

(** the message that answers [item], and why there is none *)
Definition answers env (nm : manager) (item : InvItem) (m : nat * string * list byte * bool) : Prop :=
  match inv_type item with
  | InvBlock => exists store bytes, m_block_store nm = Some store /\ load_block store (inv_hash item) = Ok bytes /\ m = (pe_writer env, "block", bytes, true)
  | InvTx => exists mp entry, m_mempool nm = Some mp /\ txs mp !! inv_hash item = Some entry /\ m = (pe_writer env, "tx", tx_to_bytes (e_tx entry), true)
  | _ => False
  end.
Definition unavailable (nm : manager) (served : Z) (item : InvItem) : Prop :=
  match inv_type item with
  | InvBlock => served = MAX_BLOCKS_PER_GETDATA \/ forall store bytes, m_block_store nm = Some store -> load_block store (inv_hash item) = Ok bytes -> MAX_MESSAGE_SIZE < zlen bytes
  | InvTx => forall mp entry, m_mempool nm = Some mp -> txs mp !! inv_hash item = Some entry -> MAX_MESSAGE_SIZE < zlen (tx_to_bytes (e_tx entry))
  | _ => True
  end.
Definition block_count (l : list InvItem) : Z := zlen (filter (fun item => is_inv InvBlock item = true) l).

Section Data.
Context (env : PeerEnv) (Hdel : forall k, pe_delivers env k = true).

Definition sent_more w (l : list (nat * string * list byte * bool)) : world := mkWorld (w_nm w) (w_sent w ++ l) (w_spawned w).

Lemma attempt_send command payload w ok w' : is_ok (set_command (String.list_byte_of_string command)) = true -> attempt (send env command payload) w = Returned ok w' ->
  if ok then w' = sent_more w [(pe_writer env, command, payload, true)] else w' = w /\ MAX_MESSAGE_SIZE < zlen payload.
Proof.
  intros [c Hc]%is_ok_Ok. unfold attempt, send, send_on, message_new. rewrite Hdel, Hc. destruct (zlen payload >? MAX_MESSAGE_SIZE) eqn:E; cbn; intros [= <- <-]; [|done]. split; [done|lia].
Qed.

(** one item is answered or reported, never both *)
Lemma serve_item_step nf served item w nf' served' w' : served <= MAX_BLOCKS_PER_GETDATA -> serve_item env (nf, served) item w = Returned (nf', served') w' ->
  (exists m, answers env (w_nm w) item m /\ nf' = nf /\ w' = sent_more w [m] /\ served' = served + (if is_inv InvBlock item then 1 else 0) /\ served' <= MAX_BLOCKS_PER_GETDATA) \/
  (unavailable (w_nm w) served item /\ nf' = nf ++ [item] /\ w' = w /\ served' = served).
Proof.
  intros Hs. unfold serve_item, answers, unavailable, is_inv, mbind, task_bind, nm_get. destruct (inv_type item) eqn:Et; cbn [inv_type_code Z.eqb Pos.eqb]; [| |intros [= <- <- <-]; by right..].
  - destruct (m_mempool (w_nm w)) as [mp|]; [|intros [= <- <- <-]; right; split; [intros; by simplify_eq|done]]. destruct (txs mp !! inv_hash item) as [entry|] eqn:Ee; [|intros [= <- <- <-]; right; split; [|done]; intros; by simplify_eq].
    destruct (attempt _ w) as [ok w1| | |] eqn:Ea; [|done..]. apply attempt_send in Ea; [|done]. destruct ok; intros [= <- <- <-].
    + left. eexists. split; [by eexists _, _|]. split_and!; [done|done|lia|lia].
    + destruct Ea as [-> Hm]. right. split; [|done]. intros; by simplify_eq.
  - destruct (served >=? MAX_BLOCKS_PER_GETDATA) eqn:Es; [intros [= <- <- <-]; right; split; [left; lia|done]|]. destruct (m_block_store (w_nm w)) as [store|]; [|intros [= <- <- <-]; right; split; [by right|done]].
    destruct (load_block store (inv_hash item)) as [bytes| |] eqn:El; [|intros [= <- <- <-]; right; split; [right; congruence|done]|done].
    destruct (attempt _ w) as [ok w1| | |] eqn:Ea; [|done..]. apply attempt_send in Ea; [|done]. destruct ok; intros [= <- <- <-].
    + left. eexists. split; [by eexists _, _|]. split_and!; [done|done|lia|lia].
    + destruct Ea as [-> Hm]. right. split; [|done]. right. intros store0 bytes0 [= <-] El0. congruence.
Qed.

Lemma serve_items items : forall nf served w nf' served' w', served <= MAX_BLOCKS_PER_GETDATA -> each (serve_item env) (nf, served) items w = Returned (nf', served') w' ->
  exists found missing sent, items ≡ₚ found ++ missing /\ nf' = nf ++ missing /\ w' = sent_more w sent /\ Forall2 (answers env (w_nm w)) found sent /\
    served' = served + block_count found /\ served' <= MAX_BLOCKS_PER_GETDATA /\ Forall (fun item => unavailable (w_nm w) served' item) missing.
Proof.
  induction items as [|item items IH]; intros nf served w nf' served' w' Hs; cbn [each]; unfold mbind, task_bind.
  { intros [= <- <- <-]. exists [], [], []. rewrite !app_nil_r. unfold sent_more, block_count. rewrite !app_nil_r. destruct w. change (zlen (filter _ [])) with 0. rewrite Z.add_0_r. split_and!; [done|done|done|constructor|done|done|constructor]. }
  destruct (serve_item env (nf, served) item w) as [[nf1 served1] w1| | |] eqn:E1; [|done..]. intros E2. apply serve_item_step in E1 as [(m & Ha & -> & -> & Es & Hs1)|(Hu & -> & -> & ->)]; [| |done].
  - apply IH in E2 as (found & missing & sent & Hp & -> & -> & Hf & -> & Hle & Hu); [|done]. exists (item :: found), missing, (m :: sent). unfold sent_more. cbn [w_nm w_sent w_spawned app]. rewrite <- app_assoc.
    split_and!; [by constructor|done|done|by constructor| |done|done]. rewrite Es. unfold block_count. rewrite filter_cons. destruct (decide _) as [Ei|Ei]; [rewrite Ei, zlen_cons; lia|]. destruct (is_inv InvBlock item); [done|lia].
  - apply IH in E2 as (found & missing & sent & Hp & -> & -> & Hf & -> & Hle & Hm); [|done]. exists found, (item :: missing), sent. rewrite <- app_assoc.
    split_and!; [by rewrite Hp, Permutation_middle|done|done|done|done|done|]. constructor; [|done]. revert Hu. unfold unavailable. destruct (inv_type item); [done| |done..]. intros [Hu|Hu]; [left|by right].
    pose proof (zlen_nonneg (filter (fun item => is_inv InvBlock item = true) found)). unfold block_count in *. lia.
Qed.
End Data.

(** C25: every item of a getdata request is answered once.  While messages get
    through, each item is either sent, as the stored block or the pool's transaction, or
    listed in one notfound message at the end, never both; at most 16 blocks are sent
    per request; and an item is reported missing only when the node does not have it, it
    is of a kind that is not served, it does not fit a message, or the 16 blocks
    were used up.  The state of the node does not change. *)
Theorem getdata_answers env payload items w w' : (forall k, pe_delivers env k = true) -> message_inv_from_bytes payload = Ok items -> handle_getdata env payload w = Returned tt w' ->
  exists found missing sent, items ≡ₚ found ++ missing /\ Forall2 (answers env (w_nm w)) found sent /\ block_count found <= 16 /\
    Forall (unavailable (w_nm w) (block_count found)) missing /\ w_nm w' = w_nm w /\
    w_sent w' = w_sent w ++ sent ++ (if zlen missing =? 0 then [] else [(pe_writer env, "notfound", message_inv_to_bytes missing, true)]).
Proof.
  intros Hdel Hp. unfold handle_getdata, mbind, task_bind, with_context at 1, of_res. rewrite Hp. destruct (each (serve_item env) ([], 0) items w) as [[nf served] w1| | |] eqn:E; [|done..].
  apply (serve_items env Hdel) in E as (found & missing & sent & Hpm & -> & -> & Hf & -> & Hle & Hu); [|done]. cbn [app]. intros H. exists found, missing, sent. rewrite Z.add_0_l in *. split_and!; [done..| |].
  - destruct (zlen missing =? 0); [by injection H as <-|]. unfold with_context, send, send_on in H. destruct (message_new _ _) in H; [|done|done]. rewrite Hdel in H. by injection H as <-.
  - destruct (zlen missing =? 0); [injection H as <-; by rewrite app_nil_r|]. unfold with_context, send, send_on in H. destruct (message_new _ _) in H; [|done|done]. rewrite Hdel in H. injection H as <-. cbn. by rewrite <- app_assoc.
Qed.
End Serving.

(** ** Examples *)

#[local] Existing Instance toy_sha256.
#[local] Existing Instance toy_digests.
#[local] Existing Instance toy_k256.
#[local] Existing Instance plain_order.
#[local] Existing Instance plain_peers.
#[local] Existing Instance no_backend.
#[local] Existing Instance trap.
#[local] Existing Instance plain_sip.

(** a peer on a fork asks for headers *)
Definition fork_request : MessageGetHeaders := mkGetHeaders [block_hash orphan_header; block_hash branch_b1] HASH_ZERO.
Lemma fork_request_parses : getheaders_from_bytes (getheaders_to_bytes fork_request) = Ok fork_request.
Proof. vm_compute. reflexivity. Qed.

Definition fork_facts (hs : HeaderStore Empty_set) : bool :=
  bool_decide (by_hash hs !! block_hash orphan_header = None) && bool_decide (option_map s_height (by_hash hs !! block_hash branch_b1) = Some 1) &&
  bool_decide (block_hash branch_b1 ∉ active_chain hs) && bool_decide (length (active_chain hs) = 3%nat).

Lemma fork_store : exists (hs : HeaderStore Empty_set) s, store_ok (block_hash root_header) hs /\ by_hash hs !! block_hash orphan_header = None /\
  by_hash hs !! block_hash branch_b1 = Some s /\ s_height s = 1 /\ block_hash branch_b1 ∉ active_chain hs /\ length (active_chain hs) = 3%nat.
Proof.
  assert (exists hs, (hs ← fresh_store; hs ← accept_all hs [branch_a1; branch_a2; branch_b1]; if fork_facts hs then Ok hs else Err EmptyString) = Ok hs) as [hs H] by (apply is_ok_Ok; vm_compute; reflexivity).
  apply res_bind_Ok in H as (hs0 & E0 & H). destruct (fresh_store_ok hs0 E0) as [Hok0 _]. apply res_bind_Ok in H as (hs1 & E1 & H). destruct (fork_facts hs1) eqn:Ef; [|discriminate H].
  unfold fork_facts in Ef. apply andb_true_iff in Ef as [[[F1 F2]%andb_true_iff F3]%andb_true_iff F4]. apply bool_decide_eq_true in F1, F2, F3, F4.
  destruct (by_hash hs1 !! block_hash branch_b1) as [s|] eqn:Es; [|discriminate F2]. injection F2 as F2. exists hs1, s. split; [|exact (conj F1 (conj Es (conj F2 (conj F3 F4))))].
  apply accept_all_steps in E1. eapply (rtc_ind_r (store_ok (block_hash root_header))); [exact Hok0| |exact E1]. intros x y _ Hxy. exact (kept_step_ok _ _ _ Hxy).
Qed.

Lemma getheaders_answer_witness : exists (hs : HeaderStore Empty_set) header response, handle_getheaders sample_env (getheaders_to_bytes fork_request) (world_of ∅ hs 0) =
    with_context "failed to send headers response" (send sample_env "headers" (message_headers_to_bytes (header :: response))) (world_of ∅ hs 0) /\ prev_hash header <> block_hash branch_b1.
Proof.
  destruct fork_store as (hs & s & Hok & Ho & Hs & Hh & Hf & Hl). exists hs.
  destruct (getheaders_answer sample_env (getheaders_to_bytes fork_request) (world_of ∅ hs 0) fork_request (block_hash root_header) [block_hash orphan_header] (block_hash branch_b1) s []) as (r & Hr & E & Hp).
  - exact Hok.
  - reflexivity.
  - cbn [w_nm world_of m_headers]. unfold zlen. rewrite Hl. reflexivity.
  - exact fork_request_parses.
  - reflexivity.
  - constructor; [exact Ho|constructor].
  - exact Hs.
  - cbn [w_nm world_of m_headers] in *. rewrite Hh in Hr. apply Forall2_length in Hr. destruct r as [|header r].
    + exfalso. destruct (active_chain hs) as [|x0 [|x1 [|x2 [|x3 l]]]]; [discriminate Hl..| |discriminate Hl]. change (Z.to_nat 1) with 1%nat in Hr. cbn [drop take upto hash_stop fork_request] in Hr. destruct (_ && _) in Hr; discriminate Hr.
    + exists header, r. split; [rewrite E; unfold zlen; cbn [length]; rewrite (proj2 (Z.eqb_neq _ _)) by lia; reflexivity|]. intros Hc. apply Hf. by apply (Hp header eq_refl).
Defined.

(** a transaction and a block the node does not have *)
Definition data_request : list InvItem := [mkInv InvTx (block_hash branch_a1); mkInv InvBlock (block_hash branch_b1)].

Lemma data_request_parses : message_inv_from_bytes (message_inv_to_bytes data_request) = Ok data_request.
Proof. vm_compute. reflexivity. Qed.
Lemma data_request_served : exists w', handle_getdata sample_env (message_inv_to_bytes data_request) (world_of ∅ bare_headers 0) = Returned tt w'.
Proof.
  assert (match handle_getdata sample_env (message_inv_to_bytes data_request) (world_of ∅ bare_headers 0) with Returned _ _ => true | _ => false end = true) as H by (vm_compute; reflexivity).
  destruct (handle_getdata _ _ _) as [[] w'| | |]; [by exists w'|discriminate H..].
Qed.

Lemma getdata_answers_witness : exists w', handle_getdata sample_env (message_inv_to_bytes data_request) (world_of ∅ bare_headers 0) = Returned tt w' /\ length (w_sent w') = 1%nat.
Proof.
  destruct data_request_served as [w' Hw]. exists w'. split; [exact Hw|].
  destruct (getdata_answers sample_env (message_inv_to_bytes data_request) data_request (world_of ∅ bare_headers 0) w' (fun _ => eq_refl) data_request_parses Hw) as (found & missing & sent & Hpm & Hf & _ & _ & _ & E).
  rewrite E. destruct Hf as [|item m found sent Ha Hf].
  - cbn [w_sent world_of app]. destruct (zlen missing =? 0) eqn:Ez; [|reflexivity]. exfalso. apply Permutation_length in Hpm. unfold zlen in Ez. cbn [app] in Hpm. rewrite <- Hpm in Ez. discriminate Ez.
  - exfalso. unfold answers in Ha. destruct (inv_type item); [destruct Ha as (? & ? & Hn & _); discriminate Hn|destruct Ha as (? & ? & Hn & _); discriminate Hn|exact Ha|exact Ha].
Defined.
