(* ===== verification/Connections.v ===== *)
(** * Connections: the tasks around the peer table (nodes/mod.rs, network.rs)

    The life of one connection: connecting with its retries, the loop that reads
    the socket, feeds the message queue and handles the messages, and what happens to the
    peer when the loop ends.  Then the listener with its rate limit, the
    periodic announcement of the node's own address, the shutdown, the
    numbers shown to the user, and the manager as it is created and attached to a header
    database.

    A socket is a sequence of events, each with the surroundings of the iteration that
    handles it; [envs i] are those of the message with [i] more after it in the queue.
    A loop that is given no more events is still open. *)
From Stdlib Require Import Strings.Byte.
From stdpp Require Import base numbers list strings gmap.
From S2P Require Import Prelude Codec Types Compact Float64 Difficulty Validation Vec ScriptNum Signature Engine ScriptVerify Database Coin UndoStore Ledger Chainstate Pow HashOrder Mempool Headers BlockStore Reorg Network Messages BlockDownload PeerTable Handlers.

Definition TCP_MAX_ATTEMPTS : nat := 3.
Definition IDLE_TIMEOUT : Z := 360 * SECOND.
Definition DEFAULT_PORT : Z := 9933.
Definition MAX_ACCEPTS_PER_SECOND : Z := 50.

(** what the [select!] of the read loop returns *)
Inductive ConnEvent :=
| ReadOk (data : list byte)
| ReadWouldBlock
| ReadError
| PingTick (nonce : Z)
| IdleDeadline.

(** the local state of the read loop *)
Record Conn := mkConn { c_queue : NetworkQueue; c_last_activity : Z }.

Section Connections.
Context `{HS : Sha256} `{HD : Digests} `{HK : K256} `{HU256 : U256Overflow} `{HO : HashOrder} `{HP : PeerOrder} `{HSip : SipHash}.
Context {B UT MT IT KT : Type} {HB : HeaderBackend B} {HU : Table (list byte) (list byte) UT} {HM : Table string (list byte) MT}
  {HI : Table (list byte) (Z * Z * Z) IT} {HBI : Table (list byte) (Z * Z * Z) KT}.
Notation manager := (NodeManager B UT MT IT KT).
Notation world := (World (B := B) (UT := UT) (MT := MT) (IT := IT) (KT := KT)).
Notation handler := (task world).
Implicit Types (w : world) (nm : manager) (env : PeerEnv) (envs : nat -> PeerEnv) (address : IpAddr) (q : NetworkQueue).

(** ** The read loop *)

(** the messages in the queue; [false] when one of them ends the connection *)
Fixpoint drain_queue (fuel : nat) envs address q : handler (bool * NetworkQueue) :=
  match fuel, get_next_message q with
  | _, (None, q) => mret (true, q)
  | O, _ => fun _ => Crashed
  | S fuel, (Some message, q) =>
    ok ← attempt (handle_message (envs (length (messages q))) address message);
    if (ok : bool) then drain_queue fuel envs address q else mret (false, q)
  end.

(** one iteration; [None] when the loop ends; the deadline fires only when it has passed *)
Definition connection_step envs address (c : Conn) (event : ConnEvent) : handler (option Conn) :=
  let now := c_now (pe_clock (envs 0%nat)) in
  let process (c : Conn) : handler (option Conn) :=
    '(go_on, q) ← drain_queue (length (messages (c_queue c))) envs address (c_queue c);
    mret (if (go_on : bool) then Some (mkConn q (c_last_activity c)) else None) in
  match event with
  | ReadOk data =>
    if zlen data =? 0 then mret None else
    match process_incoming_data (c_queue c) data with
    | Some (q, Ok _) => process (mkConn q now)
    | Some (_, Err _) => mret None
    | _ => fun _ => Crashed
    end
  | ReadWouldBlock => mret (Some c)
  | ReadError => mret None
  | PingTick nonce => _ ← send_ping (envs 0%nat) nonce address; process c
  | IdleDeadline => if c_last_activity c + IDLE_TIMEOUT <=? now then mret None else mret (Some c)
  end.

Fixpoint connection_loop address (c : Conn) (events : list ((nat -> PeerEnv) * ConnEvent)) : handler (option Conn) :=
  match events with
  | [] => mret (Some c)
  | (envs, event) :: events =>
    c ← connection_step envs address c event;
    match c with
    | Some c => connection_loop address c events
    | None => mret None
    end
  end.

Definition node_connection_loop env address (events : list ((nat -> PeerEnv) * ConnEvent)) : handler (option Conn) :=
  connection_loop address (mkConn queue_new (c_now (pe_clock env))) events.

(** ** An outgoing connection *)

(** the surroundings before connecting, when connected, and when the connection has
    ended; whether each attempt to connect succeeds; what the socket brings *)
Record Session := mkSession { s_start : PeerEnv; s_up : PeerEnv; s_end : PeerEnv; s_random : Z; s_connects : nat -> bool; s_events : list ((nat -> PeerEnv) * ConnEvent) }.

(** [for tcp_attempt in 1..=TCP_MAX_ATTEMPTS] *)
Fixpoint try_connect (n : nat) (tcp_attempt : nat) (connects : nat -> bool) : bool :=
  match n with
  | O => false
  | S n => if connects tcp_attempt then true else try_connect n (S tcp_attempt) connects
  end.

Definition retry_later (s : Session) address (attempt : Z) : handler unit := nm_update (fun nm => schedule_retry (pe_clock (s_end s)) (s_random s) nm address attempt).

(** [true] when the task has ended *)
Definition handle_node_connection (s : Session) address (port attempt : Z) : handler bool :=
  nm ← nm_get;
  if negb (should_attempt_connection (pe_clock (s_start s)) nm address) then mret true else
  if negb (try_connect TCP_MAX_ATTEMPTS 1 (s_connects s)) then _ ← retry_later s address attempt; mret true else
  _ ← nm_update (fun nm => connection_established (pe_clock (s_up s)) nm address);
  sent ← Handlers.attempt (send_version (s_up s) address port);
  if negb sent then _ ← retry_later s address attempt; mret true else
  c ← node_connection_loop (s_up s) address (s_events s);
  match c with
  | Some _ => mret false
  | None => _ ← nm_update (fun nm => outgoing_ended (pe_clock (s_end s)) (s_random s) nm address attempt); mret true
  end.

(** ** The listener *)

Record Listener := mkListener { accepts_this_second : Z; second_start : Z }.

(** one iteration with the connection the socket would accept, if any; the guard of the new
    connection when its task is started *)
Definition listen_step env (l : Listener) (incoming : option (IpAddr * Z)) nm : result (Listener * manager * bool) :=
  let now := c_now (pe_clock env) in
  let l := if sat_sub now (second_start l) >=? SECOND then mkListener 0 now else l in
  if accepts_this_second l >=? MAX_ACCEPTS_PER_SECOND then Ok (l, nm, false) else
  match incoming with
  | None => Ok (l, nm, false)
  | Some (address, port) =>
    let l := mkListener (u32_sat_add (accepts_this_second l) 1) (second_start l) in
    '(nm, guard) ← insert_incoming (pe_clock env) nm address port;
    Ok (l, nm, guard)
  end.

(** the task of an accepted connection *)
Definition incoming_task env address (events : list ((nat -> PeerEnv) * ConnEvent)) : handler bool :=
  c ← node_connection_loop env address events;
  match c with
  | Some _ => mret false
  | None => _ ← nm_update (fun nm => incoming_ended nm address); mret true
  end.

(** ** The other tasks *)

(** one round of the self announcement *)
Definition self_announce env : handler unit :=
  nm ← nm_get;
  ip ← of_res (get_external_ip nm);
  match ip with
  | None => mret tt
  | Some external_ip =>
    _ ← probe_reachability env;
    nm ← nm_get;
    if negb (port_reachable nm) then mret tt else
    let payload := message_addr_to_bytes (message_addr_new (c_unix (pe_clock env)) [network_address_new external_ip (listen_port nm)]) in
    each (fun _ (e : IpAddr * nat) => _ ← attempt (send_on env e.2 "addr" payload); mret tt) tt (get_connected_writers nm)
  end.

(** the writers that are shut down *)
Definition graceful_shutdown nm : list nat := snd <$> get_connected_writers nm.

(** *** Numbers for the display *)

Record NodeStats := mkStats { st_total : Z; st_connected : Z; st_incoming : Z; st_outgoing : Z; st_handshaking : Z; st_connecting : Z; st_disconnected : Z; st_dead : Z; st_banned : Z }.
Inductive NodeStateLabel := LConnecting | LHandshaking | LConnected | LDisconnected (attempt : Z) | LDead | LBanned.
Definition label_from_state (s : NodeState) : NodeStateLabel :=
  match s with
  | Connecting _ => LConnecting
  | Handshaking _ => LHandshaking
  | Connected _ => LConnected
  | Disconnected _ attempt => LDisconnected attempt
  | Dead => LDead
  | Banned _ _ _ => LBanned
  end.
Record NodeSnapshot := mkSnapshot { sn_address : IpAddr; sn_port : Z; sn_height : Z; sn_connection_type : ConnectionType; sn_label : NodeStateLabel; sn_version : Z; sn_user_agent : list byte; sn_last_seen : Z; sn_strikes : Z; sn_excluded : bool }.

Definition count_node (s : NodeStats) (e : IpAddr * PeerNode) : NodeStats :=
  let n := e.2 in
  match p_state n with
  | Connected _ =>
    match p_connection_type n with
    | Incoming => mkStats (st_total s) (u64_sat_add (st_connected s) 1) (u64_sat_add (st_incoming s) 1) (st_outgoing s) (st_handshaking s) (st_connecting s) (st_disconnected s) (st_dead s) (st_banned s)
    | Outgoing => mkStats (st_total s) (u64_sat_add (st_connected s) 1) (st_incoming s) (u64_sat_add (st_outgoing s) 1) (st_handshaking s) (st_connecting s) (st_disconnected s) (st_dead s) (st_banned s)
    end
  | Handshaking _ => mkStats (st_total s) (st_connected s) (st_incoming s) (st_outgoing s) (u64_sat_add (st_handshaking s) 1) (st_connecting s) (st_disconnected s) (st_dead s) (st_banned s)
  | Connecting _ => mkStats (st_total s) (st_connected s) (st_incoming s) (st_outgoing s) (st_handshaking s) (u64_sat_add (st_connecting s) 1) (st_disconnected s) (st_dead s) (st_banned s)
  | Disconnected _ _ => mkStats (st_total s) (st_connected s) (st_incoming s) (st_outgoing s) (st_handshaking s) (st_connecting s) (u64_sat_add (st_disconnected s) 1) (st_dead s) (st_banned s)
  | Dead => mkStats (st_total s) (st_connected s) (st_incoming s) (st_outgoing s) (st_handshaking s) (st_connecting s) (st_disconnected s) (u64_sat_add (st_dead s) 1) (st_banned s)
  | Banned _ _ _ => mkStats (st_total s) (st_connected s) (st_incoming s) (st_outgoing s) (st_handshaking s) (st_connecting s) (st_disconnected s) (st_dead s) (u64_sat_add (st_banned s) 1)
  end.

Definition snapshot_of (e : IpAddr * PeerNode) : NodeSnapshot :=
  let n := e.2 in
  mkSnapshot e.1 (p_port n) (p_height n) (p_connection_type n) (label_from_state (p_state n)) (p_version n) (p_user_agent n) (p_last_seen n) (timeout_strikes (p_strikes n)) (strike_excluded (p_strikes n)).

Definition get_snapshot nm : NodeStats * list NodeSnapshot :=
  let order := peer_order (m_nodes nm) in
  let s := foldl count_node (mkStats 0 0 0 0 0 0 0 0 0) order in
  let snapshots := snapshot_of <$> order in
  (mkStats (zlen snapshots) (st_connected s) (st_incoming s) (st_outgoing s) (st_handshaking s) (st_connecting s) (st_disconnected s) (st_dead s) (st_banned s), snapshots).

(** *** The manager itself *)

Definition with_header_backend (nonce : Z) (genesis_header : BlockHeader) (params : ConsensusParams) (be : option B) : result manager :=
  store ← with_backend genesis_header params be;
  initial_height ← hs_height store;
  initial_bits ← Headers.tip_bits store;
  Ok (mkManager ∅ nonce ∅ DEFAULT_PORT false 0 ∅ store false initial_height initial_bits None None None None None None).

Definition attach_header_backend (be : B) : handler unit :=
  genesis_hash ← read_headers hs_genesis;
  let result := try_load_from_backend be genesis_hash in
  hs ← lock_headers;
  hs ← of_res (apply_backend_load hs result);
  _ ← unlock_headers hs;
  refresh_chain_cache.
End Connections.
