(* ===== verification/ConnectionsCorrect.v ===== *)
(** * ConnectionsCorrect: connections from the socket to the handlers

    The read loop hands the handlers exactly the messages of the byte stream, in
    order, however the stream is cut into reads; what a session leaves behind depends
    on the attempt it was started with and not on the session; and the
    listener keeps to its rate. *)
From Stdlib Require Import Strings.Byte.
From stdpp Require Import base numbers list strings gmap.
From S2P Require Import Prelude Codec Types Compact Float64 Difficulty Validation Vec ScriptNum Signature Engine EngineSafety ScriptVerify Database Coin UndoStore Ledger Chainstate Pow HashOrder Mempool Headers HeadersCorrect BlockStore Reorg Network Messages BlockDownload PeerTable PeerTableCorrect Handlers HandlersCorrect Connections.

Section Connections.
Context `{HS : Sha256} `{HD : Digests} `{HK : K256} `{HU256 : U256Overflow} `{HO : HashOrder} `{HP : PeerOrder} `{HSip : SipHash}.
Context {B UT MT IT KT : Type} {HB : HeaderBackend B} {HU : Table (list byte) (list byte) UT} {HM : Table string (list byte) MT}
  {HI : Table (list byte) (Z * Z * Z) IT} {HBI : Table (list byte) (Z * Z * Z) KT}.
Notation manager := (NodeManager B UT MT IT KT).
Notation world := (World (B := B) (UT := UT) (MT := MT) (IT := IT) (KT := KT)).
Notation handler := (task world).
Implicit Types (w : world) (nm : manager) (env : PeerEnv) (envs : nat -> PeerEnv) (address : IpAddr) (q : NetworkQueue).

(** ** The stream of messages *)

(** the messages one after the other, until one is refused *)
Fixpoint run_messages address (l : list (PeerEnv * Message)) : handler bool :=
  match l with
  | [] => mret true
  | (env, m) :: l => ok ← Handlers.attempt (handle_message env address m); if (ok : bool) then run_messages address l else mret false
  end.

Lemma run_messages_app address l1 l2 w :
  run_messages address (l1 ++ l2) w = (ok ← run_messages address l1; if (ok : bool) then run_messages address l2 else mret false) w.
Proof.
  revert w. induction l1 as [|[env m] l1 IH]; intros w; [done|]. cbn [app run_messages]. unfold mbind, task_bind in *. destruct (Handlers.attempt _ w) as [[] w1| | |]; [by rewrite IH|done..].
Qed.

(** the surroundings of the messages of one iteration *)
Definition envs_of envs (n : nat) : list PeerEnv := envs <$> rev (seq 0 n).
Lemma length_envs_of envs n : length (envs_of envs n) = n.
Proof. unfold envs_of. by rewrite length_fmap, length_rev, length_seq. Qed.

(** what an iteration does with the queue it has *)
Definition after_messages (buf : list byte) (t : Z) (ok : bool) : option Conn := if ok then Some (mkConn (mkQueue buf []) t) else None.

Lemma drain_queue_run envs address buf t ms : forall w,
  ('(go_on, q) ← drain_queue (length ms) envs address (mkQueue buf ms); mret (if (go_on : bool) then Some (mkConn q t) else None)) w =
  (ok ← run_messages address (zip (envs_of envs (length ms)) ms); mret (after_messages buf t ok)) w.
Proof.
  induction ms as [|m ms IH]; intros w; [done|]. unfold envs_of. cbn [length]. rewrite seq_S, rev_app_distr. cbn [rev app fmap list_fmap zip_with run_messages drain_queue get_next_message messages buffer Nat.add].
  fold (envs_of envs (length ms)). unfold mbind, task_bind in *. by destruct (Handlers.attempt _ w) as [[] w1| | |]; [rewrite IH|..].
Qed.

(** a read event per piece *)
Definition read_event (e : (nat -> PeerEnv) * list byte) : (nat -> PeerEnv) * ConnEvent := (e.1, ReadOk e.2).

Lemma connection_run address reads : forall buf t ms tail,
  zlen buf <= MAX_MESSAGE_SIZE -> Forall (fun e => 0 < zlen (snd e) <= MAX_MESSAGE_SIZE) reads -> Forall message_fits ms -> message_from_bytes tail = Err Incomplete -> zlen tail <= MAX_MESSAGE_SIZE ->
  buf ++ concat (snd <$> reads) = stream ms ++ tail -> message_from_bytes buf = Err Incomplete ->
  exists es t', length es = length ms /\ forall w, connection_loop address (mkConn (mkQueue buf []) t) (read_event <$> reads) w = (ok ← run_messages address (zip es ms); mret (after_messages tail t' ok)) w.
Proof.
  induction reads as [|[envs c] reads IH]; intros buf t ms tail Hb Hr Hms Ht Hz Hst Hi; cbn [fmap list_fmap concat] in Hst.
  - rewrite app_nil_r in Hst. destruct ms as [|m ms]; [exists [], t; split; [done|]; intros w; by rewrite Hst|].
    apply Forall_cons in Hms as [[Hm _] _]. unfold stream in Hst. cbn [map concat] in Hst. by rewrite Hst, <- app_assoc, Network.parse_message in Hi.
  - apply Forall_cons in Hr as [[Hc0 Hc] Hr]. destruct (process_stream (mkQueue buf []) c ms tail (concat (snd <$> reads))) as (d & todo & rest & -> & E & Hst' & Hsz & Hi'); try done. apply Forall_app in Hms as [_ Hms].
    destruct (IH rest (c_now (pe_clock (envs 0%nat))) todo tail Hsz Hr Hms Ht Hz Hst' Hi') as (es & t' & Hl & Hw). exists (envs_of envs (length d) ++ es), t'. split; [by rewrite !length_app, length_envs_of, Hl|]. intros w.
    cbn [fmap list_fmap connection_loop read_event fst snd connection_step]. replace (zlen c =? 0) with false by (cbn [snd] in Hc0; lia). cbn [c_queue]. rewrite E. cbn [messages app].
    rewrite zip_with_app by (by rewrite length_envs_of). pose proof (drain_queue_run envs address rest (c_now (pe_clock (envs 0%nat))) d w) as Hd.
    unfold mbind, task_bind in *. cbn [c_last_activity] in *. rewrite Hd. pose proof (run_messages_app address (zip (envs_of envs (length d)) d) (zip es todo) w) as Ha. unfold mbind, task_bind in Ha. rewrite Ha.
    destruct (run_messages address (zip (envs_of envs (length d)) d) w) as [[] w1| | |]; [|done..]. apply Hw.
Qed.

(** C15: a connection handles the messages of its byte stream, in order.  When the stream
    consists of well-formed messages, each of which fits with its 24-byte header into
    [MAX_MESSAGE_SIZE] bytes, and an unfinished one, then however it is cut into non-empty reads of
    at most that size the loop calls the handlers with exactly these messages, one
    after the other; at the first one that is refused the connection is closed
    and nothing more is handled, and otherwise it stays open with the
    unfinished part waiting.  A larger message, which may be accepted or refused depending
    on the cut, and a corrupt one, which closes the connection, are not covered. *)
Theorem connection_stream env address reads ms tail :
  Forall message_fits ms -> message_from_bytes tail = Err Incomplete -> zlen tail <= MAX_MESSAGE_SIZE -> Forall (fun e => 0 < zlen (snd e) <= MAX_MESSAGE_SIZE) reads -> concat (snd <$> reads) = stream ms ++ tail ->
  exists es t', length es = length ms /\ forall w, node_connection_loop env address (read_event <$> reads) w = (ok ← run_messages address (zip es ms); mret (after_messages tail t' ok)) w.
Proof. intros Hms Ht Hz Hr Hst. by apply (connection_run address reads [] (c_now (pe_clock env)) ms tail). Qed.

(** ** The end of a session *)

(** what is left of a peer after a session started as attempt [attempt] *)
Definition attempt_counted (attempt : Z) (s : NodeState) : Prop := if attempt + 1 >=? 10 then s = Dead else exists retry_at, s = Disconnected retry_at (attempt + 1).

Lemma schedule_retry_counted clk random nm address attempt n' : 0 <= attempt < u32_max -> m_nodes (schedule_retry clk random nm address attempt) !! address = Some n' -> attempt_counted attempt (p_state n').
Proof.
  intros Ha. unfold schedule_retry, attempt_counted. replace (u32_sat_add attempt 1) with (attempt + 1) by (unfold u32_sat_add; lia). change MAX_RETRY_ATTEMPTS with 10.
  destruct (attempt + 1 >=? 10); unfold set_state; rewrite lookup_with_node, decide_True by done; intros (n & _ & ->)%fmap_Some; [done|]. by eexists.
Qed.

Lemma outgoing_ended_counted clk random nm address attempt n' : 0 <= attempt < u32_max -> m_nodes (outgoing_ended clk random nm address attempt) !! address = Some n' ->
  is_banned clk (p_state n') = true \/ attempt_counted attempt (p_state n').
Proof.
  intros Ha. unfold outgoing_ended. destruct (m_nodes nm !! address) as [n|] eqn:E; [|intros H; right; by eapply schedule_retry_counted].
  destruct (is_banned clk (p_state n)) eqn:Eb; [intros H; left; congruence|intros H; right; by eapply schedule_retry_counted].
Qed.

(** every session counts as a failed attempt.  When an outgoing connection task ends,
    the peer is banned, or it is dead if this was the tenth attempt and otherwise to be
    retried with the attempt counted, with the longer delay that follows: whether the
    peer could be reached, and how long and how well the connection worked, makes no
    difference.  A peer that is always reachable and always behaves is given up after
    its tenth connection. *)
Theorem session_counted s address port attempt w w' n' : 0 <= attempt < u32_max -> should_attempt_connection (pe_clock (s_start s)) (w_nm w) address = true ->
  handle_node_connection s address port attempt w = Returned true w' -> m_nodes (w_nm w') !! address = Some n' ->
  is_banned (pe_clock (s_end s)) (p_state n') = true \/ attempt_counted attempt (p_state n').
Proof.
  intros Ha Hs. unfold handle_node_connection, retry_later, mbind, task_bind, nm_get, nm_update. rewrite Hs. cbn [negb].
  destruct (try_connect _ _ _); cbn [negb]; [|intros [= <-] Hn; right; by eapply schedule_retry_counted].
  destruct (Handlers.attempt _ _) as [[] w1| | |]; [|intros [= <-] Hn; right; by eapply schedule_retry_counted|done..]. cbn [negb].
  destruct (node_connection_loop _ _ _ w1) as [[c|] w2| | |]; [done| |done..]. intros [= <-] Hn. by eapply outgoing_ended_counted.
Qed.

(** ** The listener *)

(** the counter as an iteration starts *)
Definition refreshed env (l : Listener) : Listener := if sat_sub (c_now (pe_clock env)) (second_start l) >=? SECOND then mkListener 0 (c_now (pe_clock env)) else l.
(** the number of connections taken from the socket in one iteration *)
Definition accepted env (l : Listener) (incoming : option (IpAddr * Z)) : Z :=
  if accepts_this_second (refreshed env l) >=? MAX_ACCEPTS_PER_SECOND then 0 else if incoming then 1 else 0.

Definition listener_ok (l : Listener) : Prop := 0 <= accepts_this_second l <= MAX_ACCEPTS_PER_SECOND.

Lemma refreshed_ok env l : listener_ok l -> listener_ok (refreshed env l).
Proof. unfold refreshed, listener_ok, MAX_ACCEPTS_PER_SECOND. destruct (_ >=? _); cbn; lia. Qed.

Lemma listen_step_counts env l incoming nm l' nm' guard : listener_ok l -> listen_step env l incoming nm = Ok (l', nm', guard) ->
  listener_ok l' /\ second_start l' = second_start (refreshed env l) /\ accepts_this_second l' = accepts_this_second (refreshed env l) + accepted env l incoming /\ 0 <= accepted env l incoming.
Proof.
  intros Hl%(refreshed_ok env). unfold listen_step, accepted. fold (refreshed env l). unfold listener_ok, MAX_ACCEPTS_PER_SECOND in *. set (l1 := refreshed env l) in *.
  destruct (accepts_this_second l1 >=? 50) eqn:E; [intros [= <- _ _]; split_and!; [lia|lia|done|lia|lia]|]. destruct incoming as [[a p]|]; [|intros [= <- _ _]; split_and!; [lia|lia|done|lia|lia]].
  intros ([nm1 g] & _ & [= <- _ _])%res_bind_Ok. cbn. unfold u32_sat_add, u32_max. split_and!; [lia|lia|done|lia|lia].
Qed.

(** a run of the listener, each iteration with the manager as other tasks have left it; the
    number of connections taken *)
Fixpoint listen_run (l : Listener) (steps : list (PeerEnv * option (IpAddr * Z) * manager)) : result (Z * Listener) :=
  match steps with
  | [] => Ok (0, l)
  | (env, incoming, nm) :: steps =>
    '(l', _, _) ← listen_step env l incoming nm;
    '(n, l'') ← listen_run l' steps;
    Ok (accepted env l incoming + n, l'')
  end.
Notation step_time step := (c_now (pe_clock step.1.1)).

Lemma listen_run_cons l env incoming nm steps n l'' : listener_ok l -> listen_run l ((env, incoming, nm) :: steps) = Ok (n, l'') ->
  exists l' k, listener_ok l' /\ second_start l' = second_start (refreshed env l) /\ accepts_this_second l' = accepts_this_second (refreshed env l) + accepted env l incoming /\
    listen_run l' steps = Ok (k, l'') /\ n = accepted env l incoming + k.
Proof.
  intros Hl. cbn [listen_run]. intros ([[l' nm'] g] & E & ([k l3] & E' & [= <- <-])%res_bind_Ok)%res_bind_Ok. destruct (listen_step_counts env l incoming nm l' nm' g Hl E) as (H1 & H2 & H3 & _). by exists l', k.
Qed.

(** within the second of the counter *)
Lemma listen_within steps : forall l n l', listener_ok l -> Forall (fun step => step_time step < second_start l + SECOND) steps -> listen_run l steps = Ok (n, l') -> n + accepts_this_second l <= MAX_ACCEPTS_PER_SECOND.
Proof.
  induction steps as [|[[env incoming] nm] steps IH]; intros l n l' Hl Hs; [intros [= <- <-]; unfold listener_ok in Hl; lia|]. intros (l1 & k & H1 & H2 & H3 & E & ->)%listen_run_cons; [|done]. apply Forall_cons in Hs as [Ht Hs]. cbn [fst] in Ht.
  assert (refreshed env l = l) as Er by (unfold refreshed, sat_sub; by replace (Z.max 0 (c_now (pe_clock env) - second_start l) >=? SECOND) with false by (unfold SECOND in *; lia)).
  rewrite Er in H2, H3. specialize (IH l1 k l' H1). rewrite H2 in IH. specialize (IH Hs E). lia.
Qed.

(** the listener keeps its rate.  Within any second it takes at most a hundred
    connections from the socket, whatever arrives and however often it
    looks: the counter allows fifty until it is reset, and it is reset at most once in that
    time. *)
Theorem accept_rate steps t0 : forall l n l', listener_ok l -> Forall (fun step => t0 <= step_time step < t0 + SECOND) steps -> listen_run l steps = Ok (n, l') -> listener_ok l' /\ n <= 2 * MAX_ACCEPTS_PER_SECOND.
Proof.
  assert (forall l n l', listener_ok l -> Forall (fun step => t0 <= step_time step < t0 + SECOND) steps -> listen_run l steps = Ok (n, l') -> listener_ok l' /\ n + accepts_this_second l <= 2 * MAX_ACCEPTS_PER_SECOND) as H.
  { induction steps as [|[[env incoming] nm] steps IH]; intros l n l' Hl Hs; [intros [= <- <-]; unfold listener_ok, MAX_ACCEPTS_PER_SECOND in *; split; lia|]. intros (l1 & k & H1 & H2 & H3 & E & ->)%listen_run_cons; [|done].
    apply Forall_cons in Hs as [Ht Hs]. cbn [fst] in Ht. destruct (IH l1 k l' H1 Hs E) as [Hl' Hk]. split; [done|]. unfold refreshed in H2, H3. destruct (_ >=? SECOND); cbn in H2, H3; [|lia].
    assert (k + accepts_this_second l1 <= MAX_ACCEPTS_PER_SECOND) as Hk'; [|unfold listener_ok in Hl; lia]. apply (listen_within steps l1 k l' H1); [|done]. rewrite H2. eapply Forall_impl; [exact Hs|]. cbn. lia. }
  intros l n l' Hl Hs E. destruct (H l n l' Hl Hs E). unfold listener_ok in Hl. split; [done|lia].
Qed.
End Connections.

(** ** Examples *)

#[local] Existing Instance toy_sha256.
#[local] Existing Instance toy_digests.
#[local] Existing Instance toy_k256.
#[local] Existing Instance plain_order.
#[local] Existing Instance plain_peers.
#[local] Existing Instance no_backend.
#[local] Existing Instance trap.
#[local] Existing Instance plain_sip.

Definition sample_reads : list ((nat -> PeerEnv) * list byte) :=
  [(fun _ => sample_env, take 20 (message_to_bytes sample_message)); (fun _ => sample_env, drop 20 (message_to_bytes sample_message) ++ [xfc])].

Lemma connection_stream_witness : exists e t', forall w : sample_world,
  node_connection_loop sample_env sample_peer (read_event <$> sample_reads) w = (ok ← run_messages sample_peer [(e, sample_message)]; mret (after_messages [xfc] t' ok)) w.
Proof.
  destruct (connection_stream (B := Empty_set) (UT := gmap (list byte) (list byte)) (MT := gmap string (list byte)) (IT := gmap (list byte) (Z * Z * Z)) (KT := gmap (list byte) (Z * Z * Z)) sample_env sample_peer sample_reads [sample_message] [xfc]) as (es & t' & Hl & H).
  - apply Forall_cons. split; [exact sample_message_fits|constructor].
  - vm_compute. reflexivity.
  - vm_compute. discriminate.
  - repeat (apply Forall_cons; split; [vm_compute; split; [reflexivity|discriminate]|]). constructor.
  - vm_compute. reflexivity.
  - destruct es as [|e [|e' es]]; [discriminate Hl| |discriminate Hl]. exists e, t'. exact H.
Defined.

(** a peer is reached, and it hangs up *)
Definition short_session : Session := mkSession sample_env sample_env sample_env 7 (fun _ => true) [(fun _ => sample_env, ReadOk [])].
Definition connecting_world : sample_world := world_of {[sample_peer := node_new sample_clock 9933 Outgoing (Connecting 0)]} bare_headers 0.

Lemma short_session_ends : exists w' n', handle_node_connection short_session sample_peer 9933 9 connecting_world = Returned true w' /\ m_nodes (w_nm w') !! sample_peer = Some n' /\ is_banned sample_clock (p_state n') = false.
Proof.
  assert (match handle_node_connection short_session sample_peer 9933 9 connecting_world with Returned true w' => match m_nodes (w_nm w') !! sample_peer with Some n' => negb (is_banned sample_clock (p_state n')) | None => false end | _ => false end = true) as H by (vm_compute; reflexivity).
  destruct (handle_node_connection _ _ _ _ _) as [[] w'| | |]; [|discriminate H..]. destruct (m_nodes (w_nm w') !! sample_peer) as [n'|] eqn:E; [|discriminate H]. exists w', n'. split; [reflexivity|]. split; [exact E|]. by apply negb_true_iff.
Qed.

Lemma session_counted_witness : exists w' n', handle_node_connection short_session sample_peer 9933 9 connecting_world = Returned true w' /\ m_nodes (w_nm w') !! sample_peer = Some n' /\ p_state n' = Dead.
Proof.
  destruct short_session_ends as (w' & n' & E & Hn & Hb). exists w', n'. split; [exact E|]. split; [exact Hn|].
  destruct (session_counted short_session sample_peer 9933 9 connecting_world w' n' ltac:(vm_compute; split; [discriminate|reflexivity]) eq_refl E Hn) as [H|H]; [|exact H].
  exfalso. change (pe_clock (s_end short_session)) with sample_clock in H. rewrite Hb in H. discriminate H.
Defined.

(** two connections in a moment *)
Definition two_arrivals : list (PeerEnv * option (IpAddr * Z) * NodeManager Empty_set (gmap (list byte) (list byte)) (gmap string (list byte)) (gmap (list byte) (Z * Z * Z)) (gmap (list byte) (Z * Z * Z))) :=
  [(sample_env, Some (sample_peer, 1234), w_nm (world_of ∅ bare_headers 0)); (sample_env, Some (sample_peer, 1235), w_nm (world_of ∅ bare_headers 0))].
Lemma two_arrivals_run : exists r, listen_run (mkListener 0 (1000 * SECOND)) two_arrivals = Ok r.
Proof. apply is_ok_Ok. vm_compute. reflexivity. Qed.

Lemma accept_rate_witness : exists n l', listen_run (mkListener 0 (1000 * SECOND)) two_arrivals = Ok (n, l') /\ n <= 100.
Proof.
  destruct two_arrivals_run as [[n l'] E]. exists n, l'. split; [exact E|]. apply (accept_rate two_arrivals (1000 * SECOND) (mkListener 0 (1000 * SECOND)) n l'); [vm_compute; split; discriminate| |exact E].
  repeat (apply Forall_cons; split; [vm_compute; split; [discriminate|reflexivity]|]). constructor.
Defined.
