(* ===== verification/HeaderDb.v ===== *)
(** * HeaderDb: the header database and a restart of the node

    Models src/src/storage/header_store_redb.rs on the tables of Database.v, as an
    instance of the backend interface of Headers.v, and shows what the header store
    is like after it was read back ([HeaderStore::with_backend]). *)
From Stdlib Require Import Strings.Byte.
From stdpp Require Import base numbers list strings gmap relations.
From S2P Require Import Prelude Codec Types Compact Float64 Difficulty Vec Database Pow HashOrder Headers EngineSafety HeadersCorrect.

Definition MAX_LOADABLE_HEADERS : Z := 10000000.

Record RedbHeaderStore (HT TT : Type) := mkRedb { db_headers : HT; db_invalid : TT }.
Arguments mkRedb {HT TT}.
Arguments db_headers {HT TT}.
Arguments db_invalid {HT TT}.

Definition encode_entry (header : BlockHeader) (height chainwork : Z) : list byte := header_to_bytes header ++ le_bytes 4 height ++ le_bytes 32 chainwork.

Definition decode_entry (hash_bytes buf : list byte) : result header_row :=
  header ← context "failed to decode header from entry" (header_from_bytes (take (Z.to_nat HEADER_SIZE) buf));
  Ok (mkHash hash_bytes, header, le_val (take 4 (drop (Z.to_nat HEADER_SIZE) buf)), le_val (drop (Z.to_nat HEADER_SIZE + 4) buf)).

(** a database file: the table of the old schema and those of the present one, where they exist *)
Record RedbFile (OT HT TT : Type) := mkRedbFile { rf_old : option OT; rf_headers : option HT; rf_invalid : option TT }.
Arguments mkRedbFile {OT HT TT}.
Arguments rf_old {OT HT TT}.
Arguments rf_headers {OT HT TT}.
Arguments rf_invalid {OT HT TT}.

Section HeaderDb.
Context {HT TT : Type} {HH : Table (list byte) (list byte) HT} {HI : Table (list byte) unit TT}.
Notation db := (RedbHeaderStore HT TT).
Implicit Types (b : db) (hash : Hash256) (header : BlockHeader).

Definition put_row (table : HT) (row : header_row) : HT :=
  let '(hash, header, height, chainwork) := row in t_insert table (as_bytes hash) (encode_entry header height chainwork).

Definition redb_persist_header b hash header (height chainwork : Z) : result db := Ok (mkRedb (put_row (db_headers b) (hash, header, height, chainwork)) (db_invalid b)).
Definition redb_persist_headers b (headers : list header_row) : result db := if zlen headers =? 0 then Ok b else Ok (mkRedb (foldl put_row (db_headers b) headers) (db_invalid b)).
Definition push_entry (result : list header_row) (e : list byte * list byte) : Prelude.result (list header_row) := row ← decode_entry e.1 e.2; Ok (result ++ [row]).
Definition redb_load_all b : result (list header_row) :=
  let entries := t_entries (db_headers b) in
  if zlen entries >? MAX_LOADABLE_HEADERS then Err "header database exceeds safety limit"%string else fold_res push_entry [] entries.
Definition redb_persist_invalid_tip b hash : result db := Ok (mkRedb (db_headers b) (t_insert (db_invalid b) (as_bytes hash) tt)).
Definition redb_load_invalid_tips b : result (list Hash256) := Ok ((fun e => mkHash e.1) <$> t_entries (db_invalid b)).
Definition redb_clear b : result db := Ok (mkRedb t_empty t_empty).

(** the number of headers *)
Definition redb_count b : Z := zlen (t_entries (db_headers b)).

(** opening removes the old table and creates those that are missing *)
Definition redb_open {OT} (f : RedbFile OT HT TT) : RedbFile OT HT TT * db :=
  let headers := default t_empty (rf_headers f) in
  let invalid := default t_empty (rf_invalid f) in
  (mkRedbFile None (Some headers) (Some invalid), mkRedb headers invalid).

#[global] Instance redb_backend : HeaderBackend db := {|
  persist_header := redb_persist_header; persist_headers := redb_persist_headers; load_all := redb_load_all;
  persist_invalid_tip := redb_persist_invalid_tip; load_invalid_tips := redb_load_invalid_tips; clear := redb_clear |}.

(** ** What the database holds *)

Context `{!TableLaws (list byte) (list byte) HT HH} `{!TableLaws (list byte) unit TT HI}.
Implicit Types (tree : gmap Hash256 StoredHeader) (s : StoredHeader).

Definition entry_of s : list byte := encode_entry (s_header s) (s_height s) (s_chainwork s).
(** the fields are of the width they are stored with *)
Definition stored_fits s : Prop := header_ok (s_header s) /\ U 256 (s_chainwork s).

Record db_holds b tree (invalid : gset Hash256) : Prop := {
  dh_headers hash : t_get (db_headers b) (as_bytes hash) = entry_of <$> tree !! hash;
  dh_invalid hash : is_Some (t_get (db_invalid b) (as_bytes hash)) <-> hash ∈ invalid;
  dh_fits : map_Forall (fun _ s => stored_fits s) tree;
}.

(** what was written is there when the file is opened again *)
Lemma redb_reopen {OT} (f : RedbFile OT HT TT) b tree invalid : db_holds b tree invalid -> rf_headers f = Some (db_headers b) -> rf_invalid f = Some (db_invalid b) ->
  db_holds (redb_open f).2 tree invalid /\ redb_open (redb_open f).1 = redb_open f.
Proof. intros [H1 H2 H3] E1 E2. unfold redb_open. rewrite E1, E2. cbn. split; [by split|done]. Qed.

Lemma mkHash_as_bytes hash : mkHash (as_bytes hash) = hash.
Proof. by destruct hash. Qed.

Lemma decode_entry_of k s : stored_fits s -> U 32 (s_height s) -> decode_entry k (entry_of s) = Ok (mkHash k, s_header s, s_height s, s_chainwork s).
Proof.
  intros (Hh & H256) H32. unfold decode_entry, entry_of, encode_entry. pose proof (length_header_to_bytes _ Hh) as Hl. change (Z.to_nat HEADER_SIZE) with 80%nat.
  rewrite take_app_length', drop_app_length' by done. rewrite (take_app_length' (le_bytes 4 _)) by (by rewrite length_le_bytes).
  assert (header_from_bytes (header_to_bytes (s_header s)) = Ok (s_header s)) as ->.
  { unfold header_from_bytes, zlen. rewrite Hl. change (HEADER_SIZE <=? Z.of_nat 80) with true. apply run_reader_Ok. exists []. pose proof (Codec.decode_encode (c := header_codec) (s_header s) [] Hh) as E. cbn in E. by rewrite app_nil_r in E. }
  cbn [context mbind res_bind]. rewrite app_assoc, drop_app_length' by (rewrite length_app, Hl, length_le_bytes; done). rewrite !le_val_le_bytes. rewrite !Z.mod_small; [done| |]; unfold U in *; lia.
Qed.

(** *** Reading back *)

Definition stored_of (row : header_row) : StoredHeader := let '(_, header, height, chainwork) := row in mkStored header height chainwork.

Lemma index_rows_tree tree rows : (forall row, row ∈ rows -> tree !! row.1.1.1 = Some (stored_of row)) -> (forall hash s, tree !! hash = Some s -> exists row, row ∈ rows /\ row.1.1.1 = hash) -> index_rows rows = tree.
Proof.
  intros Hr Ht. apply map_eq. intros hash. unfold index_rows. set (f := fun m '(hash, header, height, chainwork) => <[hash := mkStored header height chainwork]> m).
  assert (forall (m : gmap Hash256 StoredHeader) l, (forall row, row ∈ l -> tree !! row.1.1.1 = Some (stored_of row)) -> foldl f m l !! hash = if decide (hash ∈ (fun row : header_row => row.1.1.1) <$> l) then tree !! hash else m !! hash) as H.
  { intros m l. revert m. induction l as [|row l IH]; intros m Hl; cbn [foldl fmap list_fmap]; [by rewrite decide_False by set_solver|]. rewrite IH by (intros; apply Hl; by right).
    pose proof (Hl row (list_elem_of_here _ _)) as H0. destruct row as [[[x header] height] cw]. cbn in H0 |- *. destruct (decide (hash ∈ _)) as [Hin|Hin]; [by rewrite decide_True by set_solver|].
    destruct (decide (hash = x)) as [->|Hne]; [rewrite decide_True by set_solver; by rewrite lookup_insert_eq|rewrite decide_False by set_solver; by rewrite lookup_insert_ne]. }
  rewrite H by done. destruct (decide _) as [|Hin]; [done|]. rewrite lookup_empty. destruct (tree !! hash) as [s|] eqn:E; [|done]. exfalso. apply Hin. destruct (Ht hash s E) as (row & Hin' & <-). by apply (list_elem_of_fmap_2 (fun row : header_row => row.1.1.1)).
Qed.

Lemma load_all_holds b tree invalid : db_holds b tree invalid -> map_Forall (fun _ s => U 32 (s_height s)) tree -> zlen (t_entries (db_headers b)) <= MAX_LOADABLE_HEADERS -> exists rows, load_all b = Ok rows /\ index_rows rows = tree /\ (tree <> ∅ -> rows <> []).
Proof.
  intros [Hd _ Hf] Hh Hz. set (row_of := fun e : list byte * list byte => match tree !! mkHash e.1 with Some s => (mkHash e.1, s_header s, s_height s, s_chainwork s) | None => (mkHash e.1, mkHeader 0 HASH_ZERO HASH_ZERO 0 0 0, 0, 0) end).
  assert (forall e, e ∈ t_entries (db_headers b) -> exists s, tree !! mkHash e.1 = Some s /\ e.2 = entry_of s) as He.
  { intros [k v] Hin%elem_entries. pose proof (Hd (mkHash k)) as H. cbn [fst snd as_bytes] in H |- *. rewrite Hin in H. destruct (tree !! mkHash k) as [s|]; [|done]. exists s. split; [done|]. by injection H. }
  assert (forall l acc, (forall e, e ∈ l -> e ∈ t_entries (db_headers b)) -> fold_res push_entry acc l = Ok (acc ++ (row_of <$> l))) as Hp.
  { induction l as [|[k v] l IH]; intros acc Hl; cbn [fold_res fmap list_fmap]; [by rewrite app_nil_r|]. destruct (He (k, v)) as (s & Hs & Ev); [by apply Hl; left|]. cbn [fst snd] in Hs, Ev. subst v.
    assert (push_entry acc (k, entry_of s) = Ok (acc ++ [(mkHash k, s_header s, s_height s, s_chainwork s)])) as -> by (unfold push_entry; cbn [fst snd]; by rewrite (decode_entry_of k s) by (by apply (Hf (mkHash k)) || apply (Hh (mkHash k)))). rewrite IH by (intros; apply Hl; by right). rewrite <- app_assoc. cbn [app]. unfold row_of at 2. cbn [fst snd]. by rewrite Hs. }
  exists (row_of <$> t_entries (db_headers b)). assert (forall row, row ∈ row_of <$> t_entries (db_headers b) -> tree !! row.1.1.1 = Some (stored_of row)) as Hr.
  { intros row (e & -> & Hin)%list_elem_of_fmap. destruct (He e Hin) as (s & Hs & _). unfold row_of. rewrite Hs. cbn. rewrite Hs. by destruct s. }
  assert (forall hash s, tree !! hash = Some s -> exists row, row ∈ row_of <$> t_entries (db_headers b) /\ row.1.1.1 = hash) as Ht.
  { intros hash s Hs. exists (row_of (as_bytes hash, entry_of s)). split; [|unfold row_of; cbn; rewrite mkHash_as_bytes, Hs; done]. apply (list_elem_of_fmap_2 row_of), elem_entries. by rewrite Hd, Hs. }
  split; [cbn; unfold redb_load_all; rewrite Z.gtb_ltb, (proj2 (Z.ltb_ge _ _)) by done; by rewrite Hp|]. split; [by apply index_rows_tree|].
  intros Hne E. apply Hne, map_eq. intros hash. rewrite lookup_empty. destruct (tree !! hash) as [s|] eqn:Es; [|done]. destruct (Ht hash s Es) as (row & Hin & _). rewrite E in Hin. by apply not_elem_of_nil in Hin.
Qed.

(** *** The chain that is chosen *)

(** a header without successors *)
Definition leaf tree (t : Hash256) : Prop := is_Some (tree !! t) /\ forall h s, tree !! h = Some s -> prev_hash (s_header s) <> t.

Lemma max_work_spec (l : list (Hash256 * Z)) : l <> [] -> exists t, max_work l = Some t /\ t ∈ l /\ forall u, u ∈ l -> u.2 <= t.2.
Proof.
  induction l as [|x l IH] using rev_ind; [done|]. intros _. unfold max_work in *. rewrite foldl_snoc. destruct l as [|y l].
  - exists x. split; [done|]. split; [by left|]. intros u [->|Hu]%elem_of_cons; [done|]. by apply not_elem_of_nil in Hu.
  - destruct IH as (t & -> & Ht & Hm); [done|]. destruct (t.2 <=? x.2) eqn:E.
    + exists x. split; [done|]. split; [set_solver|]. intros u [Hu|Hu]%elem_of_app; [specialize (Hm u Hu); lia|]. apply list_elem_of_singleton in Hu as ->. done.
    + exists t. split; [done|]. split; [set_solver|]. intros u [Hu|Hu]%elem_of_app; [by apply Hm|]. apply list_elem_of_singleton in Hu as ->. lia.
Qed.

Context `{HO : HashOrder} `{!HashOrderLaws HO} `{HS : Sha256} `{HU256 : U256Overflow}.

Lemma elem_of_find_tips tree invalid t : t ∈ find_tips tree invalid <-> leaf tree t /\ t ∉ invalid.
Proof.
  unfold find_tips, leaf. rewrite elem_of_list_to_set, list_elem_of_filter, elem_of_list_to_set. split.
  - intros [[H1 H2] ([k s] & -> & Hk)%list_elem_of_fmap]. apply elem_of_map_order in Hk. split; [|done]. split; [by eexists|]. intros h s' Hs E. apply H1. cbn in E |- *. rewrite <- E.
    apply (list_elem_of_fmap_2 (fun kv : Hash256 * StoredHeader => prev_hash (s_header kv.2)) _ (h, s')). by apply elem_of_map_order.
  - intros [[[s Hs] Hl] Hi]. split; [split; [|done]|].
    + intros ([h s'] & E & Hk)%list_elem_of_fmap. apply elem_of_map_order in Hk. by apply (Hl h s' Hk).
    + apply (list_elem_of_fmap_2 fst _ (t, s)). by apply elem_of_map_order.
Qed.

Lemma heights_sequential_ok g tree chain : tree_ok g tree -> (forall i h, chain !! i = Some h -> at_height tree h (Z.of_nat i)) -> heights_sequential tree chain = Ok true.
Proof.
  intros Hok Hc. unfold heights_sequential. assert (forall k l, (forall i h, l !! i = Some h -> at_height tree h (Z.of_nat (k + i))) ->
    fold_res (fun (ok : bool) '(i, hash) => if ok then stored ← or_panic (tree !! hash); Ok (s_height stored =? Z.of_nat i mod 2 ^ 32) else Ok false) true (imap (fun i h => (k + i, h)%nat) l) = (Ok true : result bool)) as H.
  { intros k l. revert k. induction l as [|h l IH]; intros k Hl; [done|]. cbn [imap fold_res]. destruct (Hl 0%nat h eq_refl) as (s & Hs & Eh). rewrite Hs. cbn [or_panic mbind res_bind]. pose proof (tk_range _ _ Hok h s Hs) as [H0 H32].
    rewrite Eh, Z.mod_small, Z.eqb_refl by lia. rewrite <- (IH (S k)); [f_equal; apply imap_ext; intros i x _; cbn; f_equal; lia|]. intros i x Hi. specialize (Hl (S i) x Hi). by replace (S k + i)%nat with (k + S i)%nat by lia. }
  apply (H 0%nat chain Hc).
Qed.

Lemma invalid_loaded b tree invalid : db_holds b tree invalid -> list_to_set ((fun e => mkHash e.1) <$> t_entries (db_invalid b)) = invalid.
Proof.
  intros [_ Hi _]. apply set_eq. intros h. rewrite elem_of_list_to_set, <- Hi. split.
  - intros ([k []] & -> & Hk%elem_entries)%list_elem_of_fmap. by exists tt.
  - intros [[] Hk]. apply list_elem_of_fmap. exists (as_bytes h, tt). split; [symmetry; apply mkHash_as_bytes|]. by apply elem_entries.
Qed.

(** the tip that is chosen: a leaf of most work that is not invalid; without one, the genesis *)
Definition chosen tree (invalid : gset Hash256) : list (Hash256 * Z) := omap (fun t => (fun s => (t, s_chainwork s)) <$> tree !! t) (set_order (find_tips tree invalid)).

Lemma elem_of_chosen tree invalid t w : (t, w) ∈ chosen tree invalid <-> leaf tree t /\ t ∉ invalid /\ exists s, tree !! t = Some s /\ s_chainwork s = w.
Proof.
  unfold chosen. rewrite list_elem_of_omap. split.
  - intros (x & Hx%elem_of_set_order%elem_of_find_tips & (s & Hs & [= -> ->])%fmap_Some). destruct Hx. split; [done|]. split; [done|]. by exists s.
  - intros (Hl & Hi & s & Hs & <-). exists t. split; [by apply elem_of_set_order, elem_of_find_tips|]. by rewrite Hs.
Qed.

Lemma with_backend_holds genesis params b tree invalid : tree_ok (block_hash genesis) tree -> db_holds b tree invalid -> zlen (t_entries (db_headers b)) <= MAX_LOADABLE_HEADERS ->
  exists hs best, with_backend genesis params (Some b) = Ok hs /\ by_hash hs = tree /\ invalid_tips hs = invalid /\ backend hs = Some b /\ best = default (block_hash genesis, 0) (max_work (chosen tree invalid)) /\
    best_known_tip hs = best /\ tips hs = find_tips tree invalid /\ active_set hs = list_to_set (active_chain hs) /\ chain_to tree best.1 (active_chain hs).
Proof.
  intros Hok Hdb Hz. destruct (load_all_holds b tree invalid Hdb (tk_range _ _ Hok) Hz) as (rows & Er & Ei & Hne). destruct (tk_genesis _ _ Hok) as (sg & Hg & Hg0).
  unfold with_backend, try_load_from_backend. cbn [load_invalid_tips redb_backend]. unfold redb_load_invalid_tips. rewrite Er. cbn [mbind res_bind]. rewrite (invalid_loaded b tree invalid Hdb), Ei.
  assert (zlen rows =? 0 = false) as ->. { destruct rows as [|r rows]; [|rewrite zlen_cons; pose proof (zlen_nonneg rows); lia]. exfalso. apply Hne; [|done]. intros ->. by rewrite lookup_empty in Hg. }
  rewrite bool_decide_false by congruence. fold (chosen tree invalid). set (best := default (block_hash genesis, 0) (max_work (chosen tree invalid))).
  assert (exists n, at_height tree best.1 n) as (n & Hn).
  { unfold best. destruct (chosen tree invalid) as [|x l] eqn:Ec; [exists 0; by exists sg|]. destruct (max_work_spec (x :: l)) as ([t w] & -> & Ht & _); [done|]. rewrite <- Ec in Ht. apply elem_of_chosen in Ht as (_ & _ & s & Hs & _). exists (s_height s). by exists s. }
  destruct (chain_loop_chain _ tree best.1 n Hok Hn) as (l & -> & Hc & _). cbn [mbind res_bind]. rewrite (heights_sequential_ok _ tree _ Hok) by (intros i h Hi; by apply (ct_at _ _ _ Hc i h)). cbn [negb mbind res_bind].
  eexists _, best. split; [reflexivity|]. by split_and!.
Qed.

Lemma restored_ok genesis tree invalid (hs : HeaderStore db) : tree_ok (block_hash genesis) tree -> by_hash hs = tree -> tips hs = find_tips tree invalid ->
  best_known_tip hs = default (block_hash genesis, 0) (max_work (chosen tree invalid)) -> active_set hs = list_to_set (active_chain hs) -> chain_to tree (best_known_tip hs).1 (active_chain hs) ->
  (exists t, leaf tree t /\ t ∉ invalid) ->
  store_ok (block_hash genesis) hs /\ (leaf tree (best_known_tip hs).1 /\ (best_known_tip hs).1 ∉ invalid /\ last (active_chain hs) = Some (best_known_tip hs).1) /\
  forall t s, leaf tree t -> t ∉ invalid -> tree !! t = Some s -> s_chainwork s <= (best_known_tip hs).2.
Proof.
  intros Hok Et Etips Eb Es Hc (t0 & Hl0 & Hi0). destruct Hl0 as [[s0 Hs0] Hp0]. assert ((t0, s_chainwork s0) ∈ chosen tree invalid) as H0 by (apply elem_of_chosen; split; [split; [by eexists|done]|]; split; [done|]; by exists s0).
  destruct (max_work_spec (chosen tree invalid)) as ([t w] & Em & Ht & Hm); [by intros E; rewrite E in H0; apply not_elem_of_nil in H0|]. rewrite Em in Eb. cbn in Eb. apply elem_of_chosen in Ht as (Hl & Hi & s & Hs & Hw). rewrite Eb in Hc |- *. cbn [fst snd] in *.
  assert (forall t' s', leaf tree t' -> t' ∉ invalid -> tree !! t' = Some s' -> s_chainwork s' <= w) as Hmax by (intros t' s' Hl' Hi' Hs'; apply (Hm (t', s_chainwork s')); apply elem_of_chosen; split; [done|]; split; [done|]; by exists s').
  split; [|split; [split; [done|]; split; [done|apply (ct_last _ _ _ Hc)]|done]]. split; rewrite ?Et, ?Eb; cbn [fst snd]; [done|by exists t|done|by exists s|].
  intros h s' [Hh|Hh] Hs'; [rewrite Etips in Hh; apply elem_of_find_tips in Hh as [? ?]; by apply (Hmax h s')|]. rewrite (ct_last _ _ _ Hc) in Hh. injection Hh as <-. rewrite Hs in Hs'. injection Hs' as <-. lia.
Qed.

(** ** Writing through *)

Context (Hwrap : forall z v, u256_overflow z = Some v -> U 256 v).
Implicit Types (hs : HeaderStore db) (row : header_row).

Lemma u256_add_range x y z : (u256_add x y : result Z) = Ok z -> U 256 z.
Proof. unfold u256_add, u256_fit. destruct (inU 256 (x + y)) eqn:E; [intros [= <-]; by apply inU_spec|]. destruct (u256_overflow (x + y)) eqn:Ew; [|done]. intros [= <-]. by eapply Hwrap. Qed.

Definition put_tree tree row : gmap Hash256 StoredHeader := <[row.1.1.1 := stored_of row]> tree.

Lemma db_put b tree invalid row : db_holds b tree invalid -> stored_fits (stored_of row) -> db_holds (mkRedb (put_row (db_headers b) row) (db_invalid b)) (put_tree tree row) invalid.
Proof.
  intros [Hd Hi Hf] Hr. destruct row as [[[x header] height] cw]. split; cbn [db_headers db_invalid]; [|done|by apply map_Forall_insert_2].
  intros h. unfold put_row, put_tree. cbn [fst]. rewrite get_insert. destruct (decide (as_bytes x = as_bytes h)) as [E|Hne].
  - assert (x = h) as -> by (rewrite <- (mkHash_as_bytes x), <- (mkHash_as_bytes h); by f_equal). by rewrite lookup_insert_eq.
  - rewrite lookup_insert_ne by congruence. apply Hd.
Qed.

Lemma db_put_all b tree invalid rows : db_holds b tree invalid -> Forall (fun row => stored_fits (stored_of row)) rows -> db_holds (mkRedb (foldl put_row (db_headers b) rows) (db_invalid b)) (foldl put_tree tree rows) invalid.
Proof.
  intros H Hr. revert b tree H. induction Hr as [|row rows Hrow Hr IH]; intros b tree H; cbn [foldl]; [by destruct b|]. apply (IH (mkRedb (put_row (db_headers b) row) (db_invalid b))). by apply db_put.
Qed.

Definition persisted hs : Prop := exists b, backend hs = Some b /\ db_holds b (by_hash hs) (invalid_tips hs).

Lemma commit_all_tree hs v : by_hash (commit_all hs v) = foldl put_tree (by_hash hs) v /\ invalid_tips (commit_all hs v) = invalid_tips hs.
Proof. unfold commit_all. revert hs. induction v as [|[[[x header] height] cw] v IH]; intros hs; cbn [foldl]; [done|]. by destruct (IH (commit_to_memory hs (x, header, height, cw))) as [-> ->]. Qed.

Lemma validated_fits hs l v : validate_batch hs l = Ok v -> Forall header_ok l -> Forall (fun row => stored_fits (stored_of row)) v.
Proof.
  unfold validate_batch. intros H Hl. destruct (zlen l =? 0); [by injection H as <-|]. apply res_bind_Ok in H as (_ & _ & H). apply res_bind_Ok in H as (t & _ & H). apply res_bind_Ok in H as ([v1 t1] & E & H).
  destruct (existsb _ v1); [done|]. injection H as <-. revert E. apply (fold_res_inv (fun acc : list header_row * (Hash256 * Z) => Forall (fun row => stored_fits (stored_of row)) acc.1)); [|constructor].
  intros [v0 [th tn]] header [v2 t2] Hin H0. unfold validate_step. destruct (bool_decide _); [by intros [= <- <-]|]. intros (n & _ & (bt & _ & H)%res_bind_Ok)%res_bind_Ok. destruct (negb _); [done|].
  apply res_bind_Ok in H as (_ & _ & H). apply res_bind_Ok in H as (work & _ & H). apply res_bind_Ok in H as (cw & Ecw & [= <- <-]). cbn [fst] in *. unfold vec_push. apply Forall_app. split; [done|]. constructor; [|constructor].
  split; [by apply (proj1 (Forall_forall _ _) Hl)|]. by eapply u256_add_range.
Qed.

Lemma persist_batch_persisted hs v hs' : persisted hs -> Forall (fun row => stored_fits (stored_of row)) v -> persist_batch (commit_all hs v) v = Ok hs' -> persisted hs' /\ by_hash hs' = by_hash (commit_all hs v).
Proof.
  intros (b & Hb & Hd) Hv. unfold persist_batch. destruct (commit_all_params hs v) as [_ Eb]. rewrite Eb, Hb. cbn. unfold redb_persist_headers. destruct (commit_all_tree hs v) as [Et Ei]. destruct (zlen v =? 0) eqn:Ez; cbn.
  - intros [= <-]. split; [|done]. exists b. cbn. split; [done|]. destruct v; [done|]. rewrite zlen_cons in Ez. pose proof (zlen_nonneg v). lia.
  - intros [= <-]. split; [|done]. eexists. split; [reflexivity|]. cbn. rewrite Et, Ei. by apply db_put_all.
Qed.

Lemma accept_persisted hs header r hs' : header_ok header -> persisted hs -> accept_header hs header = Ok (r, hs') -> persisted hs'.
Proof.
  intros Hh (b & Hb & Hd). unfold accept_header. destruct (bool_decide _); [intros [= _ <-]; by exists b|]. destruct (bool_decide _); [done|].
  intros (q & _ & H)%res_bind_Ok. apply res_bind_Ok in H as (n & _ & H). apply res_bind_Ok in H as (work & _ & H). apply res_bind_Ok in H as (cw & Ecw & H). apply res_bind_Ok in H as (fl & _ & H). apply res_bind_Ok in H as (bt & _ & H).
  destruct (negb _); [done|]. destruct (fails_pow _ _ _); [done|]. rewrite Hb in H. cbn [persist_header redb_backend redb_persist_header mbind res_bind] in H.
  assert (db_holds (mkRedb (put_row (db_headers b) (block_hash header, header, n, cw)) (db_invalid b)) (<[block_hash header := mkStored header n cw]> (by_hash hs)) (invalid_tips hs)) as Hd'.
  { apply (db_put b (by_hash hs) (invalid_tips hs) (block_hash header, header, n, cw) Hd). split; [done|]. by eapply u256_add_range. }
  destruct (cw >? _); [destruct (bool_decide _)|]; injection H as _ <-; eexists; (split; [reflexivity|exact Hd']).
Qed.

Lemma recompute_persisted hs : persisted hs -> persisted (recompute_best_tip hs).
Proof. intros (b & Hb & Hd). by exists b. Qed.

Lemma switch_persisted hs t hs' : persisted hs -> switch_active_chain hs t = Ok hs' -> persisted hs'.
Proof.
  intros (b & Hb & Hd). unfold switch_active_chain. intros (o & _ & (c & _ & [= <-])%res_bind_Ok)%res_bind_Ok. apply recompute_persisted. by exists b.
Qed.

Definition mark_db b (l : list Hash256) : db := foldl (fun b h => mkRedb (db_headers b) (t_insert (db_invalid b) (as_bytes h) tt)) b l.

Lemma mark_db_fold b l : foldl (fun be h => be ← be; log_error be (persist_invalid_tip be h)) (Some b) l = Some (mark_db b l).
Proof. revert b. induction l as [|h l IH]; intros b; cbn [foldl mbind option_bind log_error persist_invalid_tip redb_backend redb_persist_invalid_tip]; [done|]. apply IH. Qed.

Lemma mark_db_holds b tree invalid l : db_holds b tree invalid -> db_holds (mark_db b l) tree (foldl (fun (i : gset Hash256) desc => {[desc]} ∪ i) invalid l).
Proof.
  revert b invalid. induction l as [|h l IH]; intros b invalid [Hd Hi Hf]; cbn [mark_db foldl]; [done|]. apply IH. split; cbn [db_headers db_invalid]; [done| |done]. intros x. rewrite get_insert, elem_of_union, elem_of_singleton, <- Hi.
  destruct (decide (as_bytes h = as_bytes x)) as [E|Hne]; [|split; [by right|intros [->|?]; done]]. assert (x = h) as -> by (rewrite <- (mkHash_as_bytes x), <- (mkHash_as_bytes h); by f_equal). split; [by left|by eexists].
Qed.

Lemma mark_invalid_persisted hs hash hs' : persisted hs -> mark_invalid hs hash = Some hs' -> persisted hs'.
Proof.
  intros (b & Hb & Hd). unfold mark_invalid. rewrite Hb. intros (descends & _ & H)%bind_Some. rewrite mark_db_fold in H. cbn [mbind option_bind] in H. injection H as <-. apply recompute_persisted. eexists. split; [reflexivity|].
  cbn [by_hash invalid_tips]. apply (mark_db_holds b (by_hash hs) (invalid_tips hs) (hash :: _) Hd).
Qed.

(** the operations that write to the database; a batch that arrives from a peer is first
    committed in memory and then written *)
Inductive saved_step : HeaderStore db -> HeaderStore db -> Prop :=
| ss_accept hs header r hs' : header_ok header -> accept_header hs header = Ok (r, hs') -> saved_step hs hs'
| ss_batch hs l v hs1 hs' : Forall header_ok l -> collision_free l -> validate_and_commit hs l = Ok (v, hs1) -> persist_batch hs1 v = Ok hs' -> saved_step hs hs'
| ss_switch hs t hs' : switch_active_chain hs t = Ok hs' -> saved_step hs hs'
| ss_invalid hs hash hs' : mark_invalid hs hash = Some hs' -> saved_step hs hs'.

Lemma saved_step_ok g hs hs' : saved_step hs hs' -> store_ok g hs /\ persisted hs -> store_ok g hs' /\ persisted hs'.
Proof.
  intros H [Hok Hp]. destruct H as [hs header r hs' Hh H|hs l v hs1 hs' Hl Hc H Hb|hs t hs' H|hs hash hs' H].
  - split; [by eapply kept_step_ok; [eapply step_accept_header|]|by eapply accept_persisted].
  - assert (store_ok g hs1) as Hok1 by (by eapply kept_step_ok; [eapply step_commit|]). apply res_bind_Ok in H as (v' & Ev & [= -> <-]). destruct (persist_batch_persisted hs v hs' Hp) as [Hp' _]; [by eapply validated_fits|done|]. split; [|done].
    unfold persist_batch in Hb. fold (commit_all hs v) in Hb, Hok1. destruct (backend (commit_all hs v)); [|by injection Hb as <-]. apply res_bind_Ok in Hb as (b' & _ & [= <-]). by apply set_backend_ok.
  - split; [by eapply kept_step_ok; [eapply step_switch|]|by eapply switch_persisted].
  - split; [by eapply kept_step_ok; [eapply step_mark_invalid|]|by eapply mark_invalid_persisted].
Qed.

Notation new_db := (mkRedb t_empty t_empty : db).

Lemma no_entries {K V T} `{EqDecision K} {HT0 : Table K V T} `{!TableLaws K V T HT0} : t_entries (t_empty : T) = [].
Proof. destruct (t_entries t_empty) as [|[k v] l] eqn:E; [done|]. assert ((k, v) ∈ t_entries (t_empty : T)) as H%elem_entries by (rewrite E; by left). by rewrite get_empty in H. Qed.

Lemma work_range compact w : (work_from_bits compact : result Z) = Ok w -> U 256 w.
Proof.
  unfold work_from_bits. destruct (compact_to_target compact) as [[t n] o]. destruct (_ || _); [intros [= <-]; by apply inU_spec|]. intros (d & _ & H)%res_bind_Ok. by eapply u256_add_range.
Qed.

Lemma new_store_ok genesis params hs : header_ok genesis -> with_backend genesis params (Some new_db) = Ok hs -> store_ok (block_hash genesis) hs /\ persisted hs.
Proof.
  intros Hg. unfold with_backend, try_load_from_backend. cbn [load_invalid_tips load_all redb_backend]. unfold redb_load_invalid_tips, redb_load_all. cbn [db_invalid db_headers]. rewrite (no_entries (T := TT)), (no_entries (T := HT)).
  cbn [fmap list_fmap mbind res_bind]. change (zlen (@nil (list byte * list byte)) >? MAX_LOADABLE_HEADERS) with false. cbn [fold_res mbind res_bind]. change (zlen (@nil header_row) =? 0) with true. cbn beta iota.
  intros (w & Ew & H)%res_bind_Ok. cbn in H. split; [by eapply make_fresh_ok|]. apply res_bind_Ok in H as (w' & Ew' & [= <-]). rewrite Ew in Ew'. injection Ew' as <-. eexists. split; [reflexivity|]. cbn [by_hash invalid_tips].
  apply (db_put new_db ∅ ∅ (block_hash genesis, genesis, 0, w)); [|split; [done|by eapply work_range]].
  split; cbn [db_headers db_invalid]; [intros h; by rewrite get_empty, lookup_empty|intros h; rewrite get_empty; split; [by intros []|set_solver]|apply map_Forall_empty].
Qed.

Lemma run_restart genesis params hs0 hs b : header_ok genesis -> with_backend genesis params (Some new_db) = Ok hs0 -> rtc saved_step hs0 hs -> backend hs = Some b ->
  tree_ok (block_hash genesis) (by_hash hs) /\ db_holds b (by_hash hs) (invalid_tips hs).
Proof.
  intros Hg H0 Hr Hb. assert (store_ok (block_hash genesis) hs /\ persisted hs) as [Hok (b' & Hb' & Hd)].
  { eapply (rtc_ind_r (fun hs => store_ok (block_hash genesis) hs /\ persisted hs) hs0); [by eapply new_store_ok| |exact Hr]. intros x y _ Hxy. by apply saved_step_ok. }
  split; [apply (so_tree _ _ Hok)|]. by rewrite Hb in Hb'; injection Hb' as <-.
Qed.

(** when every header without successors is marked invalid the active chain is lost:
    only such headers are candidates for the tip *)
Lemma restart_forgets genesis params hs0 hs b : header_ok genesis -> with_backend genesis params (Some new_db) = Ok hs0 -> rtc saved_step hs0 hs -> backend hs = Some b -> zlen (t_entries (db_headers b)) <= MAX_LOADABLE_HEADERS ->
  (forall t, leaf (by_hash hs) t -> t ∈ invalid_tips hs) ->
  exists hs', with_backend genesis params (Some b) = Ok hs' /\ by_hash hs' = by_hash hs /\ invalid_tips hs' = invalid_tips hs /\ backend hs' = Some b /\ active_chain hs' = [block_hash genesis] /\ best_known_tip hs' = (block_hash genesis, 0).
Proof.
  intros Hg H0 Hr Hb Hz Hl. destruct (run_restart genesis params hs0 hs b Hg H0 Hr Hb) as [Hok Hd]. destruct (with_backend_holds genesis params b _ _ Hok Hd Hz) as (hs' & best & E & Et & Ei & Eb & -> & Ebest & Etips & Eset & Hc).
  assert (chosen (by_hash hs) (invalid_tips hs) = []) as Ec. { destruct (chosen _ _) as [|[t w] l] eqn:Ec; [done|]. assert ((t, w) ∈ chosen (by_hash hs) (invalid_tips hs)) as (Ht & Hi & _)%elem_of_chosen by (rewrite Ec; by left). by destruct (Hi (Hl t Ht)). }
  rewrite Ec in Ebest, Hc. cbn in Ebest, Hc. exists hs'. do 4 (split; [done|]). split; [|done]. destruct Hc as [Hlast Hat]. rewrite last_lookup in Hlast. destruct (Hat _ _ Hlast) as [_ (s & Hs & Hh)].
  destruct (tk_genesis _ _ Hok) as (sg & Hsg & Hg0). rewrite Hs in Hsg. injection Hsg as <-. destruct (active_chain hs') as [|x [|y l]]; [done|by injection Hlast as ->|]. cbn in Hh. lia.
Qed.

(** what opening the database again chooses for the active chain: a header without successors
    and with the most work among those that are not marked invalid, or, if all of them
    are, the genesis alone *)
Definition reopened genesis (hs hs' : HeaderStore db) : Prop :=
  store_ok (block_hash genesis) hs' /\ leaf (by_hash hs) (best_known_tip hs').1 /\ (best_known_tip hs').1 ∉ invalid_tips hs /\ last (active_chain hs') = Some (best_known_tip hs').1 /\
    (forall t s, leaf (by_hash hs) t -> t ∉ invalid_tips hs -> by_hash hs !! t = Some s -> s_chainwork s <= (best_known_tip hs').2) \/
  (forall t, leaf (by_hash hs) t -> t ∈ invalid_tips hs) /\ active_chain hs' = [block_hash genesis] /\ best_known_tip hs' = (block_hash genesis, 0).

(** C17: headers survive a restart.  From a new database, after any sequence of accepted
    headers, batches, switches of the active chain and chains marked invalid, opening the
    database again, with at most 10,000,000 entries in it, gives the same headers and the same
    invalid chains.  If some header without successors is not marked invalid, the header
    store is well-formed, its active chain ends in such a header, and no such header has
    more work; if there is none, the active chain is the genesis alone.  The headers of a
    batch with equal hashes are assumed equal; purged forks are not among the operations. *)
Theorem restart_restores genesis params hs0 hs b : header_ok genesis -> with_backend genesis params (Some new_db) = Ok hs0 -> rtc saved_step hs0 hs -> backend hs = Some b -> zlen (t_entries (db_headers b)) <= MAX_LOADABLE_HEADERS ->
  exists hs', with_backend genesis params (Some b) = Ok hs' /\ by_hash hs' = by_hash hs /\ invalid_tips hs' = invalid_tips hs /\ backend hs' = Some b /\ reopened genesis hs hs'.
Proof.
  intros Hg H0 Hr Hb Hz. destruct (run_restart genesis params hs0 hs b Hg H0 Hr Hb) as [Hok Hd]. destruct (chosen (by_hash hs) (invalid_tips hs)) as [|[t w] l] eqn:Ec.
  - assert (forall t, leaf (by_hash hs) t -> t ∈ invalid_tips hs) as Hl.
    { intros t Ht. destruct (decide (t ∈ invalid_tips hs)) as [|Hi]; [done|]. destruct (proj1 Ht) as [s Hs]. assert ((t, s_chainwork s) ∈ chosen (by_hash hs) (invalid_tips hs)) as Hin by (apply elem_of_chosen; eauto).
      rewrite Ec in Hin. by apply not_elem_of_nil in Hin. }
    destruct (restart_forgets genesis params hs0 hs b Hg H0 Hr Hb Hz Hl) as (hs' & E & Et & Ei & Eb & Ea & Ebest). exists hs'. do 4 (split; [done|]). by right.
  - assert (exists t, leaf (by_hash hs) t /\ t ∉ invalid_tips hs) as Hl.
    { exists t. assert ((t, w) ∈ chosen (by_hash hs) (invalid_tips hs)) as (H1 & H2 & _)%elem_of_chosen by (rewrite Ec; by left). done. }
    clear Ec. destruct (with_backend_holds genesis params b _ _ Hok Hd Hz) as (hs' & best & E & Et & Ei & Eb & -> & Ebest & Etips & Eset & Hc). rewrite <- Ebest in Hc.
    destruct (restored_ok genesis (by_hash hs) (invalid_tips hs) hs' Hok Et Etips Ebest Eset Hc Hl) as (Hs & (Ht1 & Ht2 & Ht3) & Hm). exists hs'. do 4 (split; [done|]). left. exact (conj Hs (conj Ht1 (conj Ht2 (conj Ht3 Hm)))).
Qed.
End HeaderDb.

(** ** Examples: two headers after the genesis, and the second one marked invalid *)

#[local] Existing Instance plain_order.
#[local] Existing Instance toy_sha256.
#[local] Existing Instance trap.
Notation sample_db := (RedbHeaderStore (gmap (list byte) (list byte)) (gmap (list byte) unit)).

Lemma trap_wraps z v : @u256_overflow trap z = Some v -> U 256 v.
Proof. discriminate. Qed.

Definition accept_two (hs : HeaderStore sample_db) : result (HeaderStore sample_db) := '(_, hs) ← accept_header hs branch_a1; '(_, hs) ← accept_header hs branch_a2; Ok hs.
Definition is_leaf (tree : gmap Hash256 StoredHeader) (t : Hash256) : bool := bool_decide (is_Some (tree !! t)) && bool_decide (map_Forall (fun _ s => prev_hash (s_header s) <> t) tree).

Lemma is_leaf_spec tree t : is_leaf tree t = true <-> leaf tree t.
Proof. unfold is_leaf, leaf. rewrite andb_true_iff, !bool_decide_eq_true. done. Qed.

Lemma branch_ok : header_ok root_header /\ header_ok branch_a1 /\ header_ok branch_a2.
Proof. split_and!; (split; [apply inI_spec; reflexivity|]); (split; [vm_compute; reflexivity|]); (split; [reflexivity|]); split_and!; apply inU_spec; reflexivity. Qed.

Lemma accept_two_saved hs hs' : accept_two hs = Ok hs' -> rtc (saved_step (HS := toy_sha256)) hs hs'.
Proof.
  destruct branch_ok as (_ & H1 & H2). intros ([r1 hs1] & E1 & ([r2 hs2] & E2 & [= <-])%res_bind_Ok)%res_bind_Ok. eapply rtc_l; [exact (ss_accept hs branch_a1 r1 hs1 H1 E1)|]. apply rtc_once. exact (ss_accept hs1 branch_a2 r2 hs2 H2 E2).
Qed.

Definition saved_facts (hs : HeaderStore sample_db) : bool :=
  match backend hs with Some b => (zlen (t_entries (db_headers b)) <=? MAX_LOADABLE_HEADERS) | None => false end && is_leaf (by_hash hs) (block_hash branch_a2) && bool_decide (block_hash branch_a2 ∉ invalid_tips hs).
Definition two_saved : result (HeaderStore sample_db * HeaderStore sample_db) :=
  hs0 ← with_backend root_header testing (Some (mkRedb ∅ ∅)); hs ← accept_two hs0; if saved_facts hs then Ok (hs0, hs) else Err EmptyString.
Lemma two_saved_ok : exists r, two_saved = Ok r.
Proof. apply is_ok_Ok. vm_compute. reflexivity. Qed.

Lemma restart_restores_witness : exists hs0 hs b hs', two_saved = Ok (hs0, hs) /\ backend hs = Some b /\ with_backend root_header testing (Some b) = Ok hs' /\ by_hash hs' = by_hash hs /\ leaf (by_hash hs) (best_known_tip hs').1.
Proof.
  destruct two_saved_ok as [[hs0 hs] E]. pose proof E as E'. apply res_bind_Ok in E as (hs0' & E0 & E). apply res_bind_Ok in E as (hs1 & E1 & E). destruct (saved_facts hs1) eqn:Ef; [|discriminate E]. injection E as -> ->.
  unfold saved_facts in Ef. destruct (backend hs) as [b|] eqn:Eb; [|discriminate Ef]. apply andb_true_iff in Ef as [[F1 F2]%andb_true_iff F3]. apply bool_decide_eq_true in F3. apply is_leaf_spec in F2. apply Z.leb_le in F1.
  destruct (restart_restores trap_wraps root_header testing hs0 hs b (proj1 branch_ok) E0 (accept_two_saved _ _ E1) Eb F1) as (hs' & H1 & H2 & _ & _ & H3).
  exists hs0, hs, b, hs'. split; [exact E'|]. split; [exact Eb|]. split; [exact H1|]. split; [exact H2|].
  destruct H3 as [(_ & H3 & _)|[H3 _]]; [exact H3|]. destruct F3. apply H3. exact F2.
Defined.

Definition lost_facts (hs : HeaderStore sample_db) : bool :=
  match backend hs with Some b => (zlen (t_entries (db_headers b)) <=? MAX_LOADABLE_HEADERS) | None => false end && bool_decide (map_Forall (fun t _ => is_leaf (by_hash hs) t = true -> t ∈ invalid_tips hs) (by_hash hs)) && bool_decide (length (active_chain hs) = 3%nat).
Definition two_lost : result (HeaderStore sample_db * HeaderStore sample_db * HeaderStore sample_db) :=
  hs0 ← with_backend root_header testing (Some (mkRedb ∅ ∅)); hs ← accept_two hs0; hs1 ← or_panic (mark_invalid hs (block_hash branch_a2)); if lost_facts hs1 then Ok (hs0, hs, hs1) else Err EmptyString.
Lemma two_lost_ok : exists r, two_lost = Ok r.
Proof. apply is_ok_Ok. vm_compute. reflexivity. Qed.

Lemma restart_forgets_witness : exists hs0 hs hs1 b hs', two_lost = Ok (hs0, hs, hs1) /\ length (active_chain hs1) = 3%nat /\ backend hs1 = Some b /\ with_backend root_header testing (Some b) = Ok hs' /\ active_chain hs' = [block_hash root_header].
Proof.
  destruct two_lost_ok as [[[hs0 hs] hs1] E]. pose proof E as E'. apply res_bind_Ok in E as (hs0' & E0 & E). apply res_bind_Ok in E as (hs' & E1 & E). apply res_bind_Ok in E as (hs1' & E2 & E). destruct (lost_facts hs1') eqn:Ef; [|discriminate E]. injection E as -> -> ->.
  unfold lost_facts in Ef. destruct (backend hs1) as [b|] eqn:Eb; [|discriminate Ef]. apply andb_true_iff in Ef as [[F1 F2]%andb_true_iff F3]. apply bool_decide_eq_true in F2, F3. apply Z.leb_le in F1.
  assert (mark_invalid hs (block_hash branch_a2) = Some hs1) as E3 by (destruct (mark_invalid hs (block_hash branch_a2)); [injection E2 as ->; reflexivity|discriminate E2]).
  destruct (restart_forgets trap_wraps root_header testing hs0 hs1 b (proj1 branch_ok) E0 (rtc_r _ _ _ (accept_two_saved _ _ E1) (ss_invalid _ _ _ E3)) Eb F1) as (hs' & H1 & _ & _ & _ & H3 & _).
  { intros t Ht. destruct (proj1 Ht) as [s Hs]. apply (F2 t s Hs). apply is_leaf_spec. exact Ht. }
  exists hs0, hs, hs1, b, hs'. split; [exact E'|]. split; [exact F3|]. split; [exact Eb|]. split; [exact H1|exact H3].
Defined.
