(* ===== verification/Files.v ===== *)
(** * Files: the files of peers and bans (storage/mod.rs, storage/peers.rs, storage/bans.rs)

    The directory is a finite map from paths to contents.  The serializer (the crate rkyv)
    is a parameter: [Rkyv] are its two functions, [RkyvLaws] that what it writes it reads
    back.  A write may fail or be cut off after any number of bytes; a rename
    happens or does not.  A saved file is shown to be the old or the new one at every
    moment, and bans to survive a restart of the node. *)
From Stdlib Require Import Strings.Byte.
From stdpp Require Import base numbers list strings gmap.
From S2P Require Import Prelude Codec Types Compact Float64 Difficulty Validation Vec ScriptNum Signature Engine EngineSafety ScriptVerify Database Coin UndoStore Ledger Chainstate Pow HashOrder Mempool Headers BlockStore Reorg Network Messages BlockDownload PeerTable PeerTableCorrect.

Class Rkyv (A : Type) : Type := { rkyv_to_bytes : A -> result (list byte); rkyv_from_bytes : list byte -> result A }.
Class RkyvLaws (A : Type) (R : Rkyv A) : Prop := rkyv_roundtrip a bytes : rkyv_to_bytes a = Ok bytes -> rkyv_from_bytes bytes = Ok a.

Definition CHECKSUM_LEN : nat := 32.

Definition checksummed_encode `{HS : Sha256} {A} `{R : Rkyv A} (value : A) : result (list byte) :=
  payload ← context "failed to serialize data" (rkyv_to_bytes value);
  Ok (sha256 payload ++ payload).

Definition checksummed_decode `{HS : Sha256} {A} `{R : Rkyv A} (data : list byte) : result A :=
  if zlen data <? Z.of_nat CHECKSUM_LEN then Err "file too short"%string else
  let stored_checksum := take CHECKSUM_LEN data in
  let payload := drop CHECKSUM_LEN data in
  if bool_decide (sha256 payload <> stored_checksum) then Err "checksum mismatch"%string else
  context "failed to deserialize data" (rkyv_from_bytes payload).

(** a path, with the extension of its last component *)
Record Path := mkPath { dir : string; stem : string; extension : string }.
#[global] Instance Path_eq_dec : EqDecision Path.
Proof. solve_decision. Defined.
#[global] Instance Path_countable : Countable Path.
Proof. refine (inj_countable' (fun p => (dir p, stem p, extension p)) (fun '(d, s, e) => mkPath d s e) _). by intros []. Defined.
Definition with_extension (p : Path) (e : string) : Path := mkPath (dir p) (stem p) e.

Notation FS := (gmap Path (list byte)).

(** how the system calls of a write end: the write fails after some bytes, the rename
    fails; and the moment a crash cuts it off *)
Inductive Io := IoOk | IoWriteFails (k : nat) | IoRenameFails.

Definition atomic_write (io : Io) (fs : FS) (path : Path) (data : list byte) : FS * result unit :=
  let tmp_path := with_extension path "tmp" in
  match io with
  | IoWriteFails k => (<[tmp_path := take k data]> fs, Err "failed to write temp file"%string)
  | IoRenameFails => (<[tmp_path := data]> fs, Err "failed to rename temp file"%string)
  | IoOk => (<[path := data]> (delete tmp_path fs), Ok tt)
  end.

(** the directory that a process stopped during [atomic_write] may leave: nothing done yet, a part
    of the temporary file, or all done.  The source does not call fsync, so what a disk may
    lose with its power is not among these states. *)
Inductive crashed_write (fs : FS) (path : Path) (data : list byte) : FS -> Prop :=
| cw_before : crashed_write fs path data fs
| cw_writing k : crashed_write fs path data (<[with_extension path "tmp" := take k data]> fs)
| cw_after : crashed_write fs path data (atomic_write IoOk fs path data).1.

Definition save `{HS : Sha256} {A} `{R : Rkyv A} (io : Io) (fs : FS) (path : Path) (db : A) : FS * result unit :=
  match checksummed_encode db with
  | Ok data => atomic_write io fs path data
  | Err msg => (fs, Err msg)
  | Panic => (fs, Panic)
  end.

(** [readable] is false when reading an existing file fails *)
Definition load_file `{HS : Sha256} {A} `{R : Rkyv A} (readable : bool) (fs : FS) (path : Path) : option A :=
  match fs !! path with
  | None => None
  | Some data => if readable then match checksummed_decode data with Ok value => Some value | _ => None end else None
  end.

(** *** Which errors of the database are cured by a new file *)

Inductive IoErrorKind := PermissionDenied | StorageFull | OtherKind.
Inductive DatabaseError := UpgradeRequired | RepairAborted | Corrupted | IoError (kind : IoErrorKind) | OtherDatabaseError.
Definition is_recoverable_db_error (e : DatabaseError) : bool :=
  match e with
  | UpgradeRequired | RepairAborted | Corrupted => true
  | IoError kind => match kind with PermissionDenied | StorageFull => false | OtherKind => true end
  | OtherDatabaseError => false
  end.

(** [create] is what [Database::create] finds with a file and without *)
Definition open_or_recreate_db {D} (create : bool -> D + DatabaseError) (exists_file removable : bool) : result D :=
  match create exists_file with
  | inl db => Ok db
  | inr e =>
    if is_recoverable_db_error e then
      if negb removable then Err "failed to remove broken db"%string else
      match create false with inl db => Ok db | inr _ => Err "failed to create fresh db"%string end
    else Err "failed to open db"%string
  end.

Definition peers_path (datadir : string) : Path := mkPath datadir "peers" "dat".
Definition banlist_path (datadir : string) : Path := mkPath datadir "banlist" "dat".

(** ** Saved files *)

Section File.
Context `{HS : Sha256} `{!Sha256Len HS} {A : Type} `{R : Rkyv A} `{!RkyvLaws A R}.
Implicit Types (fs : FS) (path : Path) (v : A).

Lemma decode_encoded v data : checksummed_encode v = Ok data -> checksummed_decode data = Ok v.
Proof.
  unfold checksummed_encode, checksummed_decode. intros (p & E & [= <-])%res_bind_Ok. unfold context in E. destruct (rkyv_to_bytes v) as [p'| |] eqn:Ep; [injection E as ->|done|done].
  unfold zlen. rewrite length_app, (sha256_length p). rewrite (proj2 (Z.ltb_ge _ _)) by (unfold CHECKSUM_LEN; lia). rewrite take_app_length', drop_app_length' by (by rewrite (sha256_length p)).
  rewrite bool_decide_false by (intros H; by apply H). by rewrite (rkyv_roundtrip v p Ep).
Qed.

Lemma load_encoded fs path v data : fs !! path = Some data -> checksummed_encode v = Ok data -> load_file true fs path = Some v.
Proof. intros Hf He. unfold load_file. by rewrite Hf, (decode_encoded v data He). Qed.

Lemma load_other fs fs' path : fs' !! path = fs !! path -> load_file true fs' path = (load_file true fs path : option A).
Proof. intros E. unfold load_file. by rewrite E. Qed.

Lemma tmp_ne path : extension path <> "tmp"%string -> with_extension path "tmp" <> path.
Proof. intros H E. apply H. by rewrite <- E. Qed.

(** C26: a saved file is never half written.  Whatever goes wrong while a file is
    saved, and at whatever moment the process stops, loading it gives the value it had
    before or the new one; after a successful save it is the new one, and after a
    failed one the old one.  What is loaded always passed the checksum.  (The file system is
    taken to keep what was written; without fsync this is not so after a loss of power.) *)
Theorem saved_file_atomic io fs path v data : extension path <> "tmp"%string -> checksummed_encode v = Ok data ->
  (forall fs', crashed_write fs path data fs' -> load_file true fs' path = load_file true fs path \/ load_file true fs' path = Some v) /\
  (let '(fs', r) := save io fs path v in (r = Ok tt /\ load_file true fs' path = Some v) \/ ((exists msg, r = Err msg) /\ load_file true fs' path = (load_file true fs path : option A))) /\
  (forall fs' v', load_file true fs' path = Some v' -> exists payload, fs' !! path = Some (sha256 payload ++ payload) /\ rkyv_from_bytes payload = Ok v').
Proof.
  intros He%tmp_ne Hd. assert (forall fs' x, load_file true (<[with_extension path "tmp" := x]> fs') path = (load_file true fs' path : option A)) as Ht by (intros; apply load_other; by rewrite lookup_insert_ne).
  assert (load_file true (<[path := data]> (delete (with_extension path "tmp") fs)) path = Some v) as Hn by (by eapply load_encoded; [apply lookup_insert_eq|]). split_and!.
  - intros fs' H. destruct H as [|k|]; [by left|left; by apply Ht|by right].
  - unfold save. rewrite Hd. destruct io as [|k|]; cbn; [by left|right; split; [by eexists|apply Ht]..].
  - intros fs' v'. unfold load_file, checksummed_decode. destruct (fs' !! path) as [d|]; [|done]. destruct (zlen d <? _) eqn:El; [done|]. case_bool_decide as Hs; [done|]. unfold context. destruct (rkyv_from_bytes (drop CHECKSUM_LEN d)) as [x| |] eqn:Ex; [|done|done]. intros [= <-].
    exists (drop CHECKSUM_LEN d). split; [|done]. f_equal. destruct (decide (sha256 (drop CHECKSUM_LEN d) = take CHECKSUM_LEN d)) as [->|Hne]; [by rewrite take_drop|]. by destruct Hs.
Qed.
End File.

Section Saved.
Context `{HS : Sha256} `{!Sha256Len HS} `{HP : PeerOrder} `{!PeerOrderLaws HP} `{RP : Rkyv (Db SavedPeer)} `{!RkyvLaws (Db SavedPeer) RP} `{RB : Rkyv (Db SavedBan)} `{!RkyvLaws (Db SavedBan) RB}.
Context {B UT MT IT KT : Type}.
Notation manager := (NodeManager B UT MT IT KT).
Implicit Types (nm : manager) (clk : Clock) (fs : FS) (address : IpAddr).

(** an error is only logged *)
Definition save_all (io_peers io_bans : Io) clk nm (datadir : string) fs : FS :=
  let fs := (save io_peers fs (peers_path datadir) (collect_peers_for_save nm)).1 in
  (save io_bans fs (banlist_path datadir) (collect_bans_for_save clk nm)).1.

(** the start: bans first, then the peers; their tasks and their number *)
Definition load_saved (readable : bool) clk nm (datadir : string) fs : manager * list (IpAddr * Z * Z) * Z :=
  let nm := match load_file readable fs (banlist_path datadir) with Some ban_db => load_saved_bans clk nm ban_db | None => nm end in
  match load_file readable fs (peers_path datadir) with
  | Some peer_db =>
    let count := zlen (db_rows peer_db) in
    if count >? 0 then let '(nm, tasks) := load_saved_peers clk nm peer_db in (nm, tasks, count) else (nm, [], count)
  | None => (nm, [], 0)
  end.

(** ** Bans after a restart *)

Lemma reason_roundtrip r : ban_reason_parse (ban_reason_text r) = r.
Proof. by destruct r. Qed.

Lemma insert_node_other clk nm address port ct a : a <> address -> m_nodes (insert_node clk nm address port ct).1 !! a = m_nodes nm !! a.
Proof.
  intros Hne. unfold insert_node, try_insert_or_reactivate. destruct (_ >=? _); [done|]. destruct (m_nodes nm !! address) as [n|]; [destruct (p_state n)|]; cbn; try done; by rewrite lookup_insert_ne.
Qed.

Lemma insert_node_new clk nm address port ct : m_nodes nm !! address = None -> Z.of_nat (size (m_nodes nm)) < MAX_NODES -> is_Some (m_nodes (insert_node clk nm address port ct).1 !! address) /\ size (m_nodes (insert_node clk nm address port ct).1) = S (size (m_nodes nm)).
Proof.
  intros Hn Hs. unfold insert_node, try_insert_or_reactivate. replace (Z.of_nat (size (m_nodes nm)) >=? MAX_NODES) with false by lia. rewrite Hn. cbn. rewrite lookup_insert_eq, map_size_insert_None by done. split; [by eexists|done].
Qed.

Lemma with_node_size nm address f : size (m_nodes (with_node nm address f)) = size (m_nodes nm).
Proof. unfold with_node. destruct (m_nodes nm !! address) as [n|] eqn:E; [|done]. cbn. by rewrite map_size_insert_Some. Qed.

Lemma load_ban_other clk nm b a : a <> sb_ip b -> m_nodes (load_saved_ban clk nm b) !! a = m_nodes nm !! a.
Proof. intros Hne. unfold load_saved_ban. destruct (_ <=? _); [done|]. rewrite lookup_with_node, decide_False by done. by apply insert_node_other. Qed.

(** the state a saved ban stands for *)
Definition ban_state (b : SavedBan) : NodeState := Banned (ban_reason_parse (sb_reason b)) (sb_created b) (sb_expires b).
Definition banned_as nm address (s : NodeState) : Prop := exists n, m_nodes nm !! address = Some n /\ p_state n = s.

Lemma load_ban_new clk nm b : m_nodes nm !! sb_ip b = None -> Z.of_nat (size (m_nodes nm)) < MAX_NODES -> c_unix clk < sb_expires b -> banned_as (load_saved_ban clk nm b) (sb_ip b) (ban_state b).
Proof.
  intros Hn Hs He. unfold load_saved_ban. rewrite (proj2 (Z.leb_gt _ _)) by done. destruct (insert_node_new clk nm (sb_ip b) 0 Outgoing Hn Hs) as [[n Hin] _]. unfold banned_as. rewrite lookup_with_node, decide_True, Hin by done. by eexists.
Qed.

Lemma load_ban_size clk nm b : (size (m_nodes (load_saved_ban clk nm b)) <= S (size (m_nodes nm)))%nat.
Proof.
  unfold load_saved_ban. destruct (_ <=? _); [lia|]. rewrite with_node_size. unfold insert_node, try_insert_or_reactivate. destruct (_ >=? _); [cbn; lia|].
  destruct (m_nodes nm !! sb_ip b) as [n|] eqn:E; [destruct (p_state n)|]; cbn [fst m_nodes set_m_nodes]; rewrite ?map_size_insert, ?E; unfold id; lia.
Qed.

Lemma load_bans_all clk bans : forall nm, NoDup (sb_ip <$> bans) -> (forall b, b ∈ bans -> m_nodes nm !! sb_ip b = None) -> Z.of_nat (size (m_nodes nm) + length bans) <= MAX_NODES ->
  (forall a, a ∉ sb_ip <$> bans -> m_nodes (foldl (load_saved_ban clk) nm bans) !! a = m_nodes nm !! a) /\
  forall b, b ∈ bans -> c_unix clk < sb_expires b -> banned_as (foldl (load_saved_ban clk) nm bans) (sb_ip b) (ban_state b).
Proof.
  induction bans as [|b bans IH]; intros nm Hnd Hnone Hs; cbn [foldl]; [split; [done|]; intros b Hb; by apply not_elem_of_nil in Hb|]. cbn [fmap list_fmap length] in *. apply NoDup_cons in Hnd as [Hb Hnd].
  destruct (IH (load_saved_ban clk nm b) Hnd) as [Ho Hi].
  - intros b' Hb'. rewrite load_ban_other; [apply Hnone; by right|]. intros E. apply Hb. rewrite <- E. by apply (list_elem_of_fmap_2 sb_ip).
  - pose proof (load_ban_size clk nm b). lia.
  - split; [intros a Ha; rewrite Ho by set_solver; apply load_ban_other; set_solver|]. intros b' [->|Hb']%elem_of_cons He; [|by apply Hi]. unfold banned_as. rewrite Ho by done. apply load_ban_new; [apply Hnone; by left|lia|done].
Qed.

Lemma load_peer_banned clk nm tasks peer address r c e : banned_as nm address (Banned r c e) -> banned_as (load_saved_peer clk (nm, tasks) peer).1 address (Banned r c e).
Proof.
  intros (n & Hn & Hst). unfold load_saved_peer. destruct (decide (sp_ip peer = address)) as [->|Hne].
  - assert (insert_node clk nm address (sp_port peer) Outgoing = (nm, false)) as -> by (unfold insert_node, try_insert_or_reactivate; destruct (_ >=? _); [done|]; by rewrite Hn, Hst). by exists n.
  - pose proof (insert_node_other clk nm (sp_ip peer) (sp_port peer) Outgoing address ltac:(done)) as Ho. destruct (insert_node clk nm (sp_ip peer) (sp_port peer) Outgoing) as [nm' []]; cbn [fst] in *; exists n; rewrite ?lookup_with_node, ?decide_False, ?Ho by done; done.
Qed.

Lemma load_peers_banned clk nm db address r c e : banned_as nm address (Banned r c e) -> banned_as (load_saved_peers clk nm db).1 address (Banned r c e).
Proof.
  intros H. unfold load_saved_peers. destruct (negb _); [done|]. set (acc := (nm, [])). assert (banned_as acc.1 address (Banned r c e)) as Ha by done. clearbody acc. revert acc Ha. induction (db_rows db) as [|p l IH]; intros [nm' ts] Ha; [done|]. by apply IH, load_peer_banned.
Qed.

(** the ban of a peer, as it is saved *)
Definition saved_ban clk (e : IpAddr * PeerNode) : option SavedBan :=
  match p_state e.2 with
  | Banned reason created expires => if expires >? c_unix clk then Some (mkSavedBan e.1 (ban_reason_text reason) created expires) else None
  | _ => None
  end.

Lemma saved_ban_ip clk e b : saved_ban clk e = Some b -> sb_ip b = e.1.
Proof. unfold saved_ban. destruct (p_state e.2); try done. destruct (_ >? _); [by intros [= <-]|done]. Qed.

Lemma saved_bans_distinct clk l : NoDup (fst <$> l) -> NoDup (sb_ip <$> omap (saved_ban clk) l) /\ (forall a, a ∈ sb_ip <$> omap (saved_ban clk) l -> a ∈ fst <$> l) /\ (length (omap (saved_ban clk) l) <= length l)%nat.
Proof.
  induction l as [|e l IH]; cbn [fmap list_fmap omap list_omap length]; [split; [constructor|]; split; [done|lia]|]. intros [Hn Hd]%NoDup_cons. destruct (IH Hd) as (H1 & H2 & H3). destruct (saved_ban clk e) as [b|] eqn:E; [|split; [done|]; split; [intros a Ha; right; by apply H2|lia]].
  cbn [fmap list_fmap length]. rewrite (saved_ban_ip _ _ _ E). split; [apply NoDup_cons; split; [intros Hin; by apply Hn, H2|done]|]. split; [|lia]. intros a [->|Ha]%elem_of_cons; [by left|right; by apply H2].
Qed.

Lemma peer_order_facts nm : NoDup (fst <$> peer_order (m_nodes nm)) /\ length (peer_order (m_nodes nm)) = size (m_nodes nm).
Proof. rewrite (Permutation_length (peer_order_perm (m_nodes nm))), length_map_to_list. split; [|done]. rewrite peer_order_perm. apply NoDup_fst_map_to_list. Qed.

Lemma bans_loaded io clk nm datadir fs payload : rkyv_to_bytes (collect_bans_for_save clk nm) = Ok payload -> load_file true (save_all io IoOk clk nm datadir fs) (banlist_path datadir) = Some (collect_bans_for_save clk nm).
Proof.
  intros E. unfold save_all. assert (checksummed_encode (collect_bans_for_save clk nm) = Ok (sha256 payload ++ payload)) as Ee by (unfold checksummed_encode; by rewrite E). unfold save at 1. rewrite Ee. cbn [atomic_write fst].
  eapply load_encoded; [apply lookup_insert_eq|done].
Qed.

(** C27: bans survive a restart.  A peer whose ban has not run out when the node saves its
    state and when it starts again is banned in the new peer table, for the same reason
    and until the same time, whatever the list of saved peers contains and whether or
    not it could be written. *)
Theorem bans_survive io clk0 clk nm nm0 datadir fs payload address n reason created expires : Z.of_nat (size (m_nodes nm)) <= MAX_NODES -> m_nodes nm0 = ∅ -> rkyv_to_bytes (collect_bans_for_save clk0 nm) = Ok payload ->
  m_nodes nm !! address = Some n -> p_state n = Banned reason created expires -> c_unix clk0 < expires -> c_unix clk < expires ->
  banned_as (load_saved true clk nm0 datadir (save_all io IoOk clk0 nm datadir fs)).1.1 address (Banned reason created expires).
Proof.
  intros Hs H0 Ep Hn Hst He0 He. unfold load_saved. rewrite (bans_loaded io clk0 nm datadir fs payload Ep). unfold load_saved_bans, collect_bans_for_save at 1 2. cbn [db_version db_rows Z.eqb Pos.eqb negb].
  destruct (peer_order_facts nm) as [Hd Hl]. destruct (saved_bans_distinct clk0 (peer_order (m_nodes nm)) Hd) as (Hd' & _ & Hl'). fold (saved_ban clk0).
  destruct (load_bans_all clk (omap (saved_ban clk0) (peer_order (m_nodes nm))) nm0 Hd') as [_ Hall]; [intros; rewrite H0; apply lookup_empty|rewrite H0, map_size_empty; lia|].
  assert (mkSavedBan address (ban_reason_text reason) created expires ∈ omap (saved_ban clk0) (peer_order (m_nodes nm))) as Hin.
  { apply list_elem_of_omap. exists (address, n). split; [by apply elem_of_peer_order|]. unfold saved_ban. cbn. rewrite Hst. by replace (expires >? c_unix clk0) with true by lia. }
  specialize (Hall _ Hin He). unfold ban_state in Hall. cbn in Hall. rewrite reason_roundtrip in Hall. set (nm1 := foldl _ nm0 _) in *.
  destruct (load_file true _ (peers_path datadir)) as [db|]; [|done]. destruct (_ >? 0); [|done]. pose proof (load_peers_banned clk nm1 db address reason created expires Hall) as Hp. by destruct (load_saved_peers clk nm1 db) as [nm2 ts].
Qed.
End Saved.

(** ** Examples *)

#[local] Existing Instance toy_sha256.
#[local] Existing Instance plain_peers.
#[local] Instance bytes_rkyv : Rkyv (list byte) := {| rkyv_to_bytes l := Ok l; rkyv_from_bytes l := Ok l |}.
#[local] Instance bytes_rkyv_laws : RkyvLaws (list byte) bytes_rkyv.
Proof. intros a bytes [= ->]. reflexivity. Qed.

Definition sample_path : Path := mkPath "data" "peers" "dat".
Lemma saved_file_atomic_witness : load_file true (save IoOk ∅ sample_path [x01; x02]).1 sample_path = Some [x01; x02].
Proof.
  destruct (saved_file_atomic IoOk ∅ sample_path [x01; x02] (sha256 [x01; x02] ++ [x01; x02])) as (_ & H & _); [discriminate|reflexivity|]. unfold save in *. cbn [checksummed_encode rkyv_to_bytes bytes_rkyv context mbind res_bind] in *.
  destruct H as [[_ H]|[[msg H] _]]; [exact H|discriminate H].
Defined.

#[local] Instance SavedBan_eq_dec : EqDecision SavedBan.
Proof. solve_decision. Defined.
#[local] Instance BanDb_eq_dec : EqDecision (Db SavedBan).
Proof. solve_decision. Defined.

(** a serializer for the file of the example *)
Definition banned_manager := sample_manager (Banned Misbehavior 1700000000 1700086400) ∅.
Definition sample_bans : Db SavedBan := collect_bans_for_save sample_clock banned_manager.
#[local] Instance ban_rkyv : Rkyv (Db SavedBan) := {| rkyv_to_bytes db := if decide (db = sample_bans) then Ok [x01] else Err "too long"%string; rkyv_from_bytes _ := Ok sample_bans |}.
#[local] Instance ban_rkyv_laws : RkyvLaws (Db SavedBan) ban_rkyv.
Proof. intros db bytes. cbn. destruct (decide (db = sample_bans)) as [->|]; [reflexivity|discriminate]. Qed.
#[local] Instance peer_rkyv : Rkyv (Db SavedPeer) := {| rkyv_to_bytes _ := Err "no peers"%string; rkyv_from_bytes _ := Err "no peers"%string |}.
#[local] Instance peer_rkyv_laws : RkyvLaws (Db SavedPeer) peer_rkyv.
Proof. intros db bytes. discriminate. Qed.

Lemma bans_survive_witness : banned_as (load_saved true sample_clock (set_m_nodes banned_manager ∅) "data" (save_all IoRenameFails IoOk sample_clock banned_manager "data" ∅)).1.1 sample_peer (Banned Misbehavior 1700000000 1700086400).
Proof.
  assert (rkyv_to_bytes (collect_bans_for_save sample_clock banned_manager) = Ok [x01]) as E by (cbn [rkyv_to_bytes ban_rkyv]; by rewrite decide_True).
  apply (bans_survive IoRenameFails sample_clock sample_clock banned_manager (set_m_nodes banned_manager ∅) "data" ∅ [x01] sample_peer (node_new sample_clock 9933 Incoming (Banned Misbehavior 1700000000 1700086400)) Misbehavior 1700000000 1700086400).
  - vm_compute. discriminate.
  - reflexivity.
  - exact E.
  - reflexivity.
  - reflexivity.
  - reflexivity.
  - reflexivity.
Defined.
