(* ===== verification/Startup.v ===== *)
(** * Startup: putting the node together (main.rs, dns.rs)

    [run_core] is the start of the node up to the moment its tasks run: the
    manager is created and the header database attached, the stores are wired in, a reorganisation
    cut off by a crash is made up for, the channels are created, bans and peers
    are loaded and the first peers are looked for.  [relay_loop] with [relay_tx] is
    the task that announces transactions, and [shutdown] the end of the node.

    The results of the name servers and the shuffle of the addresses are parameters, as are
    the opened stores. *)
From Stdlib Require Import Strings.Byte.
From stdpp Require Import base numbers list strings gmap.
From S2P Require Import Prelude Codec Types Compact Float64 Difficulty Validation Vec ScriptNum Signature Engine EngineSafety ScriptVerify Database Coin UndoStore Ledger Chainstate Pow HashOrder Mempool Headers HeadersCorrect BlockStore Reorg Network Messages BlockDownload PeerTable PeerTableCorrect Handlers HandlersCorrect Connections Files.

Definition GENESIS_HEADER : BlockHeader :=
  mkHeader 1 HASH_ZERO (mkHash [xf7; x9c; xf2; xa0; x69; xbe; xae; xfd; x31; x40; x21; xe0; x86; xfb; x13; x8d; x1c; x43; xb8; x5e; x33; x17; xb1; xaa; xf2; xcd; xd9; xb5; x3d; xa3; x07; x40])
    1387838302 0x1e0ffff0 588050.

Notation SocketAddr := (IpAddr * Z)%type.
Record Args := mkArgs { a_port : Z; a_seed : SocketAddr; a_no_dns_seed : bool; a_datadir : string; a_daemon : bool; a_no_logfile : bool }.

(** where log lines go besides the file: to the error stream, or through the channel of
    the interface, which is then started *)
Inductive LogSink := StderrSink | TuiSink.
(** [log_opens]: whether the log file could be opened *)
Definition main_logging (args : Args) (log_opens : bool) : bool * LogSink :=
  (if a_no_logfile args then false else log_opens, if a_daemon args then StderrSink else TuiSink).

(** ** DNS seeds *)

(** a seed resolves to addresses, fails, or takes too long *)
Inductive DnsResult := Resolved (addrs : list SocketAddr) | ResolveFailed | ResolveTimedOut.
Definition resolve_single_seed (r : DnsResult) : list SocketAddr := match r with Resolved addrs => addrs | _ => [] end.
(** [None] is a task that panicked *)
Definition resolve_dns_seeds (shuffle : gset SocketAddr -> list SocketAddr) (results : list (option DnsResult)) : list SocketAddr :=
  shuffle (foldl (fun seen r => match r with Some r => list_to_set (resolve_single_seed r) ∪ seen | None => seen end) ∅ results).

Section Startup.
Context `{HS : Sha256} `{HD : Digests} `{HK : K256} `{HU256 : U256Overflow} `{HO : HashOrder} `{HP : PeerOrder} `{HSip : SipHash} `{RP : Rkyv (Db SavedPeer)} `{RB : Rkyv (Db SavedBan)}.
Context {B UT MT IT KT : Type} {HB : HeaderBackend B} {HU : Table (list byte) (list byte) UT} {HM : Table string (list byte) MT}
  {HI : Table (list byte) (Z * Z * Z) IT} {HBI : Table (list byte) (Z * Z * Z) KT}.
Notation manager := (NodeManager B UT MT IT KT).
Notation world := (World (B := B) (UT := UT) (MT := MT) (IT := IT) (KT := KT)).
Notation handler := (task world).
Implicit Types (w : world) (nm : manager) (env : PeerEnv) (txid : Hash256).

(** ** The announcement of transactions *)

(** one connected peer; those the announcement was sent to *)
Definition relay_one env (txid : Hash256) (payload : list byte) (sent_to : list IpAddr) (e : IpAddr * nat) : handler (list IpAddr) :=
  nm ← nm_get;
  if peer_knows_inv nm e.1 txid then mret sent_to else
  ok ← Handlers.attempt (send_on env e.2 "inv" payload);
  mret (if (ok : bool) then sent_to ++ [e.1] else sent_to).

Definition relay_tx env (txid : Hash256) : handler unit :=
  let payload := message_inv_to_bytes [mkInv InvTx txid] in
  nm ← nm_get;
  sent_to ← each (relay_one env txid payload) [] (get_connected_writers nm);
  nm_update (fun nm => foldl (fun nm a => mark_peer_inv_known nm a txid) nm sent_to).

(** what the subscription to the pool's announcements gives *)
Inductive RelayEvent := Announced (txid : Hash256) | Lagged (skipped : Z) | Closed.

(** the task: missed announcements are only reported, a closed channel ends it *)
Fixpoint relay_loop (envs : nat -> PeerEnv) (events : list RelayEvent) : handler unit :=
  match events with
  | [] => mret tt
  | Announced txid :: events => _ ← relay_tx (envs (length events)) txid; relay_loop envs events
  | Lagged _ :: events => relay_loop envs events
  | Closed :: _ => mret tt
  end.

(** ** The start *)

Definition attach_stores (cs : ChainState UT MT IT) (bs : BlockStore KT) nm : manager :=
  mkManager (m_nodes nm) (my_nonce nm) (external_ip_votes nm) (listen_port nm) (port_reachable nm) (incoming_count nm) (incoming_cooldowns nm) (m_headers nm) (m_locked nm)
    (cached_height nm) (cached_tip_bits nm) (block_queue nm) (disconnect_queue nm) (reorg_queue nm) (m_mempool nm) (Some cs) (Some bs).
Definition set_listen_port nm (port : Z) : manager :=
  mkManager (m_nodes nm) (my_nonce nm) (external_ip_votes nm) port (port_reachable nm) (incoming_count nm) (incoming_cooldowns nm) (m_headers nm) (m_locked nm)
    (cached_height nm) (cached_tip_bits nm) (block_queue nm) (disconnect_queue nm) (reorg_queue nm) (m_mempool nm) (m_chainstate nm) (m_block_store nm).

Definition new_manager (args : Args) (nonce : Z) : result manager :=
  nm ← with_header_backend nonce GENESIS_HEADER mainnet None;
  Ok (set_m_mempool (set_listen_port nm (a_port args)) (Some mempool_new)).

Definition crash_recovery (cs : ChainState UT MT IT) (bs : BlockStore KT) (mp : Mempool) : handler unit :=
  headers ← lock_headers;
  if bool_decide ((best_tip headers).1.1 = (tip cs).1) then drop_lock else
  if bool_decide (hs_get headers (tip cs).1 = None) then drop_lock else
  match activate_best_chain bs (mkNode headers cs mp) with
  | Done (Reorganized _ _ _ _) n =>
    match purge_stale_forks (n_headers n) (tip (n_chain n)).2 with
    | Some hs => _ ← nm_update (set_components n); unlock_headers hs
    | None => fun _ => Crashed
    end
  | Done _ n => _ ← nm_update (set_components n); drop_lock
  | Failed _ n => _ ← nm_update (set_components n); drop_lock
  | Exited _ => fun _ => Crashed
  | Trapped => fun _ => Crashed
  end.

Definition open_channels nm : manager := set_reorg_queue (set_disconnect_queue (set_block_queue nm (Some [])) (Some [])) (Some []).

Definition connect_to env nm (addrs : list SocketAddr) : manager * list (IpAddr * Z * Z) :=
  foldl (fun '(nm, tasks) (addr : SocketAddr) => let '(nm, new) := insert_outgoing (pe_clock env) nm addr.1 addr.2 in (nm, tasks ++ new)) (nm, []) addrs.

(** peers from the name servers and the configured one *)
Definition discover env (args : Args) (dns_addrs : list SocketAddr) nm : manager * list (IpAddr * Z * Z) :=
  connect_to env nm ((if a_no_dns_seed args then [] else dns_addrs) ++ [a_seed args]).
(** the fallback 30 seconds after saved peers were loaded *)
Definition discover_later env (args : Args) (dns_addrs : list SocketAddr) nm : manager * list (IpAddr * Z * Z) :=
  if connected_count nm >? 0 then (nm, []) else discover env args dns_addrs nm.

Definition apply_tasks (f : manager -> manager * list (IpAddr * Z * Z)) : handler unit :=
  nm ← nm_get; let '(nm, tasks) := f nm in _ ← nm_update (fun _ => nm); spawn_tasks tasks.

(** the header database, when there is one *)
Definition attach_backend (be : option B) : handler unit := match be with Some be => attach_header_backend be | None => mret tt end.

(** with the stores open; [true] when peers were loaded, and the search for others waits *)
Definition start_core env (args : Args) (cs : ChainState UT MT IT) (bs : BlockStore KT) (readable : bool) (fs : gmap Path (list byte)) (dns_addrs : list SocketAddr) : handler bool :=
  _ ← nm_update (attach_stores cs bs);
  nm ← nm_get;
  _ ← (match m_mempool nm with Some mp => crash_recovery cs bs mp | None => mret tt end);
  _ ← nm_update open_channels;
  nm ← nm_get;
  let '(nm, tasks, loaded_peers) := load_saved readable (pe_clock env) nm (a_datadir args) fs in
  _ ← nm_update (fun _ => nm);
  _ ← spawn_tasks tasks;
  if loaded_peers >? 0 then mret true else
  _ ← apply_tasks (discover env args dns_addrs);
  mret false.

(** the header database; without it headers are not kept *)
Definition open_header_backend (create : bool -> B + DatabaseError) (exists_file removable : bool) : option B :=
  match open_or_recreate_db create exists_file removable with Ok be => Some be | _ => None end.

(** [run_core] up to its tasks: the data directory, the block store and the chain state
    are needed, the header database is not *)
Definition run_core env (args : Args) (dir_ok : bool) (be : option B) (bs : option (BlockStore KT)) (cs : option (ChainState UT MT IT)) (readable : bool) (fs : gmap Path (list byte)) (dns_addrs : list SocketAddr) : handler bool :=
  if negb dir_ok then refuse "failed to create data directory" else
  _ ← attach_backend be;
  match bs, cs with
  | None, _ => refuse "failed to open block store"
  | _, None => refuse "failed to open chainstate"
  | Some bs, Some cs => start_core env args cs bs readable fs dns_addrs
  end.

(** the first of the tasks that ends, or the interrupt, ends the node *)
Inductive Ended := CtrlC | ListenerEnded | ReaperEnded | AnnounceEnded | PersistenceEnded | DownloadEnded | RelayEnded | HeaderTimeoutEnded | StrikeDecayEnded | UiEnded.
(** then the peers and bans are saved, and the connections are shut down *)
Definition shutdown (ended : Ended) (io_peers io_bans : Io) (clk : Clock) nm (args : Args) (fs : gmap Path (list byte)) : gmap Path (list byte) * list nat :=
  (save_all io_peers io_bans clk nm (a_datadir args) fs, graceful_shutdown nm).

(** ** Each transaction is announced once *)

Context `{!PeerOrderLaws HP}.
Notation sent := (nat * string * list byte * bool)%type.

Definition with_sent w (l : list sent) : world := mkWorld (w_nm w) (w_sent w ++ l) (w_spawned w).
Definition unaware nm txid (l : list (IpAddr * nat)) : list (IpAddr * nat) := filter (fun e => peer_knows_inv nm e.1 txid = false) l.
Lemma unaware_cons nm txid e l : unaware nm txid (e :: l) = if peer_knows_inv nm e.1 txid then unaware nm txid l else e :: unaware nm txid l.
Proof. unfold unaware. rewrite filter_cons. destruct (peer_knows_inv nm e.1 txid); [by rewrite decide_False|by rewrite decide_True]. Qed.
Definition announcement txid (e : IpAddr * nat) : sent := (e.2, "inv"%string, message_inv_to_bytes [mkInv InvTx txid], true).

Lemma announcement_fits txid : hash_ok txid -> exists m, message_new (String.list_byte_of_string "inv") (message_inv_to_bytes [mkInv InvTx txid]) = Ok m.
Proof.
  intros Hh. unfold message_new, message_inv_to_bytes. cbn [map concat zlen length]. assert (zlen (write_varint (zlen [mkInv InvTx txid]) ++ inv_item_to_bytes (mkInv InvTx txid) ++ []) = 37) as Hz.
  { unfold zlen. rewrite !length_app. unfold inv_item_to_bytes. rewrite length_app, length_le_bytes. unfold hash_ok, HASH_LEN in Hh. cbn [inv_hash inv_type]. rewrite Hh. done. }
  rewrite Hz. change (37 >? MAX_MESSAGE_SIZE) with false. cbn [negb]. by eexists.
Qed.

Lemma relay_each env txid l : (forall k, pe_delivers env k = true) -> hash_ok txid -> forall acc w,
  each (relay_one env txid (message_inv_to_bytes [mkInv InvTx txid])) acc l w = Returned (acc ++ (fst <$> unaware (w_nm w) txid l)) (with_sent w (announcement txid <$> unaware (w_nm w) txid l)).
Proof.
  intros Hdel Hh. destruct (announcement_fits txid Hh) as [m Hm]. induction l as [|e l IH]; intros acc w; cbn [each]; unfold mbind, task_bind.
  - cbn. unfold with_sent. rewrite !app_nil_r. by destruct w.
  - unfold relay_one at 1, nm_get, mbind, task_bind. rewrite unaware_cons. destruct (peer_knows_inv (w_nm w) e.1 txid) eqn:Ek; [apply IH|].
    unfold Handlers.attempt, send_on. rewrite Hm, Hdel. cbn [mret task_ret]. rewrite IH. unfold with_sent, announcement. cbn. by rewrite <- !app_assoc.
Qed.

Lemma mark_state nm a x txid : option_map p_state (m_nodes (mark_peer_inv_known nm a txid) !! x) = option_map p_state (m_nodes nm !! x).
Proof. unfold mark_peer_inv_known. rewrite lookup_with_node. destruct (decide (x = a)); [|done]. by destruct (m_nodes nm !! x). Qed.

Lemma mark_knows nm a x txid : is_Some (m_nodes nm !! x) -> peer_knows_inv nm x txid = true \/ x = a -> peer_knows_inv (mark_peer_inv_known nm a txid) x txid = true.
Proof.
  intros [n Hn] H. unfold peer_knows_inv, mark_peer_inv_known in *. rewrite lookup_with_node, Hn. rewrite Hn in H. destruct (decide (x = a)) as [->|Hne]; [|by destruct H]. cbn. apply bool_decide_eq_true. set_solver.
Qed.

Lemma marks_known txid l : forall nm x, is_Some (m_nodes nm !! x) -> peer_knows_inv nm x txid = true \/ x ∈ l -> peer_knows_inv (foldl (fun nm a => mark_peer_inv_known nm a txid) nm l) x txid = true.
Proof.
  induction l as [|a l IH]; intros nm x Hx H; cbn [foldl]; [destruct H as [H|H]; [done|by apply not_elem_of_nil in H]|]. apply IH.
  - pose proof (mark_state nm a x txid) as E. destruct Hx as [n Hn]. rewrite Hn in E. by destruct (m_nodes (mark_peer_inv_known nm a txid) !! x).
  - rewrite elem_of_cons in H. destruct H as [H|[->|H]]; [left; by apply mark_knows; [|left]|left; by apply mark_knows; [|right]|by right].
Qed.

Lemma marks_state txid l x : forall nm, option_map p_state (m_nodes (foldl (fun nm a => mark_peer_inv_known nm a txid) nm l) !! x) = option_map p_state (m_nodes nm !! x).
Proof. induction l as [|a l IH]; intros nm; cbn [foldl]; [done|]. by rewrite IH, mark_state. Qed.

Lemma elem_of_writers nm a writer : (a, writer) ∈ get_connected_writers nm <-> option_map p_state (m_nodes nm !! a) = Some (Connected writer).
Proof.
  unfold get_connected_writers. rewrite list_elem_of_omap. split.
  - intros ([b n] & Hin%elem_of_peer_order & H). cbn in H. destruct (p_state n) eqn:Es; try done. injection H as -> ->. rewrite Hin. cbn. by rewrite Es.
  - destruct (m_nodes nm !! a) as [n|] eqn:E; [|done]. cbn. intros [= Hs]. exists (a, n). split; [by apply elem_of_peer_order|]. cbn. by rewrite Hs.
Qed.

(** C28: a transaction is announced once to each peer.  While messages get through, every
    connected peer that is not known to have the transaction gets one inv message with
    it and the others get none; afterwards every connected peer is known to have it,
    and announcing it again sends and changes nothing. *)
Theorem relay_once env txid w : (forall k, pe_delivers env k = true) -> hash_ok txid ->
  exists w1, relay_tx env txid w = Returned tt w1 /\ w_sent w1 = w_sent w ++ (announcement txid <$> unaware (w_nm w) txid (get_connected_writers (w_nm w))) /\
    (forall a writer, (a, writer) ∈ get_connected_writers (w_nm w1) -> peer_knows_inv (w_nm w1) a txid = true) /\ relay_tx env txid w1 = Returned tt w1.
Proof.
  intros Hdel Hh. set (l := get_connected_writers (w_nm w)). set (w1 := mkWorld (foldl (fun nm a => mark_peer_inv_known nm a txid) (w_nm w) (fst <$> unaware (w_nm w) txid l)) (w_sent w ++ (announcement txid <$> unaware (w_nm w) txid l)) (w_spawned w)).
  assert (forall a writer, (a, writer) ∈ get_connected_writers (w_nm w1) -> peer_knows_inv (w_nm w1) a txid = true) as Hk.
  { intros a writer Ha%elem_of_writers. cbn [w1 w_nm] in *. rewrite marks_state in Ha. pose proof (proj2 (elem_of_writers (w_nm w) a writer) Ha) as Hin. apply marks_known; [by destruct (m_nodes (w_nm w) !! a)|].
    destruct (peer_knows_inv (w_nm w) a txid) eqn:Ek; [by left|right]. apply (list_elem_of_fmap_2 fst _ (a, writer)), list_elem_of_filter. done. }
  exists w1. split; [|split; [done|split; [done|]]]; unfold relay_tx, nm_get, nm_update, mbind, task_bind; rewrite (relay_each env txid _ Hdel Hh).
  - done.
  - assert (unaware (w_nm w1) txid (get_connected_writers (w_nm w1)) = []) as Eu. { destruct (unaware (w_nm w1) txid (get_connected_writers (w_nm w1))) as [|[a writer] k] eqn:E; [done|]. assert ((a, writer) ∈ unaware (w_nm w1) txid (get_connected_writers (w_nm w1))) as [Hu Hin]%list_elem_of_filter by (rewrite E; by left). cbn [fst] in Hu. by rewrite (Hk a writer Hin) in Hu. }
    rewrite Eu. cbn [fmap list_fmap app foldl with_sent]. unfold with_sent. rewrite app_nil_r. by destruct w1.
Qed.
End Startup.

(** ** Example: one connected peer *)

#[local] Existing Instance toy_sha256.
#[local] Existing Instance plain_peers.
Definition one_peer : sample_world := world_of {[sample_peer := node_new sample_clock 9933 Outgoing (Connected 0)]} bare_headers 0.

Lemma relay_once_witness : exists w1, relay_tx sample_env HASH_ZERO one_peer = Returned tt w1 /\ w_sent w1 = [announcement HASH_ZERO (sample_peer, 0%nat)] /\ relay_tx sample_env HASH_ZERO w1 = Returned tt w1.
Proof.
  destruct (relay_once sample_env HASH_ZERO one_peer (fun _ => eq_refl) eq_refl) as (w1 & H1 & H2 & _ & H3). exists w1. split; [exact H1|]. split; [|exact H3]. rewrite H2. vm_compute. reflexivity.
Defined.
