(* ===== verification/Text.v ===== *)
(** * Text: numbers as the display shows them

    Models the formatting the user interface relies on: the decimal text of an
    integer, the fixed-point text [{:.p}] of an [f64] (the decimal nearest to the exact
    binary value, ties to even), grouping by thousands and progress bars
    (src/src/ui/tui.rs), ages (ui/tab_peers.rs, ui/tab_mempool.rs) and
    difficulties (difficulty/mod.rs).  Strings are UTF-8 bytes. *)
From Stdlib Require Import Strings.Ascii Strings.String Floats.SpecFloat micromega.ZifyNat.
From stdpp Require Import base numbers list strings.
From S2P Require Import Prelude Codec Types Compact Float64 Difficulty.
Local Open Scope string_scope.
Local Open Scope Z_scope.

(** ** Integers *)

(** the decimal digits, the least first *)
Fixpoint dec_digits (fuel : nat) (n : Z) : list Z :=
  match fuel with
  | O => []
  | S fuel => if n <? 10 then [n] else (n mod 10) :: dec_digits fuel (n / 10)
  end.
Definition digits_of (n : Z) : list Z := dec_digits (S (Z.to_nat (Z.log2 n))) n.
Definition digit_char (d : Z) : ascii := ascii_of_nat (48 + Z.to_nat d).

(** [to_string] of an unsigned and of a signed integer *)
Definition show_u (n : Z) : string := string_of_list_ascii (rev (digit_char <$> digits_of n)).
Definition show_i (z : Z) : string := if z <? 0 then "-" +:+ show_u (- z) else show_u z.

(** ** Fixed-point numbers *)

(** the integer nearest to [num / den], ties to even *)
Definition round_half_even (num den : Z) : Z :=
  let q := num / den in
  let r := num mod den in
  if (2 * r >? den) || ((2 * r =? den) && Z.odd q) then q + 1 else q.


Definition zeros (k : nat) : string := string_of_list_ascii (replicate k "0"%char).

(** [{n:0k}] *)
Definition show_padded (k : nat) (n : Z) : string := let t := show_u n in zeros (k - String.length t) +:+ t.

(** [n / 10^p] with [p] digits after the point *)
Definition show_fixed (p : nat) (n : Z) : string :=
  match p with
  | O => show_u n
  | _ => show_u (n / 10 ^ Z.of_nat p) +:+ "." +:+ show_padded p (n mod 10 ^ Z.of_nat p)
  end.

(** an amount in whole coins, with eight digits *)
Definition format_catoshis (catoshis : Z) : string :=
  let CAT := 100000000 in
  let whole := Z.quot catoshis CAT in
  let frac := Z.abs (Z.rem catoshis CAT) in
  show_i whole +:+ "." +:+ show_padded 8 frac.

(** the value of a finite float times [10^p], rounded *)
Definition scaled (p : nat) (m : positive) (e : Z) : Z :=
  let n := Zpos m * 10 ^ Z.of_nat p in
  if 0 <=? e then n * 2 ^ e else round_half_even n (2 ^ (- e)).

(** [format!("{x:.p}")] *)
Definition show_f64 (p : nat) (x : f64) : string :=
  match x with
  | S754_nan => "NaN"
  | S754_infinity s => if s then "-inf" else "inf"
  | S754_zero s => (if s then "-" else EmptyString) +:+ show_fixed p 0
  | S754_finite s m e => (if s then "-" else EmptyString) +:+ show_fixed p (scaled p m e)
  end.

(** ** Groups of three *)

(** the reversed text with a comma before every third character but the first *)
Fixpoint with_commas (i : nat) (l : list ascii) : list ascii :=
  match l with
  | [] => []
  | c :: l => (if (0 <? i)%nat && (i mod 3 =? 0)%nat then [","%char; c] else [c]) ++ with_commas (S i) l
  end.

Definition format_number (n : Z) : string :=
  string_of_list_ascii (rev (with_commas 0 (rev (list_ascii_of_string (show_u n))))).

(** ** Progress *)

(** [f64 as usize]: truncate, saturate, NaN is 0 *)
Definition f64_as_usize (x : f64) : Z :=
  match x with
  | S754_nan | S754_zero _ => 0
  | S754_infinity s => if s then 0 else u64_max
  | S754_finite s m e => if s then 0 else Z.min u64_max (if 0 <=? e then Zpos m * 2 ^ e else Zpos m / 2 ^ (- e))
  end.

Definition FULL_BLOCK : string := "█".
Definition LIGHT_SHADE : string := "░".
Definition repeat_str (n : nat) (s : string) : string := foldr (fun c acc => c +:+ acc) EmptyString (replicate n s).

Definition format_progress_bar (ratio : f64) (width : Z) : string :=
  let filled := f64_as_usize (f64_mul ratio (f64_of_i64 width)) in
  let empty := sat_sub width filled in
  repeat_str (Z.to_nat filled) FULL_BLOCK +:+ repeat_str (Z.to_nat empty) LIGHT_SHADE.

(** ** Times *)

Definition format_elapsed (secs : Z) : string :=
  if secs <? 60 then show_u secs +:+ "s ago"
  else if secs <? 3600 then show_u (secs / 60) +:+ "m ago"
  else if secs <? 86400 then show_u (secs / 3600) +:+ "h ago"
  else show_u (secs / 86400) +:+ "d ago".

(** of a duration in nanoseconds *)
Definition format_age (duration : Z) : string :=
  let secs := duration / 1000000000 in
  if secs <? 60 then show_u secs +:+ "s"
  else if secs <? 3600 then show_u (secs / 60) +:+ "m"
  else show_u (secs / 3600) +:+ "h".

(** ** Difficulty *)

(** the two loops that bring [shift] to 29; one of them runs *)
Fixpoint scale_up (fuel : nat) (shift : Z) (diff : f64) : f64 * Z :=
  match fuel with
  | O => (diff, shift)
  | S fuel => if shift <? 29 then scale_up fuel (shift + 1) (f64_mul diff (f64_of_i64 256)) else (diff, shift)
  end.
Fixpoint scale_down (fuel : nat) (shift : Z) (diff : f64) : f64 * Z :=
  match fuel with
  | O => (diff, shift)
  | S fuel => if shift >? 29 then scale_down fuel (shift - 1) (f64_div diff (f64_of_i64 256)) else (diff, shift)
  end.

Definition compact_to_difficulty (bits : Z) : f64 :=
  let exponent := Z.land (Z.shiftr bits 24) 0xff in
  let mantissa := Z.land bits 0x00ffffff in
  if mantissa =? 0 then S754_zero false else
  let diff := f64_div (f64_of_i64 0x0000ffff) (f64_of_i64 mantissa) in
  let '(diff, shift) := scale_up 256 exponent diff in
  (scale_down 256 shift diff).1.

Definition format_difficulty (diff : f64) : string :=
  let G := f64_of_i64 1000000000 in
  let M := f64_of_i64 1000000 in
  let K := f64_of_i64 1000 in
  if SFleb G diff then show_f64 2 (f64_div diff G) +:+ " G"
  else if SFleb M diff then show_f64 2 (f64_div diff M) +:+ " M"
  else if SFleb K diff then show_f64 1 (f64_div diff K) +:+ " K"
  else show_f64 2 diff.

(** ** Reading numbers back *)

Definition char_digit (c : ascii) : Z := Z.of_nat (nat_of_ascii c) - 48.
Definition read_char (acc : Z) (c : ascii) : Z := if bool_decide (c = ","%char) then acc else 10 * acc + char_digit c.
Definition read_number (s : string) : Z := foldl read_char 0 (list_ascii_of_string s).
Definition digits_value (l : list Z) : Z := foldr (fun d acc => d + 10 * acc) 0 l.
Definition is_digit (d : Z) : Prop := 0 <= d < 10.

Lemma dec_digits_ok fuel n : 0 <= n < 10 ^ Z.of_nat fuel -> digits_value (dec_digits fuel n) = n /\ Forall is_digit (dec_digits fuel n).
Proof.
  revert n. induction fuel as [|fuel IH]; intros n Hn; cbn [dec_digits]; [split; [cbn in *; lia|constructor]|].
  destruct (Z.ltb_spec n 10) as [Hlt|Hge]; [split; [cbn; lia|constructor; [unfold is_digit; lia|constructor]]|].
  rewrite Nat2Z.inj_succ, Z.pow_succ_r in Hn by lia. pose proof (Z.div_mod n 10). pose proof (Z.mod_pos_bound n 10).
  destruct (IH (n / 10)) as [E Hd]; [split; [apply Z.div_pos; lia|apply Z.div_lt_upper_bound; lia]|]. cbn [digits_value foldr]. fold (digits_value (dec_digits fuel (n / 10))). rewrite E.
  split; [lia|]. constructor; [unfold is_digit; lia|done].
Qed.

Lemma digits_of_ok n : 0 <= n -> digits_value (digits_of n) = n /\ Forall is_digit (digits_of n).
Proof.
  intros Hn. apply dec_digits_ok. split; [done|]. rewrite Nat2Z.inj_succ. destruct (Z.eq_dec n 0) as [->|]; [done|]. pose proof (Z.log2_nonneg n). rewrite Z2Nat.id by done.
  eapply Z.lt_le_trans; [apply Z.log2_spec; lia|]. apply Z.pow_le_mono_l. lia.
Qed.

Lemma digit_char_ok d : is_digit d -> char_digit (digit_char d) = d /\ digit_char d <> ","%char.
Proof.
  intros Hd. unfold is_digit in Hd. assert (d = 0 \/ d = 1 \/ d = 2 \/ d = 3 \/ d = 4 \/ d = 5 \/ d = 6 \/ d = 7 \/ d = 8 \/ d = 9) as H by lia.
  by repeat destruct H as [->|H]; [..|subst].
Qed.

(** commas do not count *)
Lemma read_commas l : forall i, foldr (flip read_char) 0 (with_commas i l) = foldr (flip read_char) 0 l.
Proof. induction l as [|c l IH]; intros i; cbn [with_commas]; [done|]. destruct (_ && _); cbn; by rewrite IH. Qed.

Lemma read_digits l : Forall is_digit l -> foldr (flip read_char) 0 (digit_char <$> l) = digits_value l.
Proof.
  induction 1 as [|d l Hd Hl IH]; [done|]. destruct (digit_char_ok d Hd) as [E Hc]. rewrite fmap_cons. cbn [foldr digits_value]. rewrite IH. unfold flip, read_char. rewrite bool_decide_false by done. rewrite E. unfold digits_value. lia.
Qed.

Lemma read_rev l : foldl read_char 0 (rev l) = foldr (flip read_char) 0 l.
Proof. induction l as [|c l IH]; [done|]. cbn [rev foldr]. rewrite foldl_app, IH. done. Qed.

Lemma show_u_reads n : 0 <= n -> read_number (show_u n) = n.
Proof. intros Hn. destruct (digits_of_ok n Hn) as [E Hd]. unfold read_number, show_u. rewrite list_ascii_of_string_of_list_ascii, read_rev, read_digits by done. done. Qed.

(** [with_commas] puts a comma at every fourth place *)
Lemma with_commas_at l : Forall (fun c => c <> ","%char) l -> forall i j c, with_commas i l !! j = Some c -> (c = ","%char <-> ((j + i + (i - 1) / 3) mod 4 = 3)%nat).
Proof.
  induction 1 as [|x l Hx Hl IH]; intros i j c Hc; cbn [with_commas] in Hc; [done|].
  destruct ((0 <? i)%nat && (i mod 3 =? 0)%nat) eqn:Ei; cbn in Hc.
  - apply andb_true_iff in Ei as [H1%Nat.ltb_lt H2%Nat.eqb_eq]. destruct j as [|[|j]]; cbn in Hc.
    + injection Hc as <-. split; [intros _|done]. zify. Z.div_mod_to_equations. lia.
    + injection Hc as <-. split; [done|]. intros E. exfalso. zify. Z.div_mod_to_equations. lia.
    + rewrite (IH (S i) j c Hc). split; intros E; zify; Z.div_mod_to_equations; lia.
  - assert (i = 0 \/ i mod 3 <> 0)%nat as H by (destruct i; [by left|right; intros E; by rewrite E in Ei]). destruct j as [|j]; cbn in Hc.
    + injection Hc as <-. split; [done|]. intros E. exfalso. zify. Z.div_mod_to_equations. lia.
    + rewrite (IH (S i) j c Hc). split; intros E; zify; Z.div_mod_to_equations; lia.
Qed.

Lemma show_u_chars n : 0 <= n -> Forall (fun c => c <> ","%char) (rev (list_ascii_of_string (show_u n))).
Proof.
  intros Hn. destruct (digits_of_ok n Hn) as [_ Hd]. unfold show_u. rewrite list_ascii_of_string_of_list_ascii, rev_involutive. apply Forall_fmap. eapply Forall_impl; [exact Hd|]. intros d H. by apply digit_char_ok.
Qed.

(** a number shown with commas reads back as itself, and the commas are exactly at
    every fourth place from the right *)
Theorem format_number_reads n : 0 <= n ->
  read_number (format_number n) = n /\ forall j c, rev (list_ascii_of_string (format_number n)) !! j = Some c -> (c = ","%char <-> (j mod 4 = 3)%nat).
Proof.
  intros Hn. unfold format_number. rewrite list_ascii_of_string_of_list_ascii, rev_involutive. split.
  - unfold read_number. rewrite list_ascii_of_string_of_list_ascii, read_rev, read_commas, <- read_rev, rev_involutive. by apply show_u_reads.
  - intros j c Hc. rewrite (with_commas_at _ (show_u_chars n Hn) 0 j c Hc). replace (j + 0 + (0 - 1) / 3)%nat with j by (cbn; lia). done.
Qed.

Lemma format_number_reads_witness : format_number 1234567 = "1,234,567" /\ read_number "1,234,567" = 1234567.
Proof. split; [reflexivity|]. destruct (format_number_reads 1234567) as [H _]; [discriminate|exact H]. Defined.

(** ** Bounds on floats that are not powers of two *)

(** [|x| <= b * 2^k] *)
Definition upto (b k : Z) (x : f64) : Prop :=
  match x with
  | S754_zero _ => True
  | S754_finite _ m e => e <= k /\ Zpos m <= b * 2 ^ (k - e)
  | _ => False
  end.

Definition bound_ok (b k : Z) : Prop := 0 <= b < 2 ^ 53 /\ -1074 <= k <= 971.

Lemma shr_upto r e n b k : e <= k -> e + n <= k -> rec_le r (b * 2 ^ (k - e)) ->
  let '(r', e') := shr r e n in e' = e + Z.max 0 n /\ rec_le r' (b * 2 ^ (k - e')).
Proof.
  intros He Hn Hr. destruct n as [|p|p]; cbn [shr]; [split; [lia|done]| |split; [lia|done]].
  split; [lia|]. apply iter_pos_le. replace (2 ^ Zpos p * (b * 2 ^ (k - (e + Zpos p)))) with (b * 2 ^ (k - e)); [done|].
  replace (k - e) with (Zpos p + (k - (e + Zpos p))) by lia. rewrite Z.pow_add_r by lia. lia.
Qed.

Lemma fexp_upto m e b k : bound_ok b k -> e <= k -> 0 <= m <= b * 2 ^ (k - e) -> fexp 53 1024 (Zdigits2 m + e) <= k.
Proof.
  intros [Hb Hk] He Hm. assert (m < 2 ^ (53 + (k - e))) as Hlt.
  { rewrite Z.pow_add_r by lia. pose proof (Z.pow_pos_nonneg 2 (k - e)). nia. }
  assert (Zdigits2 m <= 53 + (k - e)) as Hd; [|unfold fexp, emin; lia].
  destruct m as [|p|p]; [cbn; lia| |lia]. cbn [Zdigits2]. pose proof (digits2_pos_spec p) as [Hlo _].
  assert (2 ^ (Zpos (digits2_pos p) - 1) < 2 ^ (53 + (k - e))) as H by lia. apply Z.pow_lt_mono_r_iff in H; lia.
Qed.

(** rounding does not pass a representable number *)
Lemma round_aux_upto sx mx ex lx b k :
  bound_ok b k -> ex <= k -> rec_le (shr_record_of_loc mx lx) (b * 2 ^ (k - ex)) -> upto b k (binary_round_aux 53 1024 sx mx ex lx).
Proof.
  intros Hk He Hr. unfold binary_round_aux, shr_fexp.
  assert (0 <= mx <= b * 2 ^ (k - ex)) as Hmx by (destruct Hr as [Hr _]; by destruct lx as [|[]]).
  pose proof (fexp_upto mx ex b k Hk He Hmx) as Hf. set (n := fexp 53 1024 (Zdigits2 mx + ex) - ex) in *.
  pose proof (shr_upto _ ex n b k He ltac:(lia) Hr) as H1. destruct (shr _ ex n) as [r1 e1]. destruct H1 as [He1 Hr1].
  pose proof (round_le _ _ Hr1) as Hm1. set (m1 := round_nearest_even _ _) in *.
  assert (e1 <= k) as He1k by lia. pose proof (fexp_upto m1 e1 b k Hk He1k Hm1) as Hf1. set (n1 := fexp 53 1024 (Zdigits2 m1 + e1) - e1) in *.
  pose proof (shr_upto (shr_record_of_loc m1 loc_Exact) e1 n1 b k He1k ltac:(lia)) as H2. destruct (shr _ e1 n1) as [r2 e2].
  destruct H2 as [He2 [Hr2 _]]; [by split|]. destruct (shr_m r2) as [|p|p]; [done| |lia]. destruct Hk as [_ Hk].
  rewrite (proj2 (Z.leb_le e2 (1024 - 53))) by lia. cbn [upto]. lia.
Qed.

Lemma mul_upto a b j k x y : bound_ok (a * b) (j + k) -> 0 <= a -> upto a j x -> upto b k y -> upto (a * b) (j + k) (f64_mul x y).
Proof.
  intros Hk Ha Hx Hy. destruct x as [sx|sx| |sx mx ex], y as [sy|sy| |sy my ey]; try done.
  destruct Hx as [Hx1 Hx2], Hy as [Hy1 Hy2]. apply round_aux_upto; [done|lia|]. split; [|done]. cbn [shr_m shr_record_of_loc]. split; [lia|].
  replace (j + k - (ex + ey)) with ((j - ex) + (k - ey)) by lia. rewrite Z.pow_add_r, Pos2Z.inj_mul by lia.
  transitivity (a * 2 ^ (j - ex) * (b * 2 ^ (k - ey))); [apply Z.mul_le_mono_nonneg; lia|lia].
Qed.

Lemma as_usize_upto x b k : upto b k x -> k <= 0 -> 0 <= b -> 0 <= f64_as_usize x <= b / 2 ^ (- k).
Proof.
  intros Hx Hk Hb. assert (0 < 2 ^ (- k)) by (apply Z.pow_pos_nonneg; lia). assert (0 <= b / 2 ^ (- k)) by (apply Z.div_pos; lia).
  destruct x as [s|s| |s m e]; cbn [f64_as_usize upto] in *; [lia|done|done|]. destruct Hx as [He Hm]. destruct s; [lia|]. unfold u64_max.
  assert ((if 0 <=? e then Zpos m * 2 ^ e else Zpos m / 2 ^ (- e)) <= b / 2 ^ (- k)) as Hv; [|destruct (0 <=? e); [lia|pose proof (Z.div_pos (Zpos m) (2 ^ (- e))); pose proof (Z.pow_pos_nonneg 2 (- e)); lia]].
  destruct (Z.leb_spec 0 e) as [Hpos|Hneg].
  - assert (e = 0) as -> by lia. assert (k = 0) as -> by lia. cbn in *. rewrite Z.div_1_r. lia.
  - assert (0 < 2 ^ (- e)) by (apply Z.pow_pos_nonneg; lia). apply Z.div_le_lower_bound; [lia|].
    assert (2 ^ (- e) = 2 ^ (- k) * 2 ^ (k - e)) as E by (rewrite <- Z.pow_add_r by lia; f_equal; lia). pose proof (Z.pow_pos_nonneg 2 (k - e) ltac:(lia) ltac:(lia)).
    pose proof (Z.mul_div_le (Zpos m) (2 ^ (- e)) ltac:(lia)). rewrite E in *. nia.
Qed.

(** [1.0] *)
Definition f64_one : f64 := f64_of_i64 1.

Lemma iter_pos_ge p r b : 0 <= shr_m r -> 2 ^ Zpos p * b <= shr_m r -> 0 <= b -> b <= shr_m (SpecFloat.iter_pos shr_1 p r) /\ 0 <= shr_m (SpecFloat.iter_pos shr_1 p r).
Proof.
  assert (forall t c, 0 <= shr_m t -> 2 * c <= shr_m t -> c <= shr_m (shr_1 t) /\ 0 <= shr_m (shr_1 t)) as H1.
  { intros [[|[q|q|]|q] u v] c; cbn -[Z.mul]; destruct u, v; cbn -[Z.mul]; lia. }
  revert r b. induction p as [p IH|p IH|]; intros r b H0 Hr Hb; cbn [SpecFloat.iter_pos].
  - replace (Zpos p~1) with (1 + (Zpos p + Zpos p)) in Hr by lia. rewrite !Z.pow_add_r in Hr by lia. destruct (H1 r (2 ^ Zpos p * (2 ^ Zpos p * b))) as [Ha Hb']; [done|lia|].
    pose proof (Z.pow_pos_nonneg 2 (Zpos p)). destruct (IH (shr_1 r) (2 ^ Zpos p * b)) as [Hc Hd]; [done|done|nia|]. by apply IH.
  - replace (Zpos p~0) with (Zpos p + Zpos p) in Hr by lia. rewrite !Z.pow_add_r in Hr by lia. pose proof (Z.pow_pos_nonneg 2 (Zpos p)).
    destruct (IH r (2 ^ Zpos p * b)) as [Hc Hd]; [done|lia|nia|]. by apply IH.
  - apply H1; [done|]. change (2 ^ 1) with 2 in Hr. lia.
Qed.

Lemma shr_ge r e n : e <= 0 -> e + n <= 0 -> 2 ^ (- e) <= shr_m r -> let '(r', e') := shr r e n in 2 ^ (- e') <= shr_m r'.
Proof.
  intros He Hn Hr. destruct n as [|p|p]; cbn [shr]; [done| |done]. pose proof (Z.pow_pos_nonneg 2 (- e)). pose proof (Z.pow_pos_nonneg 2 (- (e + Zpos p))).
  apply (iter_pos_ge p r (2 ^ (- (e + Zpos p)))); [lia| |lia]. rewrite <- Z.pow_add_r by lia. by replace (Zpos p + - (e + Zpos p)) with (- e) by lia.
Qed.

Lemma record_of_loc m l : shr_m (shr_record_of_loc m l) = m.
Proof. by destruct l as [|[]]. Qed.

(** a number of at least 1 is at least 1 when rounded; [1.0] has a single representation *)
Lemma round_aux_one mx ex lx : ex <= 0 -> 2 ^ (- ex) <= mx -> rec_le (shr_record_of_loc mx lx) (2 ^ 32 * 2 ^ (0 - ex)) ->
  let x := binary_round_aux 53 1024 false mx ex lx in x = f64_one \/ SFltb f64_one x = true.
Proof.
  intros He Hlo Hr. assert (bound_ok (2 ^ 32) 0) as Hk by (unfold bound_ok; lia). unfold binary_round_aux, shr_fexp.
  assert (0 <= mx <= 2 ^ 32 * 2 ^ (0 - ex)) as Hmx by (destruct Hr as [Hr _]; rewrite record_of_loc in Hr; lia).
  pose proof (fexp_upto mx ex _ 0 Hk He Hmx) as Hf. assert (-52 <= fexp 53 1024 (Zdigits2 mx + ex)) as Hd.
  { pose proof (Z.pow_pos_nonneg 2 (- ex)). destruct mx as [|p|p]; [lia| |lia]. pose proof (Zdigits2_ge p (- ex) Hlo). unfold fexp, emin. lia. }
  set (n := fexp 53 1024 (Zdigits2 mx + ex) - ex) in *. pose proof (shr_upto _ ex n _ 0 He ltac:(lia) Hr) as H1.
  pose proof (shr_ge (shr_record_of_loc mx lx) ex n He ltac:(lia)) as G1. rewrite record_of_loc in G1. specialize (G1 Hlo). destruct (shr _ ex n) as [r1 e1]. destruct H1 as [He1 Hr1].
  pose proof (round_le _ _ Hr1) as Hm1. assert (2 ^ (- e1) <= round_nearest_even (shr_m r1) (loc_of_shr_record r1)) as G2.
  { unfold round_nearest_even. destruct (loc_of_shr_record r1) as [|[]]; try destruct (Z.even _); lia. }
  set (m1 := round_nearest_even _ _) in *. assert (e1 <= 0) as He1k by lia. pose proof (fexp_upto m1 e1 _ 0 Hk He1k Hm1) as Hf1. set (n1 := fexp 53 1024 (Zdigits2 m1 + e1) - e1) in *.
  pose proof (shr_upto (shr_record_of_loc m1 loc_Exact) e1 n1 (2 ^ 32) 0 He1k ltac:(lia)) as H2. pose proof (shr_ge (shr_record_of_loc m1 loc_Exact) e1 n1 He1k ltac:(lia) G2) as G3.
  destruct (shr _ e1 n1) as [r2 e2]. destruct H2 as [He2 [Hr2 _]]; [by split|]. assert (-52 <= e2 <= 0) as He2' by lia. clearbody n n1 m1.
  pose proof (Z.pow_pos_nonneg 2 (- e2)). destruct (shr_m r2) as [|p|p]; [lia| |lia]. rewrite (proj2 (Z.leb_le e2 (1024 - 53))) by lia.
  change f64_one with (S754_finite false 4503599627370496 (-52)). unfold SFltb, SFcompare. destruct (Z.eq_dec e2 (-52)) as [->|Hne].
  - rewrite Z.compare_refl. change (2 ^ (- (-52))) with (Zpos 4503599627370496) in G3. revert G3. generalize 4503599627370496%positive. intros one G3.
    change (Pos.compare_cont Eq one p) with (one ?= p)%positive. destruct (Pos.compare_spec one p) as [<-|Hlt|Hgt]; [left; reflexivity|right; reflexivity|exfalso; lia].
  - right. rewrite (proj2 (Z.compare_lt_iff (-52) e2)) by lia. done.
Qed.

(** the quotient of two 32-bit numbers before it is rounded *)
Lemma div_ints a b : 0 < a < 2 ^ 32 -> 0 < b < 2 ^ 32 ->
  exists q e l, f64_div (f64_of_i64 a) (f64_of_i64 b) = binary_round_aux 53 1024 false q e l /\ e <= -22 /\ (a <= b -> e <= -53) /\ 0 <= q /\ q * b <= a * 2 ^ (- e) < (q + 1) * b /\ (l = loc_Exact \/ q * b < a * 2 ^ (- e)).
Proof.
  intros Ha Hb. destruct a as [|a|a]; [lia| |lia]. destruct b as [|b|b]; [lia| |lia]. unfold f64_of_i64, binary_normalize.
  destruct (round_exact false a ltac:(lia)) as (ma & ea & -> & Hea & Ema & Eea). destruct (round_exact false b ltac:(lia)) as (mb & eb & -> & Heb & Emb & Eeb).
  assert (forall p, Zpos p < 2 ^ 32 -> 1 <= Zpos (digits2_pos p) <= 32) as Hdig.
  { intros p Hp. pose proof (digits2_pos_spec p) as [Hlo _]. split; [lia|]. assert (2 ^ (Zpos (digits2_pos p) - 1) < 2 ^ 32) as H by lia. apply Z.pow_lt_mono_r_iff in H; lia. }
  pose proof (Hdig a ltac:(lia)) as Hda. pose proof (Hdig b ltac:(lia)) as Hdb. unfold f64_div, SFdiv, SFdiv_core_binary. set (e := Z.min _ (ea - eb)).
  assert (e <= ea - eb /\ e <= -22 /\ (Zpos a <= Zpos b -> e <= -53)) as (He1 & He2 & He3).
  { assert (forall m d, Zpos m = Zpos d * 2 ^ (- (Zpos (digits2_pos d) - 53)) -> Zpos (digits2_pos d) <= 53 -> Zdigits2 (Zpos m) = 53) as H53.
    { intros m d Em Hd. pose proof (digits2_pos_spec d) as [L1 L2]. set (k := Zpos (digits2_pos d)) in *. apply Z.le_antisymm.
      - assert (Zpos m < 2 ^ 53) as Hlt by (rewrite Em; replace 53 with (k + - (k - 53)) at 2 by lia; rewrite Z.pow_add_r by lia; apply Z.mul_lt_mono_pos_r; [apply Z.pow_pos_nonneg|]; lia).
        pose proof (digits2_pos_spec m) as [Hlo _]. cbn [Zdigits2]. assert (2 ^ (Zpos (digits2_pos m) - 1) < 2 ^ 53) as Hl by lia. apply Z.pow_lt_mono_r_iff in Hl; lia.
      - apply (Zdigits2_ge m 52). rewrite Em. replace 52 with ((k - 1) + - (k - 53)) by lia. rewrite Z.pow_add_r by lia. apply Z.mul_le_mono_nonneg_r; lia. }
    rewrite Eea in Ema. rewrite Eeb in Emb. unfold e. rewrite (H53 ma a Ema), (H53 mb b Emb) by lia. unfold fexp, emin. split; [lia|]. split; [lia|]. intros Hab.
    pose proof (digits2_pos_spec a) as [L1 _]. pose proof (digits2_pos_spec b) as [_ L2]. assert (2 ^ (Zpos (digits2_pos a) - 1) < 2 ^ Zpos (digits2_pos b)) as Hl by lia. apply Z.pow_lt_mono_r_iff in Hl; lia. }
  clearbody e. set (m' := match ea - eb - e with Z0 => Zpos ma | Zpos _ => Z.shiftl (Zpos ma) (ea - eb - e) | Zneg _ => 0 end).
  assert (m' = Zpos ma * 2 ^ (ea - eb - e)) as Hm' by (unfold m'; destruct (ea - eb - e) eqn:E; [cbn; lia|by rewrite Z.shiftl_mul_pow2 by lia|lia]).
  clearbody m'. pose proof (Z_div_mod m' (Zpos mb) ltac:(lia)) as Hdm. destruct (Z.div_eucl m' (Zpos mb)) as [q r]. destruct Hdm as [Hd Hr].
  assert (m' = Zpos a * 2 ^ (- e) * 2 ^ (- eb)) as Em by (rewrite Hm', Ema, <- !Z.mul_assoc, <- !Z.pow_add_r by lia; do 2 f_equal; lia).
  pose proof (Z.pow_pos_nonneg 2 (- eb) ltac:(lia) ltac:(lia)) as Hp. assert (0 <= q) by nia. exists q, e. eexists. split; [reflexivity|]. split; [done|]. split; [done|]. split; [done|].
  assert (q * Zpos b <= Zpos a * 2 ^ (- e) < (q + 1) * Zpos b) as Hq by (rewrite Emb in *; nia). split; [done|].
  unfold new_location, new_location_even, new_location_odd. destruct (Z.eqb_spec r 0) as [->|Hne]; [left; by destruct (Z.even _)|right]. rewrite Emb in *. nia.
Qed.

(** a quotient below 1 stays below 1, by a margin *)
Lemma div_below a b : 0 <= a < b -> b < 2 ^ 32 -> upto ((2 ^ 32 - 1) * 2 ^ 21) (-53) (f64_div (f64_of_i64 a) (f64_of_i64 b)).
Proof.
  intros Ha Hb. destruct (Z.eq_dec a 0) as [->|Hne].
  { unfold f64_of_i64 at 1. cbn [binary_normalize]. destruct b as [|b|b]; [lia| |lia]. unfold f64_of_i64, binary_normalize. by destruct (round_exact false b ltac:(lia)) as (mb & eb & -> & _). }
  destruct (div_ints a b) as (q & e & l & -> & _ & He & Hq0 & Hq & Hl); [lia|lia|]. specialize (He ltac:(lia)). apply round_aux_upto; [unfold bound_ok; lia|lia|].
  assert (2 ^ (- e) = 2 ^ 53 * 2 ^ (-53 - e)) as E by (rewrite <- Z.pow_add_r by lia; f_equal; lia). pose proof (Z.pow_pos_nonneg 2 (-53 - e) ltac:(lia) ltac:(lia)) as Hp.
  assert (a * 2 ^ (- e) <= (2 ^ 32 - 1) * 2 ^ 21 * 2 ^ (-53 - e) * b) as Hub by (rewrite E; nia). unfold rec_le. rewrite record_of_loc. split; [nia|]. intros Hx. destruct Hl as [->|Hl]; [done|]. nia.
Qed.

Lemma div_above a b : 0 < b <= a -> a < 2 ^ 32 -> let x := f64_div (f64_of_i64 a) (f64_of_i64 b) in x = f64_one \/ SFltb f64_one x = true.
Proof.
  intros Hb Ha. destruct (div_ints a b) as (q & e & l & -> & He & _ & Hq0 & Hq & Hl); [lia|lia|]. pose proof (Z.pow_pos_nonneg 2 (- e) ltac:(lia) ltac:(lia)) as Hp. cbv zeta.
  apply round_aux_one; [lia|nia|]. replace (0 - e) with (- e) by lia. assert (a * 2 ^ (- e) <= 2 ^ 32 * 2 ^ (- e) * b) as Hub by nia. unfold rec_le. rewrite record_of_loc. split; [nia|]. intros Hx. destruct Hl as [->|Hl]; [done|]. nia.
Qed.

(** how much of the header chain has its blocks *)
Definition sync_progress (block_height chain_height : Z) : f64 :=
  if chain_height >? 0 then f64_min (f64_div (f64_of_i64 block_height) (f64_of_i64 chain_height)) f64_one else S754_zero false.

Lemma progress_done block chain : 0 < chain <= block -> block < 2 ^ 32 -> sync_progress block chain = f64_one.
Proof.
  intros Hc Hb. unfold sync_progress. rewrite (proj2 (Z.gtb_lt chain 0)) by lia. destruct (div_above block chain Hc Hb) as [->|H]; [reflexivity|].
  unfold f64_min. destruct (f64_div _ _) as [s|s| |s m e]; [discriminate H|rewrite H; reflexivity|reflexivity|rewrite H; reflexivity].
Qed.

Lemma upto_not_above b x : upto b (-53) x -> SFltb f64_one x = false /\ SFleb f64_one x = false.
Proof.
  destruct x as [s|s| |s m e]; cbn [upto]; [done|done|done|]. intros [He _]. change f64_one with (S754_finite false 4503599627370496 (-52)). unfold SFltb, SFleb, SFcompare. destruct s; [done|].
  by rewrite (proj2 (Z.compare_gt_iff (-52) e)) by lia.
Qed.

Lemma progress_part block chain : 0 <= block < chain -> chain < 2 ^ 32 -> upto ((2 ^ 32 - 1) * 2 ^ 21) (-53) (sync_progress block chain).
Proof.
  intros Hb Hc. unfold sync_progress. rewrite (proj2 (Z.gtb_lt chain 0)) by lia. pose proof (div_below block chain Hb Hc) as H. pose proof (upto_not_above _ _ H) as [Hl _].
  unfold f64_min. destruct (f64_div _ _) as [s|s| |s m e]; [exact H|done|done|]. rewrite Hl. exact H.
Qed.

Lemma upto_shift c j k x : 0 <= j -> upto (c * 2 ^ j) k x -> upto c (k + j) x.
Proof.
  intros Hj. destruct x as [s|s| |s m e]; cbn [upto]; try done. intros [He Hm]. split; [lia|]. replace (k + j - e) with (j + (k - e)) by lia. rewrite Z.pow_add_r by lia. lia.
Qed.

(** the bar has 20 cells, and all of them are full exactly when every header up to the
    tip has its block; the colour changes at the same point *)
Theorem sync_bar_full block chain : U 32 block -> U 32 chain -> 0 < chain ->
  exists n, (n <= 20)%nat /\ format_progress_bar (sync_progress block chain) 20 = repeat_str n FULL_BLOCK +:+ repeat_str (20 - n) LIGHT_SHADE /\
    (n = 20%nat <-> chain <= block) /\ (SFleb f64_one (sync_progress block chain) = true <-> chain <= block).
Proof.
  intros Hb Hc H0. unfold U in *. destruct (Z.le_gt_cases chain block) as [Hle|Hgt].
  - rewrite progress_done by lia. exists 20%nat. split; [done|]. split; [vm_compute; reflexivity|]. split; [done|]. split; [done|reflexivity].
  - pose proof (progress_part block chain ltac:(lia) ltac:(lia)) as Hp. destruct (upto_not_above _ _ Hp) as [_ Hle]. apply upto_shift in Hp; [|lia]. unfold format_progress_bar.
    assert (upto 20 0 (f64_of_i64 20)) as H20 by (vm_compute; split; discriminate). pose proof (mul_upto (2 ^ 32 - 1) 20 (-53 + 21) 0 _ _ ltac:(unfold bound_ok; lia) ltac:(lia) Hp H20) as Hm.
    destruct (as_usize_upto _ _ _ Hm) as [Hf0 Hf]; [lia|lia|]. change (((2 ^ 32 - 1) * 20) / 2 ^ (- (-53 + 21 + 0))) with 19 in Hf. set (filled := f64_as_usize _) in *. exists (Z.to_nat filled).
    split; [lia|]. split; [unfold sat_sub; do 2 f_equal; lia|]. rewrite Hle. split; [lia|]. split; [done|lia].
Qed.

Lemma sync_bar_full_witness : exists n, format_progress_bar (sync_progress 3 4) 20 = repeat_str n FULL_BLOCK +:+ repeat_str (20 - n) LIGHT_SHADE /\ n <> 20%nat.
Proof.
  destruct (sync_bar_full 3 4) as (n & _ & H1 & H2 & _); [split; lia|split; lia|lia|]. exists n. split; [exact H1|]. intros E. apply H2 in E. lia.
Defined.

(** ** The loops of the difficulty *)

Lemma scale_up_end fuel : forall shift diff, 29 - shift <= Z.of_nat fuel -> (scale_up fuel shift diff).2 = Z.max 29 shift.
Proof. induction fuel as [|fuel IH]; intros shift diff H; cbn [scale_up]; [cbn; lia|]. destruct (Z.ltb_spec shift 29); [rewrite IH; lia|cbn; lia]. Qed.

Lemma scale_down_end fuel : forall shift diff, shift - 29 <= Z.of_nat fuel -> (scale_down fuel shift diff).2 = Z.min 29 shift.
Proof. induction fuel as [|fuel IH]; intros shift diff H; cbn [scale_down]; [cbn; lia|]. rewrite Z.gtb_ltb. destruct (Z.ltb_spec 29 shift); [rewrite IH; lia|cbn; lia]. Qed.

(** both loops run to the end with the steps they are given: an exponent is a byte *)
Lemma difficulty_loops_end bits diff : (scale_down 256 (scale_up 256 (Z.land (Z.shiftr bits 24) 0xff) diff).2 diff).2 = 29.
Proof.
  change 0xff with (Z.ones 8). rewrite Z.land_ones by lia. pose proof (Z.mod_pos_bound (Z.shiftr bits 24) (2 ^ 8)). rewrite scale_up_end by lia. rewrite scale_down_end; lia.
Qed.

(** ** Amounts *)

(** the sign of an amount between -1 and 0 coins is not shown *)
Theorem catoshis_sign_lost n : 0 < n < 100000000 -> format_catoshis (- n) = format_catoshis n.
Proof.
  intros Hn. unfold format_catoshis. rewrite Z.quot_opp_l, Z.rem_opp_l, Z.abs_opp by lia. rewrite (Z.quot_small n) by lia. done.
Qed.

Lemma catoshis_sign_lost_witness : format_catoshis (-50000000) = "0.50000000".
Proof. change (-50000000) with (- (50000000)). rewrite (catoshis_sign_lost 50000000); [reflexivity|lia]. Defined.
