(* ===== verification/Ui.v ===== *)
(** * Ui: the text interface (ui/*.rs, tui_layer.rs)

    What the node shows: the names of states, addresses and hashes, the statistics of the
    pool and its most recent entries (mempool/mod.rs), the four tabs with their
    panels and tables, the log layer that turns events into lines, and the loop that
    drains the log channel, refreshes the numbers and reacts to keys.

    Panels are values: a frame is the list of widgets with the areas they are drawn in.
    The terminal library is a parameter: [Ratatui] has the areas a layout is split into
    and the inside of a bordered block.  The colours of borders and of table headings are
    constant and left out.  Times are in nanoseconds.  *)
From Stdlib Require Import Strings.Byte Strings.Ascii Strings.String Floats.SpecFloat.
From stdpp Require Import base numbers list strings gmap sorting.
From S2P Require Import Prelude Codec Types Compact Float64 Difficulty Validation Vec ScriptNum Signature Engine ScriptVerify Database Coin UndoStore Ledger Chainstate Pow HashOrder Mempool Headers BlockStore Reorg Network Messages BlockDownload PeerTable Handlers Connections Text.
Local Open Scope string_scope.
Local Open Scope list_scope.
Local Open Scope Z_scope.

(** ** Names *)

(** two lower-case hexadecimal digits, [{byte:02x}] *)
Definition hex_digit (d : Z) : ascii := ascii_of_nat (if d <? 10 then 48 + Z.to_nat d else 87 + Z.to_nat d).
Definition hex_byte (b : byte) : string := String (hex_digit (b2z b / 16)) (String (hex_digit (b2z b mod 16)) EmptyString).
Definition concat_str (l : list string) : string := foldr (fun s acc => s +:+ acc) EmptyString l.

(** [Hash256]: bytes in reverse order *)
Definition show_hash (h : Hash256) : string := concat_str (hex_byte <$> rev (as_bytes h)).

Definition debug_hash (h : Hash256) : string := "Hash256(" +:+ show_hash h +:+ ")".

Definition show_script_error (e : ScriptError) : string :=
  match e with
  | InvalidOpcode b => "invalid opcode: 0x" +:+ hex_byte b
  | DisabledOpcode b => "disabled opcode: 0x" +:+ hex_byte b
  | StackUnderflow => "stack underflow"
  | StackOverflow => "stack overflow"
  | ScriptTooLarge => "script too large"
  | TooManyOps => "too many operations"
  | InvalidPushSize => "invalid push size"
  | EqualVerifyFailed => "OP_EQUALVERIFY failed"
  | CheckSigFailed => "OP_CHECKSIG failed"
  | CheckMultiSigFailed => "OP_CHECKMULTISIG failed"
  | InvalidSignatureEncoding => "invalid signature encoding"
  | InvalidPubKey => "invalid public key"
  | NegativeLocktime => "negative locktime"
  | UnsatisfiedLocktime => "unsatisfied locktime"
  | UnbalancedConditional => "unbalanced conditional"
  | FalseReturned => "script returned false"
  | OpReturnEncountered => "OP_RETURN encountered"
  | InvalidRedeemScript => "invalid redeem script"
  | NumericOverflow => "numeric overflow"
  | MultisigKeyCount => "multisig key count out of range"
  | MultisigSigCount => "multisig signature count out of range"
  | InvalidStackIndex => "invalid stack index"
  end.

Definition show_parse_error (e : MessageParseError) : string :=
  match e with Incomplete => "incomplete message data" | Corrupt reason => "corrupt message: " +:+ reason end.

(** [Ipv4Addr] *)
Definition show_v4 (octets : list byte) : string := String.concat "." ((fun b => show_u (b2z b)) <$> octets).

(** [{:x}] of a 16-bit segment *)
Fixpoint hex_go (fuel : nat) (n : Z) (acc : string) : string :=
  match fuel with
  | O => acc
  | S fuel => let acc := String (hex_digit (n mod 16)) acc in if n <? 16 then acc else hex_go fuel (n / 16) acc
  end.
Definition show_hex16 (n : Z) : string := hex_go 4 n EmptyString.

Fixpoint segments (l : list byte) : list Z :=
  match l with
  | a :: b :: l => (256 * b2z a + b2z b) :: segments l
  | _ => []
  end.

(** the first longest run of zero segments: where it starts and its length *)
Fixpoint longest_zeros (i : nat) (l : list Z) (current longest : nat * nat) : nat * nat :=
  match l with
  | [] => longest
  | s :: l =>
    if s =? 0 then
      let current := if (snd current =? 0)%nat then (i, 1%nat) else (fst current, S (snd current)) in
      longest_zeros (S i) l current (if (snd longest <? snd current)%nat then current else longest)
    else longest_zeros (S i) l (0%nat, 0%nat) longest
  end.

Definition show_segments (l : list Z) : string := String.concat ":" (show_hex16 <$> l).

(** [Ipv6Addr] *)
Definition show_v6 (octets : list byte) : string :=
  match v6_mapped octets with
  | Some v4 => "::ffff:" +:+ show_v4 v4
  | None =>
    let segs := segments octets in
    let '(start, len) := longest_zeros 0 segs (0%nat, 0%nat) (0%nat, 0%nat) in
    if (1 <? len)%nat then show_segments (take start segs) +:+ "::" +:+ show_segments (drop (start + len) segs)
    else show_segments segs
  end.

Definition show_ip (a : IpAddr) : string := match a with V4 o => show_v4 o | V6 o => show_v6 o end.

Definition show_state (s : NodeState) : string :=
  match s with
  | Connecting _ => "Connecting"
  | Handshaking _ => "Handshaking"
  | Connected _ => "Connected"
  | Disconnected _ attempt => "Disconnected(" +:+ show_u attempt +:+ ")"
  | Dead => "Dead"
  | Banned reason _ _ => "Banned(" +:+ ban_reason_text reason +:+ ")"
  end.

Definition show_connection (c : ConnectionType) : string := match c with Incoming => "In" | Outgoing => "Out" end.

Definition show_label (l : NodeStateLabel) : string :=
  match l with
  | LConnecting => "Connecting"
  | LHandshaking => "Handshaking"
  | LConnected => "Connected"
  | LDisconnected attempt => "Disconnected(" +:+ show_u attempt +:+ ")"
  | LDead => "Dead"
  | LBanned => "Banned"
  end.

Definition short_label (l : NodeStateLabel) : string :=
  match l with
  | LConnecting => "Cn"
  | LHandshaking => "Hs"
  | LConnected => "Co"
  | LDisconnected _ => "Dc"
  | LDead => "De"
  | LBanned => "Ba"
  end.

(** ** Sorting *)

(** [sort_by], which keeps elements that compare equal in order *)
Section Sort.
Context {A : Type} (R : A -> A -> Prop) `{forall x y, Decision (R x y)}.
Fixpoint insert_stable (x : A) (l : list A) : list A :=
  match l with
  | [] => [x]
  | y :: l => if decide (R x y) then x :: y :: l else y :: insert_stable x l
  end.
Definition stable_sort (l : list A) : list A := foldr insert_stable [] l.
End Sort.

(** ** The pool in numbers *)

Record MempoolStats := mkMStats {
  ms_count : Z;
  ms_total_size : Z;
  ms_min : option f64;
  ms_median : option f64;
  ms_max : option f64;
  ms_total_fees : Z;
}.
Definition default_stats : MempoolStats := mkMStats 0 0 None None None 0.

(** [sort_by(|a, b| a.partial_cmp(b).unwrap_or(Equal))]: not greater *)
Definition rate_le (a b : f64) : Prop := SFltb b a = false.
#[global] Instance rate_le_dec a b : Decision (rate_le a b) := decide (SFltb b a = false).

(** [f64::midpoint] *)
Definition f64_abs (x : f64) : f64 := SFabs x.
Definition F64_HI : f64 := S754_finite false (2 ^ 53 - 1) 970.
Definition F64_LO : f64 := S754_finite false (2 ^ 52) (-1073).
Definition f64_midpoint (a b : f64) : f64 :=
  let two := f64_of_i64 2 in
  if SFleb (f64_abs a) F64_HI && SFleb (f64_abs b) F64_HI then f64_div (f64_add a b) two
  else if SFltb (f64_abs a) F64_LO then f64_add a (f64_div b two)
  else if SFltb (f64_abs b) F64_LO then f64_add (f64_div a two) b
  else f64_add (f64_div a two) (f64_div b two).

(** [sum] of [u64]s: overflow is a panic *)
Definition u64_sum (l : list Z) : option Z := foldl (fun acc x => acc ← acc; if inU 64 (acc + x) then Some (acc + x) else None) (Some 0) l.

Record RecentTxEntry := mkRecent { rt_txid : Hash256; rt_size : Z; rt_fee_rate : f64; rt_inputs : Z; rt_outputs : Z; rt_age : Z }.
Definition younger (a b : RecentTxEntry) : Prop := rt_age a <= rt_age b.
#[global] Instance younger_dec a b : Decision (younger a b) := decide (rt_age a <= rt_age b).

Section PoolNumbers.
Context `{HO : HashOrder}.

Definition get_stats (mp : Mempool) : option MempoolStats :=
  if bool_decide (txs mp = ∅) then Some default_stats else
  let values := snd <$> map_order (txs mp) in
  let fee_rates := stable_sort rate_le (e_fee_rate <$> values) in
  total_fees ← u64_sum (e_fee <$> values);
  let len := length fee_rates in
  median ← (if (len mod 2 =? 0)%nat then
              a ← fee_rates !! (len / 2 - 1)%nat;
              b ← fee_rates !! (len / 2)%nat;
              Some (Some (f64_midpoint a b))
            else Some (fee_rates !! (len / 2)%nat));
  Some (mkMStats (zlen values) (total_size mp) (head fee_rates) median (last fee_rates) total_fees).

(** [age] is the time since the entry was added *)
Definition recent_of (age : Hash256 -> Z) (x : Hash256 * MempoolEntry) : RecentTxEntry :=
  mkRecent x.1 (e_size x.2) (e_fee_rate x.2) (zlen (vin (e_tx x.2))) (zlen (vout (e_tx x.2))) (age x.1).
Definition recent_entries (age : Hash256 -> Z) (mp : Mempool) (limit : nat) : list RecentTxEntry :=
  take limit (stable_sort younger (recent_of age <$> map_order (txs mp))).
End PoolNumbers.

(** ** Frames *)

Inductive Color := Gray | DarkGray | Green | Yellow | Red | White | Cyan | Magenta | Reset.
#[global] Instance Color_eq_dec : EqDecision Color.
Proof. solve_decision. Defined.

Record Span := mkSpan { sp_text : string; sp_fg : option Color; sp_bold : bool }.
Definition raw (t : string) : Span := mkSpan t None false.
Definition plain (t : string) (c : Color) : Span := mkSpan t (Some c) false.
Definition bold (t : string) (c : Color) : Span := mkSpan t (Some c) true.
Notation Line := (list Span).

Inductive Constraint_ := Length (n : Z) | Min (n : Z) | Percentage (n : Z).
Inductive Direction := Vertical | Horizontal.

Record Table_ := mkTable { tb_title : string; tb_header : list string; tb_rows : list (list Span); tb_widths : list Constraint_ }.
Inductive Widget :=
| Paragraph (title : option string) (text : list Line)
| Border (title : string)
| TableWidget (t : Table_).

(** the terminal library *)
Class Ratatui := {
  Rect : Type;
  split : Direction -> list Constraint_ -> Rect -> list Rect;
  inner : Rect -> Rect;
  rect_height : Rect -> Z;
}.
(** a layout has as many areas as constraints *)
Class RatatuiLaws (R : Ratatui) : Prop := split_length d cs area : length (split d cs area) = length cs.

(** ** The log *)

Inductive Level := TRACE | DEBUG | INFO | WARN | ERROR.
Record TuiLogEntry := mkLog { lg_level : Level; lg_text : string }.

Section Layer.

(** the characters [trim_start] removes, in UTF-8 *)
Definition bytes_str (l : list nat) : string := string_of_list_ascii (ascii_of_nat <$> l).
Definition white_space : list string :=
  ((fun c => bytes_str [c]) <$> [9; 10; 11; 12; 13; 32]%nat) ++
  [bytes_str [194; 133]; bytes_str [194; 160]; bytes_str [225; 154; 128]]%nat ++
  ((fun c => bytes_str [226; 128; c]%nat) <$> (seq 128 11 ++ [168; 169; 175]%nat)) ++
  [bytes_str [226; 129; 159]; bytes_str [227; 128; 128]]%nat.

Fixpoint strip_prefix (p s : string) : option string :=
  match p, s with
  | EmptyString, _ => Some s
  | String a p, String b s => if bool_decide (a = b) then strip_prefix p s else None
  | _, EmptyString => None
  end.

Definition strip_white (s : string) : option string := foldr (fun w acc => match strip_prefix w s with Some r => Some r | None => acc end) None white_space.
Fixpoint trim_go (fuel : nat) (s : string) : string :=
  match fuel with
  | O => s
  | S fuel => match strip_white s with Some r => trim_go fuel r | None => s end
  end.
Definition trim_str_start (s : string) : string := trim_go (String.length s) s.

(** a recorded value; [VDebug] has the text of its [Debug] *)
Inductive FieldValue :=
| VDebug (text : string)
| VStr (text : string)
| VU64 (n : Z)
| VI64 (n : Z)
| VU128 (n : Z)
| VBool (b : bool).

Record FieldVisitor := mkVisitor { fv_message : string; fv_fields : string }.
Definition visitor_new : FieldVisitor := mkVisitor EmptyString EmptyString.

Definition finish (v : FieldVisitor) : string :=
  if String.eqb (fv_fields v) EmptyString then fv_message v else fv_message v +:+ "  " +:+ trim_str_start (fv_fields v).

Definition append_field (v : FieldVisitor) (name value : string) : FieldVisitor :=
  mkVisitor (fv_message v) (fv_fields v +:+ " " +:+ name +:+ "=" +:+ value).

Definition show_bool (b : bool) : string := if b then "true" else "false".

Definition record_value (v : FieldVisitor) (x : string * FieldValue) : FieldVisitor :=
  let '(name, value) := x in
  match value with
  | VDebug t | VStr t => if String.eqb name "message" then mkVisitor t (fv_fields v) else append_field v name t
  | VU64 n | VU128 n => append_field v name (show_u n)
  | VI64 n => append_field v name (show_i n)
  | VBool b => append_field v name (show_bool b)
  end.

(** a full channel drops the entry *)
Definition LOG_CHANNEL : nat := 100.
Definition try_send (queue : list TuiLogEntry) (e : TuiLogEntry) : list TuiLogEntry := if (length queue <? LOG_CHANNEL)%nat then queue ++ [e] else queue.

Definition on_event (queue : list TuiLogEntry) (level : Level) (fields : list (string * FieldValue)) : list TuiLogEntry :=
  try_send queue (mkLog level (finish (foldl record_value visitor_new fields))).
End Layer.

Definition log_name (l : Level) : string * Color :=
  match l with
  | TRACE => ("TRACE", Magenta)
  | DEBUG => ("DEBUG", Cyan)
  | INFO => (" INFO", Green)
  | WARN => (" WARN", Yellow)
  | ERROR => ("ERROR", Red)
  end.

Definition create_log_text (log_buffer : list TuiLogEntry) (visible_lines : nat) : list Line :=
  let start_index := (length log_buffer - visible_lines)%nat in
  (fun entry =>
     let '(name, color) := log_name (lg_level entry) in
     [bold ("[" +:+ name +:+ "]") color; raw " "; plain (lg_text entry) White]) <$> drop start_index log_buffer.

(** ** The overview tab *)

Record OverviewData := mkOverview {
  ov_stats : NodeStats;
  ov_nodes : list NodeSnapshot;
  ov_listen_port : Z;
  ov_port_reachable : bool;
  ov_chain_height : Z;
  ov_tip_bits : Z;
  ov_block_height : Z;
  ov_mempool : MempoolStats;
  ov_last_block_secs : option Z;
  ov_last_block_txs : option Z;
}.

Definition render_network (data : OverviewData) : Widget :=
  let stats := ov_stats data in
  Paragraph (Some "Network") [
    [plain "Peers: " Gray; bold (show_u (st_connected stats)) Green;
     plain ("  (" +:+ show_u (st_incoming stats) +:+ " in / " +:+ show_u (st_outgoing stats) +:+ " out)") DarkGray];
    [plain "Handshaking: " Gray; plain (show_u (st_handshaking stats)) Yellow];
    [plain "Banned: " Gray; plain (show_u (st_banned stats)) Red];
    [plain "Listen: " Gray; plain (":" +:+ show_u (ov_listen_port data)) White];
    [plain "Port: " Gray; if ov_port_reachable data then plain "Open" Green else plain "Closed" Red]].

Definition render_chain_sync (data : OverviewData) : Widget :=
  let progress := sync_progress (ov_block_height data) (ov_chain_height data) in
  Paragraph (Some "Chain Sync") [
    [plain "Blocks: " Gray;
     plain (format_number (ov_block_height data) +:+ " / " +:+ format_number (ov_chain_height data)) (if ov_block_height data >=? ov_chain_height data then Green else Yellow)];
    [plain (format_progress_bar progress 20) (if SFleb f64_one progress then Green else Yellow);
     plain (" " +:+ show_f64 1 (f64_mul progress (f64_of_i64 100)) +:+ "%") White]].

Definition size_mb (total_size : Z) : f64 := f64_div (f64_of_i64 total_size) (f64_mul (f64_of_i64 1024) (f64_of_i64 1024)).

Definition render_mempool (data : OverviewData) : Widget :=
  let stats := ov_mempool data in
  let min_rate := match ms_min stats with Some r => show_f64 1 r +:+ " catoshis/B" | None => "-" end in
  Paragraph (Some "Mempool") [
    [plain "Transactions: " Gray; bold (show_u (ms_count stats)) White];
    [plain "Size: " Gray; plain (show_f64 2 (size_mb (ms_total_size stats)) +:+ " / 50 MB") White];
    [plain "Min fee: " Gray; plain min_rate White]].

Definition render_chainstate (data : OverviewData) : Widget :=
  let last_block_label :=
    match ov_last_block_secs data, ov_last_block_txs data with
    | Some secs, Some txs => show_u txs +:+ " txs, " +:+ show_u secs +:+ "s ago"
    | Some secs, None => show_u secs +:+ "s ago"
    | _, _ => "-"
    end in
  let diff := compact_to_difficulty (ov_tip_bits data) in
  let algo := active_algorithm (ov_block_height data) mainnet in
  Paragraph (Some "Chainstate") [
    [plain "Last block: " Gray; plain last_block_label White];
    [plain "Difficulty: " Gray; bold (format_difficulty diff) White; raw "  "; plain algo Cyan]].

(** ** The other tabs *)

Definition rate_text (o : option f64) : string := match o with Some r => show_f64 1 r | None => "-" end.

Definition render_stats (stats : MempoolStats) : Widget :=
  let total_fees_cat := f64_div (f64_of_i64 (ms_total_fees stats)) (f64_of_i64 100000000) in
  Paragraph (Some "Mempool Stats") [
    [plain "Transactions: " Gray; bold (show_u (ms_count stats)) White];
    [plain "Size: " Gray; plain (show_f64 2 (size_mb (ms_total_size stats)) +:+ " / 50 MB") White];
    [plain "Total fees: " Gray; plain (show_f64 8 total_fees_cat +:+ " CAT") White];
    [plain "Fee rate (min/med/max): " Gray;
     plain (rate_text (ms_min stats) +:+ " / " +:+ rate_text (ms_median stats) +:+ " / " +:+ rate_text (ms_max stats) +:+ " catoshis/B") White]].

Definition recent_row (tx : RecentTxEntry) : list Span :=
  let txid_short := show_hash (rt_txid tx) in
  let txid_display := if (12 <? String.length txid_short)%nat then substring 0 12 txid_short else txid_short in
  raw <$> [txid_display; show_u (rt_size tx); show_f64 1 (rt_fee_rate tx); show_u (rt_inputs tx); show_u (rt_outputs tx); format_age (rt_age tx)].

Definition render_recent_txs (recent_txs : list RecentTxEntry) : Widget :=
  TableWidget (mkTable "Recent Transactions" ["TxID"; "Size"; "Fee Rate"; "In"; "Out"; "Age"] (recent_row <$> recent_txs)
    [Length 14; Length 7; Length 9; Length 4; Length 4; Min 8]).

Definition state_rank (l : NodeStateLabel) : Z :=
  match l with
  | LConnected => 0
  | LHandshaking => 1
  | LConnecting => 2
  | LDisconnected _ => 3
  | LDead => 4
  | LBanned => 5
  end.
Definition rank_le (a b : NodeSnapshot) : Prop := state_rank (sn_label a) <= state_rank (sn_label b).
#[global] Instance rank_le_dec a b : Decision (rank_le a b) := decide (state_rank (sn_label a) <= state_rank (sn_label b)).
(** [b.height.cmp(&a.height)]: the higher one first *)
Definition higher (a b : NodeSnapshot) : Prop := sn_height b <= sn_height a.
#[global] Instance higher_dec a b : Decision (higher a b) := decide (sn_height b <= sn_height a).

Definition state_color (l : NodeStateLabel) : Color :=
  match l with
  | LConnected => Green
  | LHandshaking | LConnecting => Yellow
  | LDisconnected _ | LDead => DarkGray
  | LBanned => Red
  end.

(** no strikes are shown for a peer that is not connected *)
Definition strikes_cell (node : NodeSnapshot) : Span :=
  let connected := match sn_label node with LConnected => true | _ => false end in
  if negb connected || (sn_strikes node =? 0) then plain EmptyString Reset
  else if sn_excluded node then plain "EXCLUDED" Red
  else plain (show_u (sn_strikes node) +:+ "/" +:+ show_u MAX_TIMEOUT_STRIKES) Yellow.

Definition peer_row (now : Z) (node : NodeSnapshot) : list Span :=
  let last_seen := if sn_last_seen node =? 0 then "-" else format_elapsed (sat_sub now (sn_last_seen node)) in
  [raw (show_ip (sn_address node) +:+ ":" +:+ show_u (sn_port node));
   raw (show_i (sn_height node));
   plain (show_label (sn_label node)) (state_color (sn_label node));
   strikes_cell node;
   raw (show_connection (sn_connection_type node));
   raw (show_u (sn_version node));
   raw last_seen;
   raw (string_of_list_byte (sn_user_agent node))].

(** [now] is the time of the clock, 0 when it is before the epoch *)
Definition render_peers (now : Z) (nodes : list NodeSnapshot) : Widget :=
  TableWidget (mkTable "Peers" ["Endpoint"; "Height"; "State"; "Strikes"; "Type"; "Version"; "Last Seen"; "User Agent"]
    (peer_row now <$> stable_sort rank_le nodes)
    [Length 22; Length 8; Length 13; Length 10; Length 4; Length 8; Length 10; Percentage 30]).

(** ** The screen *)

Definition TAB_COUNT : nat := 4.
Definition TAB_NAMES : list string := ["Overview"; "Mempool"; "Peers"; "Logs"].
Definition STATS_REFRESH_INTERVAL : Z := 2 * SECOND.
Definition MAX_LOG_LINES : nat := 100.
Definition RECENT_LIMIT : nat := 50.

(** the counters the node manager keeps for the display *)
Record Counters := mkCounters { cached_block_height : Z; last_block_time : option Z; last_block_tx_count : Z }.
Definition set_block_height (c : Counters) (height : Z) : Counters := mkCounters height (last_block_time c) (last_block_tx_count c).
Definition record_block_connected (c : Counters) (now tx_count : Z) : Counters := mkCounters (cached_block_height c) (Some now) tx_count.
Definition last_block_elapsed (c : Counters) (now : Z) : option Z := (fun t => sat_sub now t) <$> last_block_time c.

Record TuiState := mkTui {
  prev_height : Z;
  prev_time : Z;
  headers_per_sec : f64;
  active_tab : nat;
  mempool_stats : MempoolStats;
  mempool_recent : list RecentTxEntry;
}.

Definition tab_bar (active : nat) : Line :=
  raw " " :: concat (imap (fun i name => [if (i =? active)%nat then bold ("[" +:+ name +:+ "]") White else plain ("[" +:+ name +:+ "]") DarkGray; raw " "]) TAB_NAMES).

Definition help_bar : Line := [bold " Tab" White; plain ":switch" DarkGray; raw "  "; bold "q" White; plain ":quit" DarkGray].

Section Screen.
Context {R : Ratatui} `{HO : HashOrder} `{HP : PeerOrder} {B UT MT IT KT : Type}.
Implicit Types (nm : NodeManager B UT MT IT KT) (area : Rect) (st : TuiState).

Notation frame := (list (Rect * Widget)).

(** indexing out of range is a panic *)
Definition render_overview area (data : OverviewData) : option frame :=
  let main_layout := split Vertical [Length 9; Length 7; Min 0] area in
  top ← main_layout !! 0%nat;
  let top_row := split Horizontal [Percentage 50; Percentage 50] top in
  bottom ← main_layout !! 1%nat;
  let bottom_row := split Horizontal [Percentage 50; Percentage 50] bottom in
  t0 ← top_row !! 0%nat; t1 ← top_row !! 1%nat; b0 ← bottom_row !! 0%nat; b1 ← bottom_row !! 1%nat;
  Some [(t0, render_network data); (t1, render_chain_sync data); (b0, render_mempool data); (b1, render_chainstate data)].

Definition render_mempool_tab area (stats : MempoolStats) (recent : list RecentTxEntry) : option frame :=
  let layout := split Vertical [Length 10; Min 4] area in
  a0 ← layout !! 0%nat; a1 ← layout !! 1%nat;
  Some [(a0, render_stats stats); (a1, render_recent_txs recent)].

Definition render_logs area (log_buffer : list TuiLogEntry) : frame :=
  let inner_area := inner area in
  [(area, Border "Logs"); (inner_area, Paragraph None (create_log_text log_buffer (Z.to_nat (rect_height inner_area))))].

(** the clocks a draw reads: monotonic, and seconds of the calendar *)
Record Clocks := mkClocks { ck_now : Z; ck_unix : Z }.

Definition overview_data nm (c : Counters) (clk : Clocks) st : OverviewData :=
  let '(stats, nodes) := get_snapshot nm in
  mkOverview stats nodes (listen_port nm) (port_reachable nm) (cached_height nm) (cached_tip_bits nm) (cached_block_height c) (mempool_stats st)
    ((fun d => d / SECOND) <$> last_block_elapsed c (ck_now clk))
    (if last_block_tx_count c >? 0 then Some (last_block_tx_count c) else None).

Definition draw area nm (c : Counters) (clk : Clocks) (log_buffer : list TuiLogEntry) st : option frame :=
  let main_chunks := split Vertical [Length 1; Min 4; Length 1] area in
  bar ← main_chunks !! 0%nat;
  content ← main_chunks !! 1%nat;
  tab ← (match active_tab st with
         | 0%nat => render_overview content (overview_data nm c clk st)
         | 1%nat => render_mempool_tab content (mempool_stats st) (mempool_recent st)
         | 2%nat => Some [(content, render_peers (ck_unix clk) (stable_sort higher (snd (get_snapshot nm))))]
         | 3%nat => Some (render_logs content log_buffer)
         | _ => Some []
         end);
  help ← main_chunks !! 2%nat;
  Some ((bar, Paragraph None [tab_bar (active_tab st)]) :: tab ++ [(help, Paragraph None [help_bar])]).

(** ** The loop *)

Inductive Key := CharKey (c : ascii) | TabKey | OtherKey.
(** what polling for an event gives: nothing in time, an event that is no key, a key, or an error *)
Inductive Polled := NoEvent | OtherEvent | KeyEvent (k : Key) | PollError.

(** what a draw finds: the size of the terminal, the node, the clocks, and whether the
    terminal takes the frame *)
Record Seen := mkSeen { se_area : Rect; se_nm : NodeManager B UT MT IT KT; se_counters : Counters; se_clocks : Clocks; se_ok : bool }.

(** what an iteration takes from outside: the messages in the channel, the clock at the
    points where it is read, whether the pool could be read and what it is, the
    header height, and what its two draws find *)
Record UiInput := mkUiInput {
  ui_logs : list TuiLogEntry;
  ui_checked : Z;
  ui_pool : option Mempool;
  ui_age : Hash256 -> Z;
  ui_height : Z;
  ui_rated : Z;
  ui_reset : Z;
  ui_drawn : Z;
  ui_polled_at : Z;
  ui_poll : Z -> Polled;
  ui_redrawn : Z;
  ui_seen : Seen;
  ui_seen_again : Seen;
}.

(** the state of the loop, and the frame on the terminal *)
Record UiLoop := mkLoop { log_buffer : list TuiLogEntry; last_draw : Z; tui_state : TuiState; screen : frame }.

Inductive UiStep :=
| Continue (s : UiLoop)
| Quit (s : UiLoop)
| UiFailed (s : UiLoop)
| UiPanic.

(** one message into the buffer *)
Definition push_log (buffer : list TuiLogEntry) (e : TuiLogEntry) : list TuiLogEntry :=
  let buffer := buffer ++ [e] in if (MAX_LOG_LINES <? length buffer)%nat then drop 1 buffer else buffer.

Definition refresh_mempool st (pool : option Mempool) (age : Hash256 -> Z) : option TuiState :=
  match pool with
  | None => Some st
  | Some mp =>
    stats ← get_stats mp;
    Some (mkTui (prev_height st) (prev_time st) (headers_per_sec st) (active_tab st) stats (recent_entries age mp RECENT_LIMIT))
  end.

Definition refresh_rate st (current_height rated reset : Z) : TuiState :=
  let elapsed := as_secs_f64 (sat_sub rated (prev_time st)) in
  if SFltb (f64_lit 1 2) elapsed then
    let delta := f64_of_i64 (sat_sub current_height (prev_height st)) in
    mkTui current_height reset (f64_div delta elapsed) (active_tab st) (mempool_stats st) (mempool_recent st)
  else st.

Definition next_tab st : TuiState :=
  mkTui (prev_height st) (prev_time st) (headers_per_sec st) ((active_tab st + 1) mod TAB_COUNT) (mempool_stats st) (mempool_recent st).

(** [terminal.draw(..)?], after which the time of the last draw is set *)
Definition redraw (s : UiLoop) (seen : Seen) (drawn : Z) : UiStep :=
  match draw (se_area seen) (se_nm seen) (se_counters seen) (se_clocks seen) (log_buffer s) (tui_state s) with
  | None => UiPanic
  | Some f => if se_ok seen then Continue (mkLoop (log_buffer s) drawn (tui_state s) f) else UiFailed s
  end.

(** the first half of an iteration: drain the channel and redraw when there is something new *)
Definition refresh (s : UiLoop) (i : UiInput) : UiStep :=
  let buffer := foldl push_log (log_buffer s) (ui_logs i) in
  let needs_redraw := negb (bool_decide (length (ui_logs i) = 0%nat)) || (sat_sub (ui_checked i) (last_draw s) >=? STATS_REFRESH_INTERVAL) in
  if needs_redraw then
    match refresh_mempool (tui_state s) (ui_pool i) (ui_age i) with
    | None => UiPanic
    | Some st => redraw (mkLoop buffer (last_draw s) (refresh_rate st (ui_height i) (ui_rated i) (ui_reset i)) (screen s)) (ui_seen i) (ui_drawn i)
    end
  else Continue (mkLoop buffer (last_draw s) (tui_state s) (screen s)).

Definition poll_timeout (s : UiLoop) (now : Z) : Z := Z.min (sat_sub STATS_REFRESH_INTERVAL (sat_sub now (last_draw s))) (500 * 1000000).

Definition ui_iteration (s : UiLoop) (i : UiInput) : UiStep :=
  match refresh s i with
  | Continue s =>
    match ui_poll i (poll_timeout s (ui_polled_at i)) with
    | PollError => UiFailed s
    | KeyEvent (CharKey c) => if bool_decide (c = "q"%char) then Quit s else Continue s
    | KeyEvent TabKey => redraw (mkLoop (log_buffer s) (last_draw s) (next_tab (tui_state s)) (screen s)) (ui_seen_again i) (ui_redrawn i)
    | _ => Continue s
    end
  | stop => stop
  end.

Fixpoint ui_run (s : UiLoop) (inputs : list UiInput) : UiStep :=
  match inputs with
  | [] => Continue s
  | i :: inputs => match ui_iteration s i with Continue s => ui_run s inputs | stop => stop end
  end.

(** before the loop: an empty buffer, the first tab, and a first draw *)
Definition ui_start (height now : Z) (seen : Seen) (drawn : Z) : UiStep :=
  redraw (mkLoop [] drawn (mkTui height now (S754_zero false) 0 default_stats []) []) seen drawn.

Definition tui_run (height now drawn : Z) (seen : Seen) (inputs : list UiInput) : UiStep :=
  match ui_start height now seen drawn with Continue s => ui_run s inputs | stop => stop end.
End Screen.
