(* ===== verification/UiCorrect.v ===== *)
(** * UiCorrect: what the interface shows

    The log tab is a window on the last messages, the loop never indexes out of range
    and stays on one of its tabs; the peers are listed once each, by state and then by
    height; the statistics of the pool are those of its entries; and a log line has the
    message and its fields in order. *)
From Stdlib Require Import Strings.Byte Strings.Ascii Strings.String Floats.SpecFloat.
From stdpp Require Import base numbers list strings gmap sorting.
From S2P Require Import Prelude Codec Types Compact Float64 Difficulty Validation Vec ScriptNum Signature Engine ScriptVerify Database Coin UndoStore Ledger Chainstate Pow HashOrder Mempool Headers BlockStore Reorg Network Messages BlockDownload PeerTable Handlers PeerTableCorrect Connections Text Ui.
Local Open Scope string_scope.
Local Open Scope list_scope.
Local Open Scope Z_scope.

(** ** The last messages *)

Definition lastn {A} (k : nat) (l : list A) : list A := drop (length l - k) l.

Lemma push_log_last l e : push_log (lastn MAX_LOG_LINES l) e = lastn MAX_LOG_LINES (l ++ [e]).
Proof.
  unfold push_log, lastn, MAX_LOG_LINES. rewrite !length_app, length_drop. cbn [length].
  destruct (Nat.ltb_spec 100 (length l - (length l - 100) + 1)) as [H|H].
  - replace (length l + 1 - 100)%nat with (length l - 100 + 1)%nat by lia. rewrite <- drop_drop, (drop_app_le l) by lia. done.
  - replace (length l + 1 - 100)%nat with 0%nat by lia. replace (length l - 100)%nat with 0%nat by lia. by rewrite !drop_0.
Qed.

Lemma push_logs_last es : forall l, foldl push_log (lastn MAX_LOG_LINES l) es = lastn MAX_LOG_LINES (l ++ es).
Proof. induction es as [|e es IH]; intros l; cbn [foldl]; [by rewrite app_nil_r|]. by rewrite push_log_last, IH, <- app_assoc. Qed.

Lemma lastn_length {A} k (l : list A) : length (lastn k l) = Nat.min k (length l).
Proof. unfold lastn. rewrite length_drop. lia. Qed.

(** ** Sorting *)

Section Sorted.
Context {A : Type} (R : A -> A -> Prop) `{forall x y, Decision (R x y)}.

Lemma insert_Permutation x l : insert_stable R x l ≡ₚ x :: l.
Proof. induction l as [|y l IH]; cbn [insert_stable]; [done|]. case_decide; [done|]. rewrite IH. apply Permutation_swap. Qed.

Lemma stable_sort_Permutation l : stable_sort R l ≡ₚ l.
Proof. induction l as [|x l IH]; [done|]. cbn [stable_sort foldr]. fold (stable_sort R l). by rewrite insert_Permutation, IH. Qed.

Context (P : A -> Prop) (Htotal : forall x y, R x y \/ R y x) (Htrans : forall x y z, P x -> P y -> P z -> R x y -> R y z -> R x z).

Lemma insert_sorted x l : P x -> Forall P l -> StronglySorted R l -> StronglySorted R (insert_stable R x l).
Proof.
  intros Hx Hp. induction 1 as [|y l Hs IH Hy]; cbn [insert_stable]; [by repeat constructor|]. apply Forall_cons in Hp as [Hpy Hp]. case_decide as Hle.
  - constructor; [by constructor|]. constructor; [done|]. rewrite Forall_forall in *. intros z Hz. apply (Htrans x y z); auto.
  - constructor; [by apply IH|]. rewrite insert_Permutation. constructor; [|done]. by destruct (Htotal x y).
Qed.

Lemma stable_sort_sorted l : Forall P l -> StronglySorted R (stable_sort R l).
Proof. induction 1 as [|x l Hx Hl IH]; [constructor|]. apply insert_sorted; [done| |done]. by rewrite stable_sort_Permutation. Qed.
End Sorted.

Lemma stable_sort_ordered {A} (R : A -> A -> Prop) `{forall x y, Decision (R x y)} `{!Total R, !Transitive R} l : StronglySorted R (stable_sort R l).
Proof.
  assert (forall x y z, True -> True -> True -> R x y -> R y z -> R x z) as Ht by (intros x y z _ _ _ H1 H2; by transitivity y).
  apply (stable_sort_sorted R (fun _ => True) (fun x y => base.total R x y) Ht). by apply Forall_forall.
Qed.

Lemma StronglySorted_filter {A} (R : A -> A -> Prop) (P : A -> Prop) `{forall x, Decision (P x)} l : StronglySorted R l -> StronglySorted R (filter P l).
Proof. induction 1 as [|x l Hs IH Hx]; [constructor|]. rewrite filter_cons. case_decide; [|done]. constructor; [done|]. rewrite Forall_forall in *. intros y [_ Hy]%list_elem_of_filter. by apply Hx. Qed.

Section Stable.
Context {A : Type} (key : A -> Z).
Definition key_le (a b : A) : Prop := key a <= key b.
#[local] Instance key_le_dec a b : Decision (key_le a b) := decide (key a <= key b).
Definition of_key (k : Z) (x : A) : Prop := key x = k.
#[local] Instance of_key_dec k x : Decision (of_key k x) := decide (key x = k).

#[local] Instance key_le_total : Total key_le.
Proof. intros x y. unfold key_le. lia. Qed.
#[local] Instance key_le_trans : Transitive key_le.
Proof. intros x y z. unfold key_le. lia. Qed.

(** elements of a key stay in order *)
Lemma insert_filter k x l : filter (of_key k) (insert_stable key_le x l) = filter (of_key k) (x :: l).
Proof.
  induction l as [|y l IH]; cbn [insert_stable]; [done|]. case_decide as Hle; [done|]. rewrite filter_cons, IH, !(filter_cons _ _ l), !(filter_cons _ _ (y :: l)), !(filter_cons _ _ l).
  unfold of_key, key_le in *. repeat case_decide; try done. lia.
Qed.

Lemma stable_sort_filter k l : filter (of_key k) (stable_sort key_le l) = filter (of_key k) l.
Proof. induction l as [|x l IH]; [done|]. cbn [stable_sort foldr]. fold (stable_sort key_le l). by rewrite insert_filter, !filter_cons, IH. Qed.

(** sorted by key, and within a key by [S] *)
Definition lexi (S : A -> A -> Prop) (a b : A) : Prop := key a < key b \/ key a = key b /\ S a b.

Lemma lexi_sorted S l : StronglySorted key_le l -> (forall k, StronglySorted S (filter (of_key k) l)) -> StronglySorted (lexi S) l.
Proof.
  induction 1 as [|x l Hs IH Hx]; intros Hf; [constructor|]. constructor.
  - apply IH. intros k. specialize (Hf k). rewrite filter_cons in Hf. case_decide; [by inversion Hf|done].
  - specialize (Hf (key x)). rewrite filter_cons_True in Hf by done. inversion Hf as [|? ? _ Hall]; subst. rewrite Forall_forall in Hall, Hx. apply Forall_forall. intros y Hy. specialize (Hx y Hy). unfold key_le in Hx.
    destruct (decide (key x = key y)) as [E|]; [|left; lia]. right. split; [done|]. apply Hall. apply list_elem_of_filter. split; [unfold of_key; lia|done].
Qed.

(** sort by [S] and then by key *)
Lemma sort_twice S `{forall x y, Decision (S x y)} `{!Total S, !Transitive S} l : StronglySorted (lexi S) (stable_sort key_le (stable_sort S l)).
Proof. apply lexi_sorted; [apply stable_sort_ordered; apply _|]. intros k. rewrite stable_sort_filter. by apply StronglySorted_filter, stable_sort_ordered. Qed.
End Stable.

(** ** The peers tab *)

#[global] Instance higher_total : Total higher.
Proof. intros x y. unfold higher. lia. Qed.
#[global] Instance higher_trans : Transitive higher.
Proof. intros x y z. unfold higher. lia. Qed.

(** the peers in the order of the tab: by state, then by height *)
Definition tab_order (nodes : list NodeSnapshot) : list NodeSnapshot := stable_sort rank_le (stable_sort higher nodes).

(** the place of a peer's group in the tab, written out without the code's ranks *)
Definition place (n : NodeSnapshot) : Z :=
  match sn_label n with LConnected => 0 | LHandshaking => 1 | LConnecting => 2 | LDisconnected _ => 3 | LDead => 4 | LBanned => 5 end.
Definition listed_before (a b : NodeSnapshot) : Prop := place a < place b \/ place a = place b /\ sn_height b <= sn_height a.

Lemma tab_order_sorted nodes : StronglySorted listed_before (tab_order nodes).
Proof. apply (sort_twice (fun n => state_rank (sn_label n)) higher). Qed.

Section Peers.
Context {R : Ratatui} `{!RatatuiLaws R} `{HO : HashOrder} `{HP : PeerOrder} `{!PeerOrderLaws HP} {B UT MT IT KT : Type}.
Implicit Types (nm : NodeManager B UT MT IT KT) (st : TuiState).

(** C35: the peers tab has a row for each known peer and no other, connected peers first,
    then handshaking, connecting, disconnected, dead and banned ones, and peers in the
    same state by falling height *)
Theorem peers_tab_order area nm c clk logs st : active_tab st = 2%nat ->
  exists bar content help order, draw area nm c clk logs st = Some [(bar, Paragraph None [tab_bar 2]); (content, TableWidget (mkTable "Peers" ["Endpoint"; "Height"; "State"; "Strikes"; "Type"; "Version"; "Last Seen"; "User Agent"]
      (peer_row (ck_unix clk) <$> order) [Length 22; Length 8; Length 13; Length 10; Length 4; Length 8; Length 10; Percentage 30])); (help, Paragraph None [help_bar])] /\
    order ≡ₚ snapshot_of <$> map_to_list (m_nodes nm) /\ StronglySorted listed_before order.
Proof.
  intros Et. unfold draw. pose proof (split_length (R := R) Vertical [Length 1; Min 4; Length 1] area) as Hl. destruct (split _ _ area) as [|bar [|content [|help [|]]]]; try done. cbn [mbind option_bind lookup list_lookup]. rewrite Et.
  exists bar, content, help, (tab_order (get_snapshot nm).2). split; [done|]. split; [|apply tab_order_sorted]. unfold tab_order. rewrite !stable_sort_Permutation. cbn [get_snapshot snd]. by rewrite peer_order_perm.
Qed.
End Peers.

(** ** The pool *)

(** [partial_cmp] of numbers *)
Lemma rate_le_total a b : rate_le a b \/ rate_le b a.
Proof.
  unfold rate_le, SFltb, SFcompare. destruct a as [[]|[]| |[] m e], b as [[]|[]| |[] m' e']; auto; rewrite (Z.compare_antisym e e'); destruct (e ?= e')%Z; auto;
    change (Pos.compare_cont Eq m m') with (m ?= m')%positive; change (Pos.compare_cont Eq m' m) with (m' ?= m)%positive; rewrite (Pos.compare_antisym m m'); destruct (m ?= m')%positive; auto.
Qed.

Definition is_number (x : f64) : Prop := x <> S754_nan.

Lemma rate_le_trans a b c : is_number a -> is_number b -> is_number c -> rate_le a b -> rate_le b c -> rate_le a c.
Proof.
  unfold is_number, rate_le, SFltb, SFcompare. intros Ha Hb Hc.
  destruct a as [[]|[]| |[] m1 e1], b as [[]|[]| |[] m2 e2], c as [[]|[]| |[] m3 e3]; try done;
    change (Pos.compare_cont Eq m3 m1) with (m3 ?= m1)%positive; change (Pos.compare_cont Eq m2 m1) with (m2 ?= m1)%positive; change (Pos.compare_cont Eq m3 m2) with (m3 ?= m2)%positive;
    destruct (Z.compare_spec e3 e1), (Z.compare_spec e2 e1), (Z.compare_spec e3 e2); try done; try lia;
    destruct (Pos.compare_spec m3 m1), (Pos.compare_spec m2 m1), (Pos.compare_spec m3 m2); try done; lia.
Qed.

Lemma u64_sum_ok l : forall acc, 0 <= acc -> Forall (fun x => 0 <= x) l -> acc + zsum l <= u64_max ->
  foldl (fun acc x => acc ← acc; if inU 64 (acc + x) then Some (acc + x) else None) (Some acc) l = Some (acc + zsum l).
Proof.
  induction l as [|x l IH]; intros acc H0 Hl Hs; cbn [foldl zsum foldr]; [by rewrite Z.add_0_r|]. apply Forall_cons in Hl as [Hx Hl]. cbn [zsum foldr] in Hs. fold (zsum l) in *.
  assert (0 <= zsum l) by (clear -Hl; unfold zsum; induction Hl; cbn; lia). cbn [mbind option_bind]. rewrite (proj2 (inU_spec 64 (acc + x))) by (unfold U, u64_max in *; lia). rewrite IH; [f_equal; lia|lia|done|lia].
Qed.

Section Pool.
Context `{HO : HashOrder} `{!HashOrderLaws HO}.
Implicit Types (mp : Mempool).

Definition pool_entries mp : list MempoolEntry := (map_to_list (txs mp)).*2.

(** the fees fit in a [u64] and the rates are numbers *)
Definition pool_fits mp : Prop := Forall (fun e => 0 <= e_fee e /\ is_number (e_fee_rate e)) (pool_entries mp) /\ zsum (e_fee <$> pool_entries mp) <= u64_max.

Lemma values_perm mp : (map_order (txs mp)).*2 ≡ₚ pool_entries mp.
Proof. unfold pool_entries. by rewrite map_order_perm. Qed.

Lemma zsum_perm l l' : l ≡ₚ l' -> zsum l = zsum l'.
Proof. unfold zsum. induction 1; cbn in *; lia. Qed.

Lemma sorted_ends {A} (R : A -> A -> Prop) l : (forall x, R x x) -> StronglySorted R l -> l <> [] ->
  exists a b, head l = Some a /\ last l = Some b /\ a ∈ l /\ b ∈ l /\ forall x, x ∈ l -> R a x /\ R x b.
Proof.
  intros Hrefl Hs Hne. destruct l as [|a l]; [done|]. destruct (last (a :: l)) as [b|] eqn:El; [|by apply last_None in El]. exists a, b. apply last_Some in El as [l' El]. split; [done|]. split; [done|].
  split; [by left|]. split; [rewrite El; apply elem_of_app; right; by left|]. intros x Hx. split.
  - inversion Hs as [|? ? _ Ha]; subst. apply elem_of_cons in Hx as [->|Hx]; [done|]. rewrite Forall_forall in Ha. by apply Ha.
  - rewrite El in Hs, Hx. apply elem_of_app in Hx as [Hx|Hx%list_elem_of_singleton]; [|by subst]. apply (StronglySorted_app_1_elem_of R l' [b] x b); [done|done|by left].
Qed.

(** the statistics of a pool are those of its entries: their number, the sum of their
    fees, and the least and the greatest rate that occurs *)
Theorem get_stats_correct mp : pool_fits mp ->
  exists s, get_stats mp = Some s /\ ms_count s = Z.of_nat (size (txs mp)) /\ ms_total_fees s = zsum (e_fee <$> pool_entries mp) /\
    (txs mp = ∅ -> s = default_stats) /\
    (txs mp <> ∅ -> exists lo mid hi, ms_min s = Some lo /\ ms_median s = Some mid /\ ms_max s = Some hi /\ ms_total_size s = total_size mp /\
       lo ∈ e_fee_rate <$> pool_entries mp /\ hi ∈ e_fee_rate <$> pool_entries mp /\ forall e, e ∈ pool_entries mp -> rate_le lo (e_fee_rate e) /\ rate_le (e_fee_rate e) hi).
Proof.
  intros [Hf Hs]. unfold get_stats. case_bool_decide as He.
  { exists default_stats. split; [done|]. unfold pool_entries. by rewrite He, map_to_list_empty, map_size_empty. }
  pose proof (values_perm mp) as Hp. set (values := (map_order (txs mp)).*2) in *.
  assert (Forall (fun e => 0 <= e_fee e /\ is_number (e_fee_rate e)) values) as Hv by by rewrite Hp. assert (zsum (e_fee <$> values) = zsum (e_fee <$> pool_entries mp)) as Ez by by apply zsum_perm, fmap_Permutation.
  unfold u64_sum. rewrite u64_sum_ok; [|done|apply Forall_fmap; eapply Forall_impl; [exact Hv|]; intros e [? _]; done|lia]. cbn [mbind option_bind]. rewrite Z.add_0_l.
  set (rates := stable_sort rate_le (e_fee_rate <$> values)). assert (rates ≡ₚ e_fee_rate <$> pool_entries mp) as Hr by (unfold rates; by rewrite stable_sort_Permutation, Hp).
  assert (length rates = size (txs mp)) as Hl by (rewrite Hr, length_fmap; unfold pool_entries; by rewrite length_fmap, length_map_to_list).
  assert (size (txs mp) <> 0%nat) as Hn by (by intros E%map_size_empty_inv). assert (StronglySorted rate_le rates) as Hso.
  { apply (stable_sort_sorted rate_le is_number rate_le_total rate_le_trans). apply Forall_fmap. eapply Forall_impl; [exact Hv|]. by intros e [_ ?]. }
  assert (exists mid, (if (length rates mod 2 =? 0)%nat then a ← rates !! (length rates / 2 - 1)%nat; b ← rates !! (length rates / 2)%nat; Some (Some (f64_midpoint a b)) else Some (rates !! (length rates / 2)%nat)) = Some (Some mid)) as [mid ->].
  { destruct (lookup_lt_is_Some_2 rates (length rates / 2)) as [b Eb]; [apply Nat.div_lt; lia|]. destruct (Nat.eqb_spec (length rates mod 2) 0); [|rewrite Eb; by eexists].
    destruct (lookup_lt_is_Some_2 rates (length rates / 2 - 1)) as [a Ea]; [pose proof (Nat.div_lt (length rates) 2); lia|]. rewrite Ea, Eb. by eexists. }
  cbn [mbind option_bind]. destruct (sorted_ends rate_le rates) as (lo & hi & E1 & E2 & Hlo & Hhi & Hb); [intros x; by destruct (rate_le_total x x)|done|intros E; rewrite E in Hl; cbn in Hl; lia|].
  eexists. split; [done|]. cbn [ms_count ms_total_fees ms_min ms_median ms_max ms_total_size]. split; [unfold zlen; rewrite <- Hl; unfold rates; by rewrite stable_sort_Permutation, length_fmap|]. split; [done|]. split; [done|]. intros _.
  exists lo, mid, hi. do 4 (split; [done|]). rewrite <- Hr. split; [done|]. split; [done|]. intros e Hin. apply Hb. rewrite Hr. by apply list_elem_of_fmap_2.
Qed.

#[global] Instance younger_total : Total younger.
Proof. intros x y. unfold younger. lia. Qed.
#[global] Instance younger_trans : Transitive younger.
Proof. intros x y z. unfold younger. lia. Qed.

(** the recent transactions are the newest ones, the newest first *)
Theorem recent_newest age mp limit :
  let shown := recent_entries age mp limit in
  length shown = Nat.min limit (size (txs mp)) /\ StronglySorted younger shown /\ (forall x, x ∈ shown -> exists id e, txs mp !! id = Some e /\ x = recent_of age (id, e)) /\
  forall id e, txs mp !! id = Some e -> recent_of age (id, e) ∈ shown \/ forall x, x ∈ shown -> rt_age x <= age id.
Proof.
  cbv zeta. unfold recent_entries. set (all := stable_sort younger (recent_of age <$> map_order (txs mp))). assert (all ≡ₚ recent_of age <$> map_to_list (txs mp)) as Hp by (unfold all; by rewrite stable_sort_Permutation, map_order_perm).
  pose proof (stable_sort_ordered younger (recent_of age <$> map_order (txs mp))) as Hs. fold all in Hs. pose proof Hs as Hs'. rewrite <- (take_drop limit all) in Hs'. split; [rewrite length_take, Hp, length_fmap, length_map_to_list; done|].
  split; [by eapply StronglySorted_app_1_l|]. split.
  - intros x Hx. apply (subseteq_take limit) in Hx. rewrite Hp in Hx. apply list_elem_of_fmap in Hx as ([id e] & -> & Hin%elem_of_map_to_list). by exists id, e.
  - intros id e Hin. assert (recent_of age (id, e) ∈ all) as Ha by (rewrite Hp; by apply list_elem_of_fmap_2, elem_of_map_to_list). rewrite <- (take_drop limit all) in Ha. apply elem_of_app in Ha as [Ha|Ha]; [by left|right].
    intros x Hx. exact (StronglySorted_app_1_elem_of younger _ _ x (recent_of age (id, e)) Hs' Hx Ha).
Qed.
End Pool.

(** ** The loop *)

Section Loop.
Context {R : Ratatui} `{!RatatuiLaws R} `{HO : HashOrder} `{!HashOrderLaws HO} `{HP : PeerOrder} {B UT MT IT KT : Type}.
Notation input := (UiInput (B := B) (UT := UT) (MT := MT) (IT := IT) (KT := KT)).
Implicit Types (s : UiLoop) (i : input) (st : TuiState).

(** no area is missing *)
Lemma draw_total area (nm : NodeManager B UT MT IT KT) c clk logs st : exists f, draw area nm c clk logs st = Some f.
Proof.
  unfold draw. pose proof (split_length (R := R) Vertical [Length 1; Min 4; Length 1] area) as Hl. destruct (split _ _ area) as [|bar [|content [|help [|]]]]; try done. cbn [mbind option_bind lookup list_lookup].
  destruct (active_tab st) as [|[|[|[|n]]]]; cbn [mbind option_bind]; try by eexists.
  - unfold render_overview. pose proof (split_length (R := R) Vertical [Length 9; Length 7; Min 0] content) as H3. destruct (split _ _ content) as [|t [|b [|z [|]]]]; try done. cbn [mbind option_bind lookup list_lookup].
    pose proof (split_length (R := R) Horizontal [Percentage 50; Percentage 50] t) as H1. pose proof (split_length (R := R) Horizontal [Percentage 50; Percentage 50] b) as H2.
    destruct (split _ _ t) as [|t0 [|t1 [|]]], (split _ _ b) as [|b0 [|b1 [|]]]; try done. by eexists.
  - unfold render_mempool_tab. pose proof (split_length (R := R) Vertical [Length 10; Min 4] content) as H3. destruct (split _ _ content) as [|a0 [|a1 [|]]]; try done. by eexists.
Qed.

(** the line of a message *)
Definition log_line (e : TuiLogEntry) : Line :=
  let '(name, color) := log_name (lg_level e) in [bold ("[" +:+ name +:+ "]") color; raw " "; plain (lg_text e) White].

Lemma create_log_text_eq buffer n : create_log_text buffer n = log_line <$> lastn n buffer.
Proof. done. Qed.

(** the frame of the log tab: the last of the messages received, as many as the area between the
    borders has lines and at most 100 *)
Definition log_tab (received : list TuiLogEntry) (f : list (Rect * Widget)) : Prop := exists bar content help,
  f = [(bar, Paragraph None [tab_bar 3]); (content, Border "Logs");
       (inner content, Paragraph None (log_line <$> lastn (Nat.min (Z.to_nat (rect_height (inner content))) 100) received)); (help, Paragraph None [help_bar])].

(** the buffer holds the last messages of those received, on one of the tabs; [drawn]: and the
    log tab, when it is selected, shows them *)
Record shows (drawn : bool) (received : list TuiLogEntry) s : Prop := {
  sh_buffer : log_buffer s = lastn MAX_LOG_LINES received;
  sh_tab : (active_tab (tui_state s) < TAB_COUNT)%nat;
  sh_screen : drawn = true -> active_tab (tui_state s) = 3%nat -> log_tab received (screen s);
}.

(** the fees of a pool, none of them negative, do not add up within a [u64] *)
Definition fees_overflow (mp : Mempool) : Prop := Forall (fun e => 0 <= e_fee e) (pool_entries mp) -> u64_max < zsum (e_fee <$> pool_entries mp).
Definition reads_overflow i : Prop := exists mp, ui_pool i = Some mp /\ fees_overflow mp.

(** the outcome of a step: what was received is shown; [bad]: what a panic needs *)
Definition step_shows (bad : Prop) (received : list TuiLogEntry) (x : UiStep) : Prop :=
  match x with
  | Continue s | Quit s => shows true received s
  | UiFailed s => shows false received s
  | UiPanic => bad
  end.

Lemma lastn_lastn {A} n k (l : list A) : lastn n (lastn k l) = lastn (Nat.min n k) l.
Proof. unfold lastn. rewrite length_drop, drop_drop. f_equal. lia. Qed.

Lemma draw_logs area (nm : NodeManager B UT MT IT KT) c clk logs st f : active_tab st = 3%nat -> draw area nm c clk logs st = Some f ->
  exists bar content help, f = [(bar, Paragraph None [tab_bar 3]); (content, Border "Logs"); (inner content, Paragraph None (log_line <$> lastn (Z.to_nat (rect_height (inner content))) logs)); (help, Paragraph None [help_bar])].
Proof.
  intros Et. unfold draw. rewrite Et. destruct (split _ _ area) as [|bar [|content [|help l]]]; cbn [mbind option_bind lookup list_lookup]; try done. intros [= <-]. exists bar, content, help. by rewrite <- create_log_text_eq.
Qed.

Lemma redraw_shows b bad received s (seen : Seen (B := B) (UT := UT) (MT := MT) (IT := IT) (KT := KT)) drawn : shows b received s -> step_shows bad received (redraw s seen drawn).
Proof.
  intros [Hb Ht _]. unfold redraw. destruct (draw_total (se_area seen) (se_nm seen) (se_counters seen) (se_clocks seen) (log_buffer s) (tui_state s)) as [f E]. rewrite E. destruct (se_ok seen); [|by split].
  split; cbn; [done|done|]. intros _ E3. destruct (draw_logs _ _ _ _ _ _ _ E3 E) as (bar & content & help & ->). exists bar, content, help. rewrite Hb, lastn_lastn. done.
Qed.

(** the statistics are refused only when the fees overflow *)
Lemma get_stats_None mp : get_stats mp = None -> fees_overflow mp.
Proof.
  intros H Hf. unfold get_stats in H. case_bool_decide as He; [done|]. pose proof (values_perm mp) as Hp. set (values := (map_order (txs mp)).*2) in *.
  assert (zsum (e_fee <$> values) = zsum (e_fee <$> pool_entries mp)) as Ez by by apply zsum_perm, fmap_Permutation. rewrite <- Ez. destruct (Z.le_gt_cases (zsum (e_fee <$> values)) u64_max) as [Hle|]; [|done]. exfalso.
  unfold u64_sum in H. rewrite u64_sum_ok in H; [|done|apply Forall_fmap; by rewrite Hp|lia]. cbn [mbind option_bind] in H.
  set (rates := stable_sort rate_le (e_fee_rate <$> values)) in *. assert (length rates <> 0%nat) as Hn.
  { unfold rates. rewrite stable_sort_Permutation, length_fmap, Hp. unfold pool_entries. rewrite length_fmap, length_map_to_list. by intros E%map_size_empty_inv. }
  destruct (lookup_lt_is_Some_2 rates (length rates / 2)) as [y Ey]; [apply Nat.div_lt; lia|]. destruct (lookup_lt_is_Some_2 rates (length rates / 2 - 1)) as [z Ez']; [pose proof (Nat.div_lt (length rates) 2); lia|].
  rewrite Ey, Ez' in H. by destruct (_ =? 0)%nat.
Qed.

Lemma iteration_shows received s i : shows true received s -> step_shows (reads_overflow i) (received ++ ui_logs i) (ui_iteration s i).
Proof.
  intros Hs. unfold ui_iteration. assert (step_shows (reads_overflow i) (received ++ ui_logs i) (refresh s i)) as Hr.
  { unfold refresh. destruct Hs as [Hb Ht Hsc]. rewrite Hb, push_logs_last. destruct (_ || _) eqn:En.
    - unfold refresh_mempool. destruct (ui_pool i) as [mp|] eqn:Ep; [destruct (get_stats mp) as [x|] eqn:Ex; cbn [mbind option_bind]; [|exists mp; split; [done|by apply get_stats_None]]|];
        (eapply (redraw_shows false); split; [done|cbn; unfold refresh_rate; by destruct (SFltb _ _)|done]).
    - apply orb_false_iff in En as [En _]. apply negb_false_iff, bool_decide_eq_true, nil_length_inv in En. rewrite En, app_nil_r in *. by split. }
  destruct (refresh s i) as [s1|s1|s1|]; try done. destruct (ui_poll i _) as [| |[c| |]|]; try done; [by case_bool_decide| |by destruct Hr].
  eapply (redraw_shows false). split; [apply Hr| |done]. cbn [tui_state next_tab active_tab]. by apply Nat.mod_upper_bound.
Qed.

Lemma run_shows inputs : forall received s, shows true received s ->
  exists n, step_shows (Exists reads_overflow inputs) (received ++ concat (ui_logs <$> take n inputs)) (ui_run s inputs) /\ (forall s', ui_run s inputs = Continue s' -> n = length inputs).
Proof.
  induction inputs as [|i inputs IH]; intros received s Hs; cbn [ui_run]; [exists 0%nat; by rewrite app_nil_r|]. pose proof (iteration_shows received s i Hs) as H.
  destruct (ui_iteration s i) as [s1|s1|s1|]; [|exists 1%nat; cbn; rewrite app_nil_r; split; [exact H|done]|exists 1%nat; cbn; rewrite app_nil_r; split; [exact H|done]|exists 1%nat; split; [by left|done]].
  destruct (IH _ s1 H) as (n & Hn & Hl). exists (S n). cbn [take fmap list_fmap concat]. rewrite app_assoc. split; [|intros s' E; cbn; f_equal; by eapply Hl].
  destruct (ui_run s1 inputs); try done. by right.
Qed.

(** C34: what the log tab shows.  Whatever arrives, is pressed and fails: as long as the loop
    runs, and when it is quit, the buffer has exactly the last 100 of the messages received so
    far, in order, the selected tab is one of the four, and if it is the log tab the frame on
    the terminal shows the lines of the last of these messages, as many as the area between the
    borders has lines (long ones wrapped by the terminal library), each with its
    level and text.  When the terminal fails, the buffer is still so.  The loop panics only if
    the fees of a pool it read add up to more than a [u64]. *)
Theorem log_tab_window height now drawn (seen : Seen (B := B) (UT := UT) (MT := MT) (IT := IT) (KT := KT)) (inputs : list input) :
  exists n, let received := concat (ui_logs <$> take n inputs) in
    match tui_run height now drawn seen inputs with
    | Continue s | Quit s => log_buffer s = lastn 100 received /\ (active_tab (tui_state s) < 4)%nat /\ (active_tab (tui_state s) = 3%nat -> log_tab received (screen s))
    | UiFailed s => log_buffer s = lastn 100 received /\ (active_tab (tui_state s) < 4)%nat
    | UiPanic => Exists reads_overflow inputs
    end /\ forall s, tui_run height now drawn seen inputs = Continue s -> n = length inputs.
Proof.
  unfold tui_run. assert (step_shows False [] (ui_start height now seen drawn)) as H by (apply (redraw_shows false); split; [done|cbn; unfold TAB_COUNT; lia|done]).
  destruct (ui_start height now seen drawn) as [s|s|s|]; [|exists 0%nat; split; [|done]; destruct H as [H1 H2 H3]; by split_and!; [..|apply H3]|exists 0%nat; split; [|done]; by destruct H|done].
  destruct (run_shows inputs [] s H) as (n & Hn & Hl). exists n. cbv zeta. split; [|exact Hl]. cbn [app] in Hn. destruct (ui_run s inputs) as [s'|s'|s'|]; [destruct Hn as [H1 H2 H3]; split_and!; [done|done|by apply H3]..|by destruct Hn|done].
Qed.
End Loop.

(** ** Log lines *)

Definition value_text (v : FieldValue) : string :=
  match v with
  | VDebug t | VStr t => t
  | VU64 n | VU128 n => show_u n
  | VI64 n => show_i n
  | VBool b => show_bool b
  end.
Definition field_text (f : string * FieldValue) : string := f.1 +:+ "=" +:+ value_text f.2.

(** a name that starts with a visible ASCII character *)
Definition visible (c : ascii) : bool := (33 <=? nat_of_ascii c)%nat && (nat_of_ascii c <=? 126)%nat.
Definition named (f : string * FieldValue) : Prop := f.1 <> "message" /\ match f.1 with String c _ => visible c = true | EmptyString => False end.

Lemma visible_stays c s : visible c = true -> strip_white (String c s) = None.
Proof. destruct c as [[] [] [] [] [] [] [] []]; intros H; try discriminate H; reflexivity. Qed.

Lemma trim_field s c r : s = String c r -> visible c = true -> trim_str_start (String " " s) = s.
Proof. intros -> Hc. unfold trim_str_start. cbn [String.length trim_go]. change (strip_white (String " " (String c r))) with (Some (String c r)). cbn [trim_go]. by rewrite visible_stays. Qed.

Lemma str_app_assoc (a b c : string) : (a +:+ b) +:+ c = a +:+ (b +:+ c).
Proof. induction a as [|x a IH]; [done|]. exact (f_equal (String x) IH). Qed.
Lemma str_app_nil (a : string) : a +:+ EmptyString = a.
Proof. induction a as [|x a IH]; [done|]. exact (f_equal (String x) IH). Qed.

Lemma concat_str_app a b : concat_str a +:+ concat_str b = concat_str (a ++ b)%list.
Proof. induction a as [|x a IH]; [done|]. change (concat_str ((x :: a) ++ b)%list) with (x +:+ concat_str (a ++ b)%list). change (concat_str (x :: a)) with (x +:+ concat_str a). by rewrite str_app_assoc, IH. Qed.

(** the fields in order, each after a space *)
Lemma record_fields fs : forall v, Forall named fs -> foldl record_value v fs = mkVisitor (fv_message v) (fv_fields v +:+ concat_str ((fun f => " " +:+ field_text f) <$> fs)).
Proof.
  induction fs as [|[name value] fs IH]; intros v Hn; cbn [foldl fmap list_fmap concat_str foldr]; [rewrite str_app_nil; by destruct v|]. apply Forall_cons in Hn as [[Hm _] Hn]. cbn [fst] in Hm.
  assert (record_value v (name, value) = append_field v name (value_text value)) as -> by (destruct value; cbn [record_value value_text]; try done; by rewrite (proj2 (String.eqb_neq name "message"))).
  rewrite IH by done. unfold append_field, field_text. cbn [fv_message fv_fields fst snd]. f_equal. rewrite !str_app_assoc. done.
Qed.

Lemma concat_fields f fs : concat_str ((fun f => " " +:+ field_text f) <$> f :: fs) = " " +:+ String.concat " " (field_text <$> f :: fs).
Proof.
  revert f. induction fs as [|g fs IH]; intros f; [cbn [fmap list_fmap concat_str foldr String.concat]; by rewrite str_app_nil|]. rewrite fmap_cons. cbn [concat_str foldr]. fold (concat_str ((fun f => " " +:+ field_text f) <$> g :: fs)).
  rewrite IH, (fmap_cons field_text f). cbn [String.concat fmap list_fmap]. by rewrite str_app_assoc.
Qed.

(** a log line is the message, two spaces and the fields as [name=value] in the order they
    were recorded, and it is queued unless the channel is full *)
Theorem event_line queue level pre post m : Forall named (pre ++ post) ->
  on_event queue level (pre ++ ("message", VStr m) :: post) =
    if (length queue <? 100)%nat then queue ++ [mkLog level (match (pre ++ post)%list with [] => m | fs => m +:+ "  " +:+ String.concat " " (field_text <$> fs) end)] else queue.
Proof.
  intros Hn. pose proof Hn as [H1 H2]%Forall_app. unfold on_event, try_send, LOG_CHANNEL. destruct (length queue <? 100)%nat; [|done]. do 3 f_equal.
  rewrite foldl_app, (record_fields pre) by done. cbn [foldl record_value]. change (String.eqb "message" "message") with true. cbv iota. rewrite (record_fields post) by done. cbn [fv_message fv_fields visitor_new].
  assert (forall x, EmptyString +:+ x = x) as He by done. rewrite He, concat_str_app, <- fmap_app. unfold finish. cbn [fv_message fv_fields]. destruct (pre ++ post) as [|f fs]; [done|]. rewrite concat_fields. cbn [fmap list_fmap].
  apply Forall_cons in Hn as [[_ Hv] _]. destruct f as [[|c name] value]; [done|]. cbn [fst] in Hv.
  assert (exists r, String.concat " " (field_text (String c name, value) :: (field_text <$> fs)) = String c r) as [r Er] by (destruct fs; cbn; by eexists). rewrite Er. change (" " +:+ String c r) with (String " " (String c r)). rewrite (trim_field _ c r eq_refl Hv). done.
Qed.

(** ** Examples *)

#[local] Instance one_area : Ratatui := {| Rect := unit; split _ cs _ := (fun _ => tt) <$> cs; inner a := a; rect_height _ := 20 |}.
#[local] Instance one_area_laws : RatatuiLaws one_area.
Proof. intros d cs area. apply length_fmap. Qed.
#[local] Existing Instance plain_order.
#[local] Existing Instance plain_peers.

Lemma event_line_witness : on_event [] INFO ([("peer", VStr "1.2.3.4")] ++ ("message", VStr "hi") :: [("n", VU64 7)]) = [mkLog INFO "hi  peer=1.2.3.4 n=7"].
Proof.
  rewrite (event_line [] INFO [("peer", VStr "1.2.3.4")] [("n", VU64 7)] "hi"); [reflexivity|].
  repeat constructor; cbn [fst]; discriminate.
Defined.

Definition sample_tui (tab : nat) : TuiState := mkTui 5 0 (S754_zero false) tab default_stats [].
Definition sample_seen : Seen (B := Empty_set) (UT := unit) (MT := unit) (IT := unit) (KT := unit) := mkSeen tt (sample_manager Dead ∅) (mkCounters 4 None 0) (mkClocks 9 1700000000) true.
(** five messages, then the Tab key *)
Definition sample_input : UiInput (B := Empty_set) (UT := unit) (MT := unit) (IT := unit) (KT := unit) :=
  mkUiInput (replicate 5 (mkLog INFO "x")) 7 (Some (with_max_size 1000)) (fun _ => 0) 6 3000000000 3000000001 3000000002 3000000003 (fun _ => KeyEvent TabKey) 3000000004 sample_seen sample_seen.

(** a banned peer and a connected one *)
Definition other_peer : IpAddr := V4 [x01; x02; x03; x04].
Definition two_peers : gmap IpAddr PeerNode :=
  <[sample_peer := node_new sample_clock 9933 Incoming (Banned Misbehavior 0 1800000000)]> {[other_peer := node_new sample_clock 9933 Outgoing (Connected 0)]}.
Definition two_manager : NodeManager Empty_set unit unit unit unit := mkManager two_peers 42 ∅ 9933 false 1 ∅ bare_headers false 0 0 None (Some []) None None None None.

Lemma two_snapshots : snapshot_of <$> map_to_list (m_nodes two_manager) ≡ₚ
  [snapshot_of (sample_peer, node_new sample_clock 9933 Incoming (Banned Misbehavior 0 1800000000)); snapshot_of (other_peer, node_new sample_clock 9933 Outgoing (Connected 0))].
Proof. unfold two_manager, two_peers. cbn [m_nodes]. rewrite map_to_list_insert by by apply lookup_singleton_ne. rewrite map_to_list_singleton. done. Qed.

Lemma two_listed a b l : l ≡ₚ [a; b] -> place b < place a -> StronglySorted listed_before l -> l = [b; a].
Proof.
  intros Hp Hlt Hs. apply Permutation_sym, Permutation_length_2_inv in Hp as [->| ->]; [|done]. inversion Hs as [|? ? _ Hf]; subst. apply Forall_cons in Hf as [[Hf|[Hf _]] _]; lia.
Qed.

(** the connected peer is listed first *)
Lemma peers_tab_order_witness : exists bar content help title columns widths,
  draw (R := one_area) tt two_manager (mkCounters 4 None 0) (mkClocks 9 1700000000) [] (sample_tui 2) = Some [(bar, Paragraph None [tab_bar 2]); (content, TableWidget (mkTable title columns
    (peer_row 1700000000 <$> [snapshot_of (other_peer, node_new sample_clock 9933 Outgoing (Connected 0)); snapshot_of (sample_peer, node_new sample_clock 9933 Incoming (Banned Misbehavior 0 1800000000))]) widths)); (help, Paragraph None [help_bar])].
Proof.
  destruct (peers_tab_order (R := one_area) tt two_manager (mkCounters 4 None 0) (mkClocks 9 1700000000) [] (sample_tui 2) eq_refl) as (bar & content & help & order & E & Hp & Hs).
  rewrite two_snapshots in Hp. rewrite (two_listed _ _ order Hp eq_refl Hs) in E. do 6 eexists. exact E.
Defined.

Definition sample_pool : Mempool := mkPool {[HASH_ZERO := mkEntry (mkTx 1 [] [] 0) 500 250 (f64_of_i64 2)]} ∅ 250 1000 [].

Lemma sample_pool_fits : pool_fits sample_pool.
Proof. unfold pool_fits, pool_entries, sample_pool. cbn [txs]. rewrite map_to_list_singleton. split; [repeat constructor; discriminate|vm_compute; discriminate]. Qed.

Lemma sample_pool_size : size (txs sample_pool) = 1%nat.
Proof. unfold sample_pool. cbn [txs]. apply map_size_singleton. Qed.

Lemma sample_pool_nonempty : txs sample_pool <> ∅.
Proof. unfold sample_pool. cbn [txs]. apply map_non_empty_singleton. Qed.

Lemma get_stats_correct_witness : exists s, get_stats sample_pool = Some s /\ ms_count s = 1 /\ ms_total_size s = 250.
Proof.
  destruct (get_stats_correct sample_pool sample_pool_fits) as (s & E & Hc & _ & _ & H). exists s. split; [exact E|]. split; [rewrite Hc, sample_pool_size; reflexivity|].
  destruct (H sample_pool_nonempty) as (lo & mid & hi & _ & _ & _ & Hs & _). exact Hs.
Defined.

(** the third Tab key selects the log tab: twenty lines fit, of fifteen messages *)
Lemma sample_runs : match tui_run (R := one_area) 5 0 0 sample_seen [sample_input; sample_input; sample_input] with Continue s => (length (log_buffer s) =? 15)%nat && (active_tab (tui_state s) =? 3)%nat | _ => false end = true.
Proof. vm_compute. reflexivity. Qed.

Lemma log_tab_window_witness : exists s, tui_run (R := one_area) 5 0 0 sample_seen [sample_input; sample_input; sample_input] = Continue s /\ log_buffer s = replicate 15 (mkLog INFO "x") /\
  screen s = [(tt, Paragraph None [tab_bar 3]); (tt, Border "Logs"); (tt, Paragraph None (replicate 15 [bold "[ INFO]" Green; raw " "; plain "x" White])); (tt, Paragraph None [help_bar])].
Proof.
  destruct (log_tab_window (R := one_area) 5 0 0 sample_seen [sample_input; sample_input; sample_input]) as (n & H & Hn). pose proof sample_runs as Hr.
  destruct (tui_run (R := one_area) 5 0 0 sample_seen [sample_input; sample_input; sample_input]) as [s|s|s|]; [|discriminate Hr|discriminate Hr|discriminate Hr]. exists s. split; [reflexivity|].
  rewrite (Hn s eq_refl) in H. destruct H as (H1 & _ & H2). split; [exact H1|]. apply andb_true_iff in Hr as [_ Hr]. apply Nat.eqb_eq in Hr. destruct (H2 Hr) as ([] & [] & [] & E). rewrite E. reflexivity.
Defined.
